(** * Event scheduler: the genetic-algorithm engine of [src/index.js]

    A shallow embedding of the scheduling engine: the domain classes
    ([Event], [Room], [Data]), the chromosome class [ScheduleEvents] with
    its cached fitness, [PopulationEvents], the operators of
    [GeneticAlgorithmEvents] and the generational loop of the request
    handler.

    Conventions of the embedding.
    - JavaScript objects that are mutated or compared by identity live in
      a store; a reference is the index of the object in its store, [new]
      appends to the store.
    - A JavaScript array is a list of possibly-undefined values; reading
      out of range gives [undefined] ([None]), writing past the end
      extends the array.
    - A luxon [DateTime] produced by [fromFormat(_, 'hh:mm a')] is the
      number of minutes since midnight; [diff(_, 'hours').hours] is the
      difference divided by 60.
    - JavaScript numbers that hold fractions (the fitness, the values of
      [Math.random()]) are exact rationals.
    - An exception aborts the computation; the state it leaves behind is
      not observed by the handler and is dropped. *)

From stdpp Require Import base list strings pretty sorting.
From Stdlib Require Import ZArith QArith Qround Lia Ascii.

Open Scope Z_scope.
Open Scope nat_scope.

(** ** Constants for event scheduling (index.js, lines 8-20) *)

Definition NUMB_OF_ELITE_EVENTS : nat := 2.
Definition MUTATION_RATE : Q := 2 # 10.
Definition TOURNAMENT_SELECTION_SIZE_EVENTS : nat := 5.
Definition TIME_SLOT_INTERVAL : Z := 60.
Definition POPULATION_SIZE : nat := 20.
Definition MAX_GENERATIONS : nat := 200.

(** ** JavaScript arrays *)

Abbreviation array A := (list (option A)).

(** [arr[i]] for a non-negative integer index. *)
Definition js_get {A} (arr : array A) (i : nat) : option A :=
  match arr !! i with
  | Some v => v
  | None => None
  end.

(** [arr[i]] for an arbitrary integer index. *)
Definition js_getZ {A} (arr : array A) (i : Z) : option A :=
  if (i <? 0)%Z then None else js_get arr (Z.to_nat i).

(** [arr[i] = v]: in range the slot is replaced, otherwise the array grows
    up to index [i], the new slots in between being holes. *)
Definition js_set {A} (arr : array A) (i : nat) (v : option A) : array A :=
  if decide (i < length arr) then <[i:=v]> arr
  else arr ++ replicate (i - length arr) None ++ [v].

(** Truthiness of a possibly-undefined boolean. *)
Definition truthy (v : option bool) : bool :=
  match v with
  | Some b => b
  | None => false
  end.

(** ** The object model *)

Abbreviation rref := nat (only parsing).
Abbreviation eref := nat (only parsing).
Abbreviation sref := nat (only parsing).

(** A time of day, in minutes. *)
Abbreviation DateTime := Z (only parsing).

(** class Event: the room and the time slot are [null] until assigned. *)
Record Event := mkEvent {
  ev_id : nat;
  ev_name : string;
  ev_room : option rref;
  ev_time_slot : option DateTime
}.

(** class Room. *)
Record Room := mkRoom {
  room_number : string;
  room_availabilitySchedule : array bool
}.

(** class Data: built once by its constructor and only read afterwards.
    Its own events are never assigned a room, only their names and their
    count are read. *)
Record Data := mkData {
  data_rooms : list rref;
  data_events : list Event;
  data_EVENT_NAMES : list string
}.

(** class ScheduleEvents: one chromosome. *)
Record ScheduleEvents := mkSchedule {
  sch_data : Data;
  sch_events : array eref;
  sch_numOfConflicts : nat;
  sch_fitness : Q;
  sch_eventNum : nat;
  sch_isFitnessChanged : bool
}.

(** class PopulationEvents. The population objects themselves are never
    aliased: the engine builds a new one and the handler drops the old. *)
Record PopulationEvents := mkPopulation {
  pop_size : nat;
  pop_data : Data;
  pop_schedules : array sref
}.

(** The program state: the three object stores, the two module-level
    variables and the random source with the number of draws made. *)
Record State := mkState {
  st_rooms : list Room;
  st_events : list Event;
  st_schedules : list ScheduleEvents;
  EVENT_START_TIME : DateTime;
  EVENT_END_TIME : DateTime;
  st_random : nat -> Q;
  st_drawn : nat
}.

Definition with_rooms (f : list Room -> list Room) (st : State) : State :=
  mkState (f (st_rooms st)) (st_events st) (st_schedules st)
          (EVENT_START_TIME st) (EVENT_END_TIME st) (st_random st) (st_drawn st).

Definition with_events (f : list Event -> list Event) (st : State) : State :=
  mkState (st_rooms st) (f (st_events st)) (st_schedules st)
          (EVENT_START_TIME st) (EVENT_END_TIME st) (st_random st) (st_drawn st).

Definition with_schedules (f : list ScheduleEvents -> list ScheduleEvents)
    (st : State) : State :=
  mkState (st_rooms st) (st_events st) (f (st_schedules st))
          (EVENT_START_TIME st) (EVENT_END_TIME st) (st_random st) (st_drawn st).

Definition with_times (t0 t1 : DateTime) (st : State) : State :=
  mkState (st_rooms st) (st_events st) (st_schedules st)
          t0 t1 (st_random st) (st_drawn st).

Definition with_drawn (n : nat) (st : State) : State :=
  mkState (st_rooms st) (st_events st) (st_schedules st)
          (EVENT_START_TIME st) (EVENT_END_TIME st) (st_random st) n.

(** ** Computations: state passing with exceptions *)

Inductive Exn :=
  | TypeError
  | RangeError
  | NoAvailableRooms.

Inductive Result (A : Type) :=
  | Ok (a : A) (st : State)
  | Throw (e : Exn).
Arguments Ok {A} a st.
Arguments Throw {A} e.

Definition M (A : Type) : Type := State -> Result A.

Definition ret {A} (a : A) : M A := fun st => Ok a st.

Definition bind {A B} (m : M A) (k : A -> M B) : M B :=
  fun st =>
    match m st with
    | Ok a st' => k a st'
    | Throw e => Throw e
    end.

Definition throw {A} (e : Exn) : M A := fun _ => Throw e.

Notation "'let*' x ':=' m 'in' k" := (bind m (fun x => k))
  (at level 10, x name, m at level 100, k at level 200).
Notation "m ;; k" := (bind m (fun _ => k))
  (at level 100, k at level 200, right associativity).

(** Dereferencing a value that may be [undefined] or [null]. *)
Definition defined {A} (v : option A) : M A :=
  match v with
  | Some a => ret a
  | None => throw TypeError
  end.

(** [for (let i = 0; i < n; i++) body(i)], as a fold over the indices. *)
Fixpoint for_each {A} (l : list A) (body : A -> M unit) : M unit :=
  match l with
  | [] => ret tt
  | x :: l' => body x ;; for_each l' body
  end.

Definition for_upto (n : nat) (body : nat -> M unit) : M unit :=
  for_each (seq 0 n) body.

(** [Math.random()]. *)
Definition Math_random : M Q :=
  fun st => Ok (st_random st (st_drawn st)) (with_drawn (S (st_drawn st)) st).

(** [Math.floor(Math.random() * n)]. *)
Definition random_index (n : nat) : M Z :=
  let* r := Math_random in
  ret (Qfloor (r * inject_Z (Z.of_nat n))).

(** ** Store access *)

Definition load_room (r : rref) : M Room :=
  fun st => defined (st_rooms st !! r) st.

Definition load_event (e : eref) : M Event :=
  fun st => defined (st_events st !! e) st.

Definition load_schedule (a : sref) : M ScheduleEvents :=
  fun st => defined (st_schedules st !! a) st.

Definition new_room (r : Room) : M rref :=
  fun st => Ok (length (st_rooms st)) (with_rooms (fun h => h ++ [r]) st).

Definition new_event (e : Event) : M eref :=
  fun st => Ok (length (st_events st)) (with_events (fun h => h ++ [e]) st).

Definition new_schedule (s : ScheduleEvents) : M sref :=
  fun st => Ok (length (st_schedules st)) (with_schedules (fun h => h ++ [s]) st).

Definition update_event (e : eref) (f : Event -> Event) : M unit :=
  fun st => Ok tt (with_events (fun h => alter f e h) st).

Definition update_schedule (a : sref) (f : ScheduleEvents -> ScheduleEvents) : M unit :=
  fun st => Ok tt (with_schedules (fun h => alter f a h) st).

(** ** class Event (lines 23-58) *)

(** [new Event(id, name)]. *)
Definition Event_new (id : nat) (name : string) : M eref :=
  new_event (mkEvent id name None None).

(** [set room(room)]. *)
Definition Event_set_room (e : eref) (room : option rref) : M unit :=
  update_event e (fun ev => mkEvent (ev_id ev) (ev_name ev) room (ev_time_slot ev)).

(** [set timeSlot(timeSlot)]. *)
Definition Event_set_timeSlot (e : eref) (timeSlot : option DateTime) : M unit :=
  update_event e (fun ev => mkEvent (ev_id ev) (ev_name ev) (ev_room ev) timeSlot).

(** ** class Room (lines 61-75) *)

(** [Math.floor(timeSlot.diff(EVENT_START_TIME, 'hours').hours)]. *)
Definition slot_index (start timeSlot : DateTime) : Z :=
  ((timeSlot - start) / 60)%Z.

(** [room.isAvailable(timeSlot)]: the entry of the availability schedule,
    or [undefined]; a [timeSlot] that is [undefined] or [null] has no
    [diff] method. *)
Definition isAvailable (room : rref) (timeSlot : option DateTime) : M (option bool) :=
  let* r := load_room room in
  let* t := defined timeSlot in
  fun st => Ok (js_getZ (room_availabilitySchedule r)
                        (slot_index (EVENT_START_TIME st) t)) st.

(** ** class Data (lines 78-120) *)

Fixpoint map_M {A B} (f : A -> M B) (l : list A) : M (list B) :=
  match l with
  | [] => ret []
  | x :: l' =>
      let* y := f x in
      let* ys := map_M f l' in
      ret (y :: ys)
  end.

(** [Array(n).fill(true)]: a negative length is a RangeError. *)
Definition Array_fill_true (n : Z) : M (array bool) :=
  if (n <? 0)%Z then throw RangeError
  else ret (replicate (Z.to_nat n) (Some true)).

(** The body of the room loop for index [i] (lines 90-100). *)
Definition Data_make_room (totalTimeSlots : Z) (i : nat) : M rref :=
  let roomName := "Room " +:+ pretty (i + 1) in
  let* availabilitySchedule := Array_fill_true totalTimeSlots in
  let availabilitySchedule :=
    foldl (fun arr j => js_set arr j (Some false)) availabilitySchedule (seq 0 i) in
  new_room (mkRoom roomName availabilitySchedule).

Definition default_EVENT_NAMES : list string :=
  ["Speed Programming"; "Speed Wiring"; "Cyber Quiz"; "SDP Evaluation";
   "Poster Designing"; "Website Designing"; "Database Designing";
   "Algorithm Design"].

(** [new Data(initialAvailableRooms, eventNames, startTime, endTime)],
    the two times already parsed. *)
Definition Data_new (initialAvailableRooms : Z) (eventNames : list string)
    (startTime endTime : DateTime) : M Data :=
  (fun st => Ok tt (with_times startTime endTime st)) ;;
  let totalTimeSlots := ((endTime - startTime) / 60)%Z in
  let* rooms := map_M (Data_make_room totalTimeSlots)
                     (seq 0 (Z.to_nat initialAvailableRooms)) in
  let EVENT_NAMES :=
    if decide (0 < length eventNames) then eventNames else default_EVENT_NAMES in
  ret (mkData rooms (imap (fun index eventName => mkEvent index eventName None None)
                          EVENT_NAMES)
              EVENT_NAMES).

(** ** class ScheduleEvents (lines 123-220) *)

Definition set_sch_events (f : array eref -> array eref) (s : ScheduleEvents) :=
  mkSchedule (sch_data s) (f (sch_events s)) (sch_numOfConflicts s)
             (sch_fitness s) (sch_eventNum s) (sch_isFitnessChanged s).

Definition set_sch_numOfConflicts (f : nat -> nat) (s : ScheduleEvents) :=
  mkSchedule (sch_data s) (sch_events s) (f (sch_numOfConflicts s))
             (sch_fitness s) (sch_eventNum s) (sch_isFitnessChanged s).

Definition set_sch_fitness (q : Q) (s : ScheduleEvents) :=
  mkSchedule (sch_data s) (sch_events s) (sch_numOfConflicts s)
             q (sch_eventNum s) (sch_isFitnessChanged s).

Definition set_sch_eventNum (f : nat -> nat) (s : ScheduleEvents) :=
  mkSchedule (sch_data s) (sch_events s) (sch_numOfConflicts s)
             (sch_fitness s) (f (sch_eventNum s)) (sch_isFitnessChanged s).

Definition set_sch_isFitnessChanged (b : bool) (s : ScheduleEvents) :=
  mkSchedule (sch_data s) (sch_events s) (sch_numOfConflicts s)
             (sch_fitness s) (sch_eventNum s) b.

(** [new ScheduleEvents(data)]. *)
Definition ScheduleEvents_new (data : Data) : M sref :=
  new_schedule (mkSchedule data [] 0 (-1) 0 true).

(** [get events()]: marks the fitness as changed and hands out the array. *)
Definition get_events (a : sref) : M (array eref) :=
  let* _ := load_schedule a in
  update_schedule a (set_sch_isFitnessChanged true) ;;
  let* s := load_schedule a in
  ret (sch_events s).

(** [schedule.events.length] *)
Definition events_length (a : sref) : M nat :=
  let* events := get_events a in
  ret (length events).

(** [schedule.events[i]] *)
Definition events_read (a : sref) (i : nat) : M (option eref) :=
  let* events := get_events a in
  ret (js_get events i).

(** The store of [schedule.events[i] = v], once both sides are evaluated. *)
Definition events_write (a : sref) (i : nat) (v : option eref) : M unit :=
  update_schedule a (set_sch_events (fun arr => js_set arr i v)).

(** The [while] loop of [getRandomTimeSlot] (lines 190-193). [fuel] bounds
    the number of iterations; the loop makes at most [end - start] of them
    because every iteration advances the time by an hour. *)
Fixpoint availableTimeSlots_from (fuel : nat) (currentTime endTime : DateTime)
    : list DateTime :=
  match fuel with
  | O => []
  | S fuel' =>
      if (currentTime <? endTime)%Z
      then currentTime :: availableTimeSlots_from fuel' (currentTime + TIME_SLOT_INTERVAL)%Z endTime
      else []
  end.

Definition availableTimeSlots (startTime endTime : DateTime) : list DateTime :=
  availableTimeSlots_from (Z.to_nat (endTime - startTime)) startTime endTime.

(** [l[i]] for an array that was only ever pushed to. *)
Definition nth_Z {A} (l : list A) (i : Z) : option A :=
  if (i <? 0)%Z then None else l !! Z.to_nat i.

(** [getRandomTimeSlot()]: [undefined] when there is no slot at all. *)
Definition getRandomTimeSlot : M (option DateTime) :=
  let* slots := (fun st => Ok (availableTimeSlots (EVENT_START_TIME st) (EVENT_END_TIME st)) st) in
  let* i := random_index (length slots) in
  ret (nth_Z slots i).

(** [rooms.filter(room => room.isAvailable(timeSlot))]. *)
Fixpoint filter_available (rooms : list rref) (timeSlot : option DateTime)
    : M (list rref) :=
  match rooms with
  | [] => ret []
  | room :: rooms' =>
      let* v := isAvailable room timeSlot in
      let* rest := filter_available rooms' timeSlot in
      ret (if truthy v then room :: rest else rest)
  end.

(** [getAvailableRoom(timeSlot)]. *)
Definition getAvailableRoom (a : sref) (timeSlot : option DateTime) : M (option rref) :=
  let* s := load_schedule a in
  let* availableRooms := filter_available (data_rooms (sch_data s)) timeSlot in
  if decide (length availableRooms = 0) then throw NoAvailableRooms
  else
    let* i := random_index (length availableRooms) in
    ret (nth_Z availableRooms i).

(** The body of the loop of [initialize] for index [i] (lines 153-157). *)
Definition initialize_step (a : sref) (i : nat) : M unit :=
  let* s := load_schedule a in
  let* dataEvent := defined (data_events (sch_data s) !! i) in
  let* newEvent := Event_new (sch_eventNum s) (ev_name dataEvent) in
  update_schedule a (set_sch_eventNum S) ;;
  let* timeSlot := getRandomTimeSlot in
  Event_set_timeSlot newEvent timeSlot ;;
  let* room := getAvailableRoom a timeSlot in
  Event_set_room newEvent room ;;
  update_schedule a (set_sch_events (fun arr => arr ++ [Some newEvent])).

(** [initialize()]. *)
Definition initialize (a : sref) : M sref :=
  let* s := load_schedule a in
  for_upto (length (data_events (sch_data s))) (initialize_step a) ;;
  ret a.

(** [this._numOfConflicts += 1] *)
Definition count_conflict (a : sref) : M unit :=
  update_schedule a (set_sch_numOfConflicts S).

(** The inner loop body of [calculateFitness] for the pair [(i, j)]
    (lines 173-179). *)
Definition calculateFitness_pair (a : sref) (events : array eref) (i j : nat) : M unit :=
  if decide (i <= j) then
    let* ei := defined (js_get events i) in
    let* evi := load_event ei in
    let* ti := defined (ev_time_slot evi) in
    let* ej := defined (js_get events j) in
    let* evj := load_event ej in
    let* tj := defined (ev_time_slot evj) in
    if (ti =? tj)%Z && negb (ev_id evi =? ev_id evj) then
      if bool_decide (ev_room evi = ev_room evj) then count_conflict a else ret tt
    else ret tt
  else ret tt.

(** The outer loop body of [calculateFitness] for index [i] (lines 168-180). *)
Definition calculateFitness_event (a : sref) (events : array eref) (i : nat) : M unit :=
  let* ei := defined (js_get events i) in
  let* evi := load_event ei in
  let* room := defined (ev_room evi) in
  let* available := isAvailable room (ev_time_slot evi) in
  (if negb (truthy available) then count_conflict a else ret tt) ;;
  for_upto (length events) (calculateFitness_pair a events i).

(** [1 / (1.0 * (numOfConflicts + 1))] *)
Definition fitness_of_conflicts (numOfConflicts : nat) : Q :=
  1 / (1 * (inject_Z (Z.of_nat numOfConflicts) + 1)).

(** [calculateFitness()] (lines 163-184). *)
Definition calculateFitness (a : sref) : M Q :=
  update_schedule a (set_sch_numOfConflicts (fun _ => 0)) ;;
  let* events := get_events a in
  for_upto (length events) (calculateFitness_event a events) ;;
  let* s := load_schedule a in
  ret (fitness_of_conflicts (sch_numOfConflicts s)).

(** [get fitness()] (lines 142-149). *)
Definition fitness (a : sref) : M Q :=
  let* s := load_schedule a in
  (if sch_isFitnessChanged s then
     let* f := calculateFitness a in
     update_schedule a (set_sch_fitness f) ;;
     update_schedule a (set_sch_isFitnessChanged false)
   else ret tt) ;;
  let* s := load_schedule a in
  ret (sch_fitness s).

(** [get numOfConflicts()] *)
Definition numOfConflicts (a : sref) : M nat :=
  let* s := load_schedule a in
  ret (sch_numOfConflicts s).

(** ** class PopulationEvents (lines 223-233) *)

(** [new PopulationEvents(size, data)]. *)
Definition PopulationEvents_new (size : nat) (data : Data) : M PopulationEvents :=
  let* schedules :=
    map_M (fun _ => let* a := ScheduleEvents_new data in initialize a) (seq 0 size) in
  ret (mkPopulation size data (map Some schedules)).

Definition set_pop_schedules (f : array sref -> array sref) (p : PopulationEvents) :=
  mkPopulation (pop_size p) (pop_data p) (f (pop_schedules p)).

(** ** [schedules.sort((a, b) => b.fitness - a.fitness)]

    [Array.prototype.sort] moves the undefined entries to the end without
    calling the comparator and sorts the others stably. With two or more
    defined entries the comparator reads the fitness of each of them at
    least once; a fitness read is idempotent (the first one refreshes the
    cache, the later ones return it), so the reads are made once per
    entry, in array order. *)

Fixpoint insert_desc (x : sref * Q) (l : list (sref * Q)) : list (sref * Q) :=
  match l with
  | [] => [x]
  | y :: l' => if Qle_bool (snd y) (snd x) then x :: y :: l' else y :: insert_desc x l'
  end.

Definition stable_sort_desc (l : list (sref * Q)) : list (sref * Q) :=
  foldr insert_desc [] l.

Definition defined_entries {A} (arr : array A) : list A := omap id arr.

Definition sort_by_fitness (schedules : array sref) : M (array sref) :=
  let entries := defined_entries schedules in
  let* keyed :=
    (if decide (2 <= length entries)
     then map_M (fun a => let* f := fitness a in ret (a, f)) entries
     else ret (map (fun a => (a, 0%Q)) entries)) in
  ret (map (fun x => Some (fst x)) (stable_sort_desc keyed)
       ++ replicate (length schedules - length entries) None).

(** ** class GeneticAlgorithmEvents (lines 236-303) *)

(** [_selectTournamentPopulation(pop)] (lines 291-302). *)
Definition _selectTournamentPopulation (pop : PopulationEvents) : M PopulationEvents :=
  let* tournamentPop := PopulationEvents_new 0 (pop_data pop) in
  let* picks :=
    map_M (fun _ => let* i := random_index POPULATION_SIZE in
                   ret (js_getZ (pop_schedules pop) i))
         (seq 0 TOURNAMENT_SELECTION_SIZE_EVENTS) in
  let* sorted := sort_by_fitness (pop_schedules tournamentPop ++ picks) in
  ret (set_pop_schedules (fun _ => sorted) tournamentPop).

(** The loop body of [_crossoverSchedule] for position [i] (lines 271-275). *)
Definition _crossoverSchedule_step (crossoverSchedule : sref)
    (schedule1 : sref) (schedule2 : option sref) (i : nat) : M unit :=
  let* r := Math_random in
  if Qlt_le_dec (1 # 2) r then
    let* _ := get_events crossoverSchedule in
    let* v := events_read schedule1 i in
    events_write crossoverSchedule i v
  else
    let* _ := get_events crossoverSchedule in
    let* s2 := defined schedule2 in
    let* v := events_read s2 i in
    events_write crossoverSchedule i v.

(** [_crossoverSchedule(schedule1, schedule2)] (lines 268-279). *)
Definition _crossoverSchedule (schedule1 schedule2 : option sref) : M sref :=
  let* s1 := defined schedule1 in
  let* s := load_schedule s1 in
  let* crossoverSchedule := ScheduleEvents_new (sch_data s) in
  initialize crossoverSchedule ;;
  let* n := events_length crossoverSchedule in
  for_upto n (_crossoverSchedule_step crossoverSchedule s1 schedule2) ;;
  ret crossoverSchedule.

(** The loop body of [_mutateSchedule] for position [i] (lines 284-286). *)
Definition _mutateSchedule_step (mutateSchedule schedule : sref) (i : nat) : M unit :=
  let* r := Math_random in
  if Qlt_le_dec r MUTATION_RATE then
    let* _ := get_events mutateSchedule in
    let* v := events_read schedule i in
    events_write mutateSchedule i v
  else ret tt.

(** [_mutateSchedule(mutateSchedule)] (lines 281-289). *)
Definition _mutateSchedule (mutateSchedule : option sref) : M (option sref) :=
  let* m := defined mutateSchedule in
  let* s := load_schedule m in
  let* schedule := ScheduleEvents_new (sch_data s) in
  initialize schedule ;;
  let* n := events_length m in
  for_upto n (_mutateSchedule_step m schedule) ;;
  ret mutateSchedule.

(** One round of the [while] loop of [_crossoverPopulation] (lines 250-252). *)
Definition _crossoverPopulation_child (pop : PopulationEvents) : M (option sref) :=
  let* t1 := _selectTournamentPopulation pop in
  let schedule1 := js_get (pop_schedules t1) 0 in
  let* t2 := _selectTournamentPopulation pop in
  let schedule2 := js_get (pop_schedules t2) 0 in
  let* child := _crossoverSchedule schedule1 schedule2 in
  ret (Some child).

(** [_crossoverPopulation(pop)] (lines 241-258). *)
Definition _crossoverPopulation (pop : PopulationEvents) : M PopulationEvents :=
  let* crossoverPop := PopulationEvents_new 0 (pop_data pop) in
  let elites := map (js_get (pop_schedules pop)) (seq 0 NUMB_OF_ELITE_EVENTS) in
  let* children :=
    map_M (fun _ => _crossoverPopulation_child pop)
         (seq NUMB_OF_ELITE_EVENTS (POPULATION_SIZE - NUMB_OF_ELITE_EVENTS)) in
  ret (set_pop_schedules (fun arr => arr ++ elites ++ children) crossoverPop).

(** [_mutatePopulation(population)] (lines 260-266). *)
Definition _mutatePopulation (population : PopulationEvents) : M PopulationEvents :=
  for_each (seq NUMB_OF_ELITE_EVENTS (POPULATION_SIZE - NUMB_OF_ELITE_EVENTS))
           (fun i => _mutateSchedule (js_get (pop_schedules population) i) ;; ret tt) ;;
  ret population.

(** [evolve(population)]. *)
Definition evolve (population : PopulationEvents) : M PopulationEvents :=
  let* crossoverPop := _crossoverPopulation population in
  _mutatePopulation crossoverPop.

(** ** The search loop of the request handler (lines 372-385) *)

(** [population.schedules.sort(...)], in place. *)
Definition sort_population (population : PopulationEvents) : M PopulationEvents :=
  let* sorted := sort_by_fitness (pop_schedules population) in
  ret (set_pop_schedules (fun _ => sorted) population).

(** The start of a search (lines 372-376): the data, the first
    population, sorted. *)
Definition first_generation (numRooms : Z) (eventNames : list string)
    (startTime endTime : DateTime) : M PopulationEvents :=
  let* data := Data_new numRooms eventNames startTime endTime in
  let* population := PopulationEvents_new POPULATION_SIZE data in
  sort_population population.

(** The two assignments of the loop body (lines 381-382). *)
Definition next_generation (population : PopulationEvents) : M PopulationEvents :=
  let* population := evolve population in
  sort_population population.

(** The [while] loop (lines 379-383). [budget] is
    [MAX_GENERATIONS - generationNumber], the number of rounds the second
    conjunct of the loop condition still allows. *)
Fixpoint search_loop (budget generationNumber : nat) (population : PopulationEvents)
    : M (nat * PopulationEvents) :=
  let* best := defined (js_get (pop_schedules population) 0) in
  let* f := fitness best in
  if Qeq_bool f 1 then ret (generationNumber, population)
  else
    match budget with
    | O => ret (generationNumber, population)
    | S budget' =>
        let* population := next_generation population in
        search_loop budget' (S generationNumber) population
    end.

(** The outcome of one search: the number of generations used, the final
    population and its first schedule, which the handler reports. *)
Record SearchResult := mkSearchResult {
  generationNumber : nat;
  finalPopulation : PopulationEvents;
  bestSchedule : sref
}.

Definition best_schedule (numRooms : Z) (eventNames : list string)
    (startTime endTime : DateTime) : M SearchResult :=
  let* population := first_generation numRooms eventNames startTime endTime in
  let* r := search_loop MAX_GENERATIONS 0 population in
  let* best := defined (js_get (pop_schedules (snd r)) 0) in
  ret (mkSearchResult (fst r) (snd r) best).

(** The population of generation [n], whether or not the loop gets that
    far: the loop runs through these populations until its condition
    fails. *)
Fixpoint generation (n : nat) (numRooms : Z) (eventNames : list string)
    (startTime endTime : DateTime) : M PopulationEvents :=
  match n with
  | O => first_generation numRooms eventNames startTime endTime
  | S n' =>
      let* population := generation n' numRooms eventNames startTime endTime in
      next_generation population
  end.

(** The fitness of the first schedule of a population, the best of it
    once the population is sorted. *)
Definition best_fitness (population : PopulationEvents) : M Q :=
  let* best := defined (js_get (pop_schedules population) 0) in
  fitness best.

Definition best_of_generation (n : nat) (numRooms : Z) (eventNames : list string)
    (startTime endTime : DateTime) : M Q :=
  let* population := generation n numRooms eventNames startTime endTime in
  best_fitness population.

(** The state in which a search starts: empty stores, the clock variables
    not yet set, and a random source. *)
Definition empty_state (random : nat -> Q) : State :=
  mkState [] [] [] 0%Z 0%Z random 0.


(** ** The assignment carried by a chromosome

    What a caller sees of a chromosome: per position, the id of the event
    and the room and time slot assigned to it. A position resolves when
    its entry is an event with a room of the store and a time slot. *)

Record gene := mkGene {
  gene_id : nat;
  gene_room : rref;
  gene_slot : DateTime
}.

Definition gene_of (st : State) (v : option eref) : option gene :=
  match v with
  | Some e =>
      match st_events st !! e with
      | Some ev =>
          match ev_room ev, ev_time_slot ev with
          | Some r, Some t =>
              match st_rooms st !! r with
              | Some _ => Some (mkGene (ev_id ev) r t)
              | None => None
              end
          | _, _ => None
          end
      | None => None
      end
  | None => None
  end.

Fixpoint genes_of (st : State) (events : array eref) : option (list gene) :=
  match events with
  | [] => Some []
  | v :: events' =>
      match gene_of st v, genes_of st events' with
      | Some g, Some gs => Some (g :: gs)
      | _, _ => None
      end
  end.

(** The assignment of the schedule at [a], when all its events carry an
    assigned room and time slot. *)
Definition genes (st : State) (a : sref) : option (list gene) :=
  match st_schedules st !! a with
  | Some s => genes_of st (sch_events s)
  | None => None
  end.

(** ** The conflict count, as the specification words it *)

Fixpoint count_if {A} (p : A -> bool) (l : list A) : nat :=
  match l with
  | [] => 0
  | x :: l' => (if p x then 1 else 0) + count_if p l'
  end.

(** The room of the gene is unavailable at its slot. *)
Definition room_unavailable (st : State) (g : gene) : bool :=
  match st_rooms st !! gene_room g with
  | Some room =>
      negb (truthy (js_getZ (room_availabilitySchedule room)
                            (slot_index (EVENT_START_TIME st) (gene_slot g))))
  | None => false
  end.

(** Two events share both the room and the time slot. *)
Definition double_booked (g1 g2 : gene) : bool :=
  bool_decide (gene_room g1 = gene_room g2) && (gene_slot g1 =? gene_slot g2)%Z.

(** Every unordered pair of distinct positions, once. *)
Fixpoint unordered_pairs {A} (l : list A) : list (A * A) :=
  match l with
  | [] => []
  | x :: l' => map (pair x) l' ++ unordered_pairs l'
  end.

(** C: one penalty per event in an unavailable room, one per unordered
    pair of distinct events sharing room and slot. *)
Definition conflict_count (st : State) (gs : list gene) : nat :=
  count_if (room_unavailable st) gs
  + count_if (fun p => double_booked (fst p) (snd p)) (unordered_pairs gs).

(** What the loops of [calculateFitness] test for a pair: the same slot,
    different ids, the same room. *)
Definition counted_pair (g1 g2 : gene) : bool :=
  (gene_slot g1 =? gene_slot g2)%Z && negb (gene_id g1 =? gene_id g2)
  && bool_decide (gene_room g1 = gene_room g2).

(** The count the loops make, whatever the ids. *)
Definition counted_conflicts (st : State) (gs : list gene) : nat :=
  count_if (room_unavailable st) gs
  + count_if (fun p => counted_pair (fst p) (snd p)) (unordered_pairs gs).

(** The effect of [this._numOfConflicts += 1] on the state. *)
Definition count_state (a : sref) (st : State) : State :=
  with_schedules (fun h => alter (set_sch_numOfConflicts S) a h) st.

(** The state after [calculateFitness] found [c] conflicts for the
    schedule [s] stored at [a]. *)
Definition calculated (a : sref) (s : ScheduleEvents) (c : nat) (st : State) : State :=
  with_schedules
    (fun h => <[a := mkSchedule (sch_data s) (sch_events s) c (sch_fitness s)
                                (sch_eventNum s) true]> h) st.

(** The state after a fitness read that recomputed. *)
Definition refreshed (a : sref) (s : ScheduleEvents) (c : nat) (st : State) : State :=
  with_schedules
    (fun h => <[a := mkSchedule (sch_data s) (sch_events s) c (fitness_of_conflicts c)
                                (sch_eventNum s) false]> h) st.

(** The number of conflicts the inner loop body counts for the pair of
    positions [(i, j)], and the outer loop body for position [i]. *)
Definition pair_weight (gs : list gene) (i j : nat) : nat :=
  match gs !! i, gs !! j with
  | Some gi, Some gj =>
      if decide (i <= j) then (if counted_pair gi gj then 1 else 0) else 0
  | _, _ => 0
  end.

Definition event_weight (st : State) (gs : list gene) (i : nat) : nat :=
  match gs !! i with
  | Some gi => (if room_unavailable st gi then 1 else 0)
               + sum_list_with (pair_weight gs i) (seq 0 (length gs))
  | None => 0
  end.

(** ** Invariants of the states the engine builds *)

(** The cache of a schedule is coherent: when the flag says the fitness
    is unchanged, the cached values are those of the current
    assignment. *)
Definition cache_ok (st : State) (s : ScheduleEvents) : Prop :=
  sch_isFitnessChanged s = false ->
  exists gs,
    genes_of st (sch_events s) = Some gs
    /\ sch_numOfConflicts s = counted_conflicts st gs
    /\ sch_fitness s = fitness_of_conflicts (counted_conflicts st gs).

Definition Coherent (st : State) : Prop :=
  forall a s, st_schedules st !! a = Some s -> cache_ok st s.

(** ** A worked instance

    Two rooms over three one-hour slots from 09:00: Room A is available in
    all of them, Room B is unavailable in the first. Two events. In the
    first schedule both events are in Room A at 09:00; in the second the
    first event is in Room B at 09:00 and the second in Room A at
    10:00. *)

Definition example_data : Data :=
  mkData [0; 1]
         [mkEvent 0 "Event 1" None None; mkEvent 1 "Event 2" None None]
         ["Event 1"; "Event 2"].

Definition example_state : State :=
  mkState
    [mkRoom "Room A" [Some true; Some true; Some true];
     mkRoom "Room B" [Some false; Some true; Some true]]
    [mkEvent 0 "Event 1" (Some 0) (Some 540%Z);
     mkEvent 1 "Event 2" (Some 0) (Some 540%Z);
     mkEvent 0 "Event 1" (Some 1) (Some 540%Z);
     mkEvent 1 "Event 2" (Some 0) (Some 600%Z)]
    [mkSchedule example_data [Some 0; Some 1] 0 (-1) 2 true;
     mkSchedule example_data [Some 2; Some 3] 0 (-1) 2 true]
    540%Z 720%Z (fun _ => 0%Q) 0.

(** What every operation of the engine leaves in place. From [st] to [st']
    the rooms, the clock variables and the random source are the same,
    the events of [st] are unchanged (new ones may have been created),
    every schedule of [st] is still there with the same data and, unless
    it is one of those in [P], with the same event array, and coherent
    caches stay coherent. *)
Record evolves (P : sref -> Prop) (st st' : State) : Prop := mk_evolves {
  ev_rooms : st_rooms st' = st_rooms st;
  ev_start : EVENT_START_TIME st' = EVENT_START_TIME st;
  ev_end : EVENT_END_TIME st' = EVENT_END_TIME st;
  ev_random : st_random st' = st_random st;
  ev_events : forall e ev, st_events st !! e = Some ev -> st_events st' !! e = Some ev;
  ev_schedules : forall a s, st_schedules st !! a = Some s ->
    exists s', st_schedules st' !! a = Some s' /\ sch_data s' = sch_data s
               /\ (~ P a -> sch_events s' = sch_events s);
  ev_coherent : Coherent st -> Coherent st'
}.

Definition nobody : sref -> Prop := fun _ => False.

(** [Math.random()] returns a number in [[0, 1)]. *)
Definition random_ok (st : State) : Prop :=
  forall n, (0 <= st_random st n)%Q /\ (st_random st n < 1)%Q.

(** The events [initialize] creates are new, carry their position as id
    and a time slot, and, when the random source is in range, a room of
    the data. *)
Definition initialized_event (st st' : State) (data : Data) (id : nat) (e : eref) : Prop :=
  length (st_events st) <= e
  /\ exists ev t,
       st_events st' !! e = Some ev /\ ev_id ev = id /\ ev_time_slot ev = Some t
       /\ (random_ok st ->
           exists r, ev_room ev = Some r /\ r ∈ data_rooms data
                     /\ is_Some (st_rooms st !! r)).


(** The order [sort] establishes on the entries with their fitness. *)
Definition desc (x y : sref * Q) : Prop := (snd y <= snd x)%Q.

(** The population holds exactly [n] chromosomes of the state. *)
Definition chromosomes (st : State) (population : PopulationEvents) (n : nat) : Prop :=
  length (pop_schedules population) = n
  /\ forall i, i < n ->
       exists a, js_get (pop_schedules population) i = Some a
                 /\ is_Some (st_schedules st !! a).

(** The schedule [b] of [st] is in [st'] what it was in [st]: the same
    event array, the same assignment, the same fitness. *)
Definition untouched (st st' : State) (b : sref) : Prop :=
  (exists s s', st_schedules st !! b = Some s /\ st_schedules st' !! b = Some s'
                /\ sch_events s' = sch_events s)
  /\ (forall gs, genes st b = Some gs -> genes st' b = Some gs)
  /\ (forall f st2, fitness b st = Ok f st2 -> exists st3, fitness b st' = Ok f st3).

(** ** Writes to the assignment of a chromosome made through its
    [events] accessor *)

(** [schedule.events[i] = v] *)
Definition events_store (a : sref) (i : nat) (v : option eref) : M unit :=
  let* _ := get_events a in
  events_write a i v.

(** [schedule.events[i].room = room] *)
Definition events_set_room (a : sref) (i : nat) (room : option rref) : M unit :=
  let* v := events_read a i in
  let* e := defined v in
  Event_set_room e room.

(** [schedule.events[i].timeSlot = timeSlot] *)
Definition events_set_timeSlot (a : sref) (i : nat) (timeSlot : option DateTime) : M unit :=
  let* v := events_read a i in
  let* e := defined v in
  Event_set_timeSlot e timeSlot.

Inductive assignment_write :=
  | ReplaceEvent (i : nat) (v : option eref)
  | WriteRoom (i : nat) (room : option rref)
  | WriteTimeSlot (i : nat) (timeSlot : option DateTime).

Definition perform_write (a : sref) (w : assignment_write) : M unit :=
  match w with
  | ReplaceEvent i v => events_store a i v
  | WriteRoom i room => events_set_room a i room
  | WriteTimeSlot i timeSlot => events_set_timeSlot a i timeSlot
  end.

(** Two outcomes agree: the same value, or the same exception. *)
Definition agree {A} (r1 r2 : Result A) : Prop :=
  match r1, r2 with
  | Ok x _, Ok y _ => x = y
  | Throw e1, Throw e2 => e1 = e2
  | _, _ => False
  end.

(** ** Well-formed problem instances *)

(** The room is available at the time slot. *)
Definition room_free (st : State) (t : DateTime) (r : rref) : bool :=
  match st_rooms st !! r with
  | Some room =>
      truthy (js_getZ (room_availabilitySchedule room)
                      (slot_index (EVENT_START_TIME st) t))
  | None => false
  end.

Fixpoint free_rooms (st : State) (t : DateTime) (rooms : list rref) : list rref :=
  match rooms with
  | [] => []
  | r :: rooms' =>
      if room_free st t r then r :: free_rooms st t rooms' else free_rooms st t rooms'
  end.

(** The state holds the rooms and the clock of an instance built for at
    least one room and a positive whole number [k] of hours: the rooms
    of the data exist, the first of them is available in all [k] slots,
    and the random source is in range. *)
Record instance_ready (data : Data) (st : State) : Prop := mk_instance_ready {
  ready_random : random_ok st;
  ready_rooms : forall r, r ∈ data_rooms data -> is_Some (st_rooms st !! r);
  ready_hours : exists k r room,
    0 < k
    /\ EVENT_END_TIME st = (EVENT_START_TIME st + 60 * Z.of_nat k)%Z
    /\ data_rooms data !! 0 = Some r
    /\ st_rooms st !! r = Some room
    /\ room_availabilitySchedule room = replicate k (Some true)
}.

(** The ids of the genes are their positions. *)
Definition positioned (gs : list gene) : Prop :=
  forall i g, gs !! i = Some g -> gene_id g = i.

(** The schedule at [a] is a full chromosome of the instance: one
    assigned event per event of the data, with its position as id. *)
Definition complete (data : Data) (st : State) (a : sref) : Prop :=
  exists s gs,
    st_schedules st !! a = Some s
    /\ sch_data s = data
    /\ length (sch_events s) = length (data_events data)
    /\ genes_of st (sch_events s) = Some gs
    /\ positioned gs.

(** A population of [n] full chromosomes of the instance. *)
Definition population_ok (data : Data) (st : State) (n : nat)
    (population : PopulationEvents) : Prop :=
  pop_data population = data
  /\ exists l, pop_schedules population = map Some l
               /\ length l = n
               /\ Forall (complete data st) l.

(** The room the constructor of [Data] builds for index [i]. *)
Definition made_room (totalTimeSlots : Z) (i : nat) : Room :=
  mkRoom ("Room " +:+ pretty (i + 1))
         (foldl (fun arr j => js_set arr j (Some false))
                (replicate (Z.to_nat totalTimeSlots) (Some true)) (seq 0 i)).

(** The event names the constructor of [Data] retains. *)
Definition retained_names (eventNames : list string) : list string :=
  if decide (0 < length eventNames) then eventNames else default_EVENT_NAMES.

(** The schedule at [a] has its fitness [f] cached and up to date: a
    fitness read returns [f] and leaves the state as it is. *)
Definition fitness_value (st : State) (a : sref) (f : Q) : Prop :=
  exists s, st_schedules st !! a = Some s
            /\ sch_isFitnessChanged s = false /\ sch_fitness s = f.

(** The population is best-first: every chromosome of it has its fitness
    cached, and none has a greater fitness than the first. *)
Definition best_first (st : State) (population : PopulationEvents) : Prop :=
  exists b fb,
    js_get (pop_schedules population) 0 = Some b
    /\ fitness_value st b fb
    /\ forall a, Some a ∈ pop_schedules population ->
         exists fa, fitness_value st a fa /\ (fa <= fb)%Q.

(** A random source for worked runs: 0.3, 0.0, 0.7, 0.4, 0.1, ... *)
Definition example_random (i : nat) : Q :=
  Z.of_nat ((7 * i + 3) mod 10) # 10.

(** The first population of a search for two rooms and two events
    between 09:00 and 12:00, before it is sorted. *)
Definition example_seed : Result PopulationEvents :=
  Eval vm_compute in
    (let* data := Data_new 2 ["Event 1"; "Event 2"] 540 720 in
     PopulationEvents_new POPULATION_SIZE data) (empty_state example_random).

Definition example_population : PopulationEvents :=
  match example_seed with
  | Ok population _ => population
  | Throw _ => mkPopulation 0 example_data []
  end.

Definition example_seeded_state : State :=
  match example_seed with
  | Ok _ st => st
  | Throw _ => empty_state example_random
  end.

(** ** What [initialize] assigns *)

(** The event is one [initialize] made for an event of the data: it has
    the index of that event as id and its name, a time slot on offer and
    a room of the data that is available at the slot. *)
Definition well_assigned (data : Data) (st : State) (ev : Event) : Prop :=
  exists dataEvent r t,
    data_events data !! ev_id ev = Some dataEvent
    /\ ev_name ev = ev_name dataEvent
    /\ ev_room ev = Some r /\ r ∈ data_rooms data
    /\ ev_time_slot ev = Some t
    /\ t ∈ availableTimeSlots (EVENT_START_TIME st) (EVENT_END_TIME st)
    /\ room_free st t r = true.

(** The stores hold the schedules and events of a search on one
    instance: the random source is in range, every schedule is one of
    the instance, with as many entries as the instance has events, and
    every event was assigned by [initialize]. *)
Record sound (data : Data) (st : State) : Prop := mk_sound {
  sound_random : random_ok st;
  sound_data : forall a s, st_schedules st !! a = Some s -> sch_data s = data;
  sound_length : forall a s, st_schedules st !! a = Some s ->
    length (sch_events s) = length (data_events data);
  sound_events : forall e ev, st_events st !! e = Some ev -> well_assigned data st ev
}.

(** ** The capacity of an instance *)

(** The pairs of a room index and an hour index at which the room the
    constructor of [Data] builds for that index is available, for [n]
    rooms and [k] whole hours. *)
Definition room_slots (n k : nat) : list (nat * nat) :=
  seq 0 k ≫= fun j => (fun r => (r, j)) <$> seq 0 (Nat.min n (S j)).

(** ** Strings of events and schedules (lines 55-57, 210-219) *)

Section Formatting.

(** [timeSlot.toFormat('hh:mm a')] of luxon, which is not part of the
    source. *)
Variable toFormat : Z -> string.

(** [timeSlot ? timeSlot.toFormat('hh:mm a') : 'N/A'] *)
Definition formatted (timeSlot : option DateTime) : string :=
  match timeSlot with
  | Some t => toFormat t
  | None => "N/A"
  end.

(** [toString()] of [Event]: the room must be there, the time slot need
    not. *)
Definition Event_toString (e : eref) : M string :=
  let* ev := load_event e in
  let* r := defined (ev_room ev) in
  let* room := load_room r in
  ret (ev_name ev +:+ ", Room: " +:+ room_number room
       +:+ ", Time: " +:+ formatted (ev_time_slot ev)).

(** The string an entry of the event array becomes in a concatenation:
    an event by its [toString], an entry that is not there as
    "undefined". *)
Definition entry_string (v : option eref) : M string :=
  match v with
  | Some e => Event_toString e
  | None => ret "undefined"
  end.

(** The [for] loop of [toString] of [ScheduleEvents] (lines 212-214). *)
Fixpoint toString_loop (events : array eref) (indices : list nat) (returnValue : string)
    : M string :=
  match indices with
  | [] => ret returnValue
  | i :: indices' =>
      let* x := entry_string (js_get events i) in
      toString_loop events indices' (returnValue +:+ (x +:+ ", "))
  end.

(** [toString()] of [ScheduleEvents]: it reads the array itself, not the
    [events] accessor. *)
Definition ScheduleEvents_toString (a : sref) : M string :=
  let* s := load_schedule a in
  let events := sch_events s in
  let* returnValue := toString_loop events (seq 0 (length events - 1)) "" in
  let* last := entry_string (js_getZ events (Z.of_nat (length events) - 1)) in
  ret (returnValue +:+ last).

End Formatting.

(** The strings of the entries a loop of [toString] has gone through,
    each followed by a comma and a space. *)
Definition glued (strs : list string) : string :=
  foldr (fun x rest => x +:+ ", " +:+ rest) "" strs.

(** ** The response of the request handler (lines 365-397) *)

(** [s.split(',')]: the pieces between the commas, at least one. *)
Fixpoint split_commas (s : string) : list string :=
  match s with
  | EmptyString => [EmptyString]
  | String c s' =>
      if Ascii.eqb c ","%char then EmptyString :: split_commas s'
      else match split_commas s' with
           | piece :: pieces => String c piece :: pieces
           | [] => [String c EmptyString]
           end
  end.

(** One element of the [schedule] array of the response. *)
Record ScheduleEntry := mkScheduleEntry {
  entry_eventId : nat;
  entry_eventName : string;
  entry_room : string;
  entry_timeSlot : string
}.

(** The [bestSchedule] object of the response. *)
Record Response := mkResponse {
  response_fitness : Q;
  response_schedule : list ScheduleEntry
}.

Section Response.

Variable toFormat : Z -> string.

(** The callback of [bestSchedule.events.map] (lines 389-394). *)
Definition response_entry (v : option eref) : M ScheduleEntry :=
  let* e := defined v in
  let* ev := load_event e in
  let* roomText :=
    match ev_room ev with
    | Some r => let* room := load_room r in ret (room_number room)
    | None => ret "N/A"
    end in
  ret (mkScheduleEntry (ev_id ev) (ev_name ev) roomText
                       (formatted toFormat (ev_time_slot ev))).

(** The object handed to [res.json] (lines 386-396). *)
Definition respond (bestSchedule : sref) : M Response :=
  let* f := fitness bestSchedule in
  let* events := get_events bestSchedule in
  let* schedule := map_M response_entry events in
  ret (mkResponse f schedule).

(** The handler, from the parsed room count, the raw list of event names
    and the two parsed times to the response. *)
Definition handler (numRooms : Z) (eventNames : string)
    (startTime endTime : DateTime) : M Response :=
  let eventNames := split_commas eventNames in
  let* r := best_schedule numRooms eventNames startTime endTime in
  respond (bestSchedule r).

End Response.

(** * Properties *)

(** ** Running computations *)

Lemma bind_Ok {A B} (m : M A) (k : A -> M B) st b st' :
  bind m k st = Ok b st' <-> exists a st1, m st = Ok a st1 /\ k a st1 = Ok b st'.
Proof.
  unfold bind. destruct (m st) as [a st1|e]; split.
  - intros H. by exists a, st1.
  - intros (a' & st1' & [= -> ->] & H). done.
  - done.
  - intros (a' & st1' & [=] & _).
Qed.

Lemma bind_run {A B} (m : M A) (k : A -> M B) st a st1 :
  m st = Ok a st1 -> bind m k st = k a st1.
Proof. unfold bind. by intros ->. Qed.

Lemma bind_Throw {A B} (m : M A) (k : A -> M B) st e :
  m st = Throw e -> bind m k st = Throw e.
Proof. unfold bind. by intros ->. Qed.

Lemma defined_Ok {A} (v : option A) st a st' :
  defined v st = Ok a st' <-> v = Some a /\ st' = st.
Proof.
  destruct v as [x|]; cbn; split.
  - by intros [= -> ->].
  - by intros [[= ->] ->].
  - done.
  - by intros [[=] _].
Qed.

Lemma load_schedule_Ok a st s st' :
  load_schedule a st = Ok s st' <-> st_schedules st !! a = Some s /\ st' = st.
Proof. apply defined_Ok. Qed.

Lemma load_event_Ok e st ev st' :
  load_event e st = Ok ev st' <-> st_events st !! e = Some ev /\ st' = st.
Proof. apply defined_Ok. Qed.

Lemma load_room_Ok r st room st' :
  load_room r st = Ok room st' <-> st_rooms st !! r = Some room /\ st' = st.
Proof. apply defined_Ok. Qed.

(** Splits a hypothesis [H] stating that a sequence of steps returned. *)
Ltac inv_bind H :=
  let a := fresh "x" in
  let st1 := fresh "st" in
  let H1 := fresh H in
  apply bind_Ok in H as (a & st1 & H1 & H).

Tactic Notation "inv_step" hyp(H) "as" ident(a) ident(st1) ident(H1) :=
  apply bind_Ok in H as (a & st1 & H1 & H).

Ltac inv_ret H :=
  first [ apply defined_Ok in H as [? ->]
        | apply load_schedule_Ok in H as [? ->]
        | apply load_event_Ok in H as [? ->]
        | apply load_room_Ok in H as [? ->]
        | injection H as <- <- | injection H as -> <- | injection H as <- ->
        | injection H as -> -> ].

(** ** The resolved view of a chromosome *)

Lemma gene_of_Some st v g :
  gene_of st v = Some g <->
  exists e ev room,
    v = Some e /\ st_events st !! e = Some ev /\ st_rooms st !! gene_room g = Some room
    /\ ev_room ev = Some (gene_room g) /\ ev_time_slot ev = Some (gene_slot g)
    /\ ev_id ev = gene_id g.
Proof.
  unfold gene_of. split.
  - destruct v as [e|]; [|done].
    destruct (st_events st !! e) as [ev|] eqn:He; [|done].
    destruct (ev_room ev) as [r|] eqn:Hr; [|done].
    destruct (ev_time_slot ev) as [t|] eqn:Ht; [|done].
    destruct (st_rooms st !! r) as [room|] eqn:Hroom; [|done].
    intros [= <-]. by exists e, ev, room.
  - intros (e & ev & room & -> & -> & Hroom & -> & -> & Hid).
    rewrite Hroom. destruct g; cbn in *. by subst.
Qed.

Lemma gene_of_ext st st' v :
  st_events st' = st_events st -> st_rooms st' = st_rooms st ->
  gene_of st' v = gene_of st v.
Proof. unfold gene_of. by intros -> ->. Qed.

Lemma genes_of_ext st st' events :
  st_events st' = st_events st -> st_rooms st' = st_rooms st ->
  genes_of st' events = genes_of st events.
Proof.
  intros He Hr. induction events as [|v events IH]; [done|].
  cbn. by rewrite (gene_of_ext st st'), IH.
Qed.

Lemma genes_of_Some st events gs :
  genes_of st events = Some gs <-> Forall2 (fun v g => gene_of st v = Some g) events gs.
Proof.
  revert gs. induction events as [|v events IH]; intros gs; cbn.
  - split; [intros [= <-]; constructor | by inversion 1].
  - destruct (gene_of st v) as [g|] eqn:Hg.
    + destruct (genes_of st events) as [gs'|] eqn:Hgs.
      * split.
        -- intros [= <-]. constructor; [done|]. by apply IH.
        -- inversion 1 as [|? g' ? gs'' Hg' Hall]; subst.
           apply IH in Hall. congruence.
      * split; [done|]. inversion 1 as [|? g' ? gs'' Hg' Hall]; subst.
        apply IH in Hall. congruence.
    + split; [done|]. inversion 1; congruence.
Qed.

Lemma genes_of_length st events gs :
  genes_of st events = Some gs -> length gs = length events.
Proof. intros H%genes_of_Some. symmetry. by eapply Forall2_length. Qed.

Lemma genes_of_lookup st events gs i g :
  genes_of st events = Some gs -> gs !! i = Some g ->
  gene_of st (js_get events i) = Some g.
Proof.
  intros H%genes_of_Some Hi.
  destruct (Forall2_lookup_r _ _ _ _ _ H Hi) as (v & Hv & Hg).
  unfold js_get. by rewrite Hv.
Qed.

(** ** Counting conflicts *)

Lemma iter_count_state_fields n a st :
  st_events (Nat.iter n (count_state a) st) = st_events st
  /\ st_rooms (Nat.iter n (count_state a) st) = st_rooms st
  /\ EVENT_START_TIME (Nat.iter n (count_state a) st) = EVENT_START_TIME st
  /\ EVENT_END_TIME (Nat.iter n (count_state a) st) = EVENT_END_TIME st
  /\ st_random (Nat.iter n (count_state a) st) = st_random st
  /\ st_drawn (Nat.iter n (count_state a) st) = st_drawn st.
Proof. induction n as [|n IH]; [done|]. cbn. apply IH. Qed.

Lemma iter_count_state_schedules n a st :
  st_schedules (Nat.iter n (count_state a) st)
  = alter (set_sch_numOfConflicts (fun c => n + c)) a (st_schedules st).
Proof.
  induction n as [|n IH].
  - symmetry. apply list_alter_id. by intros [].
  - change (Nat.iter (S n) (count_state a) st)
      with (count_state a (Nat.iter n (count_state a) st)).
    unfold count_state at 1. cbn [st_schedules with_schedules].
    rewrite IH, list_alter_alter_eq. done.
Qed.

(** A loop whose rounds only count conflicts counts their sum. *)
Lemma for_each_counting {A} (a : sref) (w : A -> nat) (I : State -> Prop)
    (body : A -> M unit) (l : list A) :
  (forall x st, x ∈ l -> I st -> body x st = Ok tt (Nat.iter (w x) (count_state a) st)) ->
  (forall st, I st -> I (count_state a st)) ->
  forall st, I st ->
    for_each l body st = Ok tt (Nat.iter (sum_list_with w l) (count_state a) st).
Proof.
  intros Hbody Hstep.
  assert (Hiter : forall n st, I st -> I (Nat.iter n (count_state a) st)).
  { induction n as [|n IH]; intros st' HI'; [done|]. apply Hstep, IH, HI'. }
  induction l as [|x l IH]; intros st HI; [done|].
  cbn [for_each sum_list_with].
  erewrite bind_run; [|apply Hbody; [left | done]].
  rewrite IH.
  - by rewrite (Nat.add_comm (w x)), Nat.iter_add.
  - intros y st' Hy. apply Hbody. by right.
  - by apply Hiter.
Qed.

Ltac mrun tac := erewrite bind_run; [| solve [tac]].

Lemma isAvailable_run st r room t :
  st_rooms st !! r = Some room ->
  isAvailable r (Some t) st
  = Ok (js_getZ (room_availabilitySchedule room) (slot_index (EVENT_START_TIME st) t)) st.
Proof. intros Hr. unfold isAvailable, bind, load_room. by rewrite Hr. Qed.

Lemma calculateFitness_pair_run a events gs st i j :
  genes_of st events = Some gs -> i < length gs -> j < length gs ->
  calculateFitness_pair a events i j st
  = Ok tt (Nat.iter (pair_weight gs i j) (count_state a) st).
Proof.
  intros Hgs Hi Hj. unfold pair_weight.
  destruct (lookup_lt_is_Some_2 gs i Hi) as [gi Hgi].
  destruct (lookup_lt_is_Some_2 gs j Hj) as [gj Hgj].
  rewrite Hgi, Hgj.
  pose proof (genes_of_lookup _ _ _ _ _ Hgs Hgi) as Hi'.
  pose proof (genes_of_lookup _ _ _ _ _ Hgs Hgj) as Hj'.
  apply gene_of_Some in Hi' as (ei & evi & roomi & Hei & Hevi & _ & Hri & Hti & Hidi).
  apply gene_of_Some in Hj' as (ej & evj & roomj & Hej & Hevj & _ & Hrj & Htj & Hidj).
  unfold calculateFitness_pair. case_decide; [|done].
  mrun ltac:(rewrite Hei; reflexivity).
  mrun ltac:(apply load_event_Ok; done).
  mrun ltac:(rewrite Hti; reflexivity).
  mrun ltac:(rewrite Hej; reflexivity).
  mrun ltac:(apply load_event_Ok; done).
  mrun ltac:(rewrite Htj; reflexivity).
  rewrite Hri, Hrj, Hidi, Hidj.
  unfold counted_pair.
  destruct ((gene_slot gi =? gene_slot gj)%Z && negb (gene_id gi =? gene_id gj)); [|done].
  cbn. rewrite (bool_decide_ext (Some (gene_room gi) = Some (gene_room gj))
                                (gene_room gi = gene_room gj)) by naive_solver.
  by destruct (bool_decide (gene_room gi = gene_room gj)).
Qed.

Lemma calculateFitness_event_run a events gs st i :
  genes_of st events = Some gs -> i < length gs ->
  calculateFitness_event a events i st
  = Ok tt (Nat.iter (event_weight st gs i) (count_state a) st).
Proof.
  intros Hgs Hi. unfold event_weight.
  destruct (lookup_lt_is_Some_2 gs i Hi) as [gi Hgi]. rewrite Hgi.
  pose proof (genes_of_lookup _ _ _ _ _ Hgs Hgi) as Hi'.
  apply gene_of_Some in Hi' as (ei & evi & roomi & Hei & Hevi & Hroom & Hri & Hti & Hidi).
  unfold calculateFitness_event.
  mrun ltac:(rewrite Hei; reflexivity).
  mrun ltac:(apply load_event_Ok; done).
  mrun ltac:(rewrite Hri; reflexivity).
  rewrite Hti. mrun ltac:(apply isAvailable_run; done).
  set (n := if room_unavailable st gi then 1 else 0).
  assert (Hfirst :
    (if negb (truthy (js_getZ (room_availabilitySchedule roomi)
                              (slot_index (EVENT_START_TIME st) (gene_slot gi))))
     then count_conflict a else ret tt) st
    = Ok tt (Nat.iter n (count_state a) st)).
  { subst n. unfold room_unavailable. rewrite Hroom.
    by destruct (negb _). }
  mrun ltac:(exact Hfirst).
  rewrite Nat.add_comm, Nat.iter_add.
  rewrite <- (genes_of_length _ _ _ Hgs).
  apply (for_each_counting a (pair_weight gs i)
           (fun st' => st_events st' = st_events st /\ st_rooms st' = st_rooms st)).
  - intros j st' Hj [He Hr]. apply calculateFitness_pair_run; [|done|].
    + by rewrite (genes_of_ext st st').
    + apply elem_of_seq in Hj. lia.
  - by intros st' [He Hr].
  - by pose proof (iter_count_state_fields n a st) as (-> & -> & _).
Qed.

Lemma counted_pair_irrefl g : counted_pair g g = false.
Proof.
  unfold counted_pair. rewrite Nat.eqb_refl. cbn.
  by rewrite andb_false_r.
Qed.

Lemma count_if_pairs {A} (p : A * A -> bool) (x : A) (l : list A) :
  count_if p (map (pair x) l) = count_if (fun y => p (x, y)) l.
Proof. induction l as [|y l IH]; cbn; [done|]. by rewrite IH. Qed.

Lemma count_if_app {A} (p : A -> bool) (l1 l2 : list A) :
  count_if p (l1 ++ l2) = count_if p l1 + count_if p l2.
Proof. induction l1 as [|x l1 IH]; cbn; [done|]. rewrite IH. lia. Qed.

Lemma count_if_ext {A} (p q : A -> bool) (l : list A) :
  (forall x, x ∈ l -> p x = q x) -> count_if p l = count_if q l.
Proof.
  induction l as [|x l IH]; intros H; cbn; [done|].
  rewrite (H x) by left. rewrite IH; [done|]. intros y Hy. apply H. by right.
Qed.

(** The part of row [i] to the right of the diagonal. *)
Lemma pair_weight_row_right gs i g pre l :
  gs = pre ++ l -> gs !! i = Some g -> i < length pre ->
  sum_list_with (pair_weight gs i) (seq (length pre) (length l))
  = count_if (counted_pair g) l.
Proof.
  revert pre. induction l as [|y l IH]; intros pre Hgs Hi Hlt; [done|].
  cbn [length seq sum_list_with count_if].
  f_equal.
  - unfold pair_weight. rewrite Hi.
    assert (gs !! length pre = Some y) as ->.
    { subst gs. by rewrite list_lookup_middle. }
    case_decide; [done|lia].
  - specialize (IH (pre ++ [y])). rewrite length_app in IH. cbn in IH.
    rewrite Nat.add_1_r in IH. apply IH; [|done|lia].
    by rewrite <- app_assoc.
Qed.

(** The part of row [i] to the left of the diagonal counts nothing. *)
Lemma pair_weight_row_left gs i n :
  n <= i -> sum_list_with (pair_weight gs i) (seq 0 n) = 0.
Proof.
  intros Hn. induction n as [|n IH]; [done|].
  rewrite seq_S, sum_list_with_app, IH by lia. cbn.
  unfold pair_weight. destruct (gs !! i), (gs !! n); try done.
  case_decide; [lia|done].
Qed.

Lemma pair_weight_row pre g l :
  sum_list_with (pair_weight (pre ++ g :: l) (length pre))
                (seq 0 (length (pre ++ g :: l)))
  = count_if (counted_pair g) l.
Proof.
  assert (Hg : (pre ++ g :: l) !! length pre = Some g) by by rewrite list_lookup_middle.
  rewrite length_app. cbn [length].
  rewrite seq_app, sum_list_with_app, pair_weight_row_left by done.
  cbn [seq sum_list_with Nat.add].
  replace (pair_weight (pre ++ g :: l) (length pre) (length pre)) with 0.
  2:{ unfold pair_weight. rewrite Hg. case_decide; [|done].
      by rewrite counted_pair_irrefl. }
  cbn.
  pose proof (pair_weight_row_right (pre ++ g :: l) (length pre) g (pre ++ [g]) l) as H.
  rewrite length_app in H. cbn in H. rewrite Nat.add_1_r in H.
  apply H; [by rewrite <- app_assoc | done | lia].
Qed.

Lemma event_weight_sum st pre l :
  sum_list_with (event_weight st (pre ++ l)) (seq (length pre) (length l))
  = counted_conflicts st l.
Proof.
  revert pre. induction l as [|g l IH]; intros pre; [done|].
  cbn [length seq sum_list_with].
  specialize (IH (pre ++ [g])). rewrite length_app in IH. cbn in IH.
  rewrite Nat.add_1_r, <- app_assoc in IH. cbn in IH. rewrite IH.
  unfold event_weight. rewrite list_lookup_middle by done.
  rewrite pair_weight_row.
  unfold counted_conflicts. cbn [count_if unordered_pairs].
  rewrite count_if_app, count_if_pairs. cbn.
  change (count_if (fun y : gene => counted_pair g y) l) with (count_if (counted_pair g) l).
  lia.
Qed.

(** The two nested loops count [counted_conflicts]. *)
Lemma event_weight_total st gs :
  sum_list_with (event_weight st gs) (seq 0 (length gs)) = counted_conflicts st gs.
Proof. apply (event_weight_sum st [] gs). Qed.

(** ** [calculateFitness] and the fitness getter *)

Lemma state_eq st st' :
  st_rooms st = st_rooms st' -> st_events st = st_events st' ->
  st_schedules st = st_schedules st' ->
  EVENT_START_TIME st = EVENT_START_TIME st' ->
  EVENT_END_TIME st = EVENT_END_TIME st' ->
  st_random st = st_random st' -> st_drawn st = st_drawn st' ->
  st = st'.
Proof. destruct st, st'; cbn. by intros -> -> -> -> -> -> ->. Qed.

Lemma alter_insert_Some {A} (f : A -> A) (l : list A) i x :
  l !! i = Some x -> alter f i l = <[i := f x]> l.
Proof.
  intros H. rewrite list_insert_alter. apply list_alter_ext; [|done].
  intros y Hy. congruence.
Qed.

Lemma room_unavailable_ext st st' g :
  st_rooms st' = st_rooms st -> EVENT_START_TIME st' = EVENT_START_TIME st ->
  room_unavailable st' g = room_unavailable st g.
Proof. unfold room_unavailable. by intros -> ->. Qed.

Lemma count_if_ext_all {A} (p q : A -> bool) (l : list A) :
  (forall x, p x = q x) -> count_if p l = count_if q l.
Proof. intros H. apply count_if_ext. auto. Qed.

Lemma counted_conflicts_ext st st' gs :
  st_rooms st' = st_rooms st -> EVENT_START_TIME st' = EVENT_START_TIME st ->
  counted_conflicts st' gs = counted_conflicts st gs.
Proof.
  intros Hr Ht. unfold counted_conflicts. f_equal.
  apply count_if_ext_all. intros g. by apply room_unavailable_ext.
Qed.

Lemma event_weight_ext st st' gs i :
  st_rooms st' = st_rooms st -> EVENT_START_TIME st' = EVENT_START_TIME st ->
  event_weight st' gs i = event_weight st gs i.
Proof.
  intros Hr Ht. unfold event_weight. destruct (gs !! i); [|done].
  by rewrite (room_unavailable_ext st st').
Qed.

Lemma get_events_run a st s :
  st_schedules st !! a = Some s ->
  get_events a st
  = Ok (sch_events s)
       (with_schedules (fun h => alter (set_sch_isFitnessChanged true) a h) st).
Proof.
  intros Ha. unfold get_events.
  mrun ltac:(apply load_schedule_Ok; done).
  unfold update_schedule. erewrite bind_run; [|reflexivity].
  mrun ltac:(apply load_schedule_Ok; split; [|done];
             cbn [st_schedules with_schedules];
             rewrite list_lookup_alter_eq, Ha; reflexivity).
  done.
Qed.

Lemma calculateFitness_run a st s gs :
  st_schedules st !! a = Some s -> genes_of st (sch_events s) = Some gs ->
  calculateFitness a st
  = Ok (fitness_of_conflicts (counted_conflicts st gs))
       (calculated a s (counted_conflicts st gs) st).
Proof.
  intros Ha Hgs. unfold calculateFitness, update_schedule.
  erewrite bind_run; [|reflexivity].
  set (st1 := with_schedules _ st).
  assert (Ha1 : st_schedules st1 !! a = Some (set_sch_numOfConflicts (fun _ => 0) s)).
  { subst st1. cbn [st_schedules with_schedules]. by rewrite list_lookup_alter_eq, Ha. }
  mrun ltac:(apply get_events_run; exact Ha1).
  set (st2 := with_schedules _ st1). cbn [sch_events set_sch_numOfConflicts].
  unfold for_upto. rewrite <- (genes_of_length _ _ _ Hgs).
  erewrite bind_run; cycle 1.
  { apply (for_each_counting a (event_weight st gs)
             (fun st' => st_events st' = st_events st /\ st_rooms st' = st_rooms st
                         /\ EVENT_START_TIME st' = EVENT_START_TIME st)).
    - intros i st' Hi (He & Hr & Ht).
      rewrite <- (event_weight_ext st st') by done.
      apply calculateFitness_event_run.
      + by rewrite (genes_of_ext st st').
      + apply elem_of_seq in Hi. lia.
    - by intros st' (He & Hr & Ht).
    - done. }
  rewrite event_weight_total.
  set (c := counted_conflicts st gs).
  pose proof (iter_count_state_fields c a st2) as (He & Hr & Ht0 & Ht1 & Hrand & Hd).
  pose proof (iter_count_state_schedules c a st2) as Hs.
  assert (Hfinal : Nat.iter c (count_state a) st2 = calculated a s c st).
  { apply state_eq; try done.
    rewrite Hs. subst st2 st1. cbn [st_schedules with_schedules calculated].
    rewrite !list_alter_alter_eq. rewrite (alter_insert_Some _ _ _ _ Ha).
    f_equal. unfold compose, set_sch_numOfConflicts, set_sch_isFitnessChanged. cbn.
    by rewrite Nat.add_0_r. }
  rewrite Hfinal.
  mrun ltac:(apply load_schedule_Ok; split; [|done];
             cbn [st_schedules with_schedules calculated];
             apply list_lookup_insert_eq; by eapply lookup_lt_Some).
  unfold ret. cbn [sch_numOfConflicts]. by rewrite ?Hfinal.
Qed.

Lemma fitness_run_changed a st s gs :
  st_schedules st !! a = Some s -> genes_of st (sch_events s) = Some gs ->
  sch_isFitnessChanged s = true ->
  fitness a st
  = Ok (fitness_of_conflicts (counted_conflicts st gs))
       (refreshed a s (counted_conflicts st gs) st).
Proof.
  intros Ha Hgs Hflag. unfold fitness.
  mrun ltac:(apply load_schedule_Ok; done).
  rewrite Hflag.
  erewrite bind_run; cycle 1.
  { mrun ltac:(apply calculateFitness_run; done).
    unfold update_schedule. erewrite bind_run; [|reflexivity]. reflexivity. }
  set (c := counted_conflicts st gs).
  assert (Hlen : a < length (st_schedules st)) by by eapply lookup_lt_Some.
  match goal with |- bind _ _ ?st' = _ =>
    assert (Hfinal : st' = refreshed a s c st) end.
  { apply state_eq; try done.
    cbn [st_schedules with_schedules calculated refreshed].
    rewrite list_alter_alter_eq.
    erewrite alter_insert_Some by (by apply list_lookup_insert_eq).
    by rewrite list_insert_insert_eq. }
  rewrite Hfinal.
  mrun ltac:(apply load_schedule_Ok; split; [|done];
             cbn [st_schedules with_schedules refreshed];
             by apply list_lookup_insert_eq).
  unfold ret. cbn [sch_fitness]. by rewrite ?Hfinal.
Qed.

Lemma fitness_run_cached a st s :
  st_schedules st !! a = Some s -> sch_isFitnessChanged s = false ->
  fitness a st = Ok (sch_fitness s) st.
Proof.
  intros Ha Hflag. unfold fitness.
  mrun ltac:(apply load_schedule_Ok; done).
  rewrite Hflag.
  erewrite bind_run; [|reflexivity].
  mrun ltac:(apply load_schedule_Ok; done).
  done.
Qed.
Lemma fitness_of_conflicts_canon c :
  (fitness_of_conflicts c == 1 # Pos.of_succ_nat c)%Q.
Proof.
  unfold fitness_of_conflicts.
  assert (H : (inject_Z (Z.of_nat c) + 1 == inject_Z (Z.pos (Pos.of_succ_nat c)))%Q).
  { rewrite Zpos_P_of_succ_nat. unfold Z.succ. rewrite inject_Z_plus. reflexivity. }
  rewrite H, Qmult_1_l.
  unfold Qdiv. rewrite Qmult_1_l. reflexivity.
Qed.

Lemma fitness_of_conflicts_formula c :
  (fitness_of_conflicts c == 1 / (1 + inject_Z (Z.of_nat c)))%Q.
Proof. unfold fitness_of_conflicts. by rewrite Qmult_1_l, Qplus_comm. Qed.

Lemma fitness_of_conflicts_range c :
  (0 < fitness_of_conflicts c /\ fitness_of_conflicts c <= 1)%Q.
Proof.
  rewrite fitness_of_conflicts_canon. unfold Qlt, Qle. cbn. lia.
Qed.

Lemma fitness_of_conflicts_one c :
  (fitness_of_conflicts c == 1)%Q <-> c = 0.
Proof.
  rewrite fitness_of_conflicts_canon. unfold Qeq. cbn. lia.
Qed.

Lemma fitness_of_conflicts_le c1 c2 :
  (fitness_of_conflicts c1 <= fitness_of_conflicts c2)%Q <-> c2 <= c1.
Proof.
  rewrite !fitness_of_conflicts_canon. unfold Qle. cbn. lia.
Qed.

(** ** The count of the loops against the count of the specification *)

Lemma unordered_pairs_ids {A B} (f : A -> B) (l : list A) x y :
  NoDup (map f l) -> (x, y) ∈ unordered_pairs l -> f x <> f y.
Proof.
  induction l as [|z l IH]; cbn; intros Hnd Hin.
  - by apply elem_of_nil in Hin.
  - apply NoDup_cons in Hnd as [Hz Hnd].
    apply elem_of_app in Hin as [Hin|Hin]; [|by apply IH].
    apply list_elem_of_fmap in Hin as (y' & [= -> ->] & Hy).
    intros Heq. apply Hz. rewrite Heq. apply list_elem_of_fmap. by exists y'.
Qed.

Lemma counted_pair_double_booked g1 g2 :
  gene_id g1 <> gene_id g2 -> counted_pair g1 g2 = double_booked g1 g2.
Proof.
  intros Hid. unfold counted_pair, double_booked.
  apply Nat.eqb_neq in Hid. rewrite Hid. cbn.
  rewrite andb_true_r. apply andb_comm.
Qed.

(** On events with pairwise different ids the loops count exactly the
    conflicts of the specification. *)
Lemma counted_conflicts_conflict_count st gs :
  NoDup (map gene_id gs) -> counted_conflicts st gs = conflict_count st gs.
Proof.
  intros Hnd. unfold counted_conflicts, conflict_count. f_equal.
  apply count_if_ext. intros [x y] Hxy. cbn.
  apply counted_pair_double_booked. by eapply unordered_pairs_ids.
Qed.

(** The fitness read in a state whose caches are coherent. *)
Lemma fitness_run a st s gs :
  cache_ok st s ->
  st_schedules st !! a = Some s -> genes_of st (sch_events s) = Some gs ->
  exists st',
    fitness a st = Ok (fitness_of_conflicts (counted_conflicts st gs)) st'
    /\ (st' = st \/ st' = refreshed a s (counted_conflicts st gs) st)
    /\ numOfConflicts a st' = Ok (counted_conflicts st gs) st'.
Proof.
  intros Hc Ha Hgs. destruct (sch_isFitnessChanged s) eqn:Hflag.
  - eexists. split; [by apply fitness_run_changed|]. split; [by right|].
    unfold numOfConflicts.
    mrun ltac:(apply load_schedule_Ok; split; [|done];
               cbn [st_schedules with_schedules refreshed];
               apply list_lookup_insert_eq; by eapply lookup_lt_Some).
    reflexivity.
  - destruct (Hc Hflag) as (gs' & Hgs' & Hn & Hf).
    assert (gs' = gs) as -> by congruence.
    exists st. rewrite <- Hf. split; [by apply fitness_run_cached|].
    split; [by left|]. unfold numOfConflicts.
    mrun ltac:(apply load_schedule_Ok; done). unfold ret. by rewrite Hn.
Qed.

(** C1. For every chromosome whose events all carry an assigned room and
    time slot (and, being one per problem event, pairwise different ids),
    the fitness equals 1/(1+C), where C counts one penalty per event
    whose room is unavailable at its slot plus one per unordered pair of
    distinct events sharing room and slot; hence the fitness lies in
    (0,1] and is 1 exactly when C = 0. This is what [calculateFitness]
    returns, and what a fitness read returns when the cache of the
    chromosome is coherent; the conflict count the chromosome reports
    afterwards is C. *)
Theorem fitness_is_inverse_of_conflict_count st a s gs :
  st_schedules st !! a = Some s ->
  genes_of st (sch_events s) = Some gs ->
  NoDup (map gene_id gs) ->
  exists f,
    (f == 1 / (1 + inject_Z (Z.of_nat (conflict_count st gs))))%Q
    /\ (0 < f)%Q /\ (f <= 1)%Q
    /\ ((f == 1)%Q <-> conflict_count st gs = 0)
    /\ (exists st', calculateFitness a st = Ok f st')
    /\ (cache_ok st s ->
        exists st', fitness a st = Ok f st'
                    /\ numOfConflicts a st' = Ok (conflict_count st gs) st').
Proof.
  intros Ha Hgs Hnd.
  exists (fitness_of_conflicts (conflict_count st gs)).
  split; [apply fitness_of_conflicts_formula|].
  split; [apply fitness_of_conflicts_range|].
  split; [apply fitness_of_conflicts_range|].
  split; [apply fitness_of_conflicts_one|].
  rewrite <- (counted_conflicts_conflict_count st gs Hnd). split.
  - eexists. by apply calculateFitness_run.
  - intros Hc. destruct (fitness_run a st s gs Hc Ha Hgs) as (st' & Hf & _ & Hn).
    by exists st'.
Qed.


(** ** What the operations leave in place *)

Lemma not_nobody a : ~ nobody a.
Proof. by intros []. Qed.

Lemma evolves_refl P st : evolves P st st.
Proof. split; try done. intros a s Ha. by exists s. Qed.

Lemma evolves_weaken (P Q : sref -> Prop) st st' :
  (forall a, P a -> Q a) -> evolves P st st' -> evolves Q st st'.
Proof.
  intros HPQ [Hr H0 H1 Hrand He Hs Hc]. split; try done.
  intros a s Ha. destruct (Hs a s Ha) as (s' & Ha' & Hd & Hev).
  exists s'. split; [done|]. split; [done|]. intros HQ. apply Hev. naive_solver.
Qed.

Lemma evolves_trans P st1 st2 st3 :
  evolves P st1 st2 -> evolves P st2 st3 -> evolves P st1 st3.
Proof.
  intros [Hr H0 H1 Hrand He Hs Hc] [Hr' H0' H1' Hrand' He' Hs' Hc'].
  split; try congruence; auto.
  intros a s Ha. destruct (Hs a s Ha) as (s' & Ha' & Hd & Hev).
  destruct (Hs' a s' Ha') as (s'' & Ha'' & Hd' & Hev').
  exists s''. split; [done|]. split; [congruence|].
  intros HP. rewrite Hev', Hev; done.
Qed.

(** Schedules that did not exist before do not count as modified. *)
Lemma evolves_fresh (P : sref -> Prop) st st' :
  (forall a, P a -> st_schedules st !! a = None) ->
  evolves P st st' -> evolves nobody st st'.
Proof.
  intros Hfresh [Hr H0 H1 Hrand He Hs Hc]. split; try done.
  intros a s Ha. destruct (Hs a s Ha) as (s' & Ha' & Hd & Hev).
  exists s'. split; [done|]. split; [done|]. intros _. apply Hev.
  intros HP. apply Hfresh in HP. congruence.
Qed.

Lemma evolves_gene_of P st st' v g :
  evolves P st st' -> gene_of st v = Some g -> gene_of st' v = Some g.
Proof.
  intros Hev. rewrite !gene_of_Some.
  intros (e & ev & room & -> & He & Hroom & Hr & Ht & Hid).
  exists e, ev, room. rewrite (ev_rooms _ _ _ Hev).
  repeat split; try done. by apply (ev_events _ _ _ Hev).
Qed.

Lemma evolves_genes_of P st st' events gs :
  evolves P st st' -> genes_of st events = Some gs -> genes_of st' events = Some gs.
Proof.
  intros Hev. rewrite !genes_of_Some. intros H.
  eapply Forall2_impl; [exact H|].
  intros v g. by apply (evolves_gene_of P).
Qed.

Lemma evolves_counted_conflicts P st st' gs :
  evolves P st st' -> counted_conflicts st' gs = counted_conflicts st gs.
Proof.
  intros Hev. apply counted_conflicts_ext; [apply (ev_rooms _ _ _ Hev)|apply (ev_start _ _ _ Hev)].
Qed.

(** Coherence moves along a change of state that keeps rooms, clock and
    old events, as long as every schedule whose flag is down afterwards
    was there before with the same events and cache. *)
Lemma Coherent_transfer st st' :
  st_rooms st' = st_rooms st ->
  EVENT_START_TIME st' = EVENT_START_TIME st ->
  (forall e ev, st_events st !! e = Some ev -> st_events st' !! e = Some ev) ->
  (forall a s', st_schedules st' !! a = Some s' -> sch_isFitnessChanged s' = false ->
     exists s, st_schedules st !! a = Some s /\ sch_isFitnessChanged s = false
               /\ sch_events s' = sch_events s
               /\ sch_numOfConflicts s' = sch_numOfConflicts s
               /\ sch_fitness s' = sch_fitness s) ->
  Coherent st -> Coherent st'.
Proof.
  intros Hr Ht He Hs Hco a s' Ha' Hflag'.
  destruct (Hs a s' Ha' Hflag') as (s & Ha & Hflag & Hevs & Hn & Hf).
  destruct (Hco a s Ha Hflag) as (gs & Hgs & Hn0 & Hf0).
  exists gs. rewrite Hevs, Hn, Hf, Hn0, Hf0.
  rewrite (counted_conflicts_ext st st') by done.
  split; [|done].
  apply genes_of_Some. apply genes_of_Some in Hgs.
  eapply Forall2_impl; [exact Hgs|]. intros v g. cbn.
  rewrite !gene_of_Some.
  intros (e & ev & room & -> & Hev & Hroom & Hrr & Htt & Hid).
  exists e, ev, room. rewrite Hr. repeat split; try done. by apply He.
Qed.

Lemma evolves_with_drawn P n st : evolves P st (with_drawn n st).
Proof.
  split; try done.
  - intros a s Ha. by exists s.
  - apply Coherent_transfer; try done. intros a s Ha Hflag. by exists s.
Qed.

Lemma Math_random_Ok st r st' :
  Math_random st = Ok r st' ->
  r = st_random st (st_drawn st) /\ st' = with_drawn (S (st_drawn st)) st.
Proof. by intros [= <- <-]. Qed.

Lemma random_index_Ok n st i st' :
  random_index n st = Ok i st' ->
  i = Qfloor (st_random st (st_drawn st) * inject_Z (Z.of_nat n))
  /\ st' = with_drawn (S (st_drawn st)) st.
Proof. by intros [= <- <-]. Qed.

Lemma evolves_set_flag a st :
  evolves nobody st
    (with_schedules (fun h => alter (set_sch_isFitnessChanged true) a h) st).
Proof.
  split; try done.
  - intros b s Hb. cbn [st_schedules with_schedules].
    destruct (decide (a = b)) as [->|Hne].
    + rewrite list_lookup_alter_eq, Hb. cbn. by eexists.
    + rewrite list_lookup_alter_ne by done. by exists s.
  - apply Coherent_transfer; try done.
    intros b s' Hb Hflag. cbn [st_schedules with_schedules] in Hb.
    destruct (decide (a = b)) as [->|Hne].
    + rewrite list_lookup_alter_eq in Hb.
      destruct (st_schedules st !! b); [|done]. injection Hb as <-. done.
    + rewrite list_lookup_alter_ne in Hb by done. by exists s'.
Qed.

Lemma get_events_Ok a st events st' :
  get_events a st = Ok events st' ->
  exists s, st_schedules st !! a = Some s /\ events = sch_events s
            /\ st' = with_schedules (fun h => alter (set_sch_isFitnessChanged true) a h) st.
Proof.
  intros H. destruct (st_schedules st !! a) as [s|] eqn:Ha.
  - rewrite (get_events_run a st s Ha) in H. injection H as <- <-. by exists s.
  - unfold get_events in H. rewrite (bind_Throw _ _ _ TypeError) in H; [done|].
    unfold load_schedule. by rewrite Ha.
Qed.

(** ** [initialize] *)

Lemma isAvailable_Ok room ts st v st' :
  isAvailable room ts st = Ok v st' -> st' = st.
Proof.
  intros H. unfold isAvailable in H. inv_bind H. inv_bind H.
  apply load_room_Ok in H0 as [_ ->]. apply defined_Ok in H1 as [_ ->].
  by injection H as _ <-.
Qed.

Lemma filter_available_Ok rooms ts st l st' :
  filter_available rooms ts st = Ok l st' -> st' = st.
Proof.
  revert l st'. induction rooms as [|room rooms IH]; intros l st' H; cbn in H.
  - by injection H as _ <-.
  - inv_bind H. inv_bind H. apply isAvailable_Ok in H0 as ->.
    apply IH in H1 as ->. by injection H as _ <-.
Qed.

Lemma getRandomTimeSlot_Ok st ts st' :
  getRandomTimeSlot st = Ok ts st' -> st' = with_drawn (S (st_drawn st)) st.
Proof.
  intros H. unfold getRandomTimeSlot in H. inv_bind H. injection H0 as <- <-.
  inv_bind H. apply random_index_Ok in H0 as [_ ->]. by injection H as _ <-.
Qed.

Lemma random_index_range n st i st' :
  random_ok st -> 0 < n -> random_index n st = Ok i st' ->
  (0 <= i < Z.of_nat n)%Z.
Proof.
  intros Hok Hn [-> _]%random_index_Ok.
  destruct (Hok (st_drawn st)) as [H0 H1].
  set (r := st_random st (st_drawn st)) in *.
  assert (Hn' : (0 < inject_Z (Z.of_nat n))%Q).
  { change 0%Q with (inject_Z 0). rewrite <- Zlt_Qlt. lia. }
  split.
  - change 0%Z with (Qfloor 0). apply Qfloor_resp_le.
    apply Qmult_le_0_compat; [done|]. by apply Qlt_le_weak.
  - rewrite Zlt_Qlt. eapply Qle_lt_trans; [apply Qfloor_le|].
    rewrite <- (Qmult_1_l (inject_Z (Z.of_nat n))) at 2.
    by apply Qmult_lt_compat_r.
Qed.

Lemma nth_Z_in_range {A} (l : list A) i :
  (0 <= i < Z.of_nat (length l))%Z -> exists x, nth_Z l i = Some x /\ x ∈ l.
Proof.
  intros Hi. unfold nth_Z. destruct (Z.ltb_spec i 0); [lia|].
  destruct (lookup_lt_is_Some_2 l (Z.to_nat i)) as [x Hx]; [lia|].
  exists x. split; [done|]. by eapply list_elem_of_lookup_2.
Qed.

Lemma filter_available_rooms rooms ts st l st' :
  filter_available rooms ts st = Ok l st' ->
  (rooms <> [] -> is_Some ts)
  /\ forall r, r ∈ l -> r ∈ rooms /\ is_Some (st_rooms st !! r).
Proof.
  revert l st'. induction rooms as [|room rooms IH]; intros l st' H; cbn in H.
  - injection H as <- <-. split; [done|]. intros r Hr. by apply elem_of_nil in Hr.
  - inv_step H as v st1 Hv. inv_step H as rest st2 Hrest.
    pose proof (isAvailable_Ok _ _ _ _ _ Hv) as ->.
    pose proof (filter_available_Ok _ _ _ _ _ Hrest) as ->.
    apply IH in Hrest as [_ Hrest]. injection H as <-.
    unfold isAvailable in Hv. inv_step Hv as rm st1 Hrm.
    apply load_room_Ok in Hrm as [Hrm ->].
    inv_step Hv as t st1 Ht. apply defined_Ok in Ht as [-> ->].
    split; [by eexists|].
    intros r Hr. destruct (truthy v).
    + apply elem_of_cons in Hr as [->|Hr].
      * split; [left|by eexists].
      * destruct (Hrest r Hr). split; [by right|done].
    + destruct (Hrest r Hr). split; [by right|done].
Qed.

Lemma getAvailableRoom_Ok a ts st room st' :
  getAvailableRoom a ts st = Ok room st' ->
  st' = with_drawn (S (st_drawn st)) st
  /\ is_Some ts
  /\ (random_ok st ->
      exists s r, st_schedules st !! a = Some s /\ room = Some r
                  /\ r ∈ data_rooms (sch_data s) /\ is_Some (st_rooms st !! r)).
Proof.
  intros H. unfold getAvailableRoom in H. inv_step H as s st1 Ha.
  apply load_schedule_Ok in Ha as [Ha ->]. inv_step H as avail st1 Havail.
  pose proof (filter_available_Ok _ _ _ _ _ Havail) as ->.
  apply filter_available_rooms in Havail as [Hts Havail].
  case_decide as Hlen; [done|]. inv_step H as i st1 Hi. injection H as <- <-.
  split; [by apply random_index_Ok in Hi as [_ ->]|]. split.
  - apply Hts. intros Hnil. destruct avail as [|r avail]; [done|].
    destruct (Havail r) as [Hr _]; [left|]. rewrite Hnil in Hr.
    by apply elem_of_nil in Hr.
  - intros Hok. apply random_index_range in Hi; [|done|lia].
    destruct (nth_Z_in_range avail i Hi) as (r & Hr & Hin).
    exists s, r. destruct (Havail r Hin). done.
Qed.

Lemma initialize_step_Ok a i st st' :
  initialize_step a i st = Ok tt st' ->
  exists s name room t,
    st_schedules st !! a = Some s
    /\ st_rooms st' = st_rooms st
    /\ EVENT_START_TIME st' = EVENT_START_TIME st
    /\ EVENT_END_TIME st' = EVENT_END_TIME st
    /\ st_random st' = st_random st
    /\ st_events st' = st_events st ++ [mkEvent (sch_eventNum s) name room (Some t)]
    /\ st_schedules st'
       = <[a := mkSchedule (sch_data s) (sch_events s ++ [Some (length (st_events st))])
                           (sch_numOfConflicts s) (sch_fitness s)
                           (S (sch_eventNum s)) (sch_isFitnessChanged s)]>
           (st_schedules st)
    /\ (random_ok st ->
        exists r, room = Some r /\ r ∈ data_rooms (sch_data s)
                  /\ is_Some (st_rooms st !! r)).
Proof.
  intros H. unfold initialize_step in H.
  inv_step H as s st1 Ha. apply load_schedule_Ok in Ha as [Ha ->].
  inv_step H as dataEvent st1 Hd. apply defined_Ok in Hd as [Hd ->].
  inv_step H as newEvent st1 Hnew. injection Hnew as <- <-.
  inv_step H as u st1 Hnum. injection Hnum as _ <-.
  inv_step H as ts st1 Hts. apply getRandomTimeSlot_Ok in Hts as ->.
  inv_step H as u' st1 Hset. injection Hset as _ <-.
  inv_step H as room st1 Hroom.
  apply getAvailableRoom_Ok in Hroom as (-> & [t ->] & Hroom).
  inv_step H as u'' st1 Hset. injection Hset as _ <-.
  injection H as <-.
  exists s, (ev_name dataEvent), room, t.
  split; [done|]. cbn.
  repeat split; try done.
  - rewrite list_alter_alter_eq.
    rewrite alter_app_r_alt by done. by rewrite Nat.sub_diag.
  - rewrite list_alter_alter_eq. by rewrite (alter_insert_Some _ _ _ _ Ha).
  - intros Hok. destruct (Hroom Hok) as (s' & r & Hs' & -> & Hr & Hvalid).
    cbn in Hs'. rewrite list_lookup_alter_eq, Ha in Hs'. injection Hs' as <-.
    by exists r.
Qed.

Lemma initialize_step_evolves a i st st' :
  initialize_step a i st = Ok tt st' ->
  (forall s, st_schedules st !! a = Some s -> sch_isFitnessChanged s = true) ->
  evolves (eq a) st st'.
Proof.
  intros H Hflag.
  apply initialize_step_Ok in H
    as (s & name & room & ts & Ha & Hr & H0 & H1 & Hrand & He & Hs & _).
  assert (Hevents : forall e ev, st_events st !! e = Some ev -> st_events st' !! e = Some ev).
  { intros e ev Hev. rewrite He. by apply lookup_app_l_Some. }
  split; try done.
  - intros b s0 Hb. rewrite Hs. destruct (decide (a = b)) as [<-|Hne].
    + rewrite list_lookup_insert_eq by (by eapply lookup_lt_Some).
      eexists. split; [done|]. cbn. split; [congruence|]. done.
    + rewrite list_lookup_insert_ne by done. by exists s0.
  - apply Coherent_transfer; try done.
    intros b s' Hb Hflag'. rewrite Hs in Hb.
    destruct (decide (a = b)) as [<-|Hne].
    + rewrite list_lookup_insert_eq in Hb by (by eapply lookup_lt_Some).
      injection Hb as <-. cbn in Hflag'. rewrite (Hflag s Ha) in Hflag'. done.
    + rewrite list_lookup_insert_ne in Hb by done. by exists s'.
Qed.

(** A loop that returned kept its invariant: [I done st] speaks of the
    state after the rounds for the indices in [done]. *)
Lemma for_each_Ok {A} (I : list A -> State -> Prop) (body : A -> M unit) l st st' :
  for_each l body st = Ok tt st' ->
  I [] st ->
  (forall done x rest st1 st2,
     l = done ++ x :: rest -> I done st1 -> body x st1 = Ok tt st2 -> I (done ++ [x]) st2) ->
  I l st'.
Proof.
  intros Hrun Hinit Hstep.
  assert (Hgen : forall rest done st1,
    l = done ++ rest -> I done st1 -> for_each rest body st1 = Ok tt st' -> I l st').
  { induction rest as [|x rest IH]; intros done st1 Hl HI Hfor.
    - rewrite app_nil_r in Hl. subst done. by injection Hfor as <-.
    - cbn in Hfor. inv_step Hfor as u st2 Hx. destruct u.
      apply (IH (done ++ [x]) st2); [by rewrite <- app_assoc| |done].
      by eapply Hstep. }
  by apply (Hgen l [] st).
Qed.

Lemma schedule_eta s :
  mkSchedule (sch_data s) (sch_events s) (sch_numOfConflicts s) (sch_fitness s)
             (sch_eventNum s) (sch_isFitnessChanged s) = s.
Proof. by destruct s. Qed.

Lemma initialize_Ok a st r st' :
  initialize a st = Ok r st' ->
  r = a /\
  exists s new,
    st_schedules st !! a = Some s
    /\ length new = length (data_events (sch_data s))
    /\ st_schedules st' !! a
       = Some (mkSchedule (sch_data s) (sch_events s ++ map Some new)
                          (sch_numOfConflicts s) (sch_fitness s)
                          (sch_eventNum s + length new) (sch_isFitnessChanged s))
    /\ (forall k e, new !! k = Some e ->
          initialized_event st st' (sch_data s) (sch_eventNum s + k) e)
    /\ (sch_isFitnessChanged s = true -> evolves (eq a) st st').
Proof.
  intros H. unfold initialize in H.
  inv_step H as s st1 Ha. apply load_schedule_Ok in Ha as [Ha ->].
  inv_step H as u st1 Hloop. injection H as <- <-. split; [done|].
  rename st1 into st'. exists s.
  pose (I := fun (done : list nat) (st1 : State) =>
    exists new,
      length new = length done
      /\ st_schedules st1 !! a
         = Some (mkSchedule (sch_data s) (sch_events s ++ map Some new)
                            (sch_numOfConflicts s) (sch_fitness s)
                            (sch_eventNum s + length new) (sch_isFitnessChanged s))
      /\ length (st_events st) <= length (st_events st1)
      /\ st_rooms st1 = st_rooms st /\ st_random st1 = st_random st
      /\ (forall k e, new !! k = Some e ->
            initialized_event st st1 (sch_data s) (sch_eventNum s + k) e)
      /\ (sch_isFitnessChanged s = true -> evolves (eq a) st st1)).
  destruct u. apply (for_each_Ok I) in Hloop.
  - destruct Hloop as (new & Hlen & Ha' & _ & _ & _ & Hnew & Hev).
    exists new. rewrite length_seq in Hlen. done.
  - exists []. cbn. rewrite app_nil_r, Nat.add_0_r, schedule_eta.
    split; [done|]. split; [done|]. split; [done|]. split; [done|]. split; [done|].
    split; [intros k e Hk; by rewrite lookup_nil in Hk|].
    intros Hflag. apply evolves_refl.
  - clear Hloop st'.
    intros done i rest st1 st2 _ (new & Hlen & Ha1 & Hle & Hrooms & Hrand & Hnew & Hev) Hstep.
    pose proof Hstep as Hstep'.
    apply initialize_step_Ok in Hstep
      as (s1 & name & room & t & Ha1' & Hr2 & _ & _ & Hrand2 & He & Hs & Hroom).
    rewrite Ha1 in Ha1'. injection Ha1' as <-. cbn in Hs, Hroom.
    exists (new ++ [length (st_events st1)]).
    rewrite !length_app, Hlen. cbn. split; [done|]. split.
    { rewrite Hs, list_lookup_insert_eq by (by eapply lookup_lt_Some).
      rewrite map_app, app_assoc. cbn. do 2 f_equal. lia. }
    split. { rewrite He, length_app. lia. }
    split; [congruence|]. split; [congruence|].
    split.
    { intros k e Hk. apply lookup_app_Some in Hk as [Hk|[Hge Hk]].
      - destruct (Hnew k e Hk) as (Hlt & ev & t' & Hev1 & Hid & Ht & Hroom').
        split; [done|]. exists ev, t'. split; [|done].
        rewrite He. by apply lookup_app_l_Some.
      - apply list_lookup_singleton_Some in Hk as [Hk <-].
        split; [done|]. eexists _, t. split.
        + rewrite He. apply list_lookup_middle. done.
        + cbn. split; [lia|]. split; [done|]. intros Hok.
          destruct Hroom as (r & -> & Hr & Hvalid).
          { intros n. rewrite Hrand. apply Hok. }
          exists r. by rewrite <- Hrooms. }
    intros Hflag. eapply evolves_trans; [by apply Hev|].
    eapply initialize_step_evolves; [done|].
    intros s1 Hs1. rewrite Ha1 in Hs1. by injection Hs1 as <-.
Qed.

(** ** Arrays *)

Lemma js_set_length_in {A} (arr : array A) i v :
  i < length arr -> length (js_set arr i v) = length arr.
Proof. intros Hi. unfold js_set. case_decide; [|lia]. apply length_insert. Qed.

Lemma js_get_set_eq {A} (arr : array A) i v :
  js_get (js_set arr i v) i = v.
Proof.
  unfold js_get, js_set. case_decide.
  - by rewrite list_lookup_insert_eq.
  - rewrite lookup_app_r by lia. rewrite lookup_app_r; rewrite length_replicate; [|lia].
    replace (i - length arr - (i - length arr)) with 0 by lia. done.
Qed.

Lemma js_get_set_ne {A} (arr : array A) i j v :
  i <> j -> i < length arr -> js_get (js_set arr i v) j = js_get arr j.
Proof.
  intros Hne Hi. unfold js_get, js_set. case_decide; [|lia].
  by rewrite list_lookup_insert_ne.
Qed.

Lemma js_get_map_Some {A} (l : list A) i :
  js_get (map Some l) i = l !! i.
Proof. unfold js_get. rewrite list_lookup_fmap. by destruct (l !! i). Qed.

Lemma js_get_ge {A} (arr : array A) i : length arr <= i -> js_get arr i = None.
Proof. intros Hi. unfold js_get. by rewrite lookup_ge_None_2. Qed.

(** ** A freshly initialized schedule *)

Lemma evolves_new_schedule s st :
  sch_isFitnessChanged s = true ->
  evolves nobody st (with_schedules (fun h => h ++ [s]) st).
Proof.
  intros Hflag. split; try done.
  - intros a s0 Ha. exists s0. split; [|done]. cbn. by apply lookup_app_l_Some.
  - apply Coherent_transfer; try done.
    intros a s' Ha Hflag'. cbn in Ha.
    apply lookup_app_Some in Ha as [Ha|[_ Ha]]; [by exists s'|].
    apply list_lookup_singleton_Some in Ha as [_ <-]. congruence.
Qed.

Lemma fresh_schedule_Ok data st a st' :
  (let* a := ScheduleEvents_new data in initialize a) st = Ok a st' ->
  a = length (st_schedules st) /\
  exists new,
    length new = length (data_events data)
    /\ st_schedules st' !! a = Some (mkSchedule data (map Some new) 0 (-1) (length new) true)
    /\ (forall k e, new !! k = Some e -> initialized_event st st' data k e)
    /\ evolves nobody st st'.
Proof.
  intros H. inv_step H as a0 st1 Hnew. injection Hnew as <- <-.
  apply initialize_Ok in H as [-> (s & new & Ha & Hlen & Ha' & Hnew & Hev)].
  split; [done|].
  cbn in Ha. rewrite list_lookup_middle in Ha by done. injection Ha as <-.
  cbn in *. exists new. split; [done|]. split; [done|]. split; [done|].
  apply (evolves_fresh (eq (length (st_schedules st)))).
  { intros a <-. by apply lookup_ge_None_2. }
  eapply evolves_trans; [|by apply Hev].
  eapply evolves_weaken; [|by apply evolves_new_schedule]. done.
Qed.

(** ** Reading and replacing the events of a schedule *)

Lemma events_read_Ok a i st v st' :
  events_read a i st = Ok v st' ->
  exists s, st_schedules st !! a = Some s /\ v = js_get (sch_events s) i
            /\ st' = with_schedules (fun h => alter (set_sch_isFitnessChanged true) a h) st.
Proof.
  intros H. unfold events_read in H. inv_step H as events st1 Hget.
  apply get_events_Ok in Hget as (s & Ha & -> & ->). injection H as <- <-.
  by exists s.
Qed.

Lemma events_length_Ok a st n st' :
  events_length a st = Ok n st' ->
  exists s, st_schedules st !! a = Some s /\ n = length (sch_events s)
            /\ st' = with_schedules (fun h => alter (set_sch_isFitnessChanged true) a h) st.
Proof.
  intros H. unfold events_length in H. inv_step H as events st1 Hget.
  apply get_events_Ok in Hget as (s & Ha & -> & ->). injection H as <- <-.
  by exists s.
Qed.

Lemma evolves_alter a f st :
  (forall s, sch_data (f s) = sch_data s) ->
  (forall s, st_schedules st !! a = Some s -> sch_isFitnessChanged (f s) = true) ->
  evolves (eq a) st (with_schedules (fun h => alter f a h) st).
Proof.
  intros Hdata Hflag. split; try done.
  - intros b s Hb. cbn [st_schedules with_schedules].
    destruct (decide (a = b)) as [->|Hne].
    + rewrite list_lookup_alter_eq, Hb. cbn. eexists. split; [done|]. by split.
    + rewrite list_lookup_alter_ne by done. by exists s.
  - apply Coherent_transfer; try done.
    intros b s' Hb Hflag'. cbn [st_schedules with_schedules] in Hb.
    destruct (decide (a = b)) as [->|Hne].
    + rewrite list_lookup_alter_eq in Hb.
      destruct (st_schedules st !! b) as [s|] eqn:Hs; [|done]. injection Hb as <-.
      rewrite (Hflag s) in Hflag'; done.
    + rewrite list_lookup_alter_ne in Hb by done. by exists s'.
Qed.

(** The assignment [target.events[i] = source.events[i]] of crossover and
    mutation: the accessor of the target, the read of the source, the
    store. *)
Lemma replace_event_Ok target source i st st' :
  (let* _ := get_events target in
   let* v := events_read source i in
   events_write target i v) st = Ok tt st' ->
  exists t s,
    st_schedules st !! target = Some t
    /\ st_schedules st !! source = Some s
    /\ (exists t', st_schedules st' !! target = Some t'
                   /\ sch_events t' = js_set (sch_events t) i (js_get (sch_events s) i)
                   /\ sch_data t' = sch_data t
                   /\ sch_isFitnessChanged t' = true)
    /\ evolves (eq target) st st'.
Proof.
  intros H. inv_step H as events st1 Hget.
  apply get_events_Ok in Hget as (t & Ht & -> & ->).
  inv_step H as v st2 Hread.
  apply events_read_Ok in Hread as (s1 & Hs1 & -> & ->).
  injection H as <-.
  set (st1 := with_schedules _ st) in *.
  set (st2 := with_schedules _ st1) in *.
  assert (Ht1 : st_schedules st1 !! target = Some (set_sch_isFitnessChanged true t)).
  { subst st1. cbn [st_schedules with_schedules]. by rewrite list_lookup_alter_eq, Ht. }
  assert (exists s, st_schedules st !! source = Some s /\ sch_events s1 = sch_events s)
    as (s & Hs & Hevs).
  { subst st1. cbn [st_schedules with_schedules] in Hs1.
    destruct (decide (target = source)) as [->|Hne].
    - rewrite list_lookup_alter_eq, Ht in Hs1. injection Hs1 as <-. by exists t.
    - rewrite list_lookup_alter_ne in Hs1 by done. by exists s1. }
  assert (exists t2, st_schedules st2 !! target = Some t2
                     /\ sch_events t2 = sch_events t /\ sch_data t2 = sch_data t
                     /\ sch_isFitnessChanged t2 = true) as (t2 & Ht2 & Hevt & Hdt & Hft).
  { subst st2. cbn [st_schedules with_schedules].
    destruct (decide (source = target)) as [->|Hne].
    - rewrite list_lookup_alter_eq, Ht1. by eexists.
    - rewrite list_lookup_alter_ne by done. by eexists. }
  exists t, s. split; [done|]. split; [done|]. split.
  - cbn [st_schedules with_schedules]. fold st1. fold st2.
    rewrite list_lookup_alter_eq, Ht2. cbn. eexists. split; [done|].
    cbn. by rewrite Hevt, Hevs.
  - eapply evolves_trans; [eapply evolves_weaken; [|apply evolves_set_flag]; done|].
    fold st1.
    eapply evolves_trans; [eapply evolves_weaken; [|apply evolves_set_flag]; done|].
    fold st2. apply evolves_alter; [done|].
    intros t2' Ht2'. rewrite Ht2 in Ht2'. by injection Ht2' as <-.
Qed.

(** ** Crossover and mutation of one schedule *)

Lemma seq_split_index start n done x rest :
  seq start n = done ++ x :: rest -> x = start + length done /\ length done < n.
Proof.
  intros H. assert (Hx : seq start n !! length done = Some x).
  { rewrite H. by apply list_lookup_middle. }
  apply lookup_seq in Hx. lia.
Qed.

Lemma _crossoverSchedule_step_Ok c s1 schedule2 i st st' :
  _crossoverSchedule_step c s1 schedule2 i st = Ok tt st' ->
  exists p t s,
    (p = s1 \/ schedule2 = Some p)
    /\ st_schedules st !! c = Some t
    /\ st_schedules st !! p = Some s
    /\ (exists t', st_schedules st' !! c = Some t'
                   /\ sch_events t' = js_set (sch_events t) i (js_get (sch_events s) i)
                   /\ sch_data t' = sch_data t
                   /\ sch_isFitnessChanged t' = true)
    /\ evolves (eq c) st st'.
Proof.
  intros H. unfold _crossoverSchedule_step in H.
  inv_step H as r st1 Hr. apply Math_random_Ok in Hr as [_ ->].
  destruct (Qlt_le_dec (1 # 2) r).
  - apply replace_event_Ok in H as (t & s & Ht & Hs & Ht' & Hev).
    exists s1, t, s. split; [by left|]. split; [done|]. split; [done|].
    split; [done|]. eapply evolves_trans; [apply evolves_with_drawn|done].
  - inv_step H as events st1 Hget. inv_step H as s2 st2 Hdef.
    apply defined_Ok in Hdef as [-> ->].
    assert (Hrep : (let* _ := get_events c in
                    let* v := events_read s2 i in
                    events_write c i v) (with_drawn (S (st_drawn st)) st) = Ok tt st').
    { apply bind_Ok. by exists events, st1. }
    apply replace_event_Ok in Hrep as (t & s & Ht & Hs & Ht' & Hev).
    exists s2, t, s. split; [by right|]. split; [done|]. split; [done|].
    split; [done|]. eapply evolves_trans; [apply evolves_with_drawn|done].
Qed.

Lemma _crossoverSchedule_Ok schedule1 schedule2 st c st' :
  _crossoverSchedule schedule1 schedule2 st = Ok c st' ->
  exists s1 p1 child,
    schedule1 = Some s1
    /\ st_schedules st !! s1 = Some p1
    /\ c = length (st_schedules st)
    /\ st_schedules st' !! c = Some child
    /\ sch_data child = sch_data p1
    /\ length (sch_events child) = length (data_events (sch_data p1))
    /\ sch_isFitnessChanged child = true
    /\ evolves nobody st st'
    /\ forall i, i < length (sch_events child) ->
         exists p, (p = s1 \/ schedule2 = Some p)
                   /\ forall sp, st_schedules st !! p = Some sp ->
                        js_get (sch_events child) i = js_get (sch_events sp) i.
Proof.
  intros H. unfold _crossoverSchedule in H.
  inv_step H as s1 st1 Hdef. apply defined_Ok in Hdef as [-> ->].
  inv_step H as p1 st1 Hp1. apply load_schedule_Ok in Hp1 as [Hp1 ->].
  assert (Hfresh : (let* a := ScheduleEvents_new (sch_data p1) in initialize a) st
                   = (let* crossoverSchedule := ScheduleEvents_new (sch_data p1) in
                      initialize crossoverSchedule ;; ret crossoverSchedule) st).
  { unfold bind. destruct (ScheduleEvents_new (sch_data p1) st) as [a st1|]; [|done].
    destruct (initialize a st1) as [r st2|] eqn:Hinit; [|done].
    by apply initialize_Ok in Hinit as [-> _]. }
  inv_step H as c0 st1 Hnew. inv_step H as u st2 Hinit.
  assert (Hc : (let* a := ScheduleEvents_new (sch_data p1) in initialize a) st = Ok c0 st2).
  { apply bind_Ok. exists c0, st1. split; [done|].
    pose proof Hinit as Hinit'. apply initialize_Ok in Hinit' as [-> _]. done. }
  clear Hfresh Hnew Hinit st1 u.
  apply fresh_schedule_Ok in Hc as (-> & new & Hlen & Hc & _ & Hev0).
  set (c0 := length (st_schedules st)) in *.
  inv_step H as n st3 Hn.
  apply events_length_Ok in Hn as (sc & Hsc & -> & ->).
  rewrite Hc in Hsc. injection Hsc as <-. cbn [length sch_events] in H.
  rewrite length_map in H.
  inv_step H as u st4 Hloop. injection H as <- <-. destruct u.
  set (st3 := with_schedules _ st2) in *.
  assert (Hev3 : evolves nobody st2 st3) by apply evolves_set_flag.
  assert (Hc3 : st_schedules st3 !! c0
                = Some (mkSchedule (sch_data p1) (map Some new) 0 (-1) (length new) true)).
  { subst st3. cbn [st_schedules with_schedules].
    by rewrite list_lookup_alter_eq, Hc. }
  pose (I := fun (done : list nat) (stx : State) =>
    evolves (eq c0) st3 stx
    /\ exists t, st_schedules stx !! c0 = Some t
         /\ sch_data t = sch_data p1
         /\ length (sch_events t) = length new
         /\ sch_isFitnessChanged t = true
         /\ forall i, i < length done ->
              exists p, (p = s1 \/ schedule2 = Some p)
                /\ forall sp, st_schedules st !! p = Some sp ->
                     js_get (sch_events t) i = js_get (sch_events sp) i).
  apply (for_each_Ok I) in Hloop.
  - destruct Hloop as (Hev & t & Ht & Hdt & Hlt & Hft & Hcover).
    rewrite length_seq in Hcover.
    exists s1, p1, t. repeat (split; [done || congruence|]).
    split.
    + apply (evolves_fresh (eq c0)).
      { intros a <-. by apply lookup_ge_None_2. }
      eapply evolves_trans; [eapply evolves_weaken; [|exact Hev0]; done|].
      eapply evolves_trans; [eapply evolves_weaken; [|exact Hev3]; done|done].
    + intros i Hi. apply Hcover. lia.
  - split; [apply evolves_refl|]. eexists. split; [exact Hc3|]. cbn.
    rewrite length_map. repeat (split; [done|]). intros i Hi. cbn in Hi. lia.
  - clear Hloop. intros done i rest stx sty Hsplit (Hev & t & Ht & Hdt & Hlt & Hft & Hcover) Hstep.
    apply seq_split_index in Hsplit as [-> Hi]. cbn in Hi |- *.
    apply _crossoverSchedule_step_Ok in Hstep
      as (p & t0 & sp & Hp & Ht0 & Hsp & (t' & Ht' & Het' & Hdt' & Hft') & Hevs).
    rewrite Ht in Ht0. injection Ht0 as <-.
    split; [by eapply evolves_trans|].
    exists t'. split; [done|]. split; [congruence|].
    split; [rewrite Het', js_set_length_in; lia|]. split; [done|].
    intros j Hj. rewrite length_app in Hj. cbn in Hj. rewrite Het'.
    destruct (decide (j = length done)) as [->|Hne].
    + rewrite js_get_set_eq. exists p. split; [done|]. intros sp0 Hsp0.
      assert (Hold : evolves (eq c0) st stx).
      { eapply evolves_trans; [eapply evolves_weaken; [|exact Hev0]; done|].
        eapply evolves_trans; [eapply evolves_weaken; [|exact Hev3]; done|done]. }
      destruct (ev_schedules _ _ _ Hold p sp0 Hsp0) as (sp' & Hsp' & _ & Hsame).
      rewrite Hsp in Hsp'. injection Hsp' as <-.
      rewrite Hsame; [done|]. intros <-.
      apply lookup_lt_Some in Hsp0. subst c0. lia.
    + rewrite js_get_set_ne by lia. apply Hcover. lia.
Qed.

Lemma initialized_event_evolves P st st1 st2 data k e :
  initialized_event st st1 data k e -> evolves P st1 st2 ->
  initialized_event st st2 data k e.
Proof.
  intros (Hle & ev & t & Hev & Hid & Ht & Hroom) Hevolves.
  split; [done|]. exists ev, t. split; [|done]. by apply (ev_events _ _ _ Hevolves).
Qed.

Lemma _mutateSchedule_step_Ok m schedule i st st' :
  _mutateSchedule_step m schedule i st = Ok tt st' ->
  evolves (eq m) st st'
  /\ forall t, st_schedules st !! m = Some t ->
       exists t', st_schedules st' !! m = Some t'
         /\ sch_data t' = sch_data t
         /\ (sch_isFitnessChanged t = true -> sch_isFitnessChanged t' = true)
         /\ (sch_events t' = sch_events t
             \/ exists s, st_schedules st !! schedule = Some s
                  /\ sch_events t' = js_set (sch_events t) i (js_get (sch_events s) i)).
Proof.
  intros H. unfold _mutateSchedule_step in H.
  inv_step H as r st1 Hr. apply Math_random_Ok in Hr as [_ ->].
  destruct (Qlt_le_dec r MUTATION_RATE).
  - apply replace_event_Ok in H as (t & s & Ht & Hs & (t' & Ht' & Het' & Hdt' & Hft') & Hev).
    split; [eapply evolves_trans; [apply evolves_with_drawn|done]|].
    intros t0 Ht0. cbn in Ht. rewrite Ht0 in Ht. injection Ht as <-.
    exists t'. split; [done|]. split; [done|]. split; [done|]. right. by exists s.
  - injection H as <-. split; [apply evolves_with_drawn|].
    intros t Ht. exists t. split; [done|]. split; [done|]. split; [done|]. by left.
Qed.

Lemma _mutateSchedule_Ok mutateSchedule st r st' :
  _mutateSchedule mutateSchedule st = Ok r st' ->
  exists m sm sm' new,
    mutateSchedule = Some m /\ r = Some m
    /\ st_schedules st !! m = Some sm
    /\ evolves (eq m) st st'
    /\ st_schedules st' !! m = Some sm'
    /\ sch_data sm' = sch_data sm
    /\ length (sch_events sm') = length (sch_events sm)
    /\ sch_isFitnessChanged sm' = true
    /\ length new = length (data_events (sch_data sm))
    /\ (forall k e, new !! k = Some e -> initialized_event st st' (sch_data sm) k e)
    /\ forall i, i < length (sch_events sm) ->
         js_get (sch_events sm') i = js_get (sch_events sm) i
         \/ js_get (sch_events sm') i = new !! i.
Proof.
  intros H. unfold _mutateSchedule in H.
  inv_step H as m st1 Hdef. apply defined_Ok in Hdef as [-> ->].
  inv_step H as sm st1 Hsm. apply load_schedule_Ok in Hsm as [Hsm ->].
  inv_step H as f0 st1 Hnew. inv_step H as u st2 Hinit.
  assert (Hf : (let* a := ScheduleEvents_new (sch_data sm) in initialize a) st = Ok f0 st2).
  { apply bind_Ok. exists f0, st1. split; [done|].
    pose proof Hinit as Hinit'. apply initialize_Ok in Hinit' as [-> _]. done. }
  clear Hnew Hinit st1 u.
  apply fresh_schedule_Ok in Hf as (-> & new & Hlen & Hf & Hnew & Hev0).
  set (f0 := length (st_schedules st)) in *.
  assert (Hmf : m <> f0). { apply lookup_lt_Some in Hsm. subst f0. lia. }
  destruct (ev_schedules _ _ _ Hev0 m sm Hsm) as (sm2 & Hsm2 & Hd2 & He2).
  inv_step H as n st3 Hn.
  apply events_length_Ok in Hn as (sm2' & Hsm2' & -> & ->).
  rewrite Hsm2 in Hsm2'. injection Hsm2' as <-.
  inv_step H as u st4 Hloop. injection H as <- <-. destruct u.
  rename st4 into st'.
  set (st3 := with_schedules _ st2) in *.
  assert (Hev3 : evolves nobody st2 st3) by apply evolves_set_flag.
  assert (Hm3 : st_schedules st3 !! m = Some (set_sch_isFitnessChanged true sm2)).
  { subst st3. cbn [st_schedules with_schedules]. by rewrite list_lookup_alter_eq, Hsm2. }
  assert (Hf3 : st_schedules st3 !! f0
                = Some (mkSchedule (sch_data sm) (map Some new) 0 (-1) (length new) true)).
  { subst st3. cbn [st_schedules with_schedules]. by rewrite list_lookup_alter_ne. }
  rewrite He2 in * by (unfold nobody; tauto).
  pose (I := fun (done : list nat) (stx : State) =>
    evolves (eq m) st3 stx
    /\ exists t, st_schedules stx !! m = Some t
         /\ sch_data t = sch_data sm
         /\ length (sch_events t) = length (sch_events sm)
         /\ sch_isFitnessChanged t = true
         /\ forall i, i < length (sch_events sm) ->
              js_get (sch_events t) i = js_get (sch_events sm) i
              \/ js_get (sch_events t) i = new !! i).
  apply (for_each_Ok I) in Hloop.
  - destruct Hloop as (Hev & t & Ht & Hdt & Hlt & Hft & Hcover).
    assert (Hall : evolves (eq m) st st').
    { eapply evolves_trans; [eapply evolves_weaken; [|exact Hev0]; done|].
      eapply evolves_trans; [eapply evolves_weaken; [|exact Hev3]; done|done]. }
    exists m, sm, t, new. repeat (split; [done|]).
    split; [|done]. intros k e Hk.
    apply (initialized_event_evolves (eq m) st st2 st'); [by apply Hnew|].
    eapply evolves_trans; [eapply evolves_weaken; [|exact Hev3]; done|done].
  - split; [apply evolves_refl|]. eexists. split; [exact Hm3|]. cbn.
    rewrite He2 by (unfold nobody; tauto).
    repeat (split; [done|]). intros i Hi. by left.
  - clear Hloop. intros done i rest stx sty Hsplit (Hev & t & Ht & Hdt & Hlt & Hft & Hcover) Hstep.
    apply seq_split_index in Hsplit as [-> Hi]. cbn in Hi |- *.
    apply _mutateSchedule_step_Ok in Hstep as [Hevs Hstep].
    destruct (Hstep t Ht) as (t' & Ht' & Hdt' & Hft' & Het').
    split; [by eapply evolves_trans|].
    exists t'. split; [done|]. split; [congruence|].
    destruct Het' as [Het'|(s & Hs & Het')].
    + rewrite Het'. split; [done|]. split; [by apply Hft'|done].
    + split; [rewrite Het', js_set_length_in; lia|]. split; [by apply Hft'|].
      intros j Hj. rewrite Het'.
      destruct (decide (j = length done)) as [->|Hne].
      * rewrite js_get_set_eq. right.
        destruct (ev_schedules _ _ _ Hev f0 _ Hf3) as (s' & Hs' & _ & Hsame).
        rewrite Hs in Hs'. injection Hs' as <-.
        rewrite Hsame by done. cbn. apply js_get_map_Some.
      * rewrite js_get_set_ne by lia. by apply Hcover.
Qed.

(** ** A fitness read that returned *)

Lemma count_conflict_fields a st u st' :
  count_conflict a st = Ok u st' ->
  st_events st' = st_events st /\ st_rooms st' = st_rooms st
  /\ EVENT_START_TIME st' = EVENT_START_TIME st.
Proof. by intros [= _ <-]. Qed.

Lemma calculateFitness_pair_fields a events i j st st' :
  calculateFitness_pair a events i j st = Ok tt st' ->
  st_events st' = st_events st /\ st_rooms st' = st_rooms st
  /\ EVENT_START_TIME st' = EVENT_START_TIME st.
Proof.
  intros H. unfold calculateFitness_pair in H.
  case_decide as Hij; [|by injection H as <-].
  inv_step H as ei st1 H1. apply defined_Ok in H1 as [_ ->].
  inv_step H as evi st1 H1. apply load_event_Ok in H1 as [_ ->].
  inv_step H as ti st1 H1. apply defined_Ok in H1 as [_ ->].
  inv_step H as ej st1 H1. apply defined_Ok in H1 as [_ ->].
  inv_step H as evj st1 H1. apply load_event_Ok in H1 as [_ ->].
  inv_step H as tj st1 H1. apply defined_Ok in H1 as [_ ->].
  destruct (_ && _); [|by injection H as <-].
  destruct (bool_decide _); [|by injection H as <-].
  by apply count_conflict_fields in H.
Qed.

Lemma calculateFitness_event_Ok a events i st st' :
  calculateFitness_event a events i st = Ok tt st' ->
  (st_events st' = st_events st /\ st_rooms st' = st_rooms st
   /\ EVENT_START_TIME st' = EVENT_START_TIME st)
  /\ is_Some (gene_of st (js_get events i)).
Proof.
  intros H. unfold calculateFitness_event in H.
  inv_step H as ei st1 Hei. apply defined_Ok in Hei as [Hei ->].
  inv_step H as evi st1 Hevi. apply load_event_Ok in Hevi as [Hevi ->].
  inv_step H as room st1 Hroom. apply defined_Ok in Hroom as [Hroom ->].
  inv_step H as av st1 Hav.
  pose proof (isAvailable_Ok _ _ _ _ _ Hav) as ->.
  unfold isAvailable in Hav.
  inv_step Hav as rm st1 Hrm. apply load_room_Ok in Hrm as [Hrm ->].
  inv_step Hav as t st1 Ht. apply defined_Ok in Ht as [Ht ->]. clear Hav.
  inv_step H as u st1 Hcount.
  assert (Hf1 : st_events st1 = st_events st /\ st_rooms st1 = st_rooms st
                /\ EVENT_START_TIME st1 = EVENT_START_TIME st).
  { destruct (negb _); [by apply count_conflict_fields in Hcount|].
    by injection Hcount as _ <-. }
  split.
  - apply (for_each_Ok (fun _ stx =>
       st_events stx = st_events st /\ st_rooms stx = st_rooms st
       /\ EVENT_START_TIME stx = EVENT_START_TIME st)) in H; [done|done|].
    intros done j rest stx sty _ (He & Hr & Hs) Hpair.
    apply calculateFitness_pair_fields in Hpair as (He' & Hr' & Hs'). split; [|split]; congruence.
  - unfold gene_of. rewrite Hei, Hevi, Hroom, Ht, Hrm. by eexists.
Qed.

Lemma genes_of_is_Some st events :
  (forall i, i < length events -> is_Some (gene_of st (js_get events i))) ->
  is_Some (genes_of st events).
Proof.
  induction events as [|v events IH]; intros H; [by eexists|].
  cbn. destruct (H 0) as [g Hg]; [cbn; lia|]. cbn in Hg. rewrite Hg.
  destruct IH as [gs Hgs].
  - intros i Hi. apply (H (S i)). cbn. lia.
  - rewrite Hgs. by eexists.
Qed.

Lemma genes_of_positioned st events :
  (forall i, i < length events ->
     exists g, gene_of st (js_get events i) = Some g /\ gene_id g = i) ->
  exists gs, genes_of st events = Some gs /\ positioned gs.
Proof.
  intros H. destruct (genes_of_is_Some st events) as [gs Hgs].
  { intros i Hi. destruct (H i Hi) as (g & Hg & _). by eexists. }
  exists gs. split; [done|]. intros i g Hi.
  pose proof (genes_of_lookup _ _ _ _ _ Hgs Hi) as Hg.
  destruct (H i) as (g' & Hg' & Hid).
  { rewrite <- (genes_of_length _ _ _ Hgs). by eapply lookup_lt_Some. }
  congruence.
Qed.

Lemma positioned_NoDup gs : positioned gs -> NoDup (map gene_id gs).
Proof.
  intros Hpos. apply NoDup_alt. intros i j x Hi Hj.
  rewrite list_lookup_fmap in Hi, Hj.
  destruct (gs !! i) as [gi|] eqn:Hgi; [|done].
  destruct (gs !! j) as [gj|] eqn:Hgj; [|done].
  cbn in Hi, Hj. rewrite <- (Hpos i gi Hgi), <- (Hpos j gj Hgj). congruence.
Qed.

Lemma calculateFitness_Ok a st q st' :
  calculateFitness a st = Ok q st' ->
  exists s gs, st_schedules st !! a = Some s /\ genes_of st (sch_events s) = Some gs.
Proof.
  intros H. unfold calculateFitness in H.
  inv_step H as u st1 Hz. injection Hz as _ <-.
  inv_step H as events st2 Hget.
  apply get_events_Ok in Hget as (s1 & Hs1 & -> & ->).
  cbn [st_schedules with_schedules] in Hs1.
  destruct (st_schedules st !! a) as [s|] eqn:Hs.
  2:{ apply lookup_ge_None in Hs. apply lookup_lt_Some in Hs1.
      rewrite length_alter in Hs1. lia. }
  rewrite list_lookup_alter_eq, Hs in Hs1. injection Hs1 as <-.
  cbn [sch_events set_sch_numOfConflicts] in H.
  inv_step H as u' st3 Hloop. destruct u'. clear H.
  exists s. apply (for_each_Ok (fun done stx =>
    (st_events stx = st_events st /\ st_rooms stx = st_rooms st
     /\ EVENT_START_TIME stx = EVENT_START_TIME st)
    /\ forall i, i ∈ done -> is_Some (gene_of st (js_get (sch_events s) i)))) in Hloop.
  - destruct Hloop as [_ Hall].
    destruct (genes_of_is_Some st (sch_events s)) as [gs Hgs]; [|by exists gs].
    intros i Hi. apply Hall. apply elem_of_seq. lia.
  - split; [done|]. intros i Hi. by apply elem_of_nil in Hi.
  - intros done i rest stx sty _ [(He & Hr & Ht) Hall] Hbody.
    apply calculateFitness_event_Ok in Hbody as [(He' & Hr' & Ht') Hg].
    split; [split; [|split]; congruence|].
    intros j Hj. apply elem_of_app in Hj as [Hj|Hj]; [by apply Hall|].
    apply list_elem_of_singleton in Hj as ->.
    by rewrite <- (gene_of_ext st stx).
Qed.

Lemma evolves_refreshed a s gs st :
  st_schedules st !! a = Some s -> genes_of st (sch_events s) = Some gs ->
  evolves nobody st (refreshed a s (counted_conflicts st gs) st).
Proof.
  intros Ha Hgs. set (st' := refreshed a s (counted_conflicts st gs) st).
  assert (Hg : forall events, genes_of st' events = genes_of st events).
  { intros events. by apply genes_of_ext. }
  assert (Hc : forall gs', counted_conflicts st' gs' = counted_conflicts st gs').
  { intros gs'. by apply counted_conflicts_ext. }
  split; try done.
  - intros b s0 Hb. cbn [st_schedules with_schedules refreshed st'].
    destruct (decide (a = b)) as [->|Hne].
    + rewrite list_lookup_insert_eq by (by eapply lookup_lt_Some).
      eexists. split; [done|]. cbn. split; congruence.
    + rewrite list_lookup_insert_ne by done. by exists s0.
  - intros Hco b s' Hb Hflag. subst st'.
    cbn [st_schedules with_schedules refreshed] in Hb.
    destruct (decide (a = b)) as [->|Hne].
    + rewrite list_lookup_insert_eq in Hb by (by eapply lookup_lt_Some).
      injection Hb as <-. exists gs. cbn [sch_events sch_numOfConflicts sch_fitness].
      by rewrite Hg, Hc.
    + rewrite list_lookup_insert_ne in Hb by done.
      destruct (Hco b s' Hb Hflag) as (gs' & Hgs' & Hn & Hf).
      exists gs'. by rewrite Hg, Hc.
Qed.

(** A fitness read that returned: the caches stay coherent, the schedule
    read has its flag down and caches the value returned, and in a
    coherent state the value is that of the current assignment. *)
Lemma fitness_Ok a st f st' :
  fitness a st = Ok f st' ->
  evolves nobody st st'
  /\ st_events st' = st_events st
  /\ length (st_schedules st') = length (st_schedules st)
  /\ exists s s',
       st_schedules st !! a = Some s
       /\ st_schedules st' !! a = Some s'
       /\ sch_isFitnessChanged s' = false /\ sch_fitness s' = f
       /\ (forall b, b <> a -> st_schedules st' !! b = st_schedules st !! b)
       /\ (sch_isFitnessChanged s = false -> st' = st /\ f = sch_fitness s)
       /\ (cache_ok st s ->
           exists gs, genes_of st (sch_events s) = Some gs
                      /\ f = fitness_of_conflicts (counted_conflicts st gs)).
Proof.
  intros H. destruct (st_schedules st !! a) as [s|] eqn:Ha.
  2:{ unfold fitness in H. rewrite (bind_Throw _ _ _ TypeError) in H; [done|].
      unfold load_schedule. by rewrite Ha. }
  destruct (sch_isFitnessChanged s) eqn:Hflag.
  - assert (exists gs, genes_of st (sch_events s) = Some gs) as [gs Hgs].
    { unfold fitness in H. inv_step H as s0 st1 Hs0.
      apply load_schedule_Ok in Hs0 as [Hs0 ->].
      rewrite Ha in Hs0. injection Hs0 as <-. rewrite Hflag in H.
      inv_step H as u st1 Hc. inv_step Hc as q st2 Hcalc.
      apply calculateFitness_Ok in Hcalc as (s0 & gs & Hs0 & Hgs).
      rewrite Ha in Hs0. injection Hs0 as <-. by exists gs. }
    rewrite (fitness_run_changed a st s gs Ha Hgs Hflag) in H. injection H as <- <-.
    split; [by apply evolves_refreshed|]. split; [done|].
    split; [cbn; by rewrite length_insert|].
    exists s. eexists. split; [done|]. split.
    { cbn [st_schedules with_schedules refreshed].
      apply list_lookup_insert_eq. by eapply lookup_lt_Some. }
    cbn. split; [done|]. split; [done|]. split.
    { intros b Hb. by rewrite list_lookup_insert_ne. }
    split; [intros Hx; congruence|]. intros _. by exists gs.
  - rewrite (fitness_run_cached a st s Ha Hflag) in H. injection H as <- <-.
    split; [apply evolves_refl|]. split; [done|]. split; [done|].
    exists s, s. repeat (split; [done|]).
    intros Hc. destruct (Hc Hflag) as (gs & Hgs & _ & Hf). by exists gs.
Qed.

(** ** Sorting by fitness *)

Lemma map_M_Ok {A B} (I : list A -> list B -> State -> Prop) (f : A -> M B)
    l st rs st' :
  map_M f l st = Ok rs st' ->
  I [] [] st ->
  (forall done rdone x rest st1 r st2,
     l = done ++ x :: rest -> I done rdone st1 -> f x st1 = Ok r st2 ->
     I (done ++ [x]) (rdone ++ [r]) st2) ->
  I l rs st'.
Proof.
  intros Hrun Hinit Hstep.
  assert (Hgen : forall rest done rdone st1 rs',
    l = done ++ rest -> I done rdone st1 -> map_M f rest st1 = Ok rs' st' ->
    I l (rdone ++ rs') st').
  { induction rest as [|x rest IH]; intros done rdone st1 rs' Hl HI Hmap.
    - rewrite app_nil_r in Hl. subst done. injection Hmap as <- <-.
      by rewrite app_nil_r.
    - cbn in Hmap. inv_step Hmap as r st2 Hx. inv_step Hmap as rs2 st3 Hrest.
      injection Hmap as <- <-.
      replace (rdone ++ r :: rs2) with ((rdone ++ [r]) ++ rs2) by by rewrite <- app_assoc.
      apply (IH (done ++ [x]) _ st2); [by rewrite <- app_assoc| |done].
      by eapply Hstep. }
  by apply (Hgen l [] [] st rs).
Qed.

Lemma map_M_length {A B} (f : A -> M B) l st rs st' :
  map_M f l st = Ok rs st' -> length rs = length l.
Proof.
  intros H. apply (map_M_Ok (fun done rdone _ => length rdone = length done)) in H; [done|done|].
  intros done rdone x rest st1 r st2 _ Hlen _. rewrite !length_app, Hlen. done.
Qed.

Lemma insert_desc_perm x l : insert_desc x l ≡ₚ x :: l.
Proof.
  induction l as [|y l IH]; cbn; [done|].
  destruct (Qle_bool (snd y) (snd x)); [done|].
  rewrite IH. apply Permutation_swap.
Qed.

Lemma stable_sort_desc_perm l : stable_sort_desc l ≡ₚ l.
Proof.
  induction l as [|x l IH]; cbn; [done|].
  fold (stable_sort_desc l). by rewrite insert_desc_perm, IH.
Qed.

Lemma insert_desc_sorted x l :
  StronglySorted desc l -> StronglySorted desc (insert_desc x l).
Proof.
  induction 1 as [|y l Hsorted IH Hall]; cbn.
  - repeat constructor.
  - destruct (Qle_bool (snd y) (snd x)) eqn:Hle.
    + apply Qle_bool_iff in Hle. constructor; [by constructor|].
      constructor; [done|]. eapply Forall_impl; [exact Hall|].
      intros z Hz. unfold desc in *. by eapply Qle_trans.
    + constructor; [done|].
      rewrite insert_desc_perm. constructor; [|done].
      unfold desc. apply Qlt_le_weak, Qnot_le_lt. intros Hle'.
      apply Qle_bool_iff in Hle'. congruence.
Qed.

Lemma stable_sort_desc_sorted l : StronglySorted desc (stable_sort_desc l).
Proof.
  induction l as [|x l IH]; cbn; [constructor|].
  by apply insert_desc_sorted.
Qed.

(** The first entry of a sorted list has the greatest fitness. *)
Lemma sorted_head_max x l y :
  StronglySorted desc (x :: l) -> y ∈ x :: l -> (snd y <= snd x)%Q.
Proof.
  intros Hs Hy. apply StronglySorted_inv in Hs as [_ Hall].
  apply elem_of_cons in Hy as [->|Hy]; [apply Qle_refl|].
  rewrite Forall_forall in Hall. by apply Hall.
Qed.

(** What the sort knows of an entry [a] it read the fitness [f] of. *)
Lemma sort_by_fitness_Ok l st l' st' :
  sort_by_fitness l st = Ok l' st' ->
  evolves nobody st st'
  /\ st_events st' = st_events st
  /\ length (st_schedules st') = length (st_schedules st)
  /\ exists keyed,
       l' = map (fun x => Some (fst x)) (stable_sort_desc keyed)
            ++ replicate (length l - length (defined_entries l)) None
       /\ map fst keyed = defined_entries l
       /\ (2 <= length (defined_entries l) ->
           forall a f, (a, f) ∈ keyed ->
             exists s', st_schedules st' !! a = Some s'
               /\ sch_isFitnessChanged s' = false /\ sch_fitness s' = f
               /\ (Coherent st ->
                   exists s gs, st_schedules st !! a = Some s
                     /\ genes_of st (sch_events s) = Some gs
                     /\ f = fitness_of_conflicts (counted_conflicts st gs))).
Proof.
  intros H. unfold sort_by_fitness in H. inv_step H as keyed st1 Hkeyed.
  injection H as <- <-. case_decide as Hlen.
  - pose (I := fun (done : list nat) (rdone : list (nat * Q)) (stx : State) =>
      evolves nobody st stx /\ st_events stx = st_events st
      /\ length (st_schedules stx) = length (st_schedules st)
      /\ map fst rdone = done
      /\ forall a f, (a, f) ∈ rdone ->
           exists s', st_schedules stx !! a = Some s'
             /\ sch_isFitnessChanged s' = false /\ sch_fitness s' = f
             /\ (Coherent st ->
                 exists s gs, st_schedules st !! a = Some s
                   /\ genes_of st (sch_events s) = Some gs
                   /\ f = fitness_of_conflicts (counted_conflicts st gs))).
    apply (map_M_Ok I) in Hkeyed.
    + destruct Hkeyed as (Hev & He & Hl & Hfst & Hall).
      split; [done|]. split; [done|]. split; [done|]. exists keyed. done.
    + split; [apply evolves_refl|]. split; [done|]. split; [done|]. split; [done|].
      intros a f Hin. by apply elem_of_nil in Hin.
    + clear Hkeyed. intros done rdone a rest stx [b f] sty _ (Hev & He & Hl & Hfst & Hall) Hstep.
      inv_step Hstep as f' stz Hf. injection Hstep as <- <- <-.
      apply fitness_Ok in Hf
        as (Hevf & Hef & Hlf & s & s' & Hs & Hs' & Hflag' & Hfit' & Hothers & Hcached & Hok).
      split; [by eapply evolves_trans|]. split; [congruence|]. split; [congruence|].
      split; [by rewrite map_app, Hfst|].
      intros a0 f0 Hin. apply elem_of_app in Hin as [Hin|Hin].
      * destruct (Hall a0 f0 Hin) as (s0 & Hs0 & Hflag0 & Hfit0 & Hok0).
        destruct (decide (a0 = a)) as [->|Hne].
        -- rewrite Hs in Hs0. injection Hs0 as <-.
           destruct (Hcached Hflag0) as [-> ->].
           exists s. done.
        -- exists s0. by rewrite Hothers.
      * apply list_elem_of_singleton in Hin as [= -> ->].
        exists s'. repeat (split; [done|]). intros Hco.
        destruct (st_schedules st !! a) as [s0|] eqn:Hs0.
        2:{ apply lookup_ge_None in Hs0. apply lookup_lt_Some in Hs.
            lia. }
        destruct (ev_schedules _ _ _ Hev a s0 Hs0) as (s1 & Hs1 & _ & Hsame).
        rewrite Hs in Hs1. injection Hs1 as <-.
        destruct Hok as (gs & Hgs & ->); [by apply (ev_coherent _ _ _ Hev Hco a)|].
        exists s0, gs. split; [done|].
        rewrite Hsame in Hgs by apply not_nobody.
        rewrite (genes_of_ext st stx) in Hgs by (done || apply (ev_rooms _ _ _ Hev)).
        rewrite (evolves_counted_conflicts _ _ _ _ Hev). done.
  - injection Hkeyed as <- <-. split; [apply evolves_refl|]. split; [done|].
    split; [done|]. eexists. split; [done|]. split; [|lia].
    rewrite map_map. cbn. apply map_id.
Qed.

(** ** One generational step *)

Lemma evolves_length P st st' :
  evolves P st st' -> length (st_schedules st) <= length (st_schedules st').
Proof.
  intros Hev. destruct (decide (length (st_schedules st) = 0)) as [|Hne]; [lia|].
  destruct (lookup_lt_is_Some_2 (st_schedules st) (length (st_schedules st) - 1)) as [s Hs];
    [lia|].
  destruct (ev_schedules _ _ _ Hev _ s Hs) as (s' & Hs' & _).
  apply lookup_lt_Some in Hs'. lia.
Qed.

Lemma PopulationEvents_new_0 data st :
  PopulationEvents_new 0 data st = Ok (mkPopulation 0 data []) st.
Proof. reflexivity. Qed.

Lemma _selectTournamentPopulation_Ok pop st t st' :
  _selectTournamentPopulation pop st = Ok t st' ->
  evolves nobody st st'.
Proof.
  intros H. unfold _selectTournamentPopulation in H.
  rewrite (bind_run _ _ _ _ _ (PopulationEvents_new_0 _ _)) in H.
  inv_step H as picks st1 Hpicks. inv_step H as sorted st2 Hsort. injection H as <- <-.
  apply sort_by_fitness_Ok in Hsort as (Hev & _).
  eapply evolves_trans; [|exact Hev].
  apply (map_M_Ok (fun _ _ stx => evolves nobody st stx)) in Hpicks; [done|apply evolves_refl|].
  intros done rdone x rest stx r sty _ Hevx Hstep.
  inv_step Hstep as i stz Hi. apply random_index_Ok in Hi as [_ ->].
  injection Hstep as _ <-.
  eapply evolves_trans; [exact Hevx|apply evolves_with_drawn].
Qed.

Lemma _crossoverPopulation_child_Ok pop st child st' :
  _crossoverPopulation_child pop st = Ok child st' ->
  evolves nobody st st'
  /\ exists c, child = Some c /\ length (st_schedules st) <= c
               /\ is_Some (st_schedules st' !! c).
Proof.
  intros H. unfold _crossoverPopulation_child in H.
  inv_step H as t1 st1 Ht1. inv_step H as t2 st2 Ht2. inv_step H as c st3 Hc.
  injection H as <- <-.
  apply _selectTournamentPopulation_Ok in Ht1, Ht2.
  apply _crossoverSchedule_Ok in Hc
    as (s1 & p1 & sc & _ & _ & -> & Hsc & _ & _ & _ & Hev & _).
  assert (Hev2 : evolves nobody st st2) by by eapply evolves_trans.
  split; [by eapply evolves_trans|].
  eexists. split; [done|]. split; [by eapply evolves_length|by eexists].
Qed.

Lemma _crossoverPopulation_Ok pop st pop' st' :
  _crossoverPopulation pop st = Ok pop' st' ->
  evolves nobody st st'
  /\ pop_data pop' = pop_data pop
  /\ exists children,
       pop_schedules pop'
       = map (js_get (pop_schedules pop)) (seq 0 NUMB_OF_ELITE_EVENTS) ++ map Some children
       /\ length children = POPULATION_SIZE - NUMB_OF_ELITE_EVENTS
       /\ forall c, c ∈ children ->
            length (st_schedules st) <= c /\ is_Some (st_schedules st' !! c).
Proof.
  intros H. unfold _crossoverPopulation in H.
  rewrite (bind_run _ _ _ _ _ (PopulationEvents_new_0 _ _)) in H.
  inv_step H as children st1 Hchildren. injection H as <- <-.
  pose proof (map_M_length _ _ _ _ _ Hchildren) as Hlen. rewrite length_seq in Hlen.
  apply (map_M_Ok (fun _ rdone stx =>
    evolves nobody st stx
    /\ exists cs, rdone = map Some cs
         /\ forall c, c ∈ cs ->
              length (st_schedules st) <= c /\ is_Some (st_schedules stx !! c)))
    in Hchildren.
  - destruct Hchildren as (Hev & cs & -> & Hcs). split; [done|]. split; [done|].
    exists cs. cbn [pop_schedules set_pop_schedules app]. split; [done|].
    split; [by rewrite length_map in Hlen|done].
  - split; [apply evolves_refl|]. exists []. split; [done|].
    intros c Hc. by apply elem_of_nil in Hc.
  - clear Hchildren. intros done rdone x rest stx r sty _ (Hev & cs & -> & Hcs) Hstep.
    apply _crossoverPopulation_child_Ok in Hstep as (Hevs & c & -> & Hc & Hsc).
    split; [by eapply evolves_trans|]. exists (cs ++ [c]).
    split; [by rewrite map_app|].
    intros c' Hc'. apply elem_of_app in Hc' as [Hc'|Hc'].
    + destruct (Hcs c' Hc') as [Hle [s Hs]]. split; [done|].
      destruct (ev_schedules _ _ _ Hevs c' s Hs) as (s' & Hs' & _). by eexists.
    + apply list_elem_of_singleton in Hc' as ->. split; [|done].
      pose proof (evolves_length _ _ _ Hev). lia.
Qed.

Lemma _mutatePopulation_Ok population st pop' st' :
  _mutatePopulation population st = Ok pop' st' ->
  pop' = population
  /\ evolves (fun a => exists i, NUMB_OF_ELITE_EVENTS <= i
                                 /\ js_get (pop_schedules population) i = Some a) st st'.
Proof.
  intros H. unfold _mutatePopulation in H. inv_step H as u st1 Hloop.
  injection H as <- <-. split; [done|]. destruct u.
  set (P := fun a => exists i, _ /\ _).
  apply (for_each_Ok (fun _ stx => evolves P st stx)) in Hloop; [done|apply evolves_refl|].
  intros done i rest stx sty Hsplit Hev Hstep.
  apply seq_split_index in Hsplit as [-> _].
  inv_step Hstep as r stz Hm. injection Hstep as <-.
  apply _mutateSchedule_Ok in Hm as (m & sm & sm' & new & Hm & _ & _ & Hevm & _).
  eapply evolves_trans; [exact Hev|].
  eapply evolves_weaken; [|exact Hevm].
  intros a <-. exists (NUMB_OF_ELITE_EVENTS + length done). split; [lia|done].
Qed.

Lemma evolve_Ok population st pop' st' :
  evolve population st = Ok pop' st' ->
  evolves nobody st st'
  /\ pop_data pop' = pop_data population
  /\ exists children,
       pop_schedules pop'
       = map (js_get (pop_schedules population)) (seq 0 NUMB_OF_ELITE_EVENTS)
         ++ map Some children
       /\ length children = POPULATION_SIZE - NUMB_OF_ELITE_EVENTS
       /\ forall c, c ∈ children ->
            length (st_schedules st) <= c /\ is_Some (st_schedules st' !! c).
Proof.
  intros H. unfold evolve in H. inv_step H as cp st1 Hcross.
  apply _crossoverPopulation_Ok in Hcross as (Hev1 & Hdata & children & Hs & Hlen & Hchildren).
  apply _mutatePopulation_Ok in H as [-> Hev2].
  assert (Hev : evolves nobody st st').
  { apply (evolves_fresh (fun a => a ∈ children)).
    - intros a Ha. apply lookup_ge_None_2. by apply Hchildren.
    - eapply evolves_trans; [eapply evolves_weaken; [|exact Hev1]; done|].
      eapply evolves_weaken; [|exact Hev2].
      intros a (i & Hi & Ha). rewrite Hs in Ha. unfold js_get in Ha.
      rewrite lookup_app_r in Ha by (rewrite length_map, length_seq; lia).
      rewrite list_lookup_fmap in Ha.
      destruct (children !! _) as [c|] eqn:Hc; [|done]. injection Ha as ->.
      by eapply list_elem_of_lookup_2. }
  split; [done|]. split; [done|]. exists children. split; [done|]. split; [done|].
  intros c Hc. destruct (Hchildren c Hc) as [Hle [s Hsc]]. split; [done|].
  destruct (ev_schedules _ _ _ Hev2 c s Hsc) as (s' & Hs' & _). by eexists.
Qed.

(** ** Crossover coverage *)

(** C9. For every pair of parent chromosomes and every random stream,
    every position of the child produced by crossover holds the very
    entry parent 1 or parent 2 holds at that position, and the events of
    the parents are the same after the crossover as before; when the
    parents' entries are events of the state, so are the child's: none
    of the events the child was initialized with is retained. The child
    has one position per event of the data. *)
Theorem crossover_coverage st s1 s2 p1 p2 c st' :
  st_schedules st !! s1 = Some p1 ->
  st_schedules st !! s2 = Some p2 ->
  _crossoverSchedule (Some s1) (Some s2) st = Ok c st' ->
  exists child,
    st_schedules st' !! c = Some child
    /\ length (sch_events child) = length (data_events (sch_data p1))
    /\ (forall e ev, st_events st !! e = Some ev -> st_events st' !! e = Some ev)
    /\ (forall i, i < length (sch_events child) ->
          js_get (sch_events child) i = js_get (sch_events p1) i
          \/ js_get (sch_events child) i = js_get (sch_events p2) i)
    /\ ((forall i e, js_get (sch_events p1) i = Some e \/ js_get (sch_events p2) i = Some e ->
           e < length (st_events st)) ->
        forall i e, js_get (sch_events child) i = Some e -> e < length (st_events st)).
Proof.
  intros Hp1 Hp2 H.
  apply _crossoverSchedule_Ok in H
    as (s1' & p1' & child & [= <-] & Hp1' & -> & Hchild & Hdata & Hlen & _ & Hev & Hcover).
  rewrite Hp1 in Hp1'. injection Hp1' as <-.
  assert (Hpos : forall i, i < length (sch_events child) ->
            js_get (sch_events child) i = js_get (sch_events p1) i
            \/ js_get (sch_events child) i = js_get (sch_events p2) i).
  { intros i Hi. destruct (Hcover i Hi) as (p & [->|[= <-]] & Hp); [left|right]; by apply Hp. }
  exists child. split; [done|]. split; [done|]. split; [apply (ev_events _ _ _ Hev)|].
  split; [done|].
  intros Hvalid i e He.
  destruct (decide (i < length (sch_events child))) as [Hi|Hi].
  - destruct (Hpos i Hi) as [Heq|Heq]; rewrite Heq in He; eapply Hvalid; eauto.
  - rewrite js_get_ge in He by lia. done.
Qed.

(** ** Population size *)

Lemma evolve_chromosomes population st pop' st' :
  chromosomes st population POPULATION_SIZE ->
  evolve population st = Ok pop' st' ->
  chromosomes st' pop' POPULATION_SIZE.
Proof.
  intros [Hlen Hall] H.
  apply evolve_Ok in H as (Hev & _ & children & Hs & Hlenc & Hchildren).
  split.
  - rewrite Hs, length_app, !length_map, length_seq, Hlenc. done.
  - intros i Hi. rewrite Hs. unfold js_get.
    destruct (decide (i < NUMB_OF_ELITE_EVENTS)) as [Helite|Hchild].
    + rewrite lookup_app_l by (rewrite length_map, length_seq; lia).
      rewrite list_lookup_fmap, lookup_seq_lt by done. cbn.
      destruct (Hall i) as (a & Ha & [s Hsa]); [lia|].
      exists a. split; [done|].
      destruct (ev_schedules _ _ _ Hev a s Hsa) as (s' & Hs' & _). by eexists.
    + rewrite lookup_app_r by (rewrite length_map, length_seq; lia).
      rewrite length_map, length_seq, list_lookup_fmap.
      destruct (lookup_lt_is_Some_2 children (i - NUMB_OF_ELITE_EVENTS)) as [c Hc].
      { rewrite Hlenc. unfold POPULATION_SIZE in *. lia. }
      rewrite Hc. exists c. split; [done|].
      apply Hchildren. by eapply list_elem_of_lookup_2.
Qed.

(** ** Elitism *)

Lemma defined_entries_perm {A} (l : array A) :
  l ≡ₚ map Some (defined_entries l)
       ++ replicate (length l - length (defined_entries l)) None.
Proof.
  induction l as [|[x|] l IH]; [done| |].
  - cbn. by rewrite <- IH.
  - cbn. fold (defined_entries l).
    assert (Hle : length (defined_entries l) <= length l).
    { clear IH. induction l as [|[y|] l IH]; cbn; [lia| |]; fold (defined_entries l); lia. }
    replace (S (length l) - length (defined_entries l))
      with (S (length l - length (defined_entries l))) by lia.
    cbn. rewrite <- Permutation_middle. by rewrite <- IH.
Qed.

Lemma sort_by_fitness_perm l st l' st' :
  sort_by_fitness l st = Ok l' st' -> l' ≡ₚ l.
Proof.
  intros H. apply sort_by_fitness_Ok in H as (_ & _ & _ & keyed & -> & Hfst & _).
  rewrite (defined_entries_perm l) at 3. rewrite <- Hfst.
  apply Permutation_app; [|done].
  rewrite <- (map_map fst Some). apply Permutation_map, Permutation_map.
  apply stable_sort_desc_perm.
Qed.

Lemma sort_population_Ok population st sorted st' :
  sort_population population st = Ok sorted st' ->
  evolves nobody st st'
  /\ pop_data sorted = pop_data population
  /\ pop_schedules sorted ≡ₚ pop_schedules population.
Proof.
  intros H. unfold sort_population in H. inv_step H as l st1 Hsort.
  injection H as <- <-. split; [by apply sort_by_fitness_Ok in Hsort as [? _]|].
  split; [done|]. by apply sort_by_fitness_perm in Hsort.
Qed.

(** The value of a fitness read moves along the changes the engine
    makes, for the schedules it does not modify. *)
Lemma fitness_preserved P st st' a s f st2 :
  evolves P st st' -> ~ P a -> Coherent st ->
  st_schedules st !! a = Some s ->
  fitness a st = Ok f st2 -> exists st3, fitness a st' = Ok f st3.
Proof.
  intros Hev HP Hco Ha Hf.
  apply fitness_Ok in Hf as (_ & _ & _ & s0 & s0' & Hs0 & _ & _ & _ & _ & _ & Hok).
  rewrite Ha in Hs0. injection Hs0 as <-.
  destruct (Hok (Hco a s Ha)) as (gs & Hgs & ->).
  destruct (ev_schedules _ _ _ Hev a s Ha) as (s' & Hs' & _ & Hsame).
  assert (Hgs' : genes_of st' (sch_events s') = Some gs).
  { rewrite Hsame by done. by eapply evolves_genes_of. }
  destruct (fitness_run a st' s' gs) as (st3 & Hrun & _); [|done|done|].
  { by apply (ev_coherent _ _ _ Hev Hco a). }
  exists st3. by rewrite <- (evolves_counted_conflicts _ _ _ gs Hev).
Qed.

Lemma genes_preserved P st st' a gs :
  evolves P st st' -> ~ P a -> genes st a = Some gs -> genes st' a = Some gs.
Proof.
  intros Hev HP. unfold genes.
  destruct (st_schedules st !! a) as [s|] eqn:Ha; [|done].
  destruct (ev_schedules _ _ _ Hev a s Ha) as (s' & -> & _ & Hsame).
  rewrite Hsame by done. by apply (evolves_genes_of P).
Qed.

(** C3. For every generation and every random stream, the first
    ELITE_COUNT chromosomes of the population appear in the next
    generation unmodified by value: crossover places them at the same
    indices, the mutation pass leaves them as they are, the sort keeps
    them in the population, and their event array, their per-position
    assignment and, the caches being coherent, the value of their
    fitness are the same. *)
Theorem elites_carried_over population st cp st1 pop' st' sorted st'' :
  _crossoverPopulation population st = Ok cp st1 ->
  _mutatePopulation cp st1 = Ok pop' st' ->
  sort_population pop' st' = Ok sorted st'' ->
  evolve population st = Ok pop' st'
  /\ forall i a s,
       i < NUMB_OF_ELITE_EVENTS ->
       js_get (pop_schedules population) i = Some a ->
       st_schedules st !! a = Some s ->
       js_get (pop_schedules cp) i = Some a
       /\ js_get (pop_schedules pop') i = Some a
       /\ Some a ∈ pop_schedules sorted
       /\ (exists s1 s' s'',
             st_schedules st1 !! a = Some s1 /\ sch_events s1 = sch_events s
             /\ st_schedules st' !! a = Some s' /\ sch_events s' = sch_events s
             /\ st_schedules st'' !! a = Some s'' /\ sch_events s'' = sch_events s)
       /\ (forall gs, genes st a = Some gs ->
             genes st1 a = Some gs /\ genes st' a = Some gs /\ genes st'' a = Some gs)
       /\ (Coherent st ->
           forall f st2, fitness a st = Ok f st2 -> exists st3, fitness a st'' = Ok f st3).
Proof.
  intros Hcross Hmut Hsort.
  assert (Hevolve : evolve population st = Ok pop' st').
  { unfold evolve. by rewrite (bind_run _ _ _ _ _ Hcross). }
  split; [done|].
  pose proof (_crossoverPopulation_Ok _ _ _ _ Hcross) as (Hev1 & _ & children & Hcp & _ & _).
  pose proof (_mutatePopulation_Ok _ _ _ _ Hmut) as [-> _].
  pose proof (evolve_Ok _ _ _ _ Hevolve) as (Hev2 & _).
  pose proof (sort_population_Ok _ _ _ _ Hsort) as (Hev3 & _ & Hperm).
  assert (Hev4 : evolves nobody st st'') by by eapply evolves_trans.
  intros i a s Hi Ha Hs.
  assert (Hcpi : js_get (pop_schedules cp) i = Some a).
  { rewrite Hcp. unfold js_get.
    rewrite lookup_app_l by (rewrite length_map, length_seq; lia).
    by rewrite list_lookup_fmap, lookup_seq_lt by done. }
  split; [done|]. split; [done|]. split.
  { rewrite Hperm. unfold js_get in Hcpi.
    destruct (pop_schedules cp !! i) as [v|] eqn:Hv; [|done]. subst v.
    by eapply list_elem_of_lookup_2. }
  split.
  { destruct (ev_schedules _ _ _ Hev1 a s Hs) as (s1 & Hs1 & _ & Hsame1).
    destruct (ev_schedules _ _ _ Hev2 a s Hs) as (s2 & Hs2 & _ & Hsame2).
    destruct (ev_schedules _ _ _ Hev4 a s Hs) as (s3 & Hs3 & _ & Hsame3).
    exists s1, s2, s3. pose proof (not_nobody a). naive_solver. }
  split.
  { intros gs Hgs. pose proof (not_nobody a).
    repeat split; by eapply genes_preserved. }
  intros Hco f st2 Hf. eapply fitness_preserved; [exact Hev4|apply not_nobody|done..].
Qed.

(** ** Sharing of events between chromosomes *)

Lemma evolves_untouched P st st' b :
  evolves P st st' -> ~ P b -> Coherent st -> is_Some (st_schedules st !! b) ->
  untouched st st' b.
Proof.
  intros Hev HP Hco [s Hs]. split; [|split].
  - destruct (ev_schedules _ _ _ Hev b s Hs) as (s' & Hs' & _ & Hsame).
    exists s, s'. auto.
  - intros gs. by apply (genes_preserved P).
  - intros f st2. by apply (fitness_preserved P st st' b s).
Qed.

(** C5, as the code has it. Each chromosome owns its event array, not
    its events: producing a child by crossover leaves the event array,
    the assignment and the fitness of every chromosome of the state as
    they were, and mutating a chromosome does so for every other
    chromosome; both replace entries of the array of the chromosome they
    build and write to no event. *)
Theorem chromosomes_own_their_array st :
  Coherent st ->
  (forall schedule1 schedule2 c st',
     _crossoverSchedule schedule1 schedule2 st = Ok c st' ->
     forall b, is_Some (st_schedules st !! b) -> untouched st st' b)
  /\ (forall m r st',
        _mutateSchedule (Some m) st = Ok r st' ->
        forall b, b <> m -> is_Some (st_schedules st !! b) -> untouched st st' b).
Proof.
  intros Hco. split.
  - intros schedule1 schedule2 c st' H b Hb.
    apply _crossoverSchedule_Ok in H as (_ & _ & _ & _ & _ & _ & _ & _ & _ & _ & Hev & _).
    by apply (evolves_untouched nobody); [|apply not_nobody|..].
  - intros m r st' H b Hne Hb.
    apply _mutateSchedule_Ok in H as (m' & _ & _ & _ & [= <-] & _ & _ & Hev & _).
    by apply (evolves_untouched (eq m)); [|congruence|..].
Qed.

(** ** The cached fitness *)

Lemma fitness_agrees a st :
  (forall s, st_schedules st !! a = Some s -> cache_ok st s) ->
  agree (fitness a st) (calculateFitness a st).
Proof.
  intros Hc. destruct (st_schedules st !! a) as [s|] eqn:Ha.
  2:{ unfold fitness, calculateFitness, update_schedule.
      rewrite (bind_Throw _ _ _ TypeError) by (unfold load_schedule; by rewrite Ha).
      erewrite bind_run by reflexivity.
      rewrite (bind_Throw _ _ _ TypeError); [done|].
      unfold get_events. rewrite (bind_Throw _ _ _ TypeError); [done|].
      unfold load_schedule. cbn. rewrite list_lookup_alter_eq, Ha. done. }
  pose proof (Hc s eq_refl) as Hcs. clear Hc.
  destruct (calculateFitness a st) as [q st1|e] eqn:Hcalc.
  - pose proof Hcalc as Hcalc'.
    apply calculateFitness_Ok in Hcalc' as (s0 & gs & Hs0 & Hgs).
    rewrite Ha in Hs0. injection Hs0 as <-.
    rewrite (calculateFitness_run a st s gs Ha Hgs) in Hcalc. injection Hcalc as <- <-.
    destruct (fitness_run a st s gs Hcs Ha Hgs) as (st' & -> & _). done.
  - destruct (sch_isFitnessChanged s) eqn:Hflag.
    + unfold fitness. erewrite bind_run by (by apply load_schedule_Ok).
      rewrite Hflag. rewrite (bind_Throw _ _ _ e); [done|].
      by rewrite (bind_Throw _ _ _ e).
    + destruct (Hcs Hflag) as (gs & Hgs & _).
      by rewrite (calculateFitness_run a st s gs Ha Hgs) in Hcalc.
Qed.

Lemma perform_write_flag a w st st' :
  perform_write a w st = Ok tt st' ->
  forall s', st_schedules st' !! a = Some s' -> sch_isFitnessChanged s' = true.
Proof.
  intros H s' Hs'. destruct w as [i v|i room|i t]; cbn in H.
  - unfold events_store in H. inv_step H as events st1 Hget.
    apply get_events_Ok in Hget as (s & Hs & _ & ->). injection H as <-.
    cbn in Hs'. rewrite !list_lookup_alter_eq, Hs in Hs'. by injection Hs' as <-.
  - unfold events_set_room in H. inv_step H as v st1 Hread.
    apply events_read_Ok in Hread as (s & Hs & _ & ->).
    inv_step H as e st1 He. apply defined_Ok in He as [_ ->]. injection H as <-.
    cbn in Hs'. rewrite !list_lookup_alter_eq, Hs in Hs'. by injection Hs' as <-.
  - unfold events_set_timeSlot in H. inv_step H as v st1 Hread.
    apply events_read_Ok in Hread as (s & Hs & _ & ->).
    inv_step H as e st1 He. apply defined_Ok in He as [_ ->]. injection H as <-.
    cbn in Hs'. rewrite !list_lookup_alter_eq, Hs in Hs'. by injection Hs' as <-.
Qed.

(** C7, as the code has it. The cached fitness is invalidated by every
    access to the event array through the [events] accessor and
    recomputed on the next read: starting from a chromosome whose cache
    is coherent, after any sequence of writes made through the accessor
    (replacing an entry, or setting the room or the time slot of the
    event at an entry) a fitness read yields what recomputing the
    fitness from the current assignment yields. *)
Theorem fitness_fresh_after_writes a ws st st' :
  (forall s, st_schedules st !! a = Some s -> cache_ok st s) ->
  for_each ws (perform_write a) st = Ok tt st' ->
  agree (fitness a st') (calculateFitness a st').
Proof.
  intros Hc H. apply fitness_agrees.
  apply (for_each_Ok (fun _ stx =>
    forall s, st_schedules stx !! a = Some s -> cache_ok stx s)
    (perform_write a) ws st st' H); [done|].
  intros done w rest stx sty _ _ Hw s Hs Hflag.
  rewrite (perform_write_flag a w stx sty Hw s Hs) in Hflag. done.
Qed.

(** ** Well-formed instances: the operations return *)

Lemma availableTimeSlots_from_fuel fuel1 fuel2 cur endTime :
  Z.to_nat (endTime - cur) <= fuel1 -> Z.to_nat (endTime - cur) <= fuel2 ->
  availableTimeSlots_from fuel1 cur endTime = availableTimeSlots_from fuel2 cur endTime.
Proof.
  revert fuel2 cur. induction fuel1 as [|fuel1 IH]; intros fuel2 cur H1 H2.
  - destruct fuel2 as [|fuel2]; [done|]. cbn.
    destruct (Z.ltb_spec cur endTime); [lia|done].
  - destruct fuel2 as [|fuel2]; cbn.
    + destruct (Z.ltb_spec cur endTime); [lia|done].
    + destruct (Z.ltb_spec cur endTime); [|done].
      f_equal. apply IH; unfold TIME_SLOT_INTERVAL; lia.
Qed.

Lemma availableTimeSlots_from_hours fuel s j k :
  k - j <= fuel ->
  availableTimeSlots_from fuel (s + 60 * Z.of_nat j) (s + 60 * Z.of_nat k)
  = map (fun i => (s + 60 * Z.of_nat i)%Z) (seq j (k - j)).
Proof.
  revert j. induction fuel as [|fuel IH]; intros j Hfuel.
  - by replace (k - j) with 0 by lia.
  - cbn. destruct (Z.ltb_spec (s + 60 * Z.of_nat j) (s + 60 * Z.of_nat k)) as [Hlt|Hge].
    + replace (k - j) with (S (k - S j)) by lia. cbn. f_equal.
      replace (s + 60 * Z.of_nat j + TIME_SLOT_INTERVAL)%Z with (s + 60 * Z.of_nat (S j))%Z
        by (unfold TIME_SLOT_INTERVAL; lia).
      apply IH. lia.
    + by replace (k - j) with 0 by lia.
Qed.

Lemma availableTimeSlots_hours s k :
  availableTimeSlots s (s + 60 * Z.of_nat k)
  = map (fun i => (s + 60 * Z.of_nat i)%Z) (seq 0 k).
Proof.
  unfold availableTimeSlots.
  pose proof (availableTimeSlots_from_hours (Z.to_nat (s + 60 * Z.of_nat k - s)) s 0 k) as H.
  rewrite Nat.sub_0_r, Z.mul_0_r, Z.add_0_r in H. apply H. lia.
Qed.

Lemma instance_ready_evolves P data st st' :
  evolves P st st' -> instance_ready data st -> instance_ready data st'.
Proof.
  intros [Hr H0 H1 Hrand _ _ _] [Hok Hrooms Hhours]. split.
  - intros n. rewrite Hrand. apply Hok.
  - intros r Hin. rewrite Hr. by apply Hrooms.
  - rewrite Hr, H0, H1. done.
Qed.

Lemma getRandomTimeSlot_ready data st :
  instance_ready data st ->
  exists t, getRandomTimeSlot st = Ok (Some t) (with_drawn (S (st_drawn st)) st)
            /\ forall r room, data_rooms data !! 0 = Some r -> st_rooms st !! r = Some room ->
                 room_free st t r = true.
Proof.
  intros [Hok Hrooms (k & r & room & Hk & Hend & Hr & Hroom & Havail)].
  unfold getRandomTimeSlot. erewrite bind_run by reflexivity.
  rewrite Hend, availableTimeSlots_hours.
  rewrite length_map, length_seq.
  destruct (random_index k st) as [i st1|] eqn:Hi; [|done].
  pose proof (random_index_range _ _ _ _ Hok Hk Hi) as Hrange.
  pose proof Hi as Hi'. apply random_index_Ok in Hi' as [_ ->].
  erewrite bind_run by exact Hi.
  exists (EVENT_START_TIME st + 60 * i)%Z. split.
  - unfold ret, nth_Z. destruct (Z.ltb_spec i 0); [lia|].
    rewrite list_lookup_fmap, lookup_seq_lt by lia. cbn. do 3 f_equal. lia.
  - intros r' room' Hr' Hroom'. rewrite Hr in Hr'. injection Hr' as <-.
    unfold room_free. rewrite Hroom. rewrite Havail.
    unfold slot_index, js_getZ, js_get.
    replace ((EVENT_START_TIME st + 60 * i - EVENT_START_TIME st) / 60)%Z with i
      by (rewrite Z.add_simpl_l, Z.mul_comm, Z.div_mul; lia).
    destruct (Z.ltb_spec i 0); [lia|].
    rewrite lookup_replicate_2 by lia. done.
Qed.

Lemma filter_available_run rooms t st :
  (forall r, r ∈ rooms -> is_Some (st_rooms st !! r)) ->
  filter_available rooms (Some t) st = Ok (free_rooms st t rooms) st.
Proof.
  induction rooms as [|r rooms IH]; intros Hvalid; [done|].
  cbn. destruct (Hvalid r) as [room Hroom]; [left|].
  erewrite bind_run by (by apply isAvailable_run).
  erewrite bind_run by (apply IH; intros r' Hr'; apply Hvalid; by right).
  unfold ret, room_free. rewrite Hroom. done.
Qed.

Lemma free_rooms_elem st t rooms r :
  r ∈ rooms -> room_free st t r = true -> r ∈ free_rooms st t rooms.
Proof.
  induction rooms as [|r' rooms IH]; intros Hin Hfree; [by apply elem_of_nil in Hin|].
  cbn. apply elem_of_cons in Hin as [->|Hin].
  - rewrite Hfree. left.
  - destruct (room_free st t r'); [right|]; by apply IH.
Qed.

Lemma getAvailableRoom_ready data a s t st :
  instance_ready data st ->
  st_schedules st !! a = Some s -> sch_data s = data ->
  (forall r room, data_rooms data !! 0 = Some r -> st_rooms st !! r = Some room ->
     room_free st t r = true) ->
  exists room, getAvailableRoom a (Some t) st = Ok room (with_drawn (S (st_drawn st)) st).
Proof.
  intros Hready Ha Hdata Hfree.
  pose proof Hready as [Hok Hrooms (k & r & room & Hk & Hend & Hr & Hroom & Havail)].
  unfold getAvailableRoom.
  erewrite bind_run by (by apply load_schedule_Ok).
  rewrite Hdata. erewrite bind_run by (by apply filter_available_run).
  assert (Hin : r ∈ free_rooms st t (data_rooms data)).
  { apply free_rooms_elem; [by eapply list_elem_of_lookup_2|by eapply Hfree]. }
  case_decide as Hlen.
  { destruct (free_rooms st t (data_rooms data)); [by apply elem_of_nil in Hin|done]. }
  unfold bind, random_index, Math_random, ret. by eexists.
Qed.

Lemma instance_ready_ext data st st' :
  st_rooms st' = st_rooms st ->
  EVENT_START_TIME st' = EVENT_START_TIME st ->
  EVENT_END_TIME st' = EVENT_END_TIME st ->
  st_random st' = st_random st ->
  instance_ready data st -> instance_ready data st'.
Proof.
  intros Hr H0 H1 Hrand [Hok Hrooms Hhours]. split.
  - intros n. rewrite Hrand. apply Hok.
  - intros r Hin. rewrite Hr. by apply Hrooms.
  - rewrite Hr, H0, H1. done.
Qed.

Lemma room_free_ext st st' t r :
  st_rooms st' = st_rooms st -> EVENT_START_TIME st' = EVENT_START_TIME st ->
  room_free st' t r = room_free st t r.
Proof. unfold room_free. by intros -> ->. Qed.

Lemma for_each_total {A} (I : State -> Prop) (body : A -> M unit) l st :
  I st ->
  (forall x st1, x ∈ l -> I st1 -> exists st2, body x st1 = Ok tt st2 /\ I st2) ->
  exists st', for_each l body st = Ok tt st' /\ I st'.
Proof.
  revert st. induction l as [|x l IH]; intros st HI Hstep; [by exists st|].
  destruct (Hstep x st) as (st1 & Hx & HI1); [left|done|].
  destruct (IH st1 HI1) as (st' & Hl & HI').
  { intros y st2 Hy. apply Hstep. by right. }
  exists st'. split; [|done]. cbn. by erewrite bind_run.
Qed.

Lemma map_M_total {A B} (I : list B -> State -> Prop) (f : A -> M B) l st :
  I [] st ->
  (forall x rdone st1, x ∈ l -> I rdone st1 ->
     exists r st2, f x st1 = Ok r st2 /\ I (rdone ++ [r]) st2) ->
  exists rs st', map_M f l st = Ok rs st' /\ I rs st'.
Proof.
  intros HI Hstep.
  assert (Hgen : forall rest rdone st1,
    (forall x, x ∈ rest -> x ∈ l) -> I rdone st1 ->
    exists rs st', map_M f rest st1 = Ok rs st' /\ I (rdone ++ rs) st').
  { induction rest as [|x rest IH]; intros rdone st1 Hsub HI1.
    - exists [], st1. by rewrite app_nil_r.
    - destruct (Hstep x rdone st1) as (r & st2 & Hx & HI2); [apply Hsub; left|done|].
      destruct (IH (rdone ++ [r]) st2) as (rs & st' & Hl & HI').
      { intros y Hy. apply Hsub. by right. }
      { done. }
      exists (r :: rs), st'. rewrite <- app_assoc in HI'. split; [|done]. cbn.
      erewrite bind_run by done. by erewrite bind_run. }
  destruct (Hgen l [] st) as (rs & st' & H & HI'); [done|done|]. by exists rs, st'.
Qed.

Lemma initialize_step_ready data a i s st :
  instance_ready data st ->
  st_schedules st !! a = Some s -> sch_data s = data ->
  i < length (data_events data) ->
  exists st', initialize_step a i st = Ok tt st'.
Proof.
  intros Hready Ha Hdata Hi. unfold initialize_step.
  erewrite bind_run by (by apply load_schedule_Ok).
  destruct (lookup_lt_is_Some_2 (data_events data) i Hi) as [dataEvent Hd].
  rewrite Hdata. erewrite bind_run by (by apply defined_Ok).
  erewrite bind_run by reflexivity.
  erewrite bind_run by reflexivity.
  match goal with |- context [bind getRandomTimeSlot _ ?x] => set (st2 := x) end.
  assert (Hready2 : instance_ready data st2) by by apply (instance_ready_ext data st).
  destruct (getRandomTimeSlot_ready data st2 Hready2) as (t & Ht & Hfree).
  erewrite bind_run by exact Ht.
  erewrite bind_run by reflexivity.
  match goal with |- context [bind (getAvailableRoom _ _) _ ?x] => set (st4 := x) end.
  assert (Hready4 : instance_ready data st4) by by apply (instance_ready_ext data st).
  destruct (getAvailableRoom_ready data a (set_sch_eventNum S s) t st4) as [room Hroom];
    [done| |done| |].
  { subst st4 st2. cbn [st_schedules with_schedules with_events with_drawn].
    by rewrite list_lookup_alter_eq, Ha. }
  { intros r rm Hr Hrm. rewrite <- (Hfree r rm Hr Hrm). by apply room_free_ext. }
  erewrite bind_run by exact Hroom.
  erewrite bind_run by reflexivity.
  by eexists.
Qed.

Lemma initialize_ready data a s st :
  instance_ready data st ->
  st_schedules st !! a = Some s -> sch_data s = data ->
  exists st', initialize a st = Ok a st'.
Proof.
  intros Hready Ha Hdata. unfold initialize.
  erewrite bind_run by (by apply load_schedule_Ok). rewrite Hdata.
  destruct (for_each_total
    (fun stx => instance_ready data stx
                /\ exists sx, st_schedules stx !! a = Some sx /\ sch_data sx = data)
    (initialize_step a) (seq 0 (length (data_events data))) st) as (st' & Hloop & _).
  - split; [done|]. by exists s.
  - intros i stx Hi [Hrx (sx & Hsx & Hdx)]. apply elem_of_seq in Hi.
    destruct (initialize_step_ready data a i sx stx) as [sty Hstep]; [done..|lia|].
    exists sty. split; [done|].
    apply initialize_step_Ok in Hstep
      as (s1 & name & room & t & Ha1 & Hr & H0 & H1 & Hrand & He & Hs & _).
    rewrite Hsx in Ha1. injection Ha1 as <-.
    split; [by apply (instance_ready_ext data stx)|].
    eexists. split.
    + rewrite Hs. apply list_lookup_insert_eq. by eapply lookup_lt_Some.
    + done.
  - unfold for_upto. erewrite bind_run by exact Hloop. by eexists.
Qed.

Lemma initialized_event_gene st st' data k e :
  random_ok st -> st_rooms st' = st_rooms st ->
  initialized_event st st' data k e ->
  exists g, gene_of st' (Some e) = Some g /\ gene_id g = k.
Proof.
  intros Hok Hr (_ & ev & t & Hev & Hid & Ht & Hroom).
  destruct (Hroom Hok) as (r & Hevr & _ & [room Hrm]).
  exists (mkGene k r t). split; [|done].
  apply gene_of_Some. exists e, ev, room. cbn. rewrite Hr. done.
Qed.

(** A fresh schedule of a well-formed instance is a full chromosome. *)
Lemma fresh_schedule_ready data st :
  instance_ready data st ->
  exists a st',
    (let* a := ScheduleEvents_new data in initialize a) st = Ok a st'
    /\ evolves nobody st st'
    /\ complete data st' a
    /\ length (st_schedules st) <= a.
Proof.
  intros Hready.
  destruct (initialize_ready data (length (st_schedules st))
              (mkSchedule data [] 0 (-1) 0 true)
              (with_schedules (fun h => h ++ [mkSchedule data [] 0 (-1) 0 true]) st))
    as [st' Hinit].
  { by apply (instance_ready_ext data st). }
  { cbn. by apply list_lookup_middle. }
  { done. }
  assert (Hrun : (let* a := ScheduleEvents_new data in initialize a) st
                 = Ok (length (st_schedules st)) st').
  { by erewrite bind_run by reflexivity. }
  exists (length (st_schedules st)), st'. split; [done|].
  apply fresh_schedule_Ok in Hrun as (_ & new & Hlen & Ha & Hnew & Hev).
  split; [done|]. split; [|done].
  exists (mkSchedule data (map Some new) 0 (-1) (length new) true).
  destruct (genes_of_positioned st' (map Some new)) as (gs & Hgs & Hpos).
  { intros i Hi. rewrite length_map in Hi. rewrite js_get_map_Some.
    destruct (lookup_lt_is_Some_2 new i Hi) as [e He]. rewrite He.
    apply (initialized_event_gene st st' data i e);
      [apply Hready|apply (ev_rooms _ _ _ Hev)|by apply Hnew]. }
  exists gs. cbn. by rewrite length_map.
Qed.

Lemma complete_evolves P data st st' a :
  evolves P st st' -> ~ P a -> complete data st a -> complete data st' a.
Proof.
  intros Hev HP (s & gs & Hs & Hd & Hlen & Hgs & Hpos).
  destruct (ev_schedules _ _ _ Hev a s Hs) as (s' & Hs' & Hd' & Hsame).
  exists s', gs. rewrite Hsame by done. split; [done|]. split; [congruence|].
  split; [done|]. split; [|done]. by apply (evolves_genes_of P st).
Qed.

Lemma Forall_complete_evolves data st st' l :
  evolves nobody st st' -> Forall (complete data st) l -> Forall (complete data st') l.
Proof.
  intros Hev Hall. eapply Forall_impl; [exact Hall|].
  intros a. apply (complete_evolves nobody); [done|apply not_nobody].
Qed.

Lemma fitness_ready data a st :
  Coherent st -> complete data st a -> exists f st', fitness a st = Ok f st'.
Proof.
  intros Hco (s & gs & Hs & _ & _ & Hgs & _).
  destruct (fitness_run a st s gs (Hco a s Hs) Hs Hgs) as (st' & Hf & _). by eexists _, _.
Qed.

Lemma defined_entries_map_Some {A} (l : list A) : defined_entries (map Some l) = l.
Proof. induction l as [|x l IH]; [done|]. cbn. fold (defined_entries (map Some l)). by rewrite IH. Qed.

Lemma sort_by_fitness_ready data l st :
  Coherent st -> Forall (complete data st) l ->
  exists l2 st',
    sort_by_fitness (map Some l) st = Ok (map Some l2) st'
    /\ l2 ≡ₚ l /\ evolves nobody st st'.
Proof.
  intros Hco Hall.
  assert (exists keyed st', (if decide (2 <= length l)
            then map_M (fun a => let* f := fitness a in ret (a, f)) l
            else ret (map (fun a => (a, 0%Q)) l)) st = Ok keyed st'
            /\ map fst keyed = l)
    as (keyed & st' & Hkeyed & Hfst).
  { case_decide.
    2:{ eexists _, _. split; [done|]. rewrite map_map. apply map_id. }
    destruct (map_M_total (fun _ stx => Coherent stx /\ Forall (complete data stx) l)
                (fun a => let* f := fitness a in ret (a, f)) l st) as (rs & st' & Hrs & _).
    - done.
    - intros a _ stx Ha [Hcox Hallx].
      destruct (fitness_ready data a stx) as (f & sty & Hf); [done| |].
      { rewrite Forall_forall in Hallx. by apply Hallx. }
      exists (a, f), sty. split; [by erewrite bind_run|].
      apply fitness_Ok in Hf as (Hev & _).
      split; [by apply (ev_coherent _ _ _ Hev)|by eapply Forall_complete_evolves].
    - exists rs, st'. split; [done|].
      apply (map_M_Ok (fun done rdone _ => map fst rdone = done)) in Hrs; [done|done|].
      intros done rdone a rest stx r sty _ Hd Hstep.
      inv_step Hstep as f stz Hf. injection Hstep as <- _.
      by rewrite map_app, Hd. }
  assert (Hrun : sort_by_fitness (map Some l) st
                 = Ok (map Some (map fst (stable_sort_desc keyed))) st').
  { unfold sort_by_fitness. rewrite defined_entries_map_Some.
    erewrite bind_run by exact Hkeyed.
    rewrite length_map, Nat.sub_diag. cbn [replicate]. by rewrite app_nil_r, map_map. }
  exists (map fst (stable_sort_desc keyed)), st'. split; [done|]. split.
  - rewrite <- Hfst. apply Permutation_map, stable_sort_desc_perm.
  - by apply sort_by_fitness_Ok in Hrun as (Hev & _).
Qed.

Lemma js_getZ_map_Some {A} (l : list A) i :
  (0 <= i < Z.of_nat (length l))%Z -> exists x, js_getZ (map Some l) i = Some x /\ x ∈ l.
Proof.
  intros Hi. unfold js_getZ. destruct (Z.ltb_spec i 0); [lia|].
  rewrite js_get_map_Some.
  destruct (lookup_lt_is_Some_2 l (Z.to_nat i)) as [x Hx]; [lia|].
  exists x. split; [done|]. by eapply list_elem_of_lookup_2.
Qed.

(** The winner of a tournament is a chromosome of the population. *)
Lemma _selectTournamentPopulation_ready data pop st :
  instance_ready data st -> Coherent st ->
  population_ok data st POPULATION_SIZE pop ->
  exists t st' a,
    _selectTournamentPopulation pop st = Ok t st'
    /\ evolves nobody st st'
    /\ js_get (pop_schedules t) 0 = Some a
    /\ complete data st' a.
Proof.
  intros Hready Hco (Hdata & l & Hl & Hlen & Hall).
  unfold _selectTournamentPopulation.
  rewrite (bind_run _ _ _ _ _ (PopulationEvents_new_0 _ _)).
  destruct (map_M_total
    (fun rdone stx => evolves nobody st stx
       /\ exists picked, rdone = map Some picked /\ Forall (fun a => a ∈ l) picked)
    (fun _ => let* i := random_index POPULATION_SIZE in ret (js_getZ (pop_schedules pop) i))
    (seq 0 TOURNAMENT_SELECTION_SIZE_EVENTS) st)
    as (picks & st1 & Hpicks & Hev1 & picked & -> & Hpicked).
  { split; [apply evolves_refl|]. by exists []. }
  { intros x rdone stx _ (Hevx & picked & -> & Hpicked).
    destruct (random_index POPULATION_SIZE stx) as [i sty|] eqn:Hi; [|done].
    assert (Hrange : (0 <= i < Z.of_nat POPULATION_SIZE)%Z).
    { eapply random_index_range; [|unfold POPULATION_SIZE; lia|exact Hi].
      eapply instance_ready_evolves; [exact Hevx|exact Hready]. }
    pose proof Hi as Hi2. apply random_index_Ok in Hi2 as [_ ->].
    destruct (js_getZ_map_Some l i) as (a & Ha & Hin); [lia|].
    exists (Some a), (with_drawn (S (st_drawn stx)) stx).
    split; [erewrite bind_run by exact Hi; by rewrite Hl, Ha|].
    split; [eapply evolves_trans; [exact Hevx|apply evolves_with_drawn]|].
    exists (picked ++ [a]). split; [by rewrite map_app|].
    apply Forall_app. split; [done|]. by constructor. }
  pose proof (map_M_length _ _ _ _ _ Hpicks) as Hlenp.
  rewrite length_map, length_seq in Hlenp.
  erewrite bind_run by exact Hpicks. cbn [pop_schedules app].
  assert (Hcomplete : Forall (complete data st1) picked).
  { rewrite Forall_forall in Hpicked, Hall. apply Forall_forall. intros a Ha.
    apply (complete_evolves nobody data st); [done|apply not_nobody|].
    apply Hall, Hpicked, Ha. }
  destruct (sort_by_fitness_ready data picked st1) as (l2 & st' & Hsort & Hperm & Hev2);
    [by apply (ev_coherent _ _ _ Hev1)|done|].
  erewrite bind_run by exact Hsort.
  assert (Hlen2 : length l2 = TOURNAMENT_SELECTION_SIZE_EVENTS) by by rewrite Hperm.
  destruct l2 as [|a l2]; [done|].
  exists (set_pop_schedules (fun _ => map Some (a :: l2)) (mkPopulation 0 (pop_data pop) [])),
         st', a.
  split; [done|]. split; [by eapply evolves_trans|]. split; [done|].
  apply (complete_evolves nobody data st1); [done|apply not_nobody|].
  rewrite Forall_forall in Hcomplete. apply Hcomplete. rewrite <- Hperm. left.
Qed.

Lemma complete_allocated data st a : complete data st a -> is_Some (st_schedules st !! a).
Proof. intros (s & _ & Hs & _). by eexists. Qed.

Lemma complete_gene data st a s i :
  complete data st a -> st_schedules st !! a = Some s -> i < length (data_events data) ->
  exists g, gene_of st (js_get (sch_events s) i) = Some g /\ gene_id g = i.
Proof.
  intros (s' & gs & Hs' & _ & Hlen & Hgs & Hpos) Hs Hi. rewrite Hs in Hs'. injection Hs' as <-.
  destruct (lookup_lt_is_Some_2 gs i) as [g Hg].
  { rewrite (genes_of_length _ _ _ Hgs). lia. }
  exists g. split; [by eapply genes_of_lookup|by apply Hpos].
Qed.


(** Crossover of two full chromosomes returns a full chromosome. *)
Lemma _crossoverSchedule_ready data s1 s2 st :
  instance_ready data st -> complete data st s1 -> complete data st s2 ->
  exists c st',
    _crossoverSchedule (Some s1) (Some s2) st = Ok c st'
    /\ complete data st' c.
Proof.
  intros Hready Hc1 Hc2.
  pose proof Hc1 as (p1 & gs1 & Hp1 & Hd1 & Hlen1 & Hgs1 & _).
  unfold _crossoverSchedule.
  erewrite bind_run by reflexivity.
  erewrite bind_run by (by apply load_schedule_Ok).
  rewrite Hd1.
  destruct (fresh_schedule_ready data st Hready) as (c & st2 & Hfresh & Hev0 & Hcc & Hcge).
  assert (exists st1, ScheduleEvents_new data st = Ok c st1 /\ initialize c st1 = Ok c st2)
    as (st1 & Hnew & Hinit).
  { pose proof Hfresh as Hf. inv_step Hf as c0 st1 Hnew. exists st1.
    pose proof Hf as Hi. apply initialize_Ok in Hi as [-> _]. done. }
  erewrite bind_run by exact Hnew. erewrite bind_run by exact Hinit.
  pose proof Hcc as (sc & gsc & Hsc & Hdc & Hlenc & Hgsc & _).
  erewrite bind_run by (unfold events_length; erewrite bind_run by (by apply get_events_run);
                        reflexivity).
  set (st3 := with_schedules _ st2).
  assert (Hev3 : evolves nobody st2 st3) by apply evolves_set_flag.
  destruct (for_each_total
    (fun stx => is_Some (st_schedules stx !! c) /\ is_Some (st_schedules stx !! s1)
                /\ is_Some (st_schedules stx !! s2))
    (_crossoverSchedule_step c s1 (Some s2)) (seq 0 (length (sch_events sc))) st3)
    as (st' & Hloop & _).
  { assert (Hev : evolves nobody st st3) by by eapply evolves_trans.
    destruct (ev_schedules _ _ _ Hev3 c sc Hsc) as (? & ? & _).
    destruct (complete_allocated _ _ _ Hc1) as [x1 Hx1].
    destruct (complete_allocated _ _ _ Hc2) as [x2 Hx2].
    destruct (ev_schedules _ _ _ Hev s1 x1 Hx1) as (? & ? & _).
    destruct (ev_schedules _ _ _ Hev s2 x2 Hx2) as (? & ? & _).
    repeat split; by eexists. }
  { intros i stx _ ([xc Hxc] & [x1 Hx1] & [x2 Hx2]).
    assert (Hstep : exists sty, _crossoverSchedule_step c s1 (Some s2) i stx = Ok tt sty).
    { unfold _crossoverSchedule_step. erewrite bind_run by reflexivity.
      destruct (Qlt_le_dec _ _).
      - erewrite bind_run by (by apply get_events_run).
        set (stz := with_schedules _ _).
        destruct (lookup_lt_is_Some_2 (st_schedules stz) s1) as [z1 Hz1].
        { subst stz. cbn. rewrite length_alter. by eapply lookup_lt_Some. }
        unfold events_read. erewrite bind_run; cycle 1.
        { erewrite bind_run by (by apply get_events_run). reflexivity. }
        by eexists.
      - erewrite bind_run by (by apply get_events_run).
        erewrite bind_run by reflexivity.
        set (stz := with_schedules _ _).
        destruct (lookup_lt_is_Some_2 (st_schedules stz) s2) as [z2 Hz2].
        { subst stz. cbn. rewrite length_alter. by eapply lookup_lt_Some. }
        unfold events_read. erewrite bind_run; cycle 1.
        { erewrite bind_run by (by apply get_events_run). reflexivity. }
        by eexists. }
    destruct Hstep as [sty Hstep]. exists sty. split; [done|].
    apply _crossoverSchedule_step_Ok in Hstep as (_ & _ & _ & _ & _ & _ & _ & Hevs).
    destruct (ev_schedules _ _ _ Hevs c xc Hxc) as (? & ? & _).
    destruct (ev_schedules _ _ _ Hevs s1 x1 Hx1) as (? & ? & _).
    destruct (ev_schedules _ _ _ Hevs s2 x2 Hx2) as (? & ? & _).
    repeat split; by eexists. }
  unfold for_upto. erewrite bind_run by exact Hloop.
  assert (Hrun : _crossoverSchedule (Some s1) (Some s2) st = Ok c st').
  { unfold _crossoverSchedule.
    erewrite bind_run by reflexivity.
    erewrite bind_run by (by apply load_schedule_Ok).
    rewrite Hd1. erewrite bind_run by exact Hnew. erewrite bind_run by exact Hinit.
    erewrite bind_run by (unfold events_length; erewrite bind_run by (by apply get_events_run);
                          reflexivity).
    fold st3. unfold for_upto. by erewrite bind_run by exact Hloop. }
  exists c, st'. split; [done|].
  apply _crossoverSchedule_Ok in Hrun
    as (s1' & p1' & child & [= <-] & Hp1' & _ & Hchild & Hdata & Hlen & _ & Hev & Hcover).
  rewrite Hp1 in Hp1'. injection Hp1' as <-.
  destruct (genes_of_positioned st' (sch_events child)) as (gs & Hgs & Hpos).
  { intros i Hi. destruct (Hcover i Hi) as (p & Hp & Hsame).
    assert (Hcp : complete data st p) by (destruct Hp as [->|[= <-]]; done).
    destruct (complete_allocated _ _ _ Hcp) as [sp Hsp].
    rewrite (Hsame sp Hsp).
    destruct (complete_gene data st p sp i Hcp Hsp) as (g & Hg & Hid); [congruence|].
    exists g. split; [by eapply evolves_gene_of|done]. }
  exists child, gs. split; [done|]. split; [congruence|]. split; [congruence|done].
Qed.

(** Mutation of a full chromosome returns and leaves a full chromosome. *)
Lemma _mutateSchedule_ready data m st :
  instance_ready data st -> complete data st m ->
  exists r st',
    _mutateSchedule (Some m) st = Ok r st'
    /\ evolves (eq m) st st'
    /\ complete data st' m.
Proof.
  intros Hready Hcm.
  pose proof Hcm as (sm & gsm & Hsm & Hdm & Hlenm & Hgsm & _).
  destruct (fresh_schedule_ready data st Hready) as (f0 & st2 & Hfresh & Hev0 & Hcf & Hfge).
  assert (exists st1, ScheduleEvents_new data st = Ok f0 st1 /\ initialize f0 st1 = Ok f0 st2)
    as (st1 & Hnew & Hinit).
  { pose proof Hfresh as Hf. inv_step Hf as c0 st1 Hnew. exists st1.
    pose proof Hf as Hi. apply initialize_Ok in Hi as [-> _]. done. }
  destruct (ev_schedules _ _ _ Hev0 m sm Hsm) as (sm2 & Hsm2 & _ & Hsame2).
  set (st3 := with_schedules (fun h => alter (set_sch_isFitnessChanged true) m h) st2).
  assert (Hev3 : evolves nobody st2 st3) by apply evolves_set_flag.
  destruct (for_each_total
    (fun stx => is_Some (st_schedules stx !! m) /\ is_Some (st_schedules stx !! f0))
    (_mutateSchedule_step m f0) (seq 0 (length (sch_events sm2))) st3)
    as (st' & Hloop & _).
  { destruct (ev_schedules _ _ _ Hev3 m sm2 Hsm2) as (? & ? & _).
    destruct (complete_allocated _ _ _ Hcf) as [xf Hxf].
    destruct (ev_schedules _ _ _ Hev3 f0 xf Hxf) as (? & ? & _).
    split; by eexists. }
  { intros i stx _ ([xm Hxm] & [xf Hxf]).
    assert (Hstep : exists sty, _mutateSchedule_step m f0 i stx = Ok tt sty).
    { unfold _mutateSchedule_step. erewrite bind_run by reflexivity.
      destruct (Qlt_le_dec _ _); [|by eexists].
      erewrite bind_run by (by apply get_events_run).
      set (stz := with_schedules _ _).
      destruct (lookup_lt_is_Some_2 (st_schedules stz) f0) as [zf Hzf].
      { subst stz. cbn. rewrite length_alter. by eapply lookup_lt_Some. }
      unfold events_read. erewrite bind_run; cycle 1.
      { erewrite bind_run by (by apply get_events_run). reflexivity. }
      by eexists. }
    destruct Hstep as [sty Hstep]. exists sty. split; [done|].
    apply _mutateSchedule_step_Ok in Hstep as [Hevs _].
    destruct (ev_schedules _ _ _ Hevs m xm Hxm) as (? & ? & _).
    destruct (ev_schedules _ _ _ Hevs f0 xf Hxf) as (? & ? & _).
    split; by eexists. }
  assert (Hrun : _mutateSchedule (Some m) st = Ok (Some m) st').
  { unfold _mutateSchedule.
    erewrite bind_run by reflexivity.
    erewrite bind_run by (by apply load_schedule_Ok).
    rewrite Hdm. erewrite bind_run by exact Hnew. erewrite bind_run by exact Hinit.
    erewrite bind_run by (unfold events_length; erewrite bind_run by (by apply get_events_run);
                          reflexivity).
    fold st3. unfold for_upto. by erewrite bind_run by exact Hloop. }
  exists (Some m), st'. split; [done|].
  apply _mutateSchedule_Ok in Hrun
    as (m' & sm0 & sm' & new & [= <-] & _ & Hsm0 & Hev & Hsm' & Hdata & Hlen & _
        & Hlennew & Hnew' & Hcover).
  rewrite Hsm in Hsm0. injection Hsm0 as <-.
  split; [done|].
  destruct (genes_of_positioned st' (sch_events sm')) as (gs & Hgs & Hpos).
  { intros i Hi. rewrite Hlen in Hi. destruct (Hcover i Hi) as [Hold|Hfresh'].
    - rewrite Hold.
      destruct (complete_gene data st m sm i Hcm Hsm) as (g & Hg & Hid); [congruence|].
      exists g. split; [by eapply evolves_gene_of|done].
    - rewrite Hfresh'. destruct (lookup_lt_is_Some_2 new i) as [e He]; [congruence|].
      rewrite He. rewrite Hdm in Hnew'.
      apply (initialized_event_gene st st' data i e);
        [apply Hready|apply (ev_rooms _ _ _ Hev)|by apply Hnew']. }
  exists sm', gs. split; [done|]. split; [congruence|]. split; [congruence|done].
Qed.

Lemma population_ok_evolves data st st' n pop :
  evolves nobody st st' -> population_ok data st n pop -> population_ok data st' n pop.
Proof.
  intros Hev (Hd & l & Hl & Hlen & Hall). split; [done|]. exists l.
  split; [done|]. split; [done|]. by eapply Forall_complete_evolves.
Qed.

Lemma _crossoverPopulation_child_ready data pop st :
  instance_ready data st -> Coherent st ->
  population_ok data st POPULATION_SIZE pop ->
  exists c st',
    _crossoverPopulation_child pop st = Ok (Some c) st'
    /\ complete data st' c.
Proof.
  intros Hready Hco Hpop. unfold _crossoverPopulation_child.
  destruct (_selectTournamentPopulation_ready data pop st) as (t1 & st1 & a1 & Ht1 & Hev1 & Ha1 & Hc1);
    [done..|].
  erewrite bind_run by exact Ht1.
  destruct (_selectTournamentPopulation_ready data pop st1) as (t2 & st2 & a2 & Ht2 & Hev2 & Ha2 & Hc2).
  { by eapply instance_ready_evolves. }
  { by apply (ev_coherent _ _ _ Hev1). }
  { by eapply population_ok_evolves. }
  erewrite bind_run by exact Ht2. rewrite Ha1, Ha2.
  destruct (_crossoverSchedule_ready data a1 a2 st2) as (c & st' & Hc & Hcc).
  { eapply instance_ready_evolves; [exact Hev2|]. by eapply instance_ready_evolves. }
  { by apply (complete_evolves nobody data st1); [|apply not_nobody|]. }
  { done. }
  erewrite bind_run by exact Hc. by exists c, st'.
Qed.

Lemma population_ok_elite data st pop i :
  population_ok data st POPULATION_SIZE pop -> i < POPULATION_SIZE ->
  exists a, js_get (pop_schedules pop) i = Some a /\ complete data st a.
Proof.
  intros (_ & l & -> & Hlen & Hall) Hi.
  destruct (lookup_lt_is_Some_2 l i) as [a Ha]; [lia|].
  exists a. rewrite js_get_map_Some. split; [done|].
  rewrite Forall_forall in Hall. apply Hall. by eapply list_elem_of_lookup_2.
Qed.

Lemma _crossoverPopulation_ready data pop st :
  instance_ready data st -> Coherent st ->
  population_ok data st POPULATION_SIZE pop ->
  exists cp st',
    _crossoverPopulation pop st = Ok cp st'
    /\ population_ok data st' POPULATION_SIZE cp.
Proof.
  intros Hready Hco Hpop. unfold _crossoverPopulation.
  rewrite (bind_run _ _ _ _ _ (PopulationEvents_new_0 _ _)).
  destruct (map_M_total
    (fun rdone stx => evolves nobody st stx
       /\ exists cs, rdone = map Some cs /\ Forall (complete data stx) cs)
    (fun _ => _crossoverPopulation_child pop)
    (seq NUMB_OF_ELITE_EVENTS (POPULATION_SIZE - NUMB_OF_ELITE_EVENTS)) st)
    as (children & st' & Hchildren & Hev & cs & -> & Hcs).
  { split; [apply evolves_refl|]. by exists []. }
  { intros x rdone stx _ (Hevx & cs & -> & Hcs).
    destruct (_crossoverPopulation_child_ready data pop stx) as (c & sty & Hc & Hcc).
    { by eapply instance_ready_evolves. }
    { by apply (ev_coherent _ _ _ Hevx). }
    { by eapply population_ok_evolves. }
    exists (Some c), sty. split; [done|].
    apply _crossoverPopulation_child_Ok in Hc as [Hevc _].
    split; [by eapply evolves_trans|]. exists (cs ++ [c]). split; [by rewrite map_app|].
    apply Forall_app. split; [by eapply Forall_complete_evolves|by constructor]. }
  erewrite bind_run by exact Hchildren.
  eexists _, st'. split; [done|]. split; [apply Hpop|].
  destruct (population_ok_elite data st pop 0 Hpop) as (e0 & He0 & Hc0);
    [unfold POPULATION_SIZE; lia|].
  destruct (population_ok_elite data st pop 1 Hpop) as (e1 & He1 & Hc1);
    [unfold POPULATION_SIZE; lia|].
  exists (e0 :: e1 :: cs). cbn [pop_schedules set_pop_schedules app map seq NUMB_OF_ELITE_EVENTS].
  rewrite He0, He1. split; [done|]. split.
  - apply map_M_length in Hchildren. rewrite length_map, length_seq in Hchildren.
    cbn. rewrite Hchildren. done.
  - constructor; [by apply (complete_evolves nobody data st); [|apply not_nobody|]|].
    constructor; [by apply (complete_evolves nobody data st); [|apply not_nobody|]|done].
Qed.

Lemma _mutatePopulation_ready data pop st :
  instance_ready data st ->
  population_ok data st POPULATION_SIZE pop ->
  exists st',
    _mutatePopulation pop st = Ok pop st'
    /\ population_ok data st' POPULATION_SIZE pop.
Proof.
  intros Hready (Hd & l & Hl & Hlen & Hall). unfold _mutatePopulation.
  destruct (for_each_total
    (fun stx => instance_ready data stx /\ Forall (complete data stx) l)
    (fun i => _mutateSchedule (js_get (pop_schedules pop) i) ;; ret tt)
    (seq NUMB_OF_ELITE_EVENTS (POPULATION_SIZE - NUMB_OF_ELITE_EVENTS)) st)
    as (st' & Hloop & _ & Hall').
  { done. }
  { intros i stx Hi [Hrx Hallx]. apply elem_of_seq in Hi.
    destruct (lookup_lt_is_Some_2 l i) as [m Hm].
    { rewrite Hlen. unfold POPULATION_SIZE, NUMB_OF_ELITE_EVENTS in *. lia. }
    rewrite Hl, js_get_map_Some, Hm.
    assert (Hcm : complete data stx m).
    { rewrite Forall_forall in Hallx. apply Hallx. by eapply list_elem_of_lookup_2. }
    destruct (_mutateSchedule_ready data m stx Hrx Hcm) as (r & sty & Hrun & Hev & Hcm').
    exists sty. split; [by erewrite bind_run by exact Hrun|].
    split; [by eapply instance_ready_evolves|].
    rewrite Forall_forall in Hallx. apply Forall_forall. intros b Hb.
    destruct (decide (b = m)) as [->|Hne]; [done|].
    apply (complete_evolves (eq m) data stx); [done|congruence|by apply Hallx]. }
  exists st'. split; [by erewrite bind_run by exact Hloop|].
  split; [done|]. by exists l.
Qed.

(** On a population of full chromosomes of a well-formed instance one
    generational step returns, with such a population. *)
Lemma evolve_ready data pop st :
  instance_ready data st -> Coherent st ->
  population_ok data st POPULATION_SIZE pop ->
  exists pop' st',
    evolve pop st = Ok pop' st'
    /\ instance_ready data st' /\ Coherent st'
    /\ population_ok data st' POPULATION_SIZE pop'.
Proof.
  intros Hready Hco Hpop. unfold evolve.
  destruct (_crossoverPopulation_ready data pop st Hready Hco Hpop) as (cp & st1 & Hcross & Hcp).
  pose proof (_crossoverPopulation_Ok _ _ _ _ Hcross) as (Hev1 & _).
  destruct (_mutatePopulation_ready data cp st1) as (st' & Hmut & Hpop');
    [by eapply instance_ready_evolves|done|].
  assert (Hrun : evolve pop st = Ok cp st').
  { unfold evolve. by erewrite bind_run by exact Hcross. }
  exists cp, st'. split; [done|].
  apply evolve_Ok in Hrun as (Hev & _).
  split; [by eapply instance_ready_evolves|]. split; [by apply (ev_coherent _ _ _ Hev)|done].
Qed.

(** C8. For every population of exactly POPULATION_SIZE chromosomes,
    the population [evolve] returns holds exactly POPULATION_SIZE
    chromosomes; and [evolve] does return on such a population when it
    is one of full chromosomes of a well-formed instance. *)
Theorem evolve_population_size population st :
  chromosomes st population POPULATION_SIZE ->
  (forall pop' st',
     evolve population st = Ok pop' st' -> chromosomes st' pop' POPULATION_SIZE)
  /\ (forall data,
        instance_ready data st -> Coherent st ->
        population_ok data st POPULATION_SIZE population ->
        exists pop' st',
          evolve population st = Ok pop' st' /\ chromosomes st' pop' POPULATION_SIZE).
Proof.
  intros Hpop. split.
  - intros pop' st'. by apply evolve_chromosomes.
  - intros data Hready Hco Hok.
    destruct (evolve_ready data population st Hready Hco Hok) as (pop' & st' & Hrun & _).
    exists pop', st'. split; [done|]. by eapply evolve_chromosomes.
Qed.

(** ** The constructor of [Data] *)

Lemma Data_make_room_run total i st :
  (0 <= total)%Z ->
  Data_make_room total i st
  = Ok (length (st_rooms st)) (with_rooms (fun h => h ++ [made_room total i]) st).
Proof.
  intros Htotal. unfold Data_make_room, Array_fill_true.
  destruct (Z.ltb_spec total 0); [lia|]. reflexivity.
Qed.

Lemma Data_make_room_throw total i st :
  (total < 0)%Z -> Data_make_room total i st = Throw RangeError.
Proof.
  intros Htotal. unfold Data_make_room, Array_fill_true.
  destruct (Z.ltb_spec total 0); [done|lia].
Qed.

Lemma Data_make_rooms_run total j m st :
  (0 <= total)%Z ->
  exists st',
    map_M (Data_make_room total) (seq j m) st = Ok (seq (length (st_rooms st)) m) st'
    /\ st_rooms st' = st_rooms st ++ map (made_room total) (seq j m)
    /\ st_events st' = st_events st /\ st_schedules st' = st_schedules st
    /\ EVENT_START_TIME st' = EVENT_START_TIME st
    /\ EVENT_END_TIME st' = EVENT_END_TIME st
    /\ st_random st' = st_random st /\ st_drawn st' = st_drawn st.
Proof.
  intros Htotal. revert j st. induction m as [|m IH]; intros j st.
  - exists st. cbn. by rewrite app_nil_r.
  - destruct (IH (S j) (with_rooms (fun h => h ++ [made_room total j]) st))
      as (st' & Hrun & Hr & He & Hs & H0 & H1 & Hrand & Hd).
    exists st'. split.
    + cbn [seq map_M]. erewrite bind_run by (by apply Data_make_room_run).
      erewrite bind_run by exact Hrun. cbn. rewrite length_app. cbn.
      by rewrite Nat.add_1_r.
    + rewrite Hr. cbn. rewrite <- app_assoc. done.
Qed.

Lemma slots_nonneg s e : (0 <= (e - s) / 60)%Z <-> (s <= e)%Z.
Proof.
  split; intros H.
  - destruct (Z.le_gt_cases s e) as [|Hlt]; [done|].
    assert ((e - s) / 60 < 0)%Z; [|lia].
    apply Z.div_lt_upper_bound; lia.
  - apply Z.div_pos; lia.
Qed.

(** What the constructor returns whenever it does not meet a negative
    array length. *)
Lemma Data_new_run n names s e st :
  ~ (1 <= n /\ e < s)%Z ->
  exists data st',
    Data_new n names s e st = Ok data st'
    /\ data_rooms data = seq (length (st_rooms st)) (Z.to_nat n)
    /\ data_EVENT_NAMES data = retained_names names
    /\ data_events data
       = imap (fun index eventName => mkEvent index eventName None None) (retained_names names)
    /\ st_rooms st' = st_rooms st ++ map (made_room ((e - s) / 60)) (seq 0 (Z.to_nat n))
    /\ st_events st' = st_events st /\ st_schedules st' = st_schedules st
    /\ EVENT_START_TIME st' = s /\ EVENT_END_TIME st' = e
    /\ st_random st' = st_random st /\ st_drawn st' = st_drawn st.
Proof.
  intros Hok. unfold Data_new. erewrite bind_run by reflexivity.
  destruct (decide (1 <= n)%Z) as [Hn|Hn].
  - destruct (Data_make_rooms_run ((e - s) / 60) 0 (Z.to_nat n) (with_times s e st))
      as (st' & Hrun & Hr & He & Hs & H0 & H1 & Hrand & Hd).
    { apply slots_nonneg. lia. }
    erewrite bind_run by exact Hrun. eexists _, st'. split; [reflexivity|]. done.
  - replace (Z.to_nat n) with 0 by lia. cbn [seq map_M].
    erewrite bind_run by reflexivity. eexists _, _. split; [reflexivity|].
    cbn. rewrite app_nil_r. done.
Qed.

Lemma Data_new_throw n names s e st :
  (1 <= n /\ e < s)%Z -> Data_new n names s e st = Throw RangeError.
Proof.
  intros [Hn Hlt]. unfold Data_new. erewrite bind_run by reflexivity.
  replace (Z.to_nat n) with (S (Z.to_nat n - 1)) by lia. cbn [seq map_M].
  rewrite (bind_Throw _ _ _ RangeError); [done|].
  rewrite (bind_Throw _ _ _ RangeError); [done|].
  apply Data_make_room_throw.
  assert (~ (0 <= (e - s) / 60)%Z); [|lia]. rewrite slots_nonneg. lia.
Qed.

Lemma Data_new_ready n names s k st :
  (1 <= n)%Z -> 0 < k -> random_ok st ->
  exists data st',
    Data_new n names s (s + 60 * Z.of_nat k) st = Ok data st'
    /\ instance_ready data st'
    /\ st_schedules st' = st_schedules st
    /\ st_events st' = st_events st
    /\ data_events data
       = imap (fun index eventName => mkEvent index eventName None None) (retained_names names)
    /\ (exists r room, data_rooms data !! 0 = Some r /\ st_rooms st' !! r = Some room
                       /\ room_number room = "Room 1"
                       /\ room_availabilitySchedule room = replicate k (Some true)).
Proof.
  intros Hn Hk Hok.
  destruct (Data_new_run n names s (s + 60 * Z.of_nat k) st)
    as (data & st' & Hrun & Hrooms & Hnames & Hevents & Hr & He & Hs & H0 & H1 & Hrand & Hd);
    [lia|].
  assert (Htotal : ((s + 60 * Z.of_nat k - s) / 60)%Z = Z.of_nat k).
  { rewrite Z.add_simpl_l, Z.mul_comm, Z.div_mul; lia. }
  rewrite Htotal in Hr.
  assert (Hfirst : data_rooms data !! 0 = Some (length (st_rooms st))
                   /\ st_rooms st' !! length (st_rooms st) = Some (made_room (Z.of_nat k) 0)).
  { rewrite Hrooms, Hr. replace (Z.to_nat n) with (S (Z.to_nat n - 1)) by lia. cbn.
    split; [done|]. by apply list_lookup_middle. }
  destruct Hfirst as [Hfirst Hroom].
  assert (Havail : room_availabilitySchedule (made_room (Z.of_nat k) 0) = replicate k (Some true)).
  { cbn. by rewrite Nat2Z.id. }
  exists data, st'. split; [done|]. split; [|split; [done|split; [done|split; [done|]]]].
  - split.
    + intros i. rewrite Hrand. apply Hok.
    + intros r Hin. rewrite Hrooms in Hin. apply elem_of_seq in Hin.
      apply lookup_lt_is_Some_2. rewrite Hr, length_app, length_map, length_seq. lia.
    + exists k, (length (st_rooms st)), (made_room (Z.of_nat k) 0).
      rewrite H0, H1. done.
  - exists (length (st_rooms st)), (made_room (Z.of_nat k) 0). done.
Qed.

(** ** The populations of a search *)

Lemma sort_by_fitness_best_first l st l' st' :
  sort_by_fitness l st = Ok l' st' ->
  2 <= length (defined_entries l) ->
  exists b fb,
    js_get l' 0 = Some b
    /\ fitness_value st' b fb
    /\ forall a, Some a ∈ l' -> exists fa, fitness_value st' a fa /\ (fa <= fb)%Q.
Proof.
  intros H Hlen.
  apply sort_by_fitness_Ok in H as (_ & _ & _ & keyed & -> & Hfst & Hall).
  specialize (Hall Hlen).
  pose proof (stable_sort_desc_perm keyed) as Hperm.
  pose proof (stable_sort_desc_sorted keyed) as Hsorted.
  assert (Hvalue : forall a f, (a, f) ∈ stable_sort_desc keyed -> fitness_value st' a f).
  { intros a f Hin. rewrite Hperm in Hin.
    destruct (Hall a f Hin) as (s' & Hs' & Hflag & Hfit & _). by exists s'. }
  destruct (stable_sort_desc keyed) as [|[b fb] rest] eqn:Hsort.
  { apply Permutation_length in Hperm. rewrite <- Hfst, length_map in Hlen.
    cbn in Hperm. lia. }
  exists b, fb. split; [done|]. split; [apply Hvalue; left|].
  intros a Ha. apply elem_of_app in Ha as [Ha|Ha].
  - apply list_elem_of_fmap in Ha as ([a' fa] & [= <-] & Hin).
    exists fa. split; [by apply Hvalue|].
    by apply (sorted_head_max (b, fb) rest (a, fa)).
  - by apply elem_of_replicate in Ha as [? _].
Qed.

Lemma sort_population_best_first population st sorted st' :
  sort_population population st = Ok sorted st' ->
  2 <= length (defined_entries (pop_schedules population)) ->
  best_first st' sorted.
Proof.
  intros H Hlen. unfold sort_population in H. inv_step H as l st1 Hsort.
  injection H as <- <-. by apply sort_by_fitness_best_first in Hsort.
Qed.

Lemma fitness_value_read st a f : fitness_value st a f -> fitness a st = Ok f st.
Proof. intros (s & Hs & Hflag & <-). by apply fitness_run_cached. Qed.

Lemma fitness_value_unique st a f1 f2 :
  fitness_value st a f1 -> fitness_value st a f2 -> f1 = f2.
Proof. intros (s1 & Hs1 & _ & <-) (s2 & Hs2 & _ & <-). congruence. Qed.

(** A cached fitness is the same in a later state, when the caches of
    both states are coherent. *)
Lemma fitness_value_evolves st st' a f f' :
  evolves nobody st st' -> Coherent st -> Coherent st' ->
  fitness_value st a f -> fitness_value st' a f' -> f = f'.
Proof.
  intros Hev Hco Hco' (s & Hs & Hflag & <-) (s' & Hs' & Hflag' & <-).
  destruct (Hco a s Hs Hflag) as (gs & Hgs & _ & ->).
  destruct (Hco' a s' Hs' Hflag') as (gs' & Hgs' & _ & ->).
  destruct (ev_schedules _ _ _ Hev a s Hs) as (s0 & Hs0 & _ & Hsame).
  rewrite Hs' in Hs0. injection Hs0 as <-.
  rewrite Hsame in Hgs' by apply not_nobody.
  rewrite (evolves_genes_of _ _ _ _ _ Hev Hgs) in Hgs'. injection Hgs' as <-.
  by rewrite (evolves_counted_conflicts _ _ _ _ Hev).
Qed.

Lemma PopulationEvents_new_Ok size data st pop st' :
  PopulationEvents_new size data st = Ok pop st' ->
  evolves nobody st st'
  /\ pop_data pop = data
  /\ exists l, pop_schedules pop = map Some l /\ length l = size.
Proof.
  intros H. unfold PopulationEvents_new in H. inv_step H as l st1 Hl.
  injection H as <- <-.
  pose proof (map_M_length _ _ _ _ _ Hl) as Hlen. rewrite length_seq in Hlen.
  split; [|split; [done|by exists l]].
  apply (map_M_Ok (fun _ _ stx => evolves nobody st stx)) in Hl; [done|apply evolves_refl|].
  intros done rdone x rest stx r sty _ Hev Hstep.
  apply fresh_schedule_Ok in Hstep as (_ & _ & _ & _ & _ & Hevs).
  by eapply evolves_trans.
Qed.

Lemma PopulationEvents_new_ready size data st :
  instance_ready data st ->
  exists pop st',
    PopulationEvents_new size data st = Ok pop st'
    /\ evolves nobody st st'
    /\ population_ok data st' size pop.
Proof.
  intros Hready. unfold PopulationEvents_new.
  destruct (map_M_total
    (fun rdone stx => evolves nobody st stx /\ Forall (complete data stx) rdone)
    (fun _ => let* a := ScheduleEvents_new data in initialize a) (seq 0 size) st)
    as (l & st' & Hl & Hev & Hall).
  { split; [apply evolves_refl|done]. }
  { intros x rdone stx _ [Hevx Hallx].
    destruct (fresh_schedule_ready data stx) as (a & sty & Hrun & Hevs & Hca & _).
    { by eapply instance_ready_evolves. }
    exists a, sty. split; [done|]. split; [by eapply evolves_trans|].
    apply Forall_app. split; [by eapply Forall_complete_evolves|by constructor]. }
  erewrite bind_run by exact Hl. eexists _, st'. split; [done|]. split; [done|].
  split; [done|]. exists l. split; [done|]. split; [|done].
  apply map_M_length in Hl. by rewrite length_seq in Hl.
Qed.

Lemma sort_population_ready data n pop st :
  Coherent st -> population_ok data st n pop ->
  exists sorted st',
    sort_population pop st = Ok sorted st'
    /\ population_ok data st' n sorted.
Proof.
  intros Hco (Hd & l & Hl & Hlen & Hall). unfold sort_population. rewrite Hl.
  destruct (sort_by_fitness_ready data l st Hco Hall) as (l2 & st' & Hsort & Hperm & Hev).
  erewrite bind_run by exact Hsort. eexists _, st'. split; [done|].
  split; [done|]. exists l2. split; [done|]. split; [by rewrite Hperm|].
  rewrite Hperm. by eapply Forall_complete_evolves.
Qed.

Lemma Coherent_no_schedules st : st_schedules st = [] -> Coherent st.
Proof. intros Hs a s Ha. by rewrite Hs in Ha. Qed.

Lemma Data_new_Ok n names s e st data st' :
  Data_new n names s e st = Ok data st' ->
  st_schedules st' = st_schedules st /\ st_random st' = st_random st
  /\ length (data_rooms data) = Z.to_nat n.
Proof.
  intros H. destruct (decide (1 <= n /\ e < s)%Z) as [Hbad|Hok].
  - by rewrite Data_new_throw in H.
  - destruct (Data_new_run n names s e st Hok)
      as (data' & st1 & Hrun & Hrooms & _ & _ & _ & _ & Hs & _ & _ & Hrand & _).
    rewrite Hrun in H. injection H as <- <-. rewrite Hrooms, length_seq. done.
Qed.

Lemma defined_entries_app {A} (l1 l2 : array A) :
  defined_entries (l1 ++ l2) = defined_entries l1 ++ defined_entries l2.
Proof. unfold defined_entries. apply omap_app. Qed.

Lemma best_first_read st population :
  best_first st population ->
  exists b fb,
    js_get (pop_schedules population) 0 = Some b
    /\ fitness b st = Ok fb st
    /\ best_fitness population st = Ok fb st
    /\ forall a, Some a ∈ pop_schedules population ->
         exists fa, fitness a st = Ok fa st /\ (fa <= fb)%Q.
Proof.
  intros (b & fb & Hb & Hfb & Hall). exists b, fb.
  split; [done|]. split; [by apply fitness_value_read|]. split.
  - unfold best_fitness. rewrite Hb. erewrite bind_run by reflexivity.
    by apply fitness_value_read.
  - intros a Ha. destruct (Hall a Ha) as (fa & Hfa & Hle).
    exists fa. split; [by apply fitness_value_read|done].
Qed.

(** One round of the loop: the caches stay coherent, the new population
    is best-first, and its best is at least as fit as the best of the
    population before, which elitism carried over. *)
Lemma next_generation_Ok population st pop' st' :
  next_generation population st = Ok pop' st' ->
  Coherent st ->
  Coherent st'
  /\ evolves nobody st st'
  /\ best_first st' pop'
  /\ (forall i a, i < NUMB_OF_ELITE_EVENTS ->
         js_get (pop_schedules population) i = Some a -> Some a ∈ pop_schedules pop')
  /\ length (pop_schedules pop') = POPULATION_SIZE.
Proof.
  intros H Hco. unfold next_generation in H. inv_step H as p1 st1 Hevolve.
  apply evolve_Ok in Hevolve as (Hev1 & _ & children & Hs & Hlen & _).
  pose proof (sort_population_Ok _ _ _ _ H) as (Hev2 & _ & Hperm).
  assert (Hev : evolves nobody st st') by by eapply evolves_trans.
  split; [by apply (ev_coherent _ _ _ Hev)|]. split; [done|]. split.
  { eapply sort_population_best_first; [exact H|].
    rewrite Hs, defined_entries_app, length_app, defined_entries_map_Some, Hlen.
    unfold POPULATION_SIZE, NUMB_OF_ELITE_EVENTS. lia. }
  split.
  { intros i a Hi Ha. rewrite Hperm, Hs. apply elem_of_app. left.
    apply list_elem_of_fmap. exists i. split; [done|]. apply elem_of_seq. lia. }
  rewrite Hperm, Hs, length_app, !length_map, length_seq, Hlen. done.
Qed.

Lemma next_generation_monotone population st pop' st' f f' st1 st2 :
  Coherent st -> best_first st population ->
  next_generation population st = Ok pop' st' ->
  best_fitness population st = Ok f st1 ->
  best_fitness pop' st' = Ok f' st2 ->
  (f <= f')%Q.
Proof.
  intros Hco Hbest Hnext Hf Hf'.
  destruct (next_generation_Ok _ _ _ _ Hnext Hco) as (Hco' & Hev & Hbest' & Helite & _).
  destruct Hbest as (b & fb & Hb & Hfb & _).
  destruct Hbest' as (b' & fb' & Hb' & Hfb' & Hall').
  assert (f = fb) as ->.
  { unfold best_fitness in Hf. rewrite Hb in Hf. erewrite bind_run in Hf by reflexivity.
    rewrite (fitness_value_read _ _ _ Hfb) in Hf. by injection Hf as <-. }
  assert (f' = fb') as ->.
  { unfold best_fitness in Hf'. rewrite Hb' in Hf'. erewrite bind_run in Hf' by reflexivity.
    rewrite (fitness_value_read _ _ _ Hfb') in Hf'. by injection Hf' as <-. }
  destruct (Hall' b) as (fa & Hfa & Hle).
  { apply (Helite 0); [unfold NUMB_OF_ELITE_EVENTS; lia|done]. }
  by rewrite (fitness_value_evolves st st' b fb fa Hev Hco Hco' Hfb Hfa).
Qed.

Lemma first_generation_Ok n names s e random pop st :
  first_generation n names s e (empty_state random) = Ok pop st ->
  Coherent st /\ best_first st pop /\ length (pop_schedules pop) = POPULATION_SIZE.
Proof.
  intros H. unfold first_generation in H. inv_step H as data st1 Hdata.
  inv_step H as p st2 Hpop.
  apply Data_new_Ok in Hdata as (Hs & _ & _).
  apply PopulationEvents_new_Ok in Hpop as (Hev1 & _ & l & Hl & Hlen).
  pose proof (sort_population_Ok _ _ _ _ H) as (Hev2 & _ & Hperm).
  assert (Hco2 : Coherent st2).
  { apply (ev_coherent _ _ _ Hev1). by apply Coherent_no_schedules. }
  split; [by apply (ev_coherent _ _ _ Hev2)|]. split.
  - eapply sort_population_best_first; [exact H|].
    rewrite Hl, defined_entries_map_Some, Hlen. unfold POPULATION_SIZE. lia.
  - by rewrite Hperm, Hl, length_map.
Qed.

Lemma generation_Ok N n names s e random pop st :
  generation N n names s e (empty_state random) = Ok pop st ->
  Coherent st /\ best_first st pop /\ length (pop_schedules pop) = POPULATION_SIZE.
Proof.
  revert pop st. induction N as [|N IH]; intros pop st H; cbn in H.
  - by eapply first_generation_Ok.
  - inv_step H as p0 st0 Hgen. destruct (IH _ _ Hgen) as (Hco & _ & _).
    destruct (next_generation_Ok _ _ _ _ H Hco) as (Hco' & _ & Hbest & _ & Hlen). done.
Qed.

(** The best fitness of a generation is at least that of the generation
    before. *)
Lemma best_of_generation_monotone N n names s e random f0 st0 f1 st1 :
  best_of_generation N n names s e (empty_state random) = Ok f0 st0 ->
  best_of_generation (S N) n names s e (empty_state random) = Ok f1 st1 ->
  (f0 <= f1)%Q.
Proof.
  intros H0 H1. unfold best_of_generation in H0, H1.
  inv_step H0 as p0 s0 Hgen0. inv_step H1 as p1 s1 Hgen1.
  cbn in Hgen1. rewrite (bind_run _ _ _ _ _ Hgen0) in Hgen1.
  destruct (generation_Ok _ _ _ _ _ _ _ _ Hgen0) as (Hco & Hbest & _).
  by eapply next_generation_monotone.
Qed.

(** C6, as the code has it. Between two consecutive generations the
    best-of-generation fitness never decreases: elitism carries the best
    chromosome unmodified into the next generation, whose best is at
    least as fit. *)
Theorem best_fitness_never_decreases N n names s e random f0 st0 f1 st1 :
  best_of_generation N n names s e (empty_state random) = Ok f0 st0 ->
  best_of_generation (S N) n names s e (empty_state random) = Ok f1 st1 ->
  (f0 <= f1)%Q.
Proof. apply best_of_generation_monotone. Qed.

(** No problem instance and no random stream make the best-of-generation
    fitness decrease from one generation to the next. *)
Lemma no_decrease_of_best_fitness :
  ~ exists N n names s e random f0 st0 f1 st1,
      best_of_generation N n names s e (empty_state random) = Ok f0 st0
      /\ best_of_generation (S N) n names s e (empty_state random) = Ok f1 st1
      /\ (f1 < f0)%Q.
Proof.
  intros (N & n & names & s & e & random & f0 & st0 & f1 & st1 & H0 & H1 & Hlt).
  apply (Qlt_not_le _ _ Hlt). by eapply best_of_generation_monotone.
Qed.

(** ** The search loop *)

Lemma generation_prefix N n names s e st0 pop st :
  generation (S N) n names s e st0 = Ok pop st ->
  exists p0 s0, generation N n names s e st0 = Ok p0 s0 /\ next_generation p0 s0 = Ok pop st.
Proof. intros H. cbn in H. inv_step H as p0 s0 Hgen. by exists p0, s0. Qed.

Lemma generation_best_monotone N N' n names s e random p st f st1 p' st' f' st1' :
  N <= N' ->
  generation N n names s e (empty_state random) = Ok p st ->
  best_fitness p st = Ok f st1 ->
  generation N' n names s e (empty_state random) = Ok p' st' ->
  best_fitness p' st' = Ok f' st1' ->
  (f <= f')%Q.
Proof.
  intros Hle Hgen Hf. revert p' st' f' st1'.
  induction Hle as [|N' Hle IH]; intros p' st' f' st1' Hgen' Hf'.
  - rewrite Hgen in Hgen'. injection Hgen' as <- <-. rewrite Hf in Hf'.
    injection Hf' as <- _. apply Qle_refl.
  - apply generation_prefix in Hgen' as (p0 & s0 & Hgen0 & Hnext).
    destruct (generation_Ok _ _ _ _ _ _ _ _ Hgen0) as (Hco & Hbest & _).
    destruct (best_first_read _ _ Hbest) as (b & fb & _ & _ & Hfb & _).
    eapply Qle_trans; [by eapply IH|].
    by eapply next_generation_monotone.
Qed.

Lemma search_loop_Ok budget g n names s e random pop st r st' :
  generation g n names s e (empty_state random) = Ok pop st ->
  search_loop budget g pop st = Ok r st' ->
  g <= fst r /\ fst r <= g + budget
  /\ generation (fst r) n names s e (empty_state random) = Ok (snd r) st'
  /\ exists fbest, best_fitness (snd r) st' = Ok fbest st'
                   /\ ((fbest == 1)%Q \/ fst r = g + budget).
Proof.
  revert g pop st. induction budget as [|budget IH]; intros g pop st Hgen H.
  - destruct (generation_Ok _ _ _ _ _ _ _ _ Hgen) as (Hco & Hbest & _).
    destruct (best_first_read _ _ Hbest) as (b & fb & Hb & Hfb & Hbf & _).
    cbn in H. rewrite Hb in H. erewrite bind_run in H by reflexivity.
    erewrite bind_run in H by exact Hfb.
    destruct (Qeq_bool fb 1) eqn:Hone; injection H as <- <-; cbn.
    + apply Qeq_bool_iff in Hone. repeat split; [lia..|done|]. exists fb. auto.
    + repeat split; [lia..|done|]. exists fb. split; [done|]. right. lia.
  - destruct (generation_Ok _ _ _ _ _ _ _ _ Hgen) as (Hco & Hbest & _).
    destruct (best_first_read _ _ Hbest) as (b & fb & Hb & Hfb & Hbf & _).
    cbn [search_loop] in H. rewrite Hb in H. erewrite bind_run in H by reflexivity.
    erewrite bind_run in H by exact Hfb.
    destruct (Qeq_bool fb 1) eqn:Hone.
    + injection H as <- <-. cbn. apply Qeq_bool_iff in Hone.
      repeat split; [lia..|done|]. exists fb. auto.
    + inv_step H as p1 st1 Hnext.
      assert (Hgen1 : generation (S g) n names s e (empty_state random) = Ok p1 st1).
      { cbn. by erewrite bind_run by exact Hgen. }
      destruct (IH _ _ _ Hgen1 H) as (Hge & Hle & Hgen' & fbest & Hfbest & Hstop).
      split; [lia|]. split; [lia|]. split; [done|]. exists fbest. split; [done|].
      destruct Hstop as [?|?]; [by left|right; lia].
Qed.

Lemma search_loop_ready data budget g pop st :
  instance_ready data st -> Coherent st ->
  population_ok data st POPULATION_SIZE pop ->
  exists r st', search_loop budget g pop st = Ok r st'
                /\ population_ok data st' POPULATION_SIZE (snd r).
Proof.
  revert g pop st. induction budget as [|budget IH]; intros g pop st Hready Hco Hpop.
  - destruct (population_ok_elite data st pop 0 Hpop) as (b & Hb & Hcb);
      [unfold POPULATION_SIZE; lia|].
    destruct (fitness_ready data b st Hco Hcb) as (f & st1 & Hf).
    pose proof (fitness_Ok _ _ _ _ Hf) as (Hev & _).
    cbn. rewrite Hb. erewrite bind_run by reflexivity. erewrite bind_run by exact Hf.
    destruct (Qeq_bool f 1); eexists _, _; (split; [reflexivity|]);
      by eapply population_ok_evolves.
  - destruct (population_ok_elite data st pop 0 Hpop) as (b & Hb & Hcb);
      [unfold POPULATION_SIZE; lia|].
    destruct (fitness_ready data b st Hco Hcb) as (f & st1 & Hf).
    pose proof (fitness_Ok _ _ _ _ Hf) as (Hev & _).
    cbn [search_loop]. rewrite Hb. erewrite bind_run by reflexivity.
    erewrite bind_run by exact Hf.
    destruct (Qeq_bool f 1).
    { eexists _, _. split; [reflexivity|]. by eapply population_ok_evolves. }
    destruct (evolve_ready data pop st1) as (p1 & st2 & Hevolve & Hready2 & Hco2 & Hpop2).
    { by eapply instance_ready_evolves. }
    { by apply (ev_coherent _ _ _ Hev). }
    { by eapply population_ok_evolves. }
    destruct (sort_population_ready data _ p1 st2 Hco2 Hpop2) as (p2 & st3 & Hsort & Hpop3).
    pose proof (sort_population_Ok _ _ _ _ Hsort) as (Hev3 & _).
    destruct (IH (S g) p2 st3) as (r & st' & Hloop & Hpop').
    { by eapply instance_ready_evolves. }
    { by apply (ev_coherent _ _ _ Hev3). }
    { done. }
    exists r, st'. split; [|done].
    unfold next_generation. erewrite bind_run; [exact Hloop|].
    by erewrite bind_run by exact Hevolve.
Qed.

Lemma Coherent_empty random : Coherent (empty_state random).
Proof. by apply Coherent_no_schedules. Qed.

(** A search on a well-formed instance returns. *)
Lemma best_schedule_ready n names s k random :
  (1 <= n)%Z -> 0 < k -> (forall i, (0 <= random i)%Q /\ (random i < 1)%Q) ->
  exists r st',
    best_schedule n names s (s + 60 * Z.of_nat k) (empty_state random) = Ok r st'.
Proof.
  intros Hn Hk Hrandom.
  destruct (Data_new_ready n names s k (empty_state random) Hn Hk Hrandom)
    as (data & st1 & Hdata & Hready1 & Hs1 & _).
  destruct (PopulationEvents_new_ready POPULATION_SIZE data st1 Hready1)
    as (pop & st2 & Hpop & Hev2 & Hpop2).
  assert (Hco2 : Coherent st2).
  { apply (ev_coherent _ _ _ Hev2). by apply Coherent_no_schedules. }
  destruct (sort_population_ready data _ pop st2 Hco2 Hpop2) as (p3 & st3 & Hsort & Hpop3).
  pose proof (sort_population_Ok _ _ _ _ Hsort) as (Hev3 & _).
  destruct (search_loop_ready data MAX_GENERATIONS 0 p3 st3) as (r & st' & Hloop & Hpop').
  { eapply instance_ready_evolves; [exact Hev3|]. by eapply instance_ready_evolves. }
  { by apply (ev_coherent _ _ _ Hev3). }
  { done. }
  destruct (population_ok_elite data st' (snd r) 0 Hpop') as (b & Hb & _);
    [unfold POPULATION_SIZE; lia|].
  eexists _, st'. unfold best_schedule, first_generation.
  erewrite bind_run; cycle 1.
  { erewrite bind_run by exact Hdata. erewrite bind_run by exact Hpop. exact Hsort. }
  erewrite bind_run by exact Hloop. rewrite Hb. reflexivity.
Qed.

(** The chromosomes of a search have pairwise different ids. *)
Lemma complete_ids data st a :
  complete data st a ->
  exists s gs, st_schedules st !! a = Some s /\ genes_of st (sch_events s) = Some gs
               /\ NoDup (map gene_id gs).
Proof.
  intros (s & gs & Hs & _ & _ & Hgs & Hpos). exists s, gs.
  split; [done|]. split; [done|]. by apply positioned_NoDup.
Qed.

(** C2. For every problem instance and random stream the search halts
    after at most MAX_GENERATIONS generations: on a well-formed instance
    (at least one room, a positive whole number of hours) it returns,
    and whenever it returns, the generation count is at most
    MAX_GENERATIONS, the population returned is that of the generation
    reached, and its first chromosome, the result, either has fitness 1
    or is returned at the exhausted budget; no chromosome of any
    generation the run went through is fitter than the result, so the
    result has fitness 1 if any chromosome of the run had. *)
Theorem search_halts_with_best n names s e random :
  ((1 <= n)%Z ->
   (exists k, 0 < k /\ e = (s + 60 * Z.of_nat k)%Z) ->
   (forall i, (0 <= random i)%Q /\ (random i < 1)%Q) ->
   exists r st', best_schedule n names s e (empty_state random) = Ok r st')
  /\ forall r st',
       best_schedule n names s e (empty_state random) = Ok r st' ->
       generationNumber r <= MAX_GENERATIONS
       /\ generation (generationNumber r) n names s e (empty_state random)
          = Ok (finalPopulation r) st'
       /\ js_get (pop_schedules (finalPopulation r)) 0 = Some (bestSchedule r)
       /\ exists fbest,
            fitness (bestSchedule r) st' = Ok fbest st'
            /\ ((fbest == 1)%Q \/ generationNumber r = MAX_GENERATIONS)
            /\ (forall N popN stN a f stN',
                  N <= generationNumber r ->
                  generation N n names s e (empty_state random) = Ok popN stN ->
                  Some a ∈ pop_schedules popN ->
                  fitness a stN = Ok f stN' ->
                  (f <= fbest)%Q /\ ((f == 1)%Q -> (fbest == 1)%Q)).
Proof.
  split.
  { intros Hn (k & Hk & ->) Hrandom. by apply best_schedule_ready. }
  intros r st' H. unfold best_schedule in H.
  inv_step H as p0 st0 Hfirst. inv_step H as lr st1 Hloop.
  inv_step H as b st2 Hb. apply defined_Ok in Hb as [Hb ->]. injection H as <- <-.
  rename st1 into st'.
  cbn [generationNumber finalPopulation bestSchedule].
  assert (Hgen0 : generation 0 n names s e (empty_state random) = Ok p0 st0) by done.
  destruct (search_loop_Ok _ _ _ _ _ _ _ _ _ _ _ Hgen0 Hloop)
    as (_ & Hle & Hgen & fbest & Hfbest & Hstop).
  split; [done|]. split; [done|]. split; [done|].
  destruct (generation_Ok _ _ _ _ _ _ _ _ Hgen) as (Hco & Hbest & _).
  destruct (best_first_read _ _ Hbest) as (b' & fb & Hb' & Hfb & Hbf & _).
  rewrite Hb in Hb'. injection Hb' as <-.
  rewrite Hbf in Hfbest. injection Hfbest as <-.
  exists fb. split; [done|]. split; [done|].
  intros N popN stN a f stN' HN HgenN Ha Hf.
  destruct (generation_Ok _ _ _ _ _ _ _ _ HgenN) as (HcoN & HbestN & _).
  destruct (best_first_read _ _ HbestN) as (bN & fbN & _ & _ & HbfN & HallN).
  destruct (HallN a Ha) as (fa & Hfa & Hfale). rewrite Hfa in Hf. injection Hf as <- _.
  assert (Hle' : (fa <= fb)%Q).
  { eapply Qle_trans; [exact Hfale|]. by eapply generation_best_monotone. }
  split; [done|]. intros Hone.
  assert (Hfb1 : (fb <= 1)%Q).
  { destruct Hbest as (b0 & fb0 & Hb0 & (sb & Hsb & Hflag & Hfit) & _).
    rewrite Hb in Hb0. injection Hb0 as <-.
    destruct (Hco b sb Hsb Hflag) as (gs & _ & _ & Hfitness).
    pose proof (fitness_value_read st' b fb0 ltac:(by exists sb)) as Hread.
    rewrite Hfb in Hread. injection Hread as <-.
    rewrite <- Hfit, Hfitness. apply fitness_of_conflicts_range. }
  apply Qle_antisym; [done|]. by rewrite <- Hone.
Qed.

(** ** The room that is always available *)

(** C10. For every problem instance built by [Data] for at least one
    room and a positive whole number [k] of hours, the first room,
    'Room 1', has an all-true availability schedule of length [k], which
    covers every slot [getRandomTimeSlot] can return; so in every state
    of such an instance [getAvailableRoom] finds a room for the slot
    drawn, and neither initialization nor mutation throws 'No available
    rooms for the given time slot': both return. *)
Theorem no_available_room_error_unreachable n names s k st :
  (1 <= n)%Z -> 0 < k -> random_ok st ->
  exists data st',
    Data_new n names s (s + 60 * Z.of_nat k) st = Ok data st'
    /\ (exists r room,
          data_rooms data !! 0 = Some r /\ st_rooms st' !! r = Some room
          /\ room_number room = "Room 1"
          /\ room_availabilitySchedule room = replicate k (Some true))
    /\ instance_ready data st'
    /\ forall stx,
         instance_ready data stx ->
         (exists t,
            getRandomTimeSlot stx = Ok (Some t) (with_drawn (S (st_drawn stx)) stx)
            /\ (forall r, data_rooms data !! 0 = Some r -> room_free stx t r = true)
            /\ forall a sa,
                 st_schedules stx !! a = Some sa -> sch_data sa = data ->
                 exists room stx',
                   getAvailableRoom a (Some t) (with_drawn (S (st_drawn stx)) stx)
                   = Ok (Some room) stx')
         /\ (exists a stx',
               (let* a := ScheduleEvents_new data in initialize a) stx = Ok a stx')
         /\ (forall m, complete data stx m ->
               exists r stx', _mutateSchedule (Some m) stx = Ok r stx').
Proof.
  intros Hn Hk Hok.
  destruct (Data_new_ready n names s k st Hn Hk Hok)
    as (data & st' & Hrun & Hready & _ & _ & _ & Hroom1).
  exists data, st'. split; [done|]. split; [done|]. split; [done|].
  intros stx Hreadyx. split; [|split].
  - destruct (getRandomTimeSlot_ready data stx Hreadyx) as (t & Ht & Hfree).
    exists t. split; [done|]. split.
    { intros r Hr. destruct (ready_rooms _ _ Hreadyx r) as [room Hroom];
        [by eapply list_elem_of_lookup_2|]. by eapply Hfree. }
    intros a sa Ha Hdata.
    set (sty := with_drawn (S (st_drawn stx)) stx).
    assert (Hreadyy : instance_ready data sty) by by apply (instance_ready_ext data stx).
    destruct (getAvailableRoom_ready data a sa t sty Hreadyy Ha Hdata) as [room Hroom].
    { intros r rm Hr Hrm. by apply (Hfree r rm). }
    pose proof (getAvailableRoom_Ok _ _ _ _ _ Hroom) as (_ & _ & Hsome).
    destruct Hsome as (s0 & r & _ & -> & _); [apply Hreadyy|].
    by eexists _, _.
  - destruct (fresh_schedule_ready data stx Hreadyx) as (a & stx' & Hfresh & _).
    by exists a, stx'.
  - intros m Hm. destruct (_mutateSchedule_ready data m stx Hreadyx Hm) as (r & stx' & Hmut & _).
    by exists r, stx'.
Qed.

(** ** Invalid configurations *)

Lemma retained_names_nonempty names : 0 < length (retained_names names).
Proof. unfold retained_names. case_decide; [done|]. cbn. lia. Qed.





(** ** Worked runs *)

(** A state in which no fitness was read yet is coherent. *)
Lemma Coherent_flags_up st :
  forallb sch_isFitnessChanged (st_schedules st) = true -> Coherent st.
Proof.
  intros H a s Ha Hflag. rewrite forallb_forall in H.
  rewrite (H s) in Hflag; [done|]. apply list_elem_of_In. by eapply list_elem_of_lookup_2.
Qed.

Lemma fitness_is_inverse_of_conflict_count_witness :
  exists f,
    (f == 1 / (1 + inject_Z (Z.of_nat 1)))%Q
    /\ (0 < f)%Q /\ (f <= 1)%Q
    /\ ((f == 1)%Q <-> 1 = 0)
    /\ (exists st', calculateFitness 0 example_state = Ok f st')
    /\ (cache_ok example_state (mkSchedule example_data [Some 0; Some 1] 0 (-1) 2 true) ->
        exists st', fitness 0 example_state = Ok f st'
                    /\ numOfConflicts 0 st' = Ok 1 st').
Proof.
  apply (fitness_is_inverse_of_conflict_count example_state 0
           (mkSchedule example_data [Some 0; Some 1] 0 (-1) 2 true)
           [mkGene 0 0 540%Z; mkGene 1 0 540%Z]).
  - reflexivity.
  - reflexivity.
  - apply (bool_decide_unpack _). vm_compute. reflexivity.
Defined.

(** The two schedules of the worked instance have one conflict each and
    fitness one half. *)
Example example_fitness_double_booking :
  exists st', fitness 0 example_state = Ok (1 # 2)%Q st'
              /\ numOfConflicts 0 st' = Ok 1 st'.
Proof. eexists. split; vm_compute; reflexivity. Qed.

Example example_fitness_unavailable_room :
  exists st', fitness 1 example_state = Ok (1 # 2)%Q st'
              /\ numOfConflicts 1 st' = Ok 1 st'.
Proof. eexists. split; vm_compute; reflexivity. Qed.

Lemma search_halts_with_best_witness :
  exists r st',
    best_schedule 1 ["Event 1"] 540 600 (empty_state (fun _ => 0%Q)) = Ok r st'
    /\ generationNumber r <= MAX_GENERATIONS.
Proof.
  destruct (search_halts_with_best 1 ["Event 1"] 540 600 (fun _ => 0%Q)) as [Htotal Hpartial].
  destruct Htotal as (r & st' & H).
  - lia.
  - exists 1. split; [lia|reflexivity].
  - intros i. split; vm_compute; congruence.
  - exists r, st'. split; [exact H|]. apply (Hpartial r st' H).
Defined.

Lemma elites_carried_over_witness :
  exists cp st1 pop' st' sorted st'',
    _crossoverPopulation example_population example_seeded_state = Ok cp st1
    /\ _mutatePopulation cp st1 = Ok pop' st'
    /\ sort_population pop' st' = Ok sorted st''
    /\ evolve example_population example_seeded_state = Ok pop' st'
    /\ js_get (pop_schedules pop') 0 = Some 0
    /\ Some 0 ∈ pop_schedules sorted.
Proof.
  eassert (Hcross : _crossoverPopulation example_population example_seeded_state = Ok _ _)
    by (vm_compute; reflexivity).
  match type of Hcross with _ = Ok ?cp ?st1 =>
    eassert (Hmut : _mutatePopulation cp st1 = Ok _ _) by (vm_compute; reflexivity) end.
  match type of Hmut with _ = Ok ?p ?st =>
    eassert (Hsort : sort_population p st = Ok _ _) by (vm_compute; reflexivity) end.
  eexists _, _, _, _, _, _.
  split; [exact Hcross|]. split; [exact Hmut|]. split; [exact Hsort|].
  destruct (elites_carried_over _ _ _ _ _ _ _ _ Hcross Hmut Hsort)
    as [Hevolve Helite].
  split; [exact Hevolve|].
  destruct (Helite 0 0 (mkSchedule (pop_data example_population) [Some 0; Some 1] 0 (-1) 2 true))
    as (_ & H0 & Hin & _).
  - unfold NUMB_OF_ELITE_EVENTS. lia.
  - reflexivity.
  - reflexivity.
  - split; [exact H0|exact Hin].
Defined.



(** A crossover child holds the event instances of its parent: setting
    the room of the first event of the child changes the assignment and
    the fitness of the parent. *)
Lemma crossover_child_shares_events :
  exists child st1 st2,
    _crossoverSchedule (Some 0) (Some 1) example_state = Ok child st1
    /\ child <> 1
    /\ events_set_room child 0 (Some 0) st1 = Ok tt st2
    /\ genes st1 1 = Some [mkGene 0 1 540%Z; mkGene 1 0 600%Z]
    /\ genes st2 1 = Some [mkGene 0 0 540%Z; mkGene 1 0 600%Z]
    /\ ~ agree (calculateFitness 1 st1) (calculateFitness 1 st2).
Proof.
  eexists _, _, _.
  split; [vm_compute; reflexivity|]. split; [discriminate|].
  split; [vm_compute; reflexivity|].
  split; [vm_compute; reflexivity|]. split; [vm_compute; reflexivity|].
  vm_compute. discriminate.
Qed.

Lemma chromosomes_own_their_array_witness :
  exists c st',
    _crossoverSchedule (Some 0) (Some 1) example_state = Ok c st'
    /\ untouched example_state st' 1.
Proof.
  eassert (Hcross : _crossoverSchedule (Some 0) (Some 1) example_state = Ok _ _)
    by (vm_compute; reflexivity).
  eexists _, _. split; [exact Hcross|].
  assert (Hco : Coherent example_state).
  { apply Coherent_flags_up. vm_compute. reflexivity. }
  destruct (chromosomes_own_their_array example_state Hco) as [Hparents _].
  apply (Hparents _ _ _ _ Hcross 1). eexists. reflexivity.
Defined.

Lemma best_fitness_never_decreases_witness :
  exists f0 st0 f1 st1,
    best_of_generation 0 1 ["Event 1"; "Event 2"] 540 600 (empty_state example_random)
    = Ok f0 st0
    /\ best_of_generation 1 1 ["Event 1"; "Event 2"] 540 600 (empty_state example_random)
       = Ok f1 st1
    /\ (f0 <= f1)%Q.
Proof.
  eassert (H0 : best_of_generation 0 1 ["Event 1"; "Event 2"] 540 600
                  (empty_state example_random) = Ok _ _) by (vm_compute; reflexivity).
  eassert (H1 : best_of_generation 1 1 ["Event 1"; "Event 2"] 540 600
                  (empty_state example_random) = Ok _ _) by (vm_compute; reflexivity).
  eexists _, _, _, _. split; [exact H0|]. split; [exact H1|].
  exact (best_fitness_never_decreases _ _ _ _ _ _ _ _ _ _ H0 H1).
Defined.

(** A write through the setter of an event after a fitness read leaves
    the stale value in the cache: the next read returns one half, the
    fitness of the current assignment is one. *)
Lemma stale_fitness_after_setter_write :
  exists st1 st2 st3 st4,
    fitness 1 example_state = Ok (1 # 2)%Q st1
    /\ Event_set_room 2 (Some 0) st1 = Ok tt st2
    /\ fitness 1 st2 = Ok (1 # 2)%Q st3
    /\ calculateFitness 1 st2 = Ok 1%Q st4
    /\ ~ agree (fitness 1 st2) (calculateFitness 1 st2).
Proof.
  eexists _, _, _, _.
  split; [vm_compute; reflexivity|]. split; [vm_compute; reflexivity|].
  split; [vm_compute; reflexivity|]. split; [vm_compute; reflexivity|].
  vm_compute. discriminate.
Qed.

Lemma fitness_fresh_after_writes_witness :
  exists st',
    for_each [WriteRoom 0 (Some 0); ReplaceEvent 1 (Some 1)] (perform_write 1) example_state
    = Ok tt st'
    /\ agree (fitness 1 st') (calculateFitness 1 st').
Proof.
  eassert (Hw : for_each [WriteRoom 0 (Some 0); ReplaceEvent 1 (Some 1)]
                  (perform_write 1) example_state = Ok tt _) by (vm_compute; reflexivity).
  eexists. split; [exact Hw|].
  apply (fitness_fresh_after_writes 1 [WriteRoom 0 (Some 0); ReplaceEvent 1 (Some 1)]
           example_state); [|exact Hw].
  intros s Hs Hflag. vm_compute in Hs. injection Hs as <-. discriminate Hflag.
Defined.

Lemma evolve_population_size_witness :
  exists pop' st',
    evolve example_population example_seeded_state = Ok pop' st'
    /\ chromosomes st' pop' POPULATION_SIZE.
Proof.
  eassert (Hevolve : evolve example_population example_seeded_state = Ok _ _)
    by (vm_compute; reflexivity).
  eexists _, _. split; [exact Hevolve|].
  refine (proj1 (evolve_population_size example_population example_seeded_state _)
            _ _ Hevolve).
  split; [reflexivity|]. intros i Hi.
  do 20 (destruct i as [|i];
         [eexists; split; [reflexivity|eexists; reflexivity]|]).
  unfold POPULATION_SIZE in Hi. lia.
Defined.

Lemma crossover_coverage_witness :
  exists c st' child,
    _crossoverSchedule (Some 0) (Some 1) example_state = Ok c st'
    /\ st_schedules st' !! c = Some child
    /\ sch_events child = [Some 2; Some 3].
Proof.
  eassert (Hcross : _crossoverSchedule (Some 0) (Some 1) example_state = Ok _ _)
    by (vm_compute; reflexivity).
  destruct (crossover_coverage example_state 0 1 _ _ _ _ eq_refl eq_refl Hcross)
    as (child & Hchild & _).
  eexists _, _, child. split; [exact Hcross|]. split; [exact Hchild|].
  vm_compute in Hchild. by injection Hchild as <-.
Defined.

Lemma no_available_room_error_unreachable_witness :
  exists data st',
    Data_new 2 ["Event 1"; "Event 2"] 540 (540 + 60 * Z.of_nat 3) (empty_state example_random)
    = Ok data st'
    /\ instance_ready data st'.
Proof.
  destruct (no_available_room_error_unreachable 2 ["Event 1"; "Event 2"] 540 3
              (empty_state example_random)) as (data & st' & Hrun & _ & Hready & _).
  - lia.
  - lia.
  - intros i. unfold empty_state, example_random. cbn [st_random].
    split; [unfold Qle|unfold Qlt]; cbn [Qnum Qden];
      pose proof (Nat.mod_upper_bound (7 * i + 3) 10); lia.
  - by exists data, st'.
Defined.
(** ** The rooms the constructor of [Data] builds *)

Lemma staircase_fold total i :
  foldl (fun arr j => js_set arr j (Some false)) (replicate total (Some true)) (seq 0 i)
  = replicate i (Some false) ++ replicate (total - i) (Some true).
Proof.
  induction i as [|i IH].
  - cbn. by rewrite Nat.sub_0_r.
  - rewrite seq_S, foldl_app, IH. cbn. unfold js_set.
    rewrite length_app, !length_replicate. case_decide as Hlt.
    + rewrite insert_app_r_alt by (rewrite length_replicate; lia).
      rewrite length_replicate, Nat.sub_diag.
      replace (total - i) with (S (total - S i)) by lia. cbn.
      by rewrite cons_middle, app_assoc, <- replicate_S_end.
    + replace (total - i) with 0 by lia. replace (total - S i) with 0 by lia.
      replace (i - (i + 0)) with 0 by lia. cbn. rewrite !app_nil_r.
      by rewrite <- replicate_S_end.
Qed.

Lemma made_room_schedule total i :
  room_availabilitySchedule (made_room total i)
  = replicate i (Some false) ++ replicate (Z.to_nat total - i) (Some true).
Proof. apply staircase_fold. Qed.

Lemma staircase_entry i m (j : Z) :
  truthy (js_getZ (replicate i (Some false) ++ replicate m (Some true)) j) = true
  <-> (Z.of_nat i <= j < Z.of_nat (i + m))%Z.
Proof.
  unfold js_getZ, js_get. destruct (Z.ltb_spec j 0) as [Hneg|Hpos].
  { cbn. split; [done|lia]. }
  destruct (decide (Z.to_nat j < i)) as [Hlo|Hlo].
  { rewrite lookup_app_l by (rewrite length_replicate; lia).
    rewrite lookup_replicate_2 by lia. cbn. split; [done|lia]. }
  rewrite lookup_app_r by (rewrite length_replicate; lia).
  rewrite length_replicate.
  destruct (decide (Z.to_nat j - i < m)) as [Hhi|Hhi].
  - rewrite lookup_replicate_2 by lia. cbn. split; [lia|done].
  - rewrite lookup_ge_None_2 by (rewrite length_replicate; lia). cbn. split; [done|lia].
Qed.

Lemma made_room_free st r total i t :
  st_rooms st !! r = Some (made_room total i) -> (0 <= total)%Z ->
  room_free st t r = true
  <-> (Z.of_nat i <= slot_index (EVENT_START_TIME st) t < total)%Z.
Proof.
  intros Hr Htotal. unfold room_free.
  rewrite Hr, made_room_schedule, staircase_entry. lia.
Qed.

Lemma made_rooms_lookup (rooms : list Room) total n i :
  i < n ->
  (rooms ++ map (made_room total) (seq 0 n)) !! (length rooms + i)
  = Some (made_room total i).
Proof.
  intros Hi. rewrite lookup_app_r by lia. rewrite Nat.add_comm, Nat.add_sub.
  by rewrite list_lookup_fmap, lookup_seq_lt.
Qed.

(** X1. The constructor of [Data] names its rooms "Room 1", "Room 2",
    ... and gives the room of index [i] an availability schedule whose
    first [i] entries are false and whose others, up to the number of
    whole hours between the start and the end time, are true (a room with
    more leading entries than there are hours has a longer schedule, all
    false). So the room of index [i] is available at a time slot exactly
    when the hour index of the slot is at least [i] and below the number
    of whole hours. *)
Theorem Data_rooms_staircase n names s e st :
  (s <= e)%Z ->
  exists data st',
    Data_new n names s e st = Ok data st'
    /\ data_rooms data = seq (length (st_rooms st)) (Z.to_nat n)
    /\ forall i, i < Z.to_nat n ->
         exists room,
           st_rooms st' !! (length (st_rooms st) + i) = Some room
           /\ room_number room = "Room " +:+ pretty (i + 1)
           /\ room_availabilitySchedule room
              = replicate i (Some false)
                ++ replicate (Z.to_nat ((e - s) / 60) - i) (Some true)
           /\ forall t, room_free st' t (length (st_rooms st) + i) = true
                        <-> (Z.of_nat i <= slot_index s t < (e - s) / 60)%Z.
Proof.
  intros Hse.
  destruct (Data_new_run n names s e st)
    as (data & st' & Hrun & Hrooms & _ & _ & Hr & _ & _ & H0 & _); [lia|].
  exists data, st'. split; [done|]. split; [done|]. intros i Hi.
  assert (Hroom : st_rooms st' !! (length (st_rooms st) + i)
                  = Some (made_room ((e - s) / 60) i)).
  { rewrite Hr. by apply made_rooms_lookup. }
  exists (made_room ((e - s) / 60) i). split; [done|]. split; [done|].
  split; [apply made_room_schedule|].
  intros t. rewrite (made_room_free st' _ _ _ t Hroom) by (by apply slots_nonneg).
  by rewrite H0.
Qed.

Lemma Data_rooms_staircase_witness :
  exists data st',
    Data_new 3 ["Event 1"] 540 660 (empty_state example_random) = Ok data st'
    /\ data_rooms data = [0; 1; 2]
    /\ st_rooms st' = [mkRoom "Room 1" [Some true; Some true];
                       mkRoom "Room 2" [Some false; Some true];
                       mkRoom "Room 3" [Some false; Some false]].
Proof.
  destruct (Data_rooms_staircase 3 ["Event 1"] 540 660 (empty_state example_random))
    as (data & st' & Hrun & Hrooms & _); [lia|].
  exists data, st'. split; [exact Hrun|]. split; [exact Hrooms|].
  vm_compute in Hrun. injection Hrun as _ <-. reflexivity.
Defined.

(** ** The time slots on offer *)

Lemma availableTimeSlots_from_spec fuel cur e :
  Z.to_nat (e - cur) <= fuel ->
  availableTimeSlots_from fuel cur e
  = map (fun i => (cur + 60 * Z.of_nat i)%Z) (seq 0 (Z.to_nat ((e - cur + 59) / 60))).
Proof.
  revert cur. induction fuel as [|fuel IH]; intros cur Hfuel.
  - cbn. assert (((e - cur + 59) / 60 <= 0)%Z) as Hle.
    { apply Z.lt_succ_r. apply Z.div_lt_upper_bound; lia. }
    by replace (Z.to_nat ((e - cur + 59) / 60)) with 0 by lia.
  - cbn. destruct (Z.ltb_spec cur e) as [Hlt|Hge].
    + rewrite IH by (unfold TIME_SLOT_INTERVAL; lia). unfold TIME_SLOT_INTERVAL.
      replace ((e - cur + 59) / 60)%Z with ((e - (cur + 60) + 59) / 60 + 1)%Z
        by (rewrite <- Z.div_add by lia; f_equal; lia).
      assert (0 <= (e - (cur + 60) + 59) / 60)%Z by (apply Z.div_pos; lia).
      rewrite Z2Nat.inj_add by lia. change (Z.to_nat 1) with 1. rewrite Nat.add_1_r.
      cbn [Nat.add seq map]. apply (f_equal2 (@cons Z)); [lia|].
      rewrite <- fmap_S_seq, <- list_fmap_compose.
      apply list_fmap_ext. intros _ i _. cbn. lia.
    + assert (((e - cur + 59) / 60 <= 0)%Z) as Hle.
      { apply Z.lt_succ_r. apply Z.div_lt_upper_bound; lia. }
      by replace (Z.to_nat ((e - cur + 59) / 60)) with 0 by lia.
Qed.

Lemma availableTimeSlots_spec s e :
  availableTimeSlots s e
  = map (fun i => (s + 60 * Z.of_nat i)%Z) (seq 0 (Z.to_nat ((e - s + 59) / 60))).
Proof. by apply availableTimeSlots_from_spec. Qed.

Lemma started_hours s e j :
  j < Z.to_nat ((e - s + 59) / 60) <-> (s + 60 * Z.of_nat j < e)%Z.
Proof.
  pose proof (Z.div_mod (e - s + 59) 60 ltac:(lia)).
  pose proof (Z.mod_pos_bound (e - s + 59) 60 ltac:(lia)). lia.
Qed.

Lemma getRandomTimeSlot_empty st :
  (EVENT_END_TIME st <= EVENT_START_TIME st)%Z ->
  getRandomTimeSlot st = Ok None (with_drawn (S (st_drawn st)) st).
Proof.
  intros Hle. unfold getRandomTimeSlot. erewrite bind_run by reflexivity.
  rewrite availableTimeSlots_spec.
  replace (Z.to_nat ((EVENT_END_TIME st - EVENT_START_TIME st + 59) / 60)) with 0.
  - cbn [seq map length]. unfold bind, random_index, bind, Math_random, ret, nth_Z.
    by destruct (_ <? 0)%Z.
  - pose proof (proj1 (started_hours (EVENT_START_TIME st) (EVENT_END_TIME st) 0)). lia.
Qed.

Lemma getRandomTimeSlot_pick st :
  random_ok st -> (EVENT_START_TIME st < EVENT_END_TIME st)%Z ->
  exists j,
    getRandomTimeSlot st
    = Ok (Some (EVENT_START_TIME st + 60 * Z.of_nat j)%Z) (with_drawn (S (st_drawn st)) st)
    /\ (EVENT_START_TIME st + 60 * Z.of_nat j < EVENT_END_TIME st)%Z.
Proof.
  intros Hok Hlt. unfold getRandomTimeSlot. erewrite bind_run by reflexivity.
  rewrite availableTimeSlots_spec. rewrite length_map, length_seq.
  set (s := EVENT_START_TIME st) in *. set (e := EVENT_END_TIME st) in *.
  set (m := Z.to_nat ((e - s + 59) / 60)).
  destruct (random_index m st) as [i st1|] eqn:Hi; [|done].
  pose proof Hi as Hi'. apply random_index_Ok in Hi' as [Hival ->].
  erewrite bind_run by exact Hi.
  assert (0 < m) as Hm by (apply (started_hours s e 0); lia).
  pose proof (random_index_range _ _ _ _ Hok Hm Hi) as Hrange.
  exists (Z.to_nat i). unfold ret, nth_Z. destruct (Z.ltb_spec i 0); [lia|].
  rewrite list_lookup_fmap, lookup_seq_lt by lia. cbn. split; [done|].
  apply started_hours. fold m. lia.
Qed.

(** X2. [getRandomTimeSlot] offers the start time and every whole hour
    after it that is still before the end time (one slot per started
    hour), picks one of them with a single random number and changes
    nothing else. With an end time not after the start time there is no
    slot and the result is [undefined]. *)
Theorem getRandomTimeSlot_range st :
  random_ok st ->
  length (availableTimeSlots (EVENT_START_TIME st) (EVENT_END_TIME st))
  = Z.to_nat ((EVENT_END_TIME st - EVENT_START_TIME st + 59) / 60)
  /\ exists ts,
       getRandomTimeSlot st = Ok ts (with_drawn (S (st_drawn st)) st)
       /\ ((EVENT_END_TIME st <= EVENT_START_TIME st)%Z -> ts = None)
       /\ ((EVENT_START_TIME st < EVENT_END_TIME st)%Z ->
           exists j, ts = Some (EVENT_START_TIME st + 60 * Z.of_nat j)%Z
                     /\ (EVENT_START_TIME st + 60 * Z.of_nat j < EVENT_END_TIME st)%Z).
Proof.
  intros Hok. split.
  { by rewrite availableTimeSlots_spec, length_map, length_seq. }
  destruct (Z.lt_ge_cases (EVENT_START_TIME st) (EVENT_END_TIME st)) as [Hlt|Hge].
  - destruct (getRandomTimeSlot_pick st Hok Hlt) as (j & Hrun & Hj).
    eexists. split; [exact Hrun|]. split; [lia|]. intros _. by exists j.
  - eexists. split; [by apply getRandomTimeSlot_empty|]. split; [done|lia].
Qed.

Lemma getRandomTimeSlot_range_witness :
  exists ts,
    getRandomTimeSlot example_state = Ok ts (with_drawn 1 example_state)
    /\ exists j, ts = Some (540 + 60 * Z.of_nat j)%Z /\ (540 + 60 * Z.of_nat j < 720)%Z.
Proof.
  destruct (getRandomTimeSlot_range example_state) as (_ & ts & Hrun & _ & Hin).
  - intros n. split; vm_compute; congruence.
  - exists ts. split; [exact Hrun|]. apply Hin. reflexivity.
Defined.

(** ** Time ranges without a whole hour *)

Lemma getRandomTimeSlot_single st :
  random_ok st ->
  (EVENT_START_TIME st < EVENT_END_TIME st <= EVENT_START_TIME st + 60)%Z ->
  getRandomTimeSlot st = Ok (Some (EVENT_START_TIME st)) (with_drawn (S (st_drawn st)) st).
Proof.
  intros Hok Hrange.
  destruct (getRandomTimeSlot_pick st Hok) as (j & Hrun & Hj); [lia|].
  rewrite Hrun. do 3 f_equal. lia.
Qed.

Ltac first_initialize_step Ha Hd exn :=
  unfold initialize;
  erewrite bind_run by (by apply load_schedule_Ok);
  rewrite (bind_Throw _ _ _ exn); [done|];
  unfold for_upto; rewrite Hd; cbn [length seq for_each];
  rewrite (bind_Throw _ _ _ exn); [done|];
  unfold initialize_step;
  erewrite bind_run by (by apply load_schedule_Ok);
  rewrite Hd; erewrite bind_run by reflexivity;
  erewrite bind_run by reflexivity;
  erewrite bind_run by reflexivity.

(** Without a time slot the first event of a schedule has nothing to ask
    the first room about. *)
Lemma initialize_no_slot a s st r0 rest :
  st_schedules st !! a = Some s ->
  0 < length (data_events (sch_data s)) ->
  data_rooms (sch_data s) = r0 :: rest -> is_Some (st_rooms st !! r0) ->
  (EVENT_END_TIME st <= EVENT_START_TIME st)%Z ->
  initialize a st = Throw TypeError.
Proof.
  intros Ha Hevents Hrooms [room Hroom] Hle.
  destruct (data_events (sch_data s)) as [|d events] eqn:Hd; [cbn in Hevents; lia|].
  first_initialize_step Ha Hd TypeError.
  erewrite bind_run by (apply getRandomTimeSlot_empty; exact Hle).
  erewrite bind_run by reflexivity.
  rewrite (bind_Throw _ _ _ TypeError); [done|].
  unfold getAvailableRoom. erewrite bind_run; cycle 1.
  { apply load_schedule_Ok. split; [|done].
    cbn [st_schedules with_schedules with_events with_drawn].
    rewrite list_lookup_alter_eq, Ha. reflexivity. }
  cbn [sch_data set_sch_eventNum]. rewrite Hrooms. cbn [filter_available].
  rewrite (bind_Throw _ _ _ TypeError); [done|].
  rewrite (bind_Throw _ _ _ TypeError); [done|].
  unfold isAvailable. erewrite bind_run by (apply load_room_Ok; split; [exact Hroom|done]).
  reflexivity.
Qed.

Lemma free_rooms_none st t rooms :
  (forall r, r ∈ rooms -> room_free st t r = false) -> free_rooms st t rooms = [].
Proof.
  induction rooms as [|r rooms IH]; intros Hnone; [done|].
  cbn. rewrite (Hnone r) by left. apply IH. intros r' Hr'. apply Hnone. by right.
Qed.

(** With a single time slot at which no room is available the first
    event of a schedule finds no room. *)
Lemma initialize_no_free_room a s st :
  st_schedules st !! a = Some s ->
  0 < length (data_events (sch_data s)) ->
  random_ok st ->
  (EVENT_START_TIME st < EVENT_END_TIME st <= EVENT_START_TIME st + 60)%Z ->
  (forall r, r ∈ data_rooms (sch_data s) ->
     is_Some (st_rooms st !! r) /\ room_free st (EVENT_START_TIME st) r = false) ->
  initialize a st = Throw NoAvailableRooms.
Proof.
  intros Ha Hevents Hok Hrange Hrooms.
  destruct (data_events (sch_data s)) as [|d events] eqn:Hd; [cbn in Hevents; lia|].
  first_initialize_step Ha Hd NoAvailableRooms.
  erewrite bind_run by (apply getRandomTimeSlot_single; [exact Hok|exact Hrange]).
  erewrite bind_run by reflexivity.
  rewrite (bind_Throw _ _ _ NoAvailableRooms); [done|].
  unfold getAvailableRoom. erewrite bind_run; cycle 1.
  { apply load_schedule_Ok. split; [|done].
    cbn [st_schedules with_schedules with_events with_drawn].
    rewrite list_lookup_alter_eq, Ha. reflexivity. }
  cbn [sch_data set_sch_eventNum].
  erewrite bind_run; cycle 1.
  { apply filter_available_run. intros r Hr. by apply Hrooms. }
  rewrite free_rooms_none; [done|].
  intros r Hr. by apply Hrooms.
Qed.

Lemma first_schedule_throws n names s e st data st1 exn :
  Data_new n names s e st = Ok data st1 ->
  (forall a sa, st_schedules (with_schedules (fun h => h ++ [mkSchedule data [] 0 (-1) 0 true]) st1) !! a = Some sa ->
     sa = mkSchedule data [] 0 (-1) 0 true ->
     initialize a (with_schedules (fun h => h ++ [mkSchedule data [] 0 (-1) 0 true]) st1)
     = Throw exn) ->
  best_schedule n names s e st = Throw exn.
Proof.
  intros Hrun Hinit. unfold best_schedule, first_generation.
  rewrite (bind_Throw _ _ _ exn); [done|].
  erewrite bind_run by exact Hrun.
  rewrite (bind_Throw _ _ _ exn); [done|].
  unfold PopulationEvents_new. rewrite (bind_Throw _ _ _ exn); [done|].
  change (seq 0 POPULATION_SIZE) with (0 :: seq 1 19). cbn [map_M].
  rewrite (bind_Throw _ _ _ exn); [done|].
  erewrite bind_run by reflexivity.
  eapply Hinit; [|reflexivity]. cbn. by apply list_lookup_middle.
Qed.

(** X3. Time ranges that hold no whole hour make every search fail at
    the first event of the first schedule, whatever the events and
    however many rooms (at least one) there are: with the end time equal
    to the start time there is no time slot, and asking the first room
    about an undefined slot is a TypeError; with the end time less than
    an hour after the start time there is one slot, at which no room has
    an availability entry that is true, and the search ends with 'No
    available rooms for the given time slot'. *)
Theorem search_needs_a_whole_hour n names s e st :
  (1 <= n)%Z -> random_ok st ->
  (e = s -> best_schedule n names s e st = Throw TypeError)
  /\ ((s < e < s + 60)%Z -> best_schedule n names s e st = Throw NoAvailableRooms).
Proof.
  intros Hn Hok. split.
  - intros ->.
    destruct (Data_new_run n names s s st)
      as (data & st1 & Hrun & Hrooms & _ & Hevents & Hr & _ & _ & H0 & H1 & _); [lia|].
    eapply first_schedule_throws; [exact Hrun|]. intros a sa Ha ->.
    eapply (initialize_no_slot _ _ _ (length (st_rooms st)) (seq (S (length (st_rooms st))) (Z.to_nat n - 1)));
      [exact Ha| | | |].
    + cbn. rewrite Hevents, length_imap. apply retained_names_nonempty.
    + cbn. rewrite Hrooms. by replace (Z.to_nat n) with (S (Z.to_nat n - 1)) at 1 by lia.
    + cbn. rewrite Hr. apply lookup_lt_is_Some_2.
      rewrite length_app, length_map, length_seq. lia.
    + cbn. lia.
  - intros Hrange.
    destruct (Data_new_run n names s e st)
      as (data & st1 & Hrun & Hrooms & _ & Hevents & Hr & _ & _ & H0 & H1 & Hrand & _); [lia|].
    eapply first_schedule_throws; [exact Hrun|]. intros a sa Ha ->.
    eapply initialize_no_free_room; [exact Ha| | | |].
    + cbn. rewrite Hevents, length_imap. apply retained_names_nonempty.
    + intros i. cbn. rewrite Hrand. apply Hok.
    + cbn. lia.
    + cbn [sch_data]. intros r Hr'. rewrite Hrooms in Hr'. apply elem_of_seq in Hr'.
      assert (Hroom : st_rooms st1 !! r = Some (made_room ((e - s) / 60) (r - length (st_rooms st)))).
      { rewrite Hr. replace r with (length (st_rooms st) + (r - length (st_rooms st))) at 1 by lia.
        apply made_rooms_lookup. lia. }
      split; [by eexists|].
      apply not_true_is_false. unfold room_free at 1. cbn [st_rooms with_schedules EVENT_START_TIME].
      fold (room_free st1 (EVENT_START_TIME st1) r).
      rewrite (made_room_free st1 _ _ _ _ Hroom) by (apply slots_nonneg; lia).
      assert ((e - s) / 60 = 0)%Z as -> by (apply Z.div_small; lia). lia.
Qed.

Lemma example_random_range i : (0 <= example_random i)%Q /\ (example_random i < 1)%Q.
Proof.
  unfold example_random. split; [unfold Qle|unfold Qlt]; cbn [Qnum Qden];
    pose proof (Nat.mod_upper_bound (7 * i + 3) 10); lia.
Qed.

Lemma search_needs_a_whole_hour_witness :
  best_schedule 2 ["Event 1"] 540 540 (empty_state example_random) = Throw TypeError
  /\ best_schedule 2 ["Event 1"] 540 570 (empty_state example_random)
     = Throw NoAvailableRooms.
Proof.
  destruct (search_needs_a_whole_hour 2 ["Event 1"] 540 540 (empty_state example_random))
    as [Hsame _]; [lia| |].
  { intros i. apply example_random_range. }
  destruct (search_needs_a_whole_hour 2 ["Event 1"] 540 570 (empty_state example_random))
    as [_ Hshort]; [lia| |].
  { intros i. apply example_random_range. }
  split; [by apply Hsame|apply Hshort; lia].
Defined.

(** ** What [initialize] assigns to the events it creates *)

Lemma filter_available_free rooms t st l st' :
  filter_available rooms (Some t) st = Ok l st' -> l = free_rooms st t rooms.
Proof.
  revert l st'. induction rooms as [|r rooms IH]; intros l st' H; cbn in H.
  - by injection H as <-.
  - inv_step H as v st1 Hv. inv_step H as rest st2 Hrest.
    pose proof (isAvailable_Ok _ _ _ _ _ Hv) as ->.
    pose proof (filter_available_Ok _ _ _ _ _ Hrest) as ->.
    apply IH in Hrest as ->. injection H as <-.
    unfold isAvailable in Hv. inv_step Hv as rm st1 Hrm.
    apply load_room_Ok in Hrm as [Hrm ->].
    inv_step Hv as t' st1 Ht. apply defined_Ok in Ht as [[= <-] ->].
    injection Hv as <-. cbn. unfold room_free. by rewrite Hrm.
Qed.

Lemma free_rooms_elem_inv st t rooms r :
  r ∈ free_rooms st t rooms -> r ∈ rooms /\ room_free st t r = true.
Proof.
  induction rooms as [|r' rooms IH]; cbn; intros Hin; [by apply elem_of_nil in Hin|].
  destruct (room_free st t r') eqn:Hfree.
  - apply elem_of_cons in Hin as [->|Hin]; [split; [left|done]|].
    destruct (IH Hin). split; [by right|done].
  - destruct (IH Hin). split; [by right|done].
Qed.

Lemma getRandomTimeSlot_offered st t st' :
  getRandomTimeSlot st = Ok (Some t) st' ->
  t ∈ availableTimeSlots (EVENT_START_TIME st) (EVENT_END_TIME st).
Proof.
  intros H. unfold getRandomTimeSlot in H. inv_step H as slots st1 Hslots.
  injection Hslots as <- <-. inv_step H as i st1 Hi. injection H as H _.
  unfold nth_Z in H. destruct (i <? 0)%Z; [done|]. by eapply list_elem_of_lookup_2.
Qed.

Lemma getAvailableRoom_free a t st room st' :
  getAvailableRoom a (Some t) st = Ok room st' -> random_ok st ->
  exists s r, st_schedules st !! a = Some s /\ room = Some r
              /\ r ∈ data_rooms (sch_data s) /\ room_free st t r = true.
Proof.
  intros H Hok. unfold getAvailableRoom in H. inv_step H as s st1 Ha.
  apply load_schedule_Ok in Ha as [Ha ->]. inv_step H as avail st1 Havail.
  pose proof (filter_available_Ok _ _ _ _ _ Havail) as ->.
  apply filter_available_free in Havail as ->.
  case_decide as Hlen; [done|]. inv_step H as i st1 Hi. injection H as <- <-.
  apply random_index_range in Hi; [|done|lia].
  destruct (nth_Z_in_range _ i Hi) as (r & Hr & Hin).
  apply free_rooms_elem_inv in Hin as [Hin Hfree]. by exists s, r.
Qed.

Lemma initialize_step_assigned a i st st' s :
  initialize_step a i st = Ok tt st' -> random_ok st ->
  st_schedules st !! a = Some s ->
  exists dataEvent r t,
    data_events (sch_data s) !! i = Some dataEvent
    /\ st_events st'
       = st_events st ++ [mkEvent (sch_eventNum s) (ev_name dataEvent) (Some r) (Some t)]
    /\ r ∈ data_rooms (sch_data s)
    /\ t ∈ availableTimeSlots (EVENT_START_TIME st) (EVENT_END_TIME st)
    /\ room_free st t r = true
    /\ st_drawn st' = S (S (st_drawn st)).
Proof.
  intros H Hok Hs. unfold initialize_step in H.
  inv_step H as s0 st1 Ha. apply load_schedule_Ok in Ha as [Ha ->].
  rewrite Hs in Ha. injection Ha as <-.
  inv_step H as dataEvent st1 Hd. apply defined_Ok in Hd as [Hd ->].
  inv_step H as newEvent st1 Hnew. injection Hnew as <- <-.
  inv_step H as u st1 Hnum. injection Hnum as _ <-.
  inv_step H as ts st1 Hts.
  pose proof (getRandomTimeSlot_Ok _ _ _ Hts) as ->.
  inv_step H as u' st1 Hset. injection Hset as _ <-.
  inv_step H as room st1 Hroom.
  pose proof Hroom as Hroom'.
  apply getAvailableRoom_Ok in Hroom' as (-> & [t ->] & _).
  apply getRandomTimeSlot_offered in Hts.
  apply getAvailableRoom_free in Hroom as (s' & r & Hs' & -> & Hr & Hfree);
    [|intros n; apply Hok].
  cbn in Hs'. rewrite list_lookup_alter_eq, Hs in Hs'. injection Hs' as <-.
  inv_step H as u'' st1 Hset. injection Hset as _ <-.
  injection H as <-.
  exists dataEvent, r, t. split; [done|]. cbn. split.
  { rewrite list_alter_alter_eq.
    rewrite alter_app_r_alt by done. by rewrite Nat.sub_diag. }
  done.
Qed.

Lemma well_assigned_ext data st st' ev :
  st_rooms st' = st_rooms st ->
  EVENT_START_TIME st' = EVENT_START_TIME st ->
  EVENT_END_TIME st' = EVENT_END_TIME st ->
  well_assigned data st ev -> well_assigned data st' ev.
Proof.
  intros Hr H0 H1 (d & r & t & Hd & Hname & Hroom & Hin & Ht & Hslot & Hfree).
  exists d, r, t. rewrite H0, H1. rewrite (room_free_ext st st') by done. done.
Qed.

(** A new schedule, initialized: the schedule is appended to the store
    with one new event per event of the data, in order. *)
Lemma fresh_schedule_assigned data st a st' :
  (let* a := ScheduleEvents_new data in initialize a) st = Ok a st' ->
  random_ok st ->
  exists evs,
    a = length (st_schedules st)
    /\ length evs = length (data_events data)
    /\ st_events st' = st_events st ++ evs
    /\ st_schedules st'
       = st_schedules st
         ++ [mkSchedule data (map Some (seq (length (st_events st)) (length evs)))
                        0 (-1) (length evs) true]
    /\ st_rooms st' = st_rooms st
    /\ EVENT_START_TIME st' = EVENT_START_TIME st
    /\ EVENT_END_TIME st' = EVENT_END_TIME st
    /\ st_random st' = st_random st
    /\ st_drawn st' = st_drawn st + 2 * length evs
    /\ forall k ev, evs !! k = Some ev -> ev_id ev = k /\ well_assigned data st ev.
Proof.
  intros H Hok. inv_step H as a0 st0 Hnew. injection Hnew as <- <-.
  unfold initialize in H. inv_step H as s st1 Ha.
  apply load_schedule_Ok in Ha as [Ha ->].
  cbn in Ha. rewrite list_lookup_middle in Ha by done. injection Ha as <-.
  inv_step H as u st1 Hloop. injection H as <- <-. rename st1 into st'.
  cbn [sch_data] in Hloop. destruct u.
  pose (I := fun (done : list nat) (st1 : State) =>
    exists evs,
      length evs = length done
      /\ st_events st1 = st_events st ++ evs
      /\ st_schedules st1
         = st_schedules st
           ++ [mkSchedule data (map Some (seq (length (st_events st)) (length evs)))
                          0 (-1) (length evs) true]
      /\ st_rooms st1 = st_rooms st
      /\ EVENT_START_TIME st1 = EVENT_START_TIME st
      /\ EVENT_END_TIME st1 = EVENT_END_TIME st
      /\ st_random st1 = st_random st
      /\ st_drawn st1 = st_drawn st + 2 * length evs
      /\ forall k ev, evs !! k = Some ev -> ev_id ev = k /\ well_assigned data st ev).
  apply (for_each_Ok I) in Hloop.
  - destruct Hloop as (evs & Hlen & Hrest). rewrite length_seq in Hlen.
    exists evs. done.
  - exists []. cbn. rewrite app_nil_r, Nat.add_0_r. repeat split; try done.
    all: intros k ev Hk; by rewrite lookup_nil in Hk.
  - clear Hloop st'.
    intros done i rest st1 st2 Hsplit
      (evs & Hlen & Hev & Hsch & Hrooms & H0 & H1 & Hrand & Hdrawn & Hevs) Hstep.
    apply seq_split_index in Hsplit as [-> Hdone]. cbn in Hdone.
    assert (Ha1 : st_schedules st1 !! length (st_schedules st)
                  = Some (mkSchedule data (map Some (seq (length (st_events st)) (length evs)))
                                     0 (-1) (length evs) true)).
    { rewrite Hsch. by apply list_lookup_middle. }
    assert (Hok1 : random_ok st1) by (intros n; rewrite Hrand; apply Hok).
    destruct (initialize_step_assigned _ _ _ _ _ Hstep Hok1 Ha1)
      as (d & r & t & Hd & Hev2 & Hr & Ht & Hfree & Hdrawn2).
    apply initialize_step_Ok in Hstep
      as (s1 & name & room & t' & Ha1' & Hr2 & H02 & H12 & Hrand2 & _ & Hs & _).
    rewrite Ha1 in Ha1'. injection Ha1' as <-. cbn in Hs, Hd, Hr, Hev2.
    exists (evs ++ [mkEvent (length evs) (ev_name d) (Some r) (Some t)]).
    rewrite !length_app. cbn [length]. split; [lia|].
    split. { rewrite Hev2, Hev, <- app_assoc. done. }
    split.
    { rewrite Hs, Hsch.
      rewrite insert_app_r_alt by done. rewrite Nat.sub_diag. cbn.
      rewrite Hev, length_app, Nat.add_1_r, seq_S, map_app. done. }
    split; [congruence|]. split; [congruence|]. split; [congruence|].
    split; [congruence|]. split; [lia|].
    intros k ev Hk. apply lookup_app_Some in Hk as [Hk|[Hge Hk]]; [by apply Hevs|].
    apply list_lookup_singleton_Some in Hk as [Hk <-]. cbn. split; [lia|].
    exists d, r, t. cbn. rewrite H0, H1 in Ht.
    rewrite (room_free_ext st st1) in Hfree by done.
    rewrite <- Hlen in Hd. done.
Qed.

(** X4. A new schedule that [initialize] returns holds one new event per
    event of the data, in the order of the data: the event at position
    [k] has [k] as id and the name of the [k]-th event of the data, a
    time slot that is on offer and a room of the data that is available
    at that slot. Two random numbers are drawn per event, the fitness is
    still marked as changed, and the rooms, the clock and the earlier
    events and schedules are as before. *)
Theorem initialize_assigns_every_event data st a st' :
  random_ok st ->
  (let* a := ScheduleEvents_new data in initialize a) st = Ok a st' ->
  exists s,
    a = length (st_schedules st)
    /\ st_schedules st' = st_schedules st ++ [s]
    /\ sch_data s = data
    /\ length (sch_events s) = length (data_events data)
    /\ sch_isFitnessChanged s = true
    /\ st_drawn st' = st_drawn st + 2 * length (data_events data)
    /\ st_rooms st' = st_rooms st
    /\ (forall e ev, st_events st !! e = Some ev -> st_events st' !! e = Some ev)
    /\ forall k dataEvent,
         data_events data !! k = Some dataEvent ->
         exists e r t,
           js_get (sch_events s) k = Some e
           /\ length (st_events st) <= e
           /\ st_events st' !! e
              = Some (mkEvent k (ev_name dataEvent) (Some r) (Some t))
           /\ r ∈ data_rooms data
           /\ t ∈ availableTimeSlots (EVENT_START_TIME st') (EVENT_END_TIME st')
           /\ room_free st' t r = true.
Proof.
  intros Hok Hrun.
  destruct (fresh_schedule_assigned _ _ _ _ Hrun Hok)
    as (evs & Ha & Hlen & Hev & Hsch & Hrooms & H0 & H1 & _ & Hdrawn & Hevs).
  eexists. split; [done|]. split; [exact Hsch|].
  cbn [sch_data sch_events sch_isFitnessChanged].
  rewrite length_map, length_seq, Hlen. rewrite Hlen in Hdrawn.
  split; [done|]. split; [done|]. split; [done|]. split; [done|].
  split; [done|]. split.
  { intros e ev He. rewrite Hev. by apply lookup_app_l_Some. }
  intros k d Hk. pose proof (lookup_lt_Some _ _ _ Hk) as Hlt.
  destruct (lookup_lt_is_Some_2 evs k) as [ev Hevk]; [lia|].
  destruct (Hevs k ev Hevk) as (Hid & d' & r & t & Hd' & Hname & Hroom & Hin & Ht & Hslot & Hfree).
  rewrite Hid, Hk in Hd'. injection Hd' as <-.
  exists (length (st_events st) + k), r, t.
  split. { rewrite js_get_map_Some, lookup_seq_lt by lia. done. }
  split; [lia|]. split.
  { rewrite Hev, lookup_app_r by lia. rewrite Nat.add_comm, Nat.add_sub, Hevk.
    destruct ev; cbn in *. by subst. }
  rewrite H0, H1. rewrite (room_free_ext st st') by done. done.
Qed.

Lemma initialize_assigns_every_event_witness :
  exists a st',
    (let* a := ScheduleEvents_new example_data in initialize a) example_state = Ok a st'
    /\ st_events st' !! 4 = Some (mkEvent 0 "Event 1" (Some 0) (Some 540%Z))
    /\ st_events st' !! 5 = Some (mkEvent 1 "Event 2" (Some 0) (Some 540%Z))
    /\ st_drawn st' = 4.
Proof.
  eassert (Hrun : (let* a := ScheduleEvents_new example_data in initialize a) example_state
                  = Ok _ _) by (vm_compute; reflexivity).
  eexists _, _. split; [exact Hrun|].
  destruct (initialize_assigns_every_event example_data example_state _ _
              (fun n => conj (Qle_refl 0) (eq_refl : (0 < 1)%Q)) Hrun)
    as (s & _ & _ & _ & _ & _ & Hdrawn & _).
  split; [reflexivity|]. split; [reflexivity|]. exact Hdrawn.
Defined.

(** ** Every operation of the engine keeps the stores sound *)

Lemma sound_same_events data st st' :
  evolves nobody st st' -> st_events st' = st_events st ->
  length (st_schedules st') = length (st_schedules st) ->
  sound data st -> sound data st'.
Proof.
  intros Hev He Hlen [Hok Hdata Hlength Hevents].
  assert (Hold : forall a s', st_schedules st' !! a = Some s' ->
            exists s, st_schedules st !! a = Some s
                      /\ sch_data s' = sch_data s /\ sch_events s' = sch_events s).
  { intros a s' Ha. pose proof (lookup_lt_Some _ _ _ Ha) as Hlt. rewrite Hlen in Hlt.
    destruct (lookup_lt_is_Some_2 _ _ Hlt) as [s Hs].
    destruct (ev_schedules _ _ _ Hev a s Hs) as (s'' & Hs'' & Hd & Hsame).
    rewrite Ha in Hs''. injection Hs'' as <-. exists s. split; [done|].
    split; [done|]. apply Hsame, not_nobody. }
  split.
  - intros n. rewrite (ev_random _ _ _ Hev). apply Hok.
  - intros a s' Ha. destruct (Hold a s' Ha) as (s & Hs & -> & _). by eapply Hdata.
  - intros a s' Ha. destruct (Hold a s' Ha) as (s & Hs & _ & ->). by eapply Hlength.
  - intros e ev Hin. rewrite He in Hin.
    eapply well_assigned_ext; [apply (ev_rooms _ _ _ Hev)|apply (ev_start _ _ _ Hev)
                              |apply (ev_end _ _ _ Hev)|by eapply Hevents].
Qed.

Lemma sound_alter data f a st :
  (forall s, st_schedules st !! a = Some s ->
     sch_data (f s) = sch_data s /\ length (sch_events (f s)) = length (sch_events s)) ->
  sound data st -> sound data (with_schedules (fun h => alter f a h) st).
Proof.
  intros Hf [Hok Hdata Hlength Hevents].
  assert (Hold : forall b s', alter f a (st_schedules st) !! b = Some s' ->
            exists s, st_schedules st !! b = Some s
                      /\ sch_data s' = sch_data s
                      /\ length (sch_events s') = length (sch_events s)).
  { intros b s' Hb. destruct (decide (a = b)) as [<-|Hne].
    - rewrite list_lookup_alter_eq in Hb.
      destruct (st_schedules st !! a) as [s|] eqn:Hs; [|done].
      injection Hb as <-. exists s. split; [done|]. by apply Hf.
    - rewrite list_lookup_alter_ne in Hb by done. by exists s'. }
  split; [done| | |done].
  - intros b s' Hb. destruct (Hold b s' Hb) as (s & Hs & -> & _). by eapply Hdata.
  - intros b s' Hb. destruct (Hold b s' Hb) as (s & Hs & _ & ->). by eapply Hlength.
Qed.

Lemma sound_flag data a st :
  sound data st ->
  sound data (with_schedules (fun h => alter (set_sch_isFitnessChanged true) a h) st).
Proof. apply sound_alter. done. Qed.

Lemma sound_drawn data n st : sound data st -> sound data (with_drawn n st).
Proof. by intros [Hok Hdata Hlength Hevents]. Qed.

Lemma fresh_schedule_sound data st a st' :
  (let* a := ScheduleEvents_new data in initialize a) st = Ok a st' ->
  sound data st -> sound data st'.
Proof.
  intros H [Hok Hdata Hlength Hevents].
  destruct (fresh_schedule_assigned _ _ _ _ H Hok)
    as (evs & Ha & Hlen & Hev & Hsch & Hrooms & H0 & H1 & Hrand & _ & Hevs).
  split.
  - intros n. rewrite Hrand. apply Hok.
  - intros b s Hb. rewrite Hsch in Hb. apply lookup_app_Some in Hb as [Hb|[_ Hb]].
    + by eapply Hdata.
    + by apply list_lookup_singleton_Some in Hb as [_ <-].
  - intros b s Hb. rewrite Hsch in Hb. apply lookup_app_Some in Hb as [Hb|[_ Hb]].
    + by eapply Hlength.
    + apply list_lookup_singleton_Some in Hb as [_ <-]. cbn.
      by rewrite length_map, length_seq.
  - intros e ev He. rewrite Hev in He. apply (well_assigned_ext data st); try done.
    apply lookup_app_Some in He as [He|[_ He]]; [by eapply Hevents|].
    by apply Hevs in He as [_ He].
Qed.

Lemma fresh_schedule_join data st c st1 u st2 :
  ScheduleEvents_new data st = Ok c st1 -> initialize c st1 = Ok u st2 ->
  (let* a := ScheduleEvents_new data in initialize a) st = Ok c st2.
Proof.
  intros Hnew Hinit. apply bind_Ok. exists c, st1. split; [done|].
  pose proof Hinit as Hinit'. by apply initialize_Ok in Hinit' as [-> _].
Qed.

Lemma get_events_sound data a st events st' :
  get_events a st = Ok events st' -> sound data st -> sound data st'.
Proof. intros (s & _ & _ & ->)%get_events_Ok. apply sound_flag. Qed.

Lemma events_read_sound data a i st v st' :
  events_read a i st = Ok v st' -> sound data st -> sound data st'.
Proof. intros (s & _ & _ & ->)%events_read_Ok. apply sound_flag. Qed.

Lemma events_length_sound data a st n st' :
  events_length a st = Ok n st' -> sound data st -> sound data st'.
Proof. intros (s & _ & _ & ->)%events_length_Ok. apply sound_flag. Qed.

Lemma events_write_sound data a i v st u st' :
  events_write a i v st = Ok u st' -> i < length (data_events data) ->
  sound data st -> sound data st'.
Proof.
  intros [= _ <-] Hi Hsound. apply sound_alter; [|done].
  intros s Hs. split; [done|]. cbn. apply js_set_length_in.
  by rewrite (sound_length _ _ Hsound _ _ Hs).
Qed.

Lemma fitness_sound data a st f st' :
  fitness a st = Ok f st' -> sound data st -> sound data st'.
Proof.
  intros (Hev & He & Hlen & _)%fitness_Ok. by apply sound_same_events.
Qed.

Lemma sort_by_fitness_sound data l st l' st' :
  sort_by_fitness l st = Ok l' st' -> sound data st -> sound data st'.
Proof.
  intros (Hev & He & Hlen & _)%sort_by_fitness_Ok. by apply sound_same_events.
Qed.

Lemma _crossoverSchedule_sound data schedule1 schedule2 st c st' :
  _crossoverSchedule schedule1 schedule2 st = Ok c st' ->
  sound data st -> sound data st'.
Proof.
  intros H Hsound. unfold _crossoverSchedule in H.
  inv_step H as s1 st1 Hdef. apply defined_Ok in Hdef as [-> ->].
  inv_step H as p1 st1 Hp1. apply load_schedule_Ok in Hp1 as [Hp1 ->].
  rewrite (sound_data _ _ Hsound _ _ Hp1) in H.
  inv_step H as c0 st1 Hnew. inv_step H as u st2 Hinit.
  pose proof (fresh_schedule_join _ _ _ _ _ _ Hnew Hinit) as Hfresh.
  apply fresh_schedule_sound in Hfresh; [|done].
  inv_step H as n st3 Hn.
  pose proof (events_length_Ok _ _ _ _ Hn) as (sc & Hsc & Hnlen & _).
  rewrite (sound_length _ _ Hfresh _ _ Hsc) in Hnlen.
  eapply events_length_sound in Hn; [|done].
  inv_step H as u' st4 Hloop. injection H as _ <-. destruct u'.
  apply (for_each_Ok (fun _ stx => sound data stx)) in Hloop; [done|done|].
  intros done i rest stx sty Hsplit Hx Hstep.
  apply seq_split_index in Hsplit as [-> Hi]. cbn in Hi. rewrite Hnlen in Hi.
  unfold _crossoverSchedule_step in Hstep.
  inv_step Hstep as r stz Hr. injection Hr as _ <-.
  apply (sound_drawn _ (S (st_drawn stx))) in Hx.
  destruct (Qlt_le_dec (1 # 2) r).
  - inv_step Hstep as ev1 stz Hg. eapply get_events_sound in Hg; [|done].
    inv_step Hstep as v st5 Hv. eapply events_read_sound in Hv; [|done].
    by eapply events_write_sound.
  - inv_step Hstep as ev1 stz Hg. eapply get_events_sound in Hg; [|done].
    inv_step Hstep as s2 st5 Hs2. apply defined_Ok in Hs2 as [_ ->].
    inv_step Hstep as v st5 Hv. eapply events_read_sound in Hv; [|done].
    by eapply events_write_sound.
Qed.

Lemma _mutateSchedule_sound data mutateSchedule st r st' :
  _mutateSchedule mutateSchedule st = Ok r st' ->
  sound data st -> sound data st'.
Proof.
  intros H Hsound. unfold _mutateSchedule in H.
  inv_step H as m st1 Hdef. apply defined_Ok in Hdef as [-> ->].
  inv_step H as sm st1 Hsm. apply load_schedule_Ok in Hsm as [Hsm ->].
  rewrite (sound_data _ _ Hsound _ _ Hsm) in H.
  inv_step H as c0 st1 Hnew. inv_step H as u st2 Hinit.
  pose proof (fresh_schedule_join _ _ _ _ _ _ Hnew Hinit) as Hfresh.
  apply fresh_schedule_sound in Hfresh; [|done].
  inv_step H as n st3 Hn.
  pose proof (events_length_Ok _ _ _ _ Hn) as (sc & Hsc & Hnlen & _).
  rewrite (sound_length _ _ Hfresh _ _ Hsc) in Hnlen.
  eapply events_length_sound in Hn; [|done].
  inv_step H as u' st4 Hloop. injection H as _ <-. destruct u'.
  apply (for_each_Ok (fun _ stx => sound data stx)) in Hloop; [done|done|].
  intros done i rest stx sty Hsplit Hx Hstep.
  apply seq_split_index in Hsplit as [-> Hi]. cbn in Hi. rewrite Hnlen in Hi.
  unfold _mutateSchedule_step in Hstep.
  inv_step Hstep as q stz Hr. injection Hr as _ <-.
  apply (sound_drawn _ (S (st_drawn stx))) in Hx.
  destruct (Qlt_le_dec q MUTATION_RATE).
  - inv_step Hstep as ev1 stz Hg. eapply get_events_sound in Hg; [|done].
    inv_step Hstep as v st5 Hv. eapply events_read_sound in Hv; [|done].
    by eapply events_write_sound.
  - by injection Hstep as <-.
Qed.

Lemma _selectTournamentPopulation_sound data pop st t st' :
  _selectTournamentPopulation pop st = Ok t st' ->
  sound data st -> sound data st'.
Proof.
  intros H Hsound. unfold _selectTournamentPopulation in H.
  rewrite (bind_run _ _ _ _ _ (PopulationEvents_new_0 _ _)) in H.
  inv_step H as picks st1 Hpicks. inv_step H as sorted st2 Hsort. injection H as _ <-.
  eapply sort_by_fitness_sound; [exact Hsort|].
  apply (map_M_Ok (fun _ _ stx => sound data stx)) in Hpicks; [done|done|].
  intros done rdone x rest stx r sty _ Hx Hstep.
  inv_step Hstep as i stz Hi. apply random_index_Ok in Hi as [_ ->].
  injection Hstep as _ <-. by apply sound_drawn.
Qed.

Lemma _crossoverPopulation_sound data pop st pop' st' :
  _crossoverPopulation pop st = Ok pop' st' ->
  sound data st -> sound data st'.
Proof.
  intros H Hsound. unfold _crossoverPopulation in H.
  rewrite (bind_run _ _ _ _ _ (PopulationEvents_new_0 _ _)) in H.
  inv_step H as children st1 Hchildren. injection H as _ <-.
  apply (map_M_Ok (fun _ _ stx => sound data stx)) in Hchildren; [done|done|].
  intros done rdone x rest stx r sty _ Hx Hstep.
  unfold _crossoverPopulation_child in Hstep.
  inv_step Hstep as t1 st2 Ht1. inv_step Hstep as t2 st3 Ht2.
  inv_step Hstep as c st4 Hc. injection Hstep as _ <-.
  eapply _crossoverSchedule_sound; [exact Hc|].
  eapply _selectTournamentPopulation_sound; [exact Ht2|].
  by eapply _selectTournamentPopulation_sound.
Qed.

Lemma _mutatePopulation_sound data population st pop' st' :
  _mutatePopulation population st = Ok pop' st' ->
  sound data st -> sound data st'.
Proof.
  intros H Hsound. unfold _mutatePopulation in H. inv_step H as u st1 Hloop.
  injection H as _ <-. destruct u.
  apply (for_each_Ok (fun _ stx => sound data stx)) in Hloop; [done|done|].
  intros done i rest stx sty _ Hx Hstep.
  inv_step Hstep as r stz Hm. injection Hstep as <-.
  by eapply _mutateSchedule_sound.
Qed.

Lemma evolve_sound data population st pop' st' :
  evolve population st = Ok pop' st' -> sound data st -> sound data st'.
Proof.
  intros H Hsound. unfold evolve in H. inv_step H as cp st1 Hcross.
  eapply _mutatePopulation_sound; [exact H|]. by eapply _crossoverPopulation_sound.
Qed.

Lemma sort_population_sound data population st sorted st' :
  sort_population population st = Ok sorted st' -> sound data st -> sound data st'.
Proof.
  intros H Hsound. unfold sort_population in H. inv_step H as l st1 Hsort.
  injection H as _ <-. by eapply sort_by_fitness_sound.
Qed.

Lemma next_generation_sound data population st pop' st' :
  next_generation population st = Ok pop' st' -> sound data st -> sound data st'.
Proof.
  intros H Hsound. unfold next_generation in H. inv_step H as p st1 Hevolve.
  eapply sort_population_sound; [exact H|]. by eapply evolve_sound.
Qed.

Lemma PopulationEvents_new_sound size data st pop st' :
  PopulationEvents_new size data st = Ok pop st' -> sound data st -> sound data st'.
Proof.
  intros H Hsound. unfold PopulationEvents_new in H. inv_step H as l st1 Hl.
  injection H as _ <-.
  apply (map_M_Ok (fun _ _ stx => sound data stx)) in Hl; [done|done|].
  intros done rdone x rest stx r sty _ Hx Hstep. by eapply fresh_schedule_sound.
Qed.

Lemma Data_new_sound n names s e st data st' :
  Data_new n names s e st = Ok data st' ->
  random_ok st -> st_schedules st = [] -> st_events st = [] ->
  sound data st'.
Proof.
  intros H Hok Hs He.
  destruct (decide (1 <= n /\ e < s)%Z) as [Hbad|Hgood].
  { by rewrite Data_new_throw in H. }
  destruct (Data_new_run n names s e st Hgood)
    as (data' & st'' & Hrun & _ & _ & _ & _ & He' & Hs' & _ & _ & Hrand & _).
  rewrite Hrun in H. injection H as <- <-. split.
  - intros i. rewrite Hrand. apply Hok.
  - intros a sa Ha. by rewrite Hs', Hs in Ha.
  - intros a sa Ha. by rewrite Hs', Hs in Ha.
  - intros ev x Hx. by rewrite He', He in Hx.
Qed.

Lemma generation_sound N n names s e random pop st :
  (forall i, (0 <= random i)%Q /\ (random i < 1)%Q) ->
  generation N n names s e (empty_state random) = Ok pop st ->
  exists data st0,
    Data_new n names s e (empty_state random) = Ok data st0 /\ sound data st.
Proof.
  intros Hok. revert pop st. induction N as [|N IH]; intros pop st H.
  - cbn in H. unfold first_generation in H.
    inv_step H as data st0 Hdata. inv_step H as p st1 Hpop.
    exists data, st0. split; [done|].
    eapply sort_population_sound; [exact H|].
    eapply PopulationEvents_new_sound; [exact Hpop|].
    by eapply Data_new_sound.
  - cbn in H. inv_step H as p st1 Hgen.
    destruct (IH _ _ Hgen) as (data & st0 & Hdata & Hsound).
    exists data, st0. split; [done|]. by eapply next_generation_sound.
Qed.

(** ** The generations of a search on a well-formed instance *)

Lemma generation_ready N n names s k random :
  (1 <= n)%Z -> 0 < k -> (forall i, (0 <= random i)%Q /\ (random i < 1)%Q) ->
  exists data st0 pop st,
    Data_new n names s (s + 60 * Z.of_nat k) (empty_state random) = Ok data st0
    /\ generation N n names s (s + 60 * Z.of_nat k) (empty_state random) = Ok pop st
    /\ evolves nobody st0 st
    /\ instance_ready data st /\ Coherent st
    /\ population_ok data st POPULATION_SIZE pop
    /\ sound data st /\ best_first st pop.
Proof.
  intros Hn Hk Hrandom. induction N as [|N IH].
  - destruct (Data_new_ready n names s k (empty_state random) Hn Hk Hrandom)
      as (data & st1 & Hdata & Hready1 & Hs1 & _).
    destruct (PopulationEvents_new_ready POPULATION_SIZE data st1 Hready1)
      as (pop & st2 & Hpop & Hev2 & Hpop2).
    assert (Hco2 : Coherent st2).
    { apply (ev_coherent _ _ _ Hev2). by apply Coherent_no_schedules. }
    destruct (sort_population_ready data _ pop st2 Hco2 Hpop2) as (p3 & st3 & Hsort & Hpop3).
    pose proof (sort_population_Ok _ _ _ _ Hsort) as (Hev3 & _).
    assert (Hgen : generation 0 n names s (s + 60 * Z.of_nat k) (empty_state random)
                   = Ok p3 st3).
    { cbn. unfold first_generation. erewrite bind_run by exact Hdata.
      by erewrite bind_run by exact Hpop. }
    exists data, st1, p3, st3. split; [done|]. split; [done|].
    split; [by eapply evolves_trans|].
    split. { eapply instance_ready_evolves; [exact Hev3|]. by eapply instance_ready_evolves. }
    split; [by apply (ev_coherent _ _ _ Hev3)|]. split; [done|].
    destruct (generation_sound _ _ _ _ _ _ _ _ Hrandom Hgen) as (d' & st0' & Hd' & Hsound).
    rewrite Hdata in Hd'. injection Hd' as <- <-. split; [done|].
    by destruct (generation_Ok _ _ _ _ _ _ _ _ Hgen) as (_ & Hbest & _).
  - destruct IH as (data & st0 & pop & st & Hdata & Hgen & Hev & Hready & Hco & Hpop & Hsound & _).
    destruct (evolve_ready data pop st Hready Hco Hpop)
      as (p1 & st1 & Hevolve & Hready1 & Hco1 & Hpop1).
    destruct (sort_population_ready data _ p1 st1 Hco1 Hpop1) as (p2 & st2 & Hsort & Hpop2).
    pose proof (sort_population_Ok _ _ _ _ Hsort) as (Hev2 & _).
    pose proof (evolve_Ok _ _ _ _ Hevolve) as (Hev1 & _).
    assert (Hnext : next_generation pop st = Ok p2 st2).
    { unfold next_generation. by erewrite bind_run by exact Hevolve. }
    assert (Hgen' : generation (S N) n names s (s + 60 * Z.of_nat k) (empty_state random)
                    = Ok p2 st2).
    { cbn. by erewrite bind_run by exact Hgen. }
    exists data, st0, p2, st2. split; [done|]. split; [done|].
    split. { eapply evolves_trans; [exact Hev|]. by eapply evolves_trans. }
    split; [by eapply instance_ready_evolves|].
    split; [by apply (ev_coherent _ _ _ Hev2)|]. split; [done|].
    split; [by eapply next_generation_sound|].
    by destruct (generation_Ok _ _ _ _ _ _ _ _ Hgen') as (_ & Hbest & _).
Qed.

Lemma room_free_available st g :
  room_free st (gene_slot g) (gene_room g) = true -> room_unavailable st g = false.
Proof.
  unfold room_free, room_unavailable. destruct (st_rooms st !! gene_room g); [|done].
  by intros ->.
Qed.

(** A full chromosome in sound stores, position by position. *)
Lemma complete_sound_genes data st a :
  complete data st a -> sound data st ->
  exists s gs,
    st_schedules st !! a = Some s
    /\ genes_of st (sch_events s) = Some gs
    /\ length gs = length (data_events data)
    /\ positioned gs
    /\ forall i g, gs !! i = Some g ->
         exists dataEvent e,
           data_events data !! i = Some dataEvent
           /\ js_get (sch_events s) i = Some e
           /\ st_events st !! e
              = Some (mkEvent i (ev_name dataEvent) (Some (gene_room g)) (Some (gene_slot g)))
           /\ gene_room g ∈ data_rooms data
           /\ gene_slot g ∈ availableTimeSlots (EVENT_START_TIME st) (EVENT_END_TIME st)
           /\ room_free st (gene_slot g) (gene_room g) = true.
Proof.
  intros (s & gs & Hs & Hd & Hlen & Hgs & Hpos) Hsound.
  exists s, gs. split; [done|]. split; [done|].
  split; [by rewrite (genes_of_length _ _ _ Hgs)|]. split; [done|].
  intros i g Hg. pose proof (genes_of_lookup _ _ _ _ _ Hgs Hg) as Hgene.
  apply gene_of_Some in Hgene as (e & ev & room & He & Hev & Hroom & Hr & Ht & Hid).
  destruct (sound_events _ _ Hsound e ev Hev)
    as (d & r & t & Hd' & Hname & Hr' & Hin & Ht' & Hslot & Hfree).
  rewrite (Hpos i g Hg) in Hid. rewrite Hid in Hd'.
  rewrite Hr in Hr'. injection Hr' as <-. rewrite Ht in Ht'. injection Ht' as <-.
  exists d, e. split; [done|]. split; [done|]. split; [|done].
  rewrite Hev. destruct ev; cbn in *. by subst.
Qed.

Lemma count_if_none {A} (p : A -> bool) (l : list A) :
  (forall x, x ∈ l -> p x = false) -> count_if p l = 0.
Proof.
  induction l as [|x l IH]; intros Hnone; [done|].
  cbn. rewrite (Hnone x) by left. apply IH. intros y Hy. apply Hnone. by right.
Qed.

Lemma count_if_zero {A} (p : A -> bool) (l : list A) :
  count_if p l = 0 <-> forall x, x ∈ l -> p x = false.
Proof.
  split; [|apply count_if_none].
  induction l as [|x l IH]; cbn; intros Hz y Hy; [by apply elem_of_nil in Hy|].
  destruct (p x) eqn:Hx; [done|].
  apply elem_of_cons in Hy as [->|Hy]; [done|]. by apply IH.
Qed.

Lemma population_ok_member data st n pop a :
  population_ok data st n pop -> Some a ∈ pop_schedules pop -> complete data st a.
Proof.
  intros (_ & l & Hl & _ & Hall) Ha. rewrite Hl in Ha.
  apply list_elem_of_fmap in Ha as (a' & [= <-] & Ha).
  by apply (proj1 (Forall_forall _ _) Hall).
Qed.

(** What a well-formed instance looks like in the stores of its search:
    the rooms are those the constructor made, the clock is that of the
    request. *)
Lemma generation_instance N n names s k random pop st :
  (1 <= n)%Z -> 0 < k -> (forall i, (0 <= random i)%Q /\ (random i < 1)%Q) ->
  generation N n names s (s + 60 * Z.of_nat k) (empty_state random) = Ok pop st ->
  exists data,
    data_rooms data = seq 0 (Z.to_nat n)
    /\ data_events data
       = imap (fun index eventName => mkEvent index eventName None None) (retained_names names)
    /\ st_rooms st = map (made_room (Z.of_nat k)) (seq 0 (Z.to_nat n))
    /\ EVENT_START_TIME st = s /\ EVENT_END_TIME st = (s + 60 * Z.of_nat k)%Z
    /\ Coherent st /\ population_ok data st POPULATION_SIZE pop
    /\ sound data st /\ best_first st pop.
Proof.
  intros Hn Hk Hrandom Hgen.
  destruct (generation_ready N n names s k random Hn Hk Hrandom)
    as (data & st0 & pop' & st' & Hdata & Hgen' & Hev & _ & Hco & Hpop & Hsound & Hbest).
  rewrite Hgen in Hgen'. injection Hgen' as <- <-.
  destruct (Data_new_run n names s (s + 60 * Z.of_nat k) (empty_state random))
    as (data' & st0' & Hrun & Hrooms & _ & Hevents & Hr & _ & _ & H0 & H1 & _); [lia|].
  rewrite Hdata in Hrun. injection Hrun as <- <-.
  exists data. split; [done|]. split; [done|].
  rewrite (ev_rooms _ _ _ Hev), (ev_start _ _ _ Hev), (ev_end _ _ _ Hev), Hr, H0, H1.
  replace ((s + 60 * Z.of_nat k - s) / 60)%Z with (Z.of_nat k)
    by (rewrite Z.add_simpl_l, Z.mul_comm, Z.div_mul; lia).
  done.
Qed.

Lemma elem_of_hours s k t :
  t ∈ availableTimeSlots s (s + 60 * Z.of_nat k)
  <-> exists j, j < k /\ t = (s + 60 * Z.of_nat j)%Z.
Proof.
  rewrite availableTimeSlots_hours, list_elem_of_fmap. split.
  - intros (j & -> & Hj). apply elem_of_seq in Hj. exists j. split; [lia|done].
  - intros (j & Hj & ->). exists j. split; [done|]. apply elem_of_seq. lia.
Qed.

Lemma slot_index_hours s j : slot_index s (s + 60 * Z.of_nat j) = Z.of_nat j.
Proof. unfold slot_index. rewrite Z.add_simpl_l, Z.mul_comm, Z.div_mul; lia. Qed.

(** A chromosome of a generation of a search on a well-formed instance. *)
Lemma generation_chromosome N n names s k random pop st a :
  (1 <= n)%Z -> 0 < k -> (forall i, (0 <= random i)%Q /\ (random i < 1)%Q) ->
  generation N n names s (s + 60 * Z.of_nat k) (empty_state random) = Ok pop st ->
  Some a ∈ pop_schedules pop ->
  exists sa gs,
    st_schedules st !! a = Some sa
    /\ genes_of st (sch_events sa) = Some gs
    /\ length gs = length (retained_names names)
    /\ positioned gs
    /\ (forall i g, gs !! i = Some g ->
          exists name e j,
            retained_names names !! i = Some name
            /\ js_get (sch_events sa) i = Some e
            /\ st_events st !! e
               = Some (mkEvent i name (Some (gene_room g)) (Some (gene_slot g)))
            /\ st_rooms st !! gene_room g = Some (made_room (Z.of_nat k) (gene_room g))
            /\ gene_room g < Z.to_nat n
            /\ gene_room g <= j /\ j < k
            /\ gene_slot g = (s + 60 * Z.of_nat j)%Z
            /\ room_unavailable st g = false)
    /\ fitness a st = Ok (fitness_of_conflicts (counted_conflicts st gs)) st.
Proof.
  intros Hn Hk Hrandom Hgen Ha.
  destruct (generation_instance _ _ _ _ _ _ _ _ Hn Hk Hrandom Hgen)
    as (data & Hrooms & Hevents & Hr & H0 & H1 & Hco & Hpop & Hsound & Hbest).
  pose proof (population_ok_member _ _ _ _ _ Hpop Ha) as Hcomplete.
  destruct (complete_sound_genes _ _ _ Hcomplete Hsound)
    as (sa & gs & Hsa & Hgs & Hlen & Hpos & Hall).
  exists sa, gs. split; [done|]. split; [done|].
  split; [by rewrite Hlen, Hevents, length_imap|]. split; [done|]. split.
  - intros i g Hg.
    destruct (Hall i g Hg) as (d & e & Hd & He & Hev & Hin & Hslot & Hgfree).
    rewrite H0, H1 in Hslot. apply elem_of_hours in Hslot as (j & Hj & Hslot).
    rewrite Hrooms in Hin. apply elem_of_seq in Hin.
    assert (Hroom : st_rooms st !! gene_room g = Some (made_room (Z.of_nat k) (gene_room g))).
    { rewrite Hr, list_lookup_fmap, lookup_seq_lt by lia. done. }
    pose proof (room_free_available _ _ Hgfree) as Havailable.
    apply (made_room_free _ _ _ _ _ Hroom) in Hgfree; [|lia].
    rewrite H0, Hslot, slot_index_hours in Hgfree.
    rewrite Hevents, list_lookup_imap in Hd.
    destruct (retained_names names !! i) as [name|] eqn:Hname; [|done].
    injection Hd as <-. cbn in Hev.
    exists name, e, j. split; [done|]. split; [done|]. split; [done|].
    split; [done|]. split; [lia|]. split; [lia|]. done.
  - destruct Hbest as (b & fb & _ & _ & Hvalues).
    destruct (Hvalues a Ha) as (fa & (sa' & Hsa' & Hflag & Hfit) & _).
    rewrite Hsa in Hsa'. injection Hsa' as <-.
    destruct (Hco a sa Hsa Hflag) as (gs' & Hgs' & _ & Hfitness).
    rewrite Hgs in Hgs'. injection Hgs' as <-.
    by rewrite (fitness_run_cached a st sa Hsa Hflag), Hfitness.
Qed.

(** X5. On a well-formed instance (at least one room, a positive whole
    number [k] of hours) every chromosome of every generation of the
    search holds one event per event of the request, in order, each at
    one of the [k] hourly slots and in a room that is available at that
    slot: the room of index [r] only from the slot of index [r] on. So
    the penalty for an unavailable room is never incurred during a
    search: the conflicts of a chromosome are its double bookings alone,
    and its fitness, which is cached once its generation is sorted, is
    the inverse of one plus their number. *)
Theorem search_books_available_rooms_only N n names s k random pop st a :
  (1 <= n)%Z -> 0 < k -> (forall i, (0 <= random i)%Q /\ (random i < 1)%Q) ->
  generation N n names s (s + 60 * Z.of_nat k) (empty_state random) = Ok pop st ->
  Some a ∈ pop_schedules pop ->
  exists gs,
    genes st a = Some gs
    /\ length gs = length (retained_names names)
    /\ (forall i g, gs !! i = Some g ->
          gene_id g = i
          /\ room_unavailable st g = false
          /\ exists j, gene_room g <= j /\ j < k /\ gene_room g < Z.to_nat n
                       /\ gene_slot g = (s + 60 * Z.of_nat j)%Z)
    /\ conflict_count st gs
       = count_if (fun p => double_booked (fst p) (snd p)) (unordered_pairs gs)
    /\ fitness a st = Ok (fitness_of_conflicts (conflict_count st gs)) st.
Proof.
  intros Hn Hk Hrandom Hgen Ha.
  destruct (generation_chromosome _ _ _ _ _ _ _ _ _ Hn Hk Hrandom Hgen Ha)
    as (sa & gs & Hsa & Hgs & Hlen & Hpos & Hall & Hfit).
  assert (Hfree : forall g, g ∈ gs -> room_unavailable st g = false).
  { intros g Hg. apply list_elem_of_lookup in Hg as [i Hg].
    by destruct (Hall i g Hg) as (_ & _ & _ & _ & _ & _ & _ & _ & _ & _ & _ & Hfree). }
  exists gs. split; [unfold genes; by rewrite Hsa|]. split; [done|]. split; [|split].
  - intros i g Hg. split; [by apply Hpos|].
    destruct (Hall i g Hg) as (_ & _ & j & _ & _ & _ & _ & Hlt & Hle & Hj & Hslot & Hav).
    split; [done|]. by exists j.
  - unfold conflict_count. by rewrite (count_if_none _ _ Hfree).
  - by rewrite <- counted_conflicts_conflict_count by (by apply positioned_NoDup).
Qed.

Lemma search_books_available_rooms_only_witness :
  exists pop st gs,
    generation 0 2 ["Event 1"; "Event 2"] 540 (540 + 60 * Z.of_nat 3)
      (empty_state example_random) = Ok pop st
    /\ genes st 0 = Some gs
    /\ fitness 0 st = Ok (fitness_of_conflicts (conflict_count st gs)) st.
Proof.
  eassert (Hgen : generation 0 2 ["Event 1"; "Event 2"] 540 (540 + 60 * Z.of_nat 3)
                    (empty_state example_random) = Ok _ _) by (vm_compute; reflexivity).
  match type of Hgen with _ = Ok ?pop ?st =>
    destruct (search_books_available_rooms_only 0 2 ["Event 1"; "Event 2"] 540 3
                example_random pop st 0) as (gs & Hgs & _ & _ & _ & Hfit)
  end.
  - lia.
  - lia.
  - apply example_random_range.
  - exact Hgen.
  - apply (bool_decide_unpack _). vm_compute. reflexivity.
  - eexists _, _, gs. split; [exact Hgen|]. split; [exact Hgs|exact Hfit].
Defined.

(** ** The result of a search *)

Lemma best_schedule_Ok n names s e random r st' :
  best_schedule n names s e (empty_state random) = Ok r st' ->
  generationNumber r <= MAX_GENERATIONS
  /\ generation (generationNumber r) n names s e (empty_state random)
     = Ok (finalPopulation r) st'
  /\ js_get (pop_schedules (finalPopulation r)) 0 = Some (bestSchedule r)
  /\ exists fbest,
       fitness (bestSchedule r) st' = Ok fbest st'
       /\ ((fbest == 1)%Q \/ generationNumber r = MAX_GENERATIONS).
Proof.
  intros H. unfold best_schedule in H.
  inv_step H as p0 st0 Hfirst. inv_step H as lr st1 Hloop.
  inv_step H as b st2 Hb. apply defined_Ok in Hb as [Hb ->]. injection H as <- <-.
  rename st1 into st'.
  cbn [generationNumber finalPopulation bestSchedule].
  assert (Hgen0 : generation 0 n names s e (empty_state random) = Ok p0 st0) by done.
  destruct (search_loop_Ok _ _ _ _ _ _ _ _ _ _ _ Hgen0 Hloop)
    as (_ & Hle & Hgen & fbest & Hfbest & Hstop).
  split; [done|]. split; [done|]. split; [done|].
  destruct (generation_Ok _ _ _ _ _ _ _ _ Hgen) as (Hco & Hbest & _).
  destruct (best_first_read _ _ Hbest) as (b' & fb & Hb' & Hfb & Hbf & _).
  rewrite Hb in Hb'. injection Hb' as <-.
  rewrite Hbf in Hfbest. injection Hfbest as <-.
  by exists fb.
Qed.

Lemma js_get_elem_of {A} (arr : array A) i x : js_get arr i = Some x -> Some x ∈ arr.
Proof.
  unfold js_get. destruct (arr !! i) as [v|] eqn:Hv; [|done].
  intros ->. by eapply list_elem_of_lookup_2.
Qed.

Lemma elem_of_unordered_pairs {A} (l : list A) x y :
  (x, y) ∈ unordered_pairs l
  <-> exists i j, i < j /\ l !! i = Some x /\ l !! j = Some y.
Proof.
  induction l as [|a l IH]; cbn.
  - split; [by intros ?%elem_of_nil|]. by intros (i & j & _ & Hi & _).
  - rewrite elem_of_app, list_elem_of_fmap, IH. split.
    + intros [(y' & [= -> ->] & Hy)|(i & j & Hij & Hi & Hj)].
      * apply list_elem_of_lookup in Hy as [j Hj]. exists 0, (S j). split; [lia|done].
      * exists (S i), (S j). split; [lia|done].
    + intros (i & j & Hij & Hi & Hj). destruct i as [|i].
      * injection Hi as <-. destruct j as [|j]; [lia|]. left. exists y.
        split; [done|]. by eapply list_elem_of_lookup_2.
      * destruct j as [|j]; [lia|]. right. exists i, j. split; [lia|done].
Qed.

Lemma best_schedule_chromosome n names s k random r st' :
  (1 <= n)%Z -> 0 < k -> (forall i, (0 <= random i)%Q /\ (random i < 1)%Q) ->
  best_schedule n names s (s + 60 * Z.of_nat k) (empty_state random) = Ok r st' ->
  exists sa gs,
    st_schedules st' !! bestSchedule r = Some sa
    /\ genes_of st' (sch_events sa) = Some gs
    /\ length gs = length (retained_names names)
    /\ (forall i g, gs !! i = Some g ->
          exists name e j,
            retained_names names !! i = Some name
            /\ js_get (sch_events sa) i = Some e
            /\ st_events st' !! e
               = Some (mkEvent i name (Some (gene_room g)) (Some (gene_slot g)))
            /\ st_rooms st' !! gene_room g = Some (made_room (Z.of_nat k) (gene_room g))
            /\ gene_room g < Z.to_nat n
            /\ gene_room g <= j /\ j < k
            /\ gene_slot g = (s + 60 * Z.of_nat j)%Z
            /\ room_unavailable st' g = false)
    /\ fitness (bestSchedule r) st'
       = Ok (fitness_of_conflicts
               (count_if (fun p => double_booked (fst p) (snd p)) (unordered_pairs gs))) st'
    /\ (count_if (fun p => double_booked (fst p) (snd p)) (unordered_pairs gs) <> 0 ->
        generationNumber r = MAX_GENERATIONS).
Proof.
  intros Hn Hk Hrandom Hrun.
  destruct (best_schedule_Ok _ _ _ _ _ _ _ Hrun) as (_ & Hgen & Hb & fbest & Hfbest & Hstop).
  apply js_get_elem_of in Hb.
  destruct (generation_chromosome _ _ _ _ _ _ _ _ _ Hn Hk Hrandom Hgen Hb)
    as (sa & gs & Hsa & Hgs & Hlen & Hpos & Hall & Hfit).
  rewrite Hfit in Hfbest. injection Hfbest as <-.
  rewrite counted_conflicts_conflict_count in Hfit, Hstop by (by apply positioned_NoDup).
  assert (Hfree : forall g, g ∈ gs -> room_unavailable st' g = false).
  { intros g Hg. apply list_elem_of_lookup in Hg as [i Hg].
    by destruct (Hall i g Hg) as (_ & _ & _ & _ & _ & _ & _ & _ & _ & _ & _ & Hfree). }
  unfold conflict_count in Hfit, Hstop.
  rewrite (count_if_none _ _ Hfree) in Hfit, Hstop. cbn [Nat.add] in Hfit, Hstop.
  exists sa, gs. split; [done|]. split; [done|]. split; [done|]. split; [done|].
  split; [done|]. intros Hne. destruct Hstop as [Hone|]; [|done].
  by apply fitness_of_conflicts_one in Hone.
Qed.

Lemma no_double_booking gs :
  count_if (fun p => double_booked (fst p) (snd p)) (unordered_pairs gs) = 0
  <-> forall i j gi gj, i < j -> gs !! i = Some gi -> gs !! j = Some gj ->
        ~ (gene_room gi = gene_room gj /\ gene_slot gi = gene_slot gj).
Proof.
  rewrite count_if_zero. split.
  - intros Hnone i j gi gj Hij Hi Hj [Hroom Hslot].
    assert (Hin : (gi, gj) ∈ unordered_pairs gs).
    { apply elem_of_unordered_pairs. by exists i, j. }
    apply Hnone in Hin. cbn in Hin. unfold double_booked in Hin.
    rewrite bool_decide_eq_true_2 in Hin by done.
    rewrite Hslot, Z.eqb_refl in Hin. done.
  - intros Hnone [gi gj] Hin. apply elem_of_unordered_pairs in Hin as (i & j & Hij & Hi & Hj).
    cbn. unfold double_booked. apply not_true_is_false. intros Hboth.
    apply andb_prop in Hboth as [Hroom Hslot].
    apply bool_decide_eq_true_1 in Hroom. apply Z.eqb_eq in Hslot.
    by apply (Hnone i j gi gj Hij Hi Hj).
Qed.

(** X6. On a well-formed instance the schedule a search returns has
    fitness 1 exactly when no two of its events share both room and time
    slot; when it has not, the search went through all MAX_GENERATIONS
    generations. *)
Theorem result_is_conflict_free_or_budget_spent n names s k random r st' :
  (1 <= n)%Z -> 0 < k -> (forall i, (0 <= random i)%Q /\ (random i < 1)%Q) ->
  best_schedule n names s (s + 60 * Z.of_nat k) (empty_state random) = Ok r st' ->
  exists gs f,
    genes st' (bestSchedule r) = Some gs
    /\ length gs = length (retained_names names)
    /\ fitness (bestSchedule r) st' = Ok f st'
    /\ ((f == 1)%Q <->
        forall i j gi gj, i < j -> gs !! i = Some gi -> gs !! j = Some gj ->
          ~ (gene_room gi = gene_room gj /\ gene_slot gi = gene_slot gj))
    /\ (~ (f == 1)%Q -> generationNumber r = MAX_GENERATIONS).
Proof.
  intros Hn Hk Hrandom Hrun.
  destruct (best_schedule_chromosome _ _ _ _ _ _ _ Hn Hk Hrandom Hrun)
    as (sa & gs & Hsa & Hgs & Hlen & Hall & Hfit & Hstop).
  exists gs. eexists. split; [unfold genes; by rewrite Hsa|]. split; [done|].
  split; [exact Hfit|]. rewrite fitness_of_conflicts_one. split.
  - apply no_double_booking.
  - intros Hne. apply Hstop. done.
Qed.

Lemma result_is_conflict_free_or_budget_spent_witness :
  exists r st' gs,
    best_schedule 1 ["Event 1"] 540 (540 + 60 * Z.of_nat 1) (empty_state (fun _ => 0%Q))
    = Ok r st'
    /\ genes st' (bestSchedule r) = Some gs
    /\ length gs = 1.
Proof.
  eassert (Hrun : best_schedule 1 ["Event 1"] 540 (540 + 60 * Z.of_nat 1)
                    (empty_state (fun _ => 0%Q)) = Ok _ _) by (vm_compute; reflexivity).
  match type of Hrun with _ = Ok ?r ?st =>
    destruct (result_is_conflict_free_or_budget_spent 1 ["Event 1"] 540 1 (fun _ => 0%Q) r st)
      as (gs & f & Hgs & Hlen & _)
  end.
  - lia.
  - lia.
  - intros i. split; vm_compute; congruence.
  - exact Hrun.
  - eexists _, _, gs. split; [exact Hrun|]. split; [exact Hgs|exact Hlen].
Defined.

(** ** More events than there are rooms and slots for *)

Lemma length_room_slots n k :
  length (room_slots n k) = sum_list_with (fun j => Nat.min n (S j)) (seq 0 k).
Proof.
  unfold room_slots. generalize (seq 0 k). intros l.
  induction l as [|j l IH]; [done|].
  rewrite bind_cons, length_app, IH, length_fmap, length_seq. done.
Qed.

Lemma elem_of_room_slots n k r j :
  (r, j) ∈ room_slots n k <-> j < k /\ r <= j /\ r < n.
Proof.
  unfold room_slots. rewrite list_elem_of_bind. split.
  - intros (j' & Hin & Hj'). apply list_elem_of_fmap in Hin as (r' & [= -> ->] & Hr).
    apply elem_of_seq in Hj', Hr. lia.
  - intros (Hj & Hr & Hn). exists j. split; [|apply elem_of_seq; lia].
    apply list_elem_of_fmap. exists r. split; [done|]. apply elem_of_seq. lia.
Qed.

(** X7. When a well-formed request has more events than there are pairs
    of a room and a time slot at which the room is available (the room of
    index [r] is available from the slot of index [r] on), no schedule
    is free of conflicts: every search goes through all MAX_GENERATIONS
    generations and returns a schedule with a fitness of at most one
    half. *)
Theorem oversubscribed_search_spends_budget n names s k random r st' :
  (1 <= n)%Z -> 0 < k -> (forall i, (0 <= random i)%Q /\ (random i < 1)%Q) ->
  sum_list_with (fun j => Nat.min (Z.to_nat n) (S j)) (seq 0 k)
  < length (retained_names names) ->
  best_schedule n names s (s + 60 * Z.of_nat k) (empty_state random) = Ok r st' ->
  generationNumber r = MAX_GENERATIONS
  /\ exists f, fitness (bestSchedule r) st' = Ok f st' /\ (f <= 1 # 2)%Q.
Proof.
  intros Hn Hk Hrandom Hmany Hrun.
  destruct (best_schedule_chromosome _ _ _ _ _ _ _ Hn Hk Hrandom Hrun)
    as (sa & gs & Hsa & Hgs & Hlen & Hall & Hfit & Hstop).
  set (c := count_if _ _) in *.
  assert (Hc : c <> 0).
  { intros Hc. subst c. pose proof (proj1 (no_double_booking gs) Hc) as Hzero.
    pose (place := fun g : gene => (gene_room g, Z.to_nat (slot_index s (gene_slot g)))).
    assert (Hnodup : NoDup (place <$> gs)).
    { apply NoDup_alt. intros i j p Hi Hj.
      apply list_lookup_fmap_Some in Hi as (gi & Hpi & Hgi).
      apply list_lookup_fmap_Some in Hj as (gj & Hpj & Hgj).
      rewrite Hpi in Hpj. injection Hpj as Hroom Hslot.
      destruct (Hall i gi Hgi) as (_ & _ & ji & _ & _ & _ & _ & _ & _ & _ & Hsi & _).
      destruct (Hall j gj Hgj) as (_ & _ & jj & _ & _ & _ & _ & _ & _ & _ & Hsj & _).
      rewrite Hsi, Hsj, !slot_index_hours, !Nat2Z.id in Hslot.
      assert (Hsame : gene_slot gi = gene_slot gj) by (rewrite Hsi, Hsj, Hslot; done).
      destruct (Nat.lt_trichotomy i j) as [Hlt|[Heq|Hgt]]; [|done|].
      - by destruct (Hzero i j gi gj Hlt Hgi Hgj).
      - by destruct (Hzero j i gj gi Hgt Hgj Hgi). }
    assert (Hsub : forall p, p ∈ place <$> gs -> p ∈ room_slots (Z.to_nat n) k).
    { intros p Hp. apply list_elem_of_fmap in Hp as (g & -> & Hg).
      apply list_elem_of_lookup in Hg as [i Hg].
      destruct (Hall i g Hg) as (_ & _ & j & _ & _ & _ & _ & Hlt & Hle & Hj & Hslot & _).
      unfold place. rewrite Hslot, slot_index_hours, Nat2Z.id.
      by apply elem_of_room_slots. }
    pose proof (submseteq_length _ _ (NoDup_submseteq _ _ Hnodup Hsub)) as Hle.
    rewrite length_fmap, length_room_slots, Hlen in Hle. lia. }
  split; [by apply Hstop|]. eexists. split; [exact Hfit|].
  apply (Qle_trans _ (fitness_of_conflicts 1)); [|done].
  apply fitness_of_conflicts_le. lia.
Qed.

Lemma oversubscribed_search_spends_budget_witness :
  exists r st',
    best_schedule 1 ["Event 1"; "Event 2"] 540 (540 + 60 * Z.of_nat 1)
      (empty_state (fun _ => 0%Q)) = Ok r st'
    /\ generationNumber r = MAX_GENERATIONS.
Proof.
  destruct (best_schedule_ready 1 ["Event 1"; "Event 2"] 540 1 (fun _ => 0%Q))
    as (r & st' & Hrun).
  - lia.
  - lia.
  - intros i. split; vm_compute; congruence.
  - exists r, st'. split; [exact Hrun|].
    apply (oversubscribed_search_spends_budget 1 ["Event 1"; "Event 2"] 540 1 (fun _ => 0%Q) r st').
    + lia.
    + lia.
    + intros i. split; vm_compute; congruence.
    + vm_compute. lia.
    + exact Hrun.
Defined.

(** ** The event names of a request *)

Lemma split_commas_nonempty s : split_commas s <> [].
Proof.
  destruct s as [|c s]; cbn; [done|].
  destruct (Ascii.eqb c ","); [done|]. by destruct (split_commas s).
Qed.

Lemma split_commas_join s : String.concat "," (split_commas s) = s.
Proof.
  induction s as [|c s IH]; [done|]. cbn [split_commas].
  pose proof (split_commas_nonempty s) as Hne.
  destruct (Ascii.eqb_spec c ",") as [->|Hc].
  - destruct (split_commas s) as [|piece pieces]; [done|].
    cbn in *. by rewrite IH.
  - destruct (split_commas s) as [|piece pieces]; [done|].
    cbn in *. destruct pieces; cbn in *; by rewrite <- IH.
Qed.

Lemma split_commas_length s :
  length (split_commas s)
  = S (count_if (fun c => Ascii.eqb c ",") (String.list_ascii_of_string s)).
Proof.
  induction s as [|c s IH]; [done|]. cbn [split_commas String.list_ascii_of_string count_if].
  pose proof (split_commas_nonempty s) as Hne.
  destruct (Ascii.eqb c ","); [cbn; by rewrite IH|].
  destruct (split_commas s) as [|piece pieces]; [done|]. cbn in *. done.
Qed.

Lemma split_commas_pieces s piece :
  piece ∈ split_commas s ->
  count_if (fun c => Ascii.eqb c ",") (String.list_ascii_of_string piece) = 0.
Proof.
  revert piece. induction s as [|c s IH]; intros piece Hin.
  - cbn in Hin. by apply list_elem_of_singleton in Hin as ->.
  - cbn [split_commas] in Hin. destruct (Ascii.eqb c ",") eqn:Hc.
    + apply elem_of_cons in Hin as [->|Hin]; [done|]. by apply IH.
    + destruct (split_commas s) as [|p ps].
      * apply list_elem_of_singleton in Hin as ->. cbn. by rewrite Hc.
      * apply elem_of_cons in Hin as [->|Hin].
        -- cbn. rewrite Hc. apply IH. left.
        -- apply IH. by right.
Qed.

Lemma retained_names_split s : retained_names (split_commas s) = split_commas s.
Proof.
  unfold retained_names. case_decide as Hlen; [done|].
  pose proof (split_commas_nonempty s). destruct (split_commas s); [done|cbn in Hlen; lia].
Qed.

(** X8. The handler splits the list of event names of the request at its
    commas, which always gives at least one name, so the constructor of
    [Data] never falls back on its eight default names for a request:
    the names it retains are the pieces of the request, one more than
    there are commas, none of them containing a comma, possibly empty,
    and joined with commas they give the list of the request back. The
    events of the data carry these names in order, with their index as
    id and neither room nor time slot. *)
Theorem request_names_are_kept n eventNames s e st data st' :
  Data_new n (split_commas eventNames) s e st = Ok data st' ->
  data_EVENT_NAMES data = split_commas eventNames
  /\ String.concat "," (data_EVENT_NAMES data) = eventNames
  /\ length (data_events data)
     = S (count_if (fun c => Ascii.eqb c ",") (String.list_ascii_of_string eventNames))
  /\ forall i name,
       data_EVENT_NAMES data !! i = Some name ->
       data_events data !! i = Some (mkEvent i name None None)
       /\ count_if (fun c => Ascii.eqb c ",") (String.list_ascii_of_string name) = 0.
Proof.
  intros Hrun.
  destruct (decide (1 <= n /\ e < s)%Z) as [Hbad|Hgood].
  { by rewrite Data_new_throw in Hrun. }
  destruct (Data_new_run n (split_commas eventNames) s e st Hgood)
    as (data' & st'' & Hrun' & _ & Hnames & Hevents & _).
  rewrite Hrun in Hrun'. injection Hrun' as <- <-.
  rewrite retained_names_split in Hnames, Hevents. rewrite Hnames, Hevents.
  split; [done|]. split; [apply split_commas_join|].
  split; [by rewrite length_imap, split_commas_length|].
  intros i name Hi. split.
  - by rewrite list_lookup_imap, Hi.
  - apply (split_commas_pieces eventNames). by eapply list_elem_of_lookup_2.
Qed.

Lemma request_names_are_kept_witness :
  exists data st',
    Data_new 1 (split_commas "Quiz,,Poster Designing") 540 600 (empty_state example_random)
    = Ok data st'
    /\ data_EVENT_NAMES data = ["Quiz"; ""; "Poster Designing"].
Proof.
  eassert (Hrun : Data_new 1 (split_commas "Quiz,,Poster Designing") 540 600
                    (empty_state example_random) = Ok _ _) by (vm_compute; reflexivity).
  eexists _, _. split; [exact Hrun|].
  destruct (request_names_are_kept _ _ _ _ _ _ _ Hrun) as (Hnames & _).
  rewrite Hnames. reflexivity.
Defined.

(** ** The strings of events and schedules *)

Lemma string_app_assoc (a b c : string) : (a +:+ b) +:+ c = a +:+ (b +:+ c).
Proof.
  induction a as [|x a IH]; [done|].
  change (String x ((a +:+ b) +:+ c) = String x (a +:+ (b +:+ c))). by f_equal.
Qed.

Lemma string_app_nil_r (a : string) : a +:+ "" = a.
Proof.
  induction a as [|x a IH]; [done|].
  change (String x (a +:+ "") = String x a). by f_equal.
Qed.

Section Strings.

Variable toFormat : Z -> string.

Lemma Event_toString_run e ev r room st :
  st_events st !! e = Some ev -> ev_room ev = Some r -> st_rooms st !! r = Some room ->
  Event_toString toFormat e st
  = Ok (ev_name ev +:+ ", Room: " +:+ room_number room
        +:+ ", Time: " +:+ formatted toFormat (ev_time_slot ev)) st.
Proof.
  intros He Hr Hroom. unfold Event_toString.
  erewrite bind_run by (by apply load_event_Ok).
  rewrite Hr. erewrite bind_run by reflexivity.
  by erewrite bind_run by (by apply load_room_Ok).
Qed.

Lemma Event_toString_no_room e ev st :
  st_events st !! e = Some ev -> ev_room ev = None ->
  Event_toString toFormat e st = Throw TypeError.
Proof.
  intros He Hr. unfold Event_toString.
  erewrite bind_run by (by apply load_event_Ok). by rewrite Hr.
Qed.

(** The string of an entry is computed without a change of state, and
    the only exception is a TypeError. *)
Lemma entry_string_cases v st :
  (exists str, entry_string toFormat v st = Ok str st)
  \/ entry_string toFormat v st = Throw TypeError.
Proof.
  destruct v as [e|]; [|left; by eexists]. cbn. unfold Event_toString, bind, load_event.
  destruct (st_events st !! e) as [ev|]; [|by right]. cbn.
  destruct (ev_room ev) as [r|]; [|by right]. cbn. unfold load_room.
  destruct (st_rooms st !! r) as [room|]; [|by right]. cbn. left. by eexists.
Qed.

Lemma toString_loop_run events strs st m j returnValue :
  Forall2 (fun v str => entry_string toFormat v st = Ok str st) events strs ->
  j + m <= length events ->
  toString_loop toFormat events (seq j m) returnValue st
  = Ok (returnValue +:+ glued (take m (drop j strs))) st.
Proof.
  intros Hall. revert j returnValue. induction m as [|m IH]; intros j acc Hle.
  - cbn. by rewrite string_app_nil_r.
  - cbn [seq toString_loop].
    destruct (lookup_lt_is_Some_2 events j) as [v Hv]; [lia|].
    destruct (Forall2_lookup_l _ _ _ _ _ Hall Hv) as (str & Hstr & Hrun).
    assert (Hget : js_get events j = v) by (unfold js_get; by rewrite Hv).
    rewrite Hget. erewrite bind_run by exact Hrun.
    rewrite IH by lia. rewrite (drop_S _ _ _ Hstr). cbn.
    by rewrite !string_app_assoc.
Qed.

Lemma toString_loop_throws events st indices returnValue i :
  i ∈ indices ->
  entry_string toFormat (js_get events i) st = Throw TypeError ->
  toString_loop toFormat events indices returnValue st = Throw TypeError.
Proof.
  revert returnValue. induction indices as [|k indices IH]; intros acc Hin Hthrow.
  - by apply elem_of_nil in Hin.
  - cbn. destruct (entry_string_cases (js_get events k) st) as [[str Hk]|Hk].
    + erewrite bind_run by exact Hk. apply IH; [|done].
      apply elem_of_cons in Hin as [->|Hin]; [|done]. by rewrite Hk in Hthrow.
    + by rewrite (bind_Throw _ _ _ TypeError).
Qed.

Lemma glued_last strs x : glued strs +:+ x = String.concat ", " (strs ++ [x]).
Proof.
  induction strs as [|y strs IH]; [done|].
  cbn [glued foldr app String.concat]. fold (glued strs).
  rewrite !string_app_assoc, IH. by destruct strs.
Qed.

Lemma toString_loop_cases events st indices returnValue :
  (exists r, toString_loop toFormat events indices returnValue st = Ok r st)
  \/ toString_loop toFormat events indices returnValue st = Throw TypeError.
Proof.
  revert returnValue. induction indices as [|k indices IH]; intros acc.
  - left. by eexists.
  - cbn. destruct (entry_string_cases (js_get events k) st) as [[str Hk]|Hk].
    + erewrite bind_run by exact Hk. apply IH.
    + right. by rewrite (bind_Throw _ _ _ TypeError).
Qed.

(** X9. [toString] of a schedule reads the event array without going
    through the [events] accessor, so it leaves the state, the cached
    fitness included, as it is. For a schedule whose events all have a
    room it returns the strings of the events, each of the form
    "name, Room: number, Time: slot", joined by a comma and a space; for
    a schedule without events it returns "undefined"; and when some event
    has no room it throws a TypeError, although an event without a time
    slot is printed with 'N/A'. *)
Theorem ScheduleEvents_toString_joins a st s :
  st_schedules st !! a = Some s ->
  (sch_events s = [] -> ScheduleEvents_toString toFormat a st = Ok "undefined" st)
  /\ (forall strs,
        sch_events s <> [] ->
        Forall2 (fun v str =>
                   exists e ev r room,
                     v = Some e /\ st_events st !! e = Some ev
                     /\ ev_room ev = Some r /\ st_rooms st !! r = Some room
                     /\ str = ev_name ev +:+ ", Room: " +:+ room_number room
                              +:+ ", Time: " +:+ formatted toFormat (ev_time_slot ev))
                (sch_events s) strs ->
        ScheduleEvents_toString toFormat a st = Ok (String.concat ", " strs) st)
  /\ (forall i e ev,
        js_get (sch_events s) i = Some e -> st_events st !! e = Some ev ->
        ev_room ev = None ->
        ScheduleEvents_toString toFormat a st = Throw TypeError).
Proof.
  intros Ha. unfold ScheduleEvents_toString.
  erewrite bind_run by (by apply load_schedule_Ok). split; [|split].
  - by intros ->.
  - intros strs Hne Hall.
    assert (Hruns : Forall2 (fun v str => entry_string toFormat v st = Ok str st)
                            (sch_events s) strs).
    { eapply Forall2_impl; [exact Hall|].
      intros v str (e & ev & r & room & -> & He & Hr & Hroom & ->).
      by eapply Event_toString_run. }
    pose proof (Forall2_length _ _ _ Hall) as Hlen.
    set (events := sch_events s) in *.
    assert (Hn : 0 < length events) by (destruct events; [done|cbn; lia]).
    erewrite bind_run by (apply (toString_loop_run _ _ _ _ _ _ Hruns); lia).
    destruct (lookup_lt_is_Some_2 events (length events - 1)) as [v Hv]; [lia|].
    destruct (Forall2_lookup_l _ _ _ _ _ Hruns Hv) as (x & Hx & Hrun).
    assert (Hget : js_getZ events (Z.of_nat (length events) - 1) = v).
    { unfold js_getZ, js_get. destruct (Z.ltb_spec (Z.of_nat (length events) - 1) 0); [lia|].
      replace (Z.to_nat (Z.of_nat (length events) - 1)) with (length events - 1) by lia.
      by rewrite Hv. }
    rewrite Hget. erewrite bind_run by exact Hrun. unfold ret. do 2 f_equal.
    rewrite drop_0, string_app_assoc. cbn [String.append]. rewrite glued_last.
    f_equal. rewrite <- (take_drop_middle _ _ _ Hx) at 2.
    rewrite drop_ge by lia. done.
  - intros i e ev Hi He Hroom.
    assert (Hthrow : entry_string toFormat (js_get (sch_events s) i) st = Throw TypeError).
    { rewrite Hi. by eapply Event_toString_no_room. }
    assert (Hlt : i < length (sch_events s)).
    { destruct (decide (i < length (sch_events s))); [done|].
      rewrite js_get_ge in Hi by lia. done. }
    destruct (decide (i < length (sch_events s) - 1)) as [Hloop|Hlast].
    + rewrite (bind_Throw _ _ _ TypeError); [done|].
      apply (toString_loop_throws _ _ _ _ i); [|done]. apply elem_of_seq. lia.
    + destruct (toString_loop_cases (sch_events s) st
                  (seq 0 (length (sch_events s) - 1)) "") as [[r Hr]|Hr].
      * erewrite bind_run by exact Hr. rewrite (bind_Throw _ _ _ TypeError); [done|].
        unfold js_getZ.
        destruct (Z.ltb_spec (Z.of_nat (length (sch_events s)) - 1) 0); [lia|].
        replace (Z.to_nat (Z.of_nat (length (sch_events s)) - 1)) with i by lia. done.
      * by rewrite (bind_Throw _ _ _ TypeError).
Qed.

End Strings.

Lemma ScheduleEvents_toString_joins_witness :
  ScheduleEvents_toString pretty 1 example_state
  = Ok "Event 1, Room: Room B, Time: 540, Event 2, Room: Room A, Time: 600" example_state.
Proof.
  destruct (ScheduleEvents_toString_joins pretty 1 example_state
              (mkSchedule example_data [Some 2; Some 3] 0 (-1) 2 true)) as (_ & Hjoin & _).
  - reflexivity.
  - apply (Hjoin ["Event 1, Room: Room B, Time: 540"; "Event 2, Room: Room A, Time: 600"]).
    + done.
    + repeat constructor.
      * by eexists 2, _, 1, _.
      * by eexists 3, _, 0, _.
Defined.

(** ** The response of the handler *)

Lemma map_M_pure {A B} (f : A -> M B) (P : nat -> B -> Prop) l st :
  (forall i x, l !! i = Some x -> exists y, f x st = Ok y st /\ P i y) ->
  exists ys,
    map_M f l st = Ok ys st /\ length ys = length l
    /\ forall i y, ys !! i = Some y -> P i y.
Proof.
  revert P. induction l as [|x l IH]; intros P Hall.
  - exists []. split; [done|]. split; [done|]. intros i y Hy. by rewrite lookup_nil in Hy.
  - destruct (Hall 0 x) as (y & Hy & HP); [done|].
    destruct (IH (fun i => P (S i))) as (ys & Hys & Hlen & HPs).
    { intros i x' Hx'. by apply (Hall (S i)). }
    exists (y :: ys). split.
    + cbn. erewrite bind_run by exact Hy. by erewrite bind_run by exact Hys.
    + split; [cbn; by rewrite Hlen|]. intros [|i] y' Hy'; [by injection Hy' as <-|].
      by apply HPs.
Qed.

(** X10. For a well-formed request (at least one room, a positive whole
    number [k] of hours) the handler answers: the response carries the
    fitness of the schedule the search returned, a number in (0, 1], and
    one entry per event name of the request, in the order of the
    request; the entry of index [i] has [i] as event id and the [i]-th
    name, the number of one of the rooms of the request, never 'N/A',
    and the formatted time of one of the [k] hourly slots, never 'N/A',
    the room being one that is available at that slot. *)
Theorem handler_answers_every_event toFormat n eventNames s k random :
  (1 <= n)%Z -> 0 < k -> (forall i, (0 <= random i)%Q /\ (random i < 1)%Q) ->
  exists resp st',
    handler toFormat n eventNames s (s + 60 * Z.of_nat k) (empty_state random)
    = Ok resp st'
    /\ (0 < response_fitness resp)%Q /\ (response_fitness resp <= 1)%Q
    /\ length (response_schedule resp) = length (split_commas eventNames)
    /\ forall i entry,
         response_schedule resp !! i = Some entry ->
         entry_eventId entry = i
         /\ split_commas eventNames !! i = Some (entry_eventName entry)
         /\ exists r j,
              r < Z.to_nat n /\ r <= j /\ j < k
              /\ entry_room entry = "Room " +:+ pretty (r + 1)
              /\ entry_timeSlot entry = toFormat (s + 60 * Z.of_nat j)%Z.
Proof.
  intros Hn Hk Hrandom. unfold handler.
  destruct (best_schedule_ready n (split_commas eventNames) s k random Hn Hk Hrandom)
    as (r & st1 & Hrun).
  destruct (best_schedule_chromosome _ _ _ _ _ _ _ Hn Hk Hrandom Hrun)
    as (sa & gs & Hsa & Hgs & Hlen & Hall & Hfit & _).
  rewrite retained_names_split in Hlen, Hall.
  erewrite bind_run by exact Hrun. unfold respond.
  erewrite bind_run by exact Hfit.
  erewrite bind_run by (by apply get_events_run).
  set (st2 := with_schedules _ st1).
  pose proof (genes_of_length _ _ _ Hgs) as Hlen'.
  destruct (map_M_pure (response_entry toFormat)
              (fun i entry =>
                 entry_eventId entry = i
                 /\ split_commas eventNames !! i = Some (entry_eventName entry)
                 /\ exists r j,
                      r < Z.to_nat n /\ r <= j /\ j < k
                      /\ entry_room entry = "Room " +:+ pretty (r + 1)
                      /\ entry_timeSlot entry = toFormat (s + 60 * Z.of_nat j)%Z)
              (sch_events sa) st2) as (entries & Hentries & Hlength & Hshape).
  { intros i v Hv. pose proof (lookup_lt_Some _ _ _ Hv) as Hi.
    destruct (lookup_lt_is_Some_2 gs i) as [g Hg]; [lia|].
    destruct (Hall i g Hg)
      as (name & e & j & Hname & He & Hev & Hroom & Hr & Hle & Hj & Hslot & _).
    assert (v = Some e) as -> by (unfold js_get in He; by rewrite Hv in He).
    eexists. split.
    - unfold response_entry. erewrite bind_run by reflexivity.
      erewrite bind_run by (apply load_event_Ok; split; [exact Hev|done]).
      cbn [ev_room]. erewrite bind_run; [reflexivity|].
      by erewrite bind_run by (apply load_room_Ok; split; [exact Hroom|done]).
    - cbn. split; [done|]. split; [done|]. exists (gene_room g), j. by rewrite Hslot. }
  erewrite bind_run by exact Hentries. eexists _, _. split; [reflexivity|].
  cbn [response_fitness response_schedule].
  split; [apply fitness_of_conflicts_range|]. split; [apply fitness_of_conflicts_range|].
  split; [by rewrite Hlength, <- Hlen', Hlen|done].
Qed.

Lemma handler_answers_every_event_witness :
  exists resp st',
    handler pretty 2 "Quiz,Poster" 540 (540 + 60 * Z.of_nat 2) (empty_state example_random)
    = Ok resp st'
    /\ length (response_schedule resp) = 2.
Proof.
  destruct (handler_answers_every_event pretty 2 "Quiz,Poster" 540 2 example_random)
    as (resp & st' & Hrun & _ & _ & Hlen & _).
  - lia.
  - lia.
  - apply example_random_range.
  - exists resp, st'. split; [exact Hrun|]. rewrite Hlen. reflexivity.
Defined.

(** ** What a generation step leaves alone *)

(** X11. [evolve] never modifies a chromosome that existed before the
    call: every schedule of the state keeps its event array, its
    assignment and its fitness, whether it belongs to the population or
    not, and no event is changed. The first two chromosomes of the new
    population are the first two of the old one, the other eighteen are
    objects created by the call; these are the only ones the mutation
    pass touches. *)
Theorem evolve_builds_new_chromosomes population st pop' st' :
  Coherent st ->
  evolve population st = Ok pop' st' ->
  (forall b, is_Some (st_schedules st !! b) -> untouched st st' b)
  /\ (forall e ev, st_events st !! e = Some ev -> st_events st' !! e = Some ev)
  /\ (forall i, i < NUMB_OF_ELITE_EVENTS ->
        js_get (pop_schedules pop') i = js_get (pop_schedules population) i)
  /\ (forall i, NUMB_OF_ELITE_EVENTS <= i -> i < POPULATION_SIZE ->
        exists c, js_get (pop_schedules pop') i = Some c
                  /\ length (st_schedules st) <= c
                  /\ is_Some (st_schedules st' !! c)).
Proof.
  intros Hco Hrun.
  apply evolve_Ok in Hrun as (Hev & _ & children & Hpop & Hlen & Hchildren).
  split; [|split; [|split]].
  - intros b Hb. by apply (evolves_untouched nobody); [|apply not_nobody|..].
  - apply (ev_events _ _ _ Hev).
  - intros i Hi. rewrite Hpop. unfold js_get at 1.
    rewrite lookup_app_l by (rewrite length_map, length_seq; lia).
    by rewrite list_lookup_fmap, lookup_seq_lt.
  - intros i Hlo Hhi. rewrite Hpop. unfold js_get.
    rewrite lookup_app_r by (rewrite length_map, length_seq; lia).
    rewrite length_map, length_seq, list_lookup_fmap.
    destruct (lookup_lt_is_Some_2 children (i - NUMB_OF_ELITE_EVENTS)) as [c Hc].
    { rewrite Hlen. lia. }
    rewrite Hc. exists c. split; [done|]. apply Hchildren.
    by eapply list_elem_of_lookup_2.
Qed.

Lemma evolve_builds_new_chromosomes_witness :
  exists pop' st',
    evolve example_population example_seeded_state = Ok pop' st'
    /\ js_get (pop_schedules pop') 0 = js_get (pop_schedules example_population) 0
    /\ untouched example_seeded_state st' 5.
Proof.
  eassert (Hevolve : evolve example_population example_seeded_state = Ok _ _)
    by (vm_compute; reflexivity).
  match type of Hevolve with _ = Ok ?pop ?st =>
    destruct (evolve_builds_new_chromosomes example_population example_seeded_state pop st)
      as (Hsame & _ & Helite & _)
  end.
  - apply Coherent_flags_up. vm_compute. reflexivity.
  - exact Hevolve.
  - eexists _, _. split; [exact Hevolve|]. split.
    + apply Helite. unfold NUMB_OF_ELITE_EVENTS. lia.
    + apply Hsame. vm_compute. by eexists.
Defined.

(** X12. Crossing a chromosome with itself copies it: whatever the
    random numbers, the child is a new schedule whose event array holds,
    position by position, the very events of the parent. *)
Theorem crossover_with_itself_copies st p sp c st' :
  st_schedules st !! p = Some sp ->
  length (sch_events sp) = length (data_events (sch_data sp)) ->
  _crossoverSchedule (Some p) (Some p) st = Ok c st' ->
  c <> p
  /\ exists child,
       st_schedules st' !! c = Some child
       /\ sch_events child = sch_events sp
       /\ genes st' c = genes st' p.
Proof.
  intros Hp Hlen Hrun.
  apply _crossoverSchedule_Ok in Hrun
    as (s1 & p1 & child & [= <-] & Hp1 & -> & Hchild & _ & Hclen & _ & Hev & Hcover).
  rewrite Hp in Hp1. injection Hp1 as <-.
  split. { apply lookup_lt_Some in Hp. lia. }
  assert (Hsame : sch_events child = sch_events sp).
  { apply list_eq_same_length with (length (sch_events sp)); [done|lia|].
    intros i x y Hi Hx Hy.
    destruct (Hcover i) as (p' & Hp' & Hget); [lia|].
    assert (p' = p) as -> by (destruct Hp' as [->|[= ->]]; done).
    specialize (Hget sp Hp). unfold js_get in Hget. by rewrite Hx, Hy in Hget. }
  exists child. split; [done|]. split; [done|]. unfold genes. rewrite Hchild.
  destruct (ev_schedules _ _ _ Hev p sp Hp) as (sp' & -> & _ & Hsp').
  rewrite Hsp' by apply not_nobody. by rewrite Hsame.
Qed.

Lemma crossover_with_itself_copies_witness :
  exists c st' child,
    _crossoverSchedule (Some 1) (Some 1) example_state = Ok c st'
    /\ st_schedules st' !! c = Some child
    /\ sch_events child = [Some 2; Some 3].
Proof.
  eassert (Hrun : _crossoverSchedule (Some 1) (Some 1) example_state = Ok _ _)
    by (vm_compute; reflexivity).
  destruct (crossover_with_itself_copies example_state 1
              (mkSchedule example_data [Some 2; Some 3] 0 (-1) 2 true) _ _
              eq_refl eq_refl Hrun) as (_ & child & Hchild & Hsame & _).
  eexists _, _, child. split; [exact Hrun|]. split; [exact Hchild|exact Hsame].
Defined.

(** ** The cache during a search *)

(** X13. In the states a search goes through the cached fitness is
    never stale: at every generation, for every schedule in the store,
    of the population or not, a fitness read returns what
    [calculateFitness] computes from the current assignment; and a read
    repeated returns the same value and costs nothing, the state staying
    as it is. *)
Theorem search_never_reads_stale_fitness N n names s e random pop st a :
  generation N n names s e (empty_state random) = Ok pop st ->
  agree (fitness a st) (calculateFitness a st)
  /\ forall f st1, fitness a st = Ok f st1 -> fitness a st1 = Ok f st1.
Proof.
  intros Hgen. destruct (generation_Ok _ _ _ _ _ _ _ _ Hgen) as (Hco & _ & _). split.
  - apply fitness_agrees. intros sa Ha. by apply (Hco a).
  - intros f st1 Hf.
    apply fitness_Ok in Hf as (_ & _ & _ & sa & sa' & _ & Hsa' & Hflag & Hfit & _).
    rewrite (fitness_run_cached a st1 sa' Hsa' Hflag). by rewrite Hfit.
Qed.

Lemma search_never_reads_stale_fitness_witness :
  exists pop st,
    generation 0 2 ["Event 1"; "Event 2"] 540 720 (empty_state example_random) = Ok pop st
    /\ agree (fitness 3 st) (calculateFitness 3 st).
Proof.
  eassert (Hgen : generation 0 2 ["Event 1"; "Event 2"] 540 720
                    (empty_state example_random) = Ok _ _) by (vm_compute; reflexivity).
  eexists _, _. split; [exact Hgen|].
  exact (proj1 (search_never_reads_stale_fitness _ _ _ _ _ _ _ _ 3 Hgen)).
Defined.

(** ** Selection and mutation *)

(** X14. A tournament on a population of POPULATION_SIZE chromosomes
    draws TOURNAMENT_SELECTION_SIZE_EVENTS of them at random, with
    repetition, and ranks them: the population it returns holds exactly
    these, all of them chromosomes of the population it was given, the
    first being one of the fittest among them, with the fitness of each
    cached. It creates no schedule and no event and changes the event
    array of none. *)
Theorem tournament_ranks_five_of_the_population pop l st t st' :
  pop_schedules pop = map Some l -> length l = POPULATION_SIZE -> random_ok st ->
  _selectTournamentPopulation pop st = Ok t st' ->
  length (pop_schedules t) = TOURNAMENT_SELECTION_SIZE_EVENTS
  /\ (forall v, v ∈ pop_schedules t -> exists a, v = Some a /\ a ∈ l)
  /\ best_first st' t
  /\ pop_data t = pop_data pop
  /\ st_events st' = st_events st
  /\ length (st_schedules st') = length (st_schedules st)
  /\ forall b sb, st_schedules st !! b = Some sb ->
       exists sb', st_schedules st' !! b = Some sb' /\ sch_events sb' = sch_events sb.
Proof.
  intros Hl Hlen Hok H. unfold _selectTournamentPopulation in H.
  rewrite (bind_run _ _ _ _ _ (PopulationEvents_new_0 _ _)) in H.
  inv_step H as picks st1 Hpicks. inv_step H as sorted st2 Hsort. injection H as <- <-.
  cbn [pop_schedules app] in Hsort. cbn [pop_schedules pop_data set_pop_schedules].
  pose proof (map_M_length _ _ _ _ _ Hpicks) as Hplen. rewrite length_seq in Hplen.
  apply (map_M_Ok (fun _ rdone stx =>
    (exists n, stx = with_drawn n st)
    /\ exists ps, rdone = map Some ps /\ forall a, a ∈ ps -> a ∈ l)) in Hpicks.
  - destruct Hpicks as ([n ->] & ps & -> & Hps).
    pose proof (sort_by_fitness_perm _ _ _ _ Hsort) as Hperm.
    pose proof (sort_by_fitness_best_first _ _ _ _ Hsort) as Hbest.
    apply sort_by_fitness_Ok in Hsort as (Hev & He & Hslen & _).
    rewrite length_map in Hplen.
    split; [by rewrite Hperm, length_map|]. split.
    { intros v Hv. rewrite Hperm in Hv. apply list_elem_of_fmap in Hv as (a & -> & Ha).
      exists a. split; [done|]. by apply Hps. }
    split. { apply Hbest. rewrite defined_entries_map_Some, Hplen.
             unfold TOURNAMENT_SELECTION_SIZE_EVENTS. lia. }
    split; [done|]. split; [done|]. split; [done|].
    intros b sb Hb. destruct (ev_schedules _ _ _ Hev b sb Hb) as (sb' & Hsb' & _ & Hsame).
    exists sb'. split; [done|]. apply Hsame, not_nobody.
  - split; [exists (st_drawn st); by destruct st|]. exists []. split; [done|].
    intros a Ha. by apply elem_of_nil in Ha.
  - clear Hpicks. intros done rdone x rest stx r sty _ ([n ->] & ps & -> & Hps) Hstep.
    inv_step Hstep as i stz Hi.
    assert (Hrange : (0 <= i < Z.of_nat POPULATION_SIZE)%Z).
    { apply (random_index_range POPULATION_SIZE (with_drawn n st) i stz);
        [exact Hok|unfold POPULATION_SIZE; lia|exact Hi]. }
    apply random_index_Ok in Hi as [_ ->]. injection Hstep as <- <-.
    split; [by eexists|].
    destruct (js_getZ_map_Some l i) as (a & Ha & Hin); [lia|].
    exists (ps ++ [a]). rewrite Hl, Ha, map_app. split; [done|].
    intros a' Ha'. apply elem_of_app in Ha' as [Ha'|Ha']; [by apply Hps|].
    by apply list_elem_of_singleton in Ha' as ->.
Qed.

Lemma tournament_ranks_five_of_the_population_witness :
  exists t st',
    _selectTournamentPopulation example_population example_seeded_state = Ok t st'
    /\ length (pop_schedules t) = 5.
Proof.
  eassert (Hrun : _selectTournamentPopulation example_population example_seeded_state
                  = Ok _ _) by (vm_compute; reflexivity).
  eexists _, _. split; [exact Hrun|].
  refine (proj1 (tournament_ranks_five_of_the_population example_population (seq 0 20)
                   example_seeded_state _ _ _ _ _ Hrun)).
  - reflexivity.
  - reflexivity.
  - intros i. apply example_random_range.
Defined.

(** X15. Mutation works in place and position by position: it returns
    the schedule it was given, with the same length and the fitness
    marked as changed, and each position holds either the event it held
    before or an event created by the call, with the position as id, the
    name of the event of the data at that position, and a time slot on
    offer with a room of the data that is available at it. *)
Theorem mutation_swaps_in_fresh_events data m sm st r st' :
  sound data st ->
  st_schedules st !! m = Some sm ->
  _mutateSchedule (Some m) st = Ok r st' ->
  r = Some m
  /\ exists sm',
       st_schedules st' !! m = Some sm'
       /\ length (sch_events sm') = length (sch_events sm)
       /\ sch_isFitnessChanged sm' = true
       /\ forall i, i < length (sch_events sm) ->
            js_get (sch_events sm') i = js_get (sch_events sm) i
            \/ exists e ev,
                 js_get (sch_events sm') i = Some e
                 /\ length (st_events st) <= e
                 /\ st_events st' !! e = Some ev
                 /\ ev_id ev = i
                 /\ well_assigned data st' ev.
Proof.
  intros Hsound Hm Hrun.
  pose proof (sound_length _ _ Hsound _ _ Hm) as Hlen.
  pose proof (_mutateSchedule_sound _ _ _ _ _ Hrun Hsound) as Hsound'.
  apply _mutateSchedule_Ok in Hrun
    as (m' & sm0 & sm' & new & [= <-] & -> & Hm0 & _ & Hm' & _ & Hlen' & Hflag
        & Hnew & Hfresh & Hpos).
  rewrite Hm in Hm0. injection Hm0 as <-.
  rewrite (sound_data _ _ Hsound _ _ Hm) in Hnew, Hfresh.
  split; [done|]. exists sm'. split; [done|]. split; [done|]. split; [done|].
  intros i Hi. destruct (Hpos i Hi) as [Hold|Hnewi]; [by left|]. right.
  destruct (lookup_lt_is_Some_2 new i) as [e He]; [lia|].
  destruct (Hfresh i e He) as (Hle & ev & t & Hev & Hid & _).
  exists e, ev. rewrite Hnewi. split; [done|]. split; [done|]. split; [done|].
  split; [done|]. by eapply (sound_events _ _ Hsound').
Qed.

Lemma example_seeded_state_sound :
  sound (pop_data example_population) example_seeded_state.
Proof.
  destruct (Data_new_run 2 ["Event 1"; "Event 2"] 540 720 (empty_state example_random))
    as (data & st0 & Hdata & _); [lia|].
  assert (Hseed : PopulationEvents_new POPULATION_SIZE data st0
                  = Ok example_population example_seeded_state).
  { vm_compute in Hdata. injection Hdata as <- <-. vm_compute. reflexivity. }
  assert (Hd : pop_data example_population = data).
  { vm_compute in Hdata. by injection Hdata as <- _. }
  rewrite Hd. eapply PopulationEvents_new_sound; [exact Hseed|].
  eapply Data_new_sound; [exact Hdata| |done|done].
  intros i. apply example_random_range.
Qed.

Lemma mutation_swaps_in_fresh_events_witness :
  exists r st' sm',
    _mutateSchedule (Some 5) example_seeded_state = Ok r st'
    /\ st_schedules st' !! 5 = Some sm'
    /\ length (sch_events sm') = 2.
Proof.
  eassert (Hrun : _mutateSchedule (Some 5) example_seeded_state = Ok _ _)
    by (vm_compute; reflexivity).
  eassert (Hm : st_schedules example_seeded_state !! 5 = Some _) by reflexivity.
  match type of Hrun with _ = Ok ?r ?st =>
    destruct (mutation_swaps_in_fresh_events (pop_data example_population) 5 _
                example_seeded_state r st example_seeded_state_sound Hm)
      as (_ & sm' & Hsm' & Hlen & _); [exact Hrun|]
  end.
  eexists _, _, sm'. split; [exact Hrun|]. split; [exact Hsm'|]. by rewrite Hlen.
Defined.

(** ** Sorting a population *)

Lemma StronglySorted_lookup_lt {A} (R : A -> A -> Prop) l i j x y :
  StronglySorted R l -> i < j -> l !! i = Some x -> l !! j = Some y -> R x y.
Proof.
  intros Hsorted. revert i j. induction Hsorted as [|z l Hsorted IH Hall]; intros i j Hij Hi Hj.
  - by rewrite lookup_nil in Hi.
  - destruct j as [|j]; [lia|]. cbn in Hj. destruct i as [|i].
    + injection Hi as <-. apply (proj1 (Forall_forall _ _) Hall).
      by eapply list_elem_of_lookup_2.
    + cbn in Hi. apply (IH i j); [lia|done|done].
Qed.

(** X16. Sorting a population with the comparator of the handler keeps
    its chromosomes, reads the fitness of each, which leaves it cached,
    and orders them by falling fitness, the entries that are undefined
    going to the end; it changes the event array of no schedule and no
    event. *)
Theorem sort_orders_population_by_fitness population st sorted st' :
  2 <= length (defined_entries (pop_schedules population)) ->
  sort_population population st = Ok sorted st' ->
  pop_schedules sorted ≡ₚ pop_schedules population
  /\ pop_data sorted = pop_data population
  /\ (forall a, Some a ∈ pop_schedules sorted -> exists f, fitness_value st' a f)
  /\ (forall i j a b fa fb,
        i < j ->
        js_get (pop_schedules sorted) i = Some a ->
        js_get (pop_schedules sorted) j = Some b ->
        fitness_value st' a fa -> fitness_value st' b fb -> (fb <= fa)%Q)
  /\ (forall i j, i < j ->
        js_get (pop_schedules sorted) i = None -> js_get (pop_schedules sorted) j = None)
  /\ st_events st' = st_events st
  /\ forall b sb, st_schedules st !! b = Some sb ->
       exists sb', st_schedules st' !! b = Some sb' /\ sch_events sb' = sch_events sb.
Proof.
  intros Hlen H.
  pose proof (sort_population_Ok _ _ _ _ H) as (_ & Hdata & Hperm).
  unfold sort_population in H. inv_step H as l st1 Hsort. injection H as <- <-.
  cbn [pop_schedules set_pop_schedules] in *.
  apply sort_by_fitness_Ok in Hsort as (Hev & He & _ & keyed & -> & Hfst & Hall).
  specialize (Hall Hlen).
  pose proof (stable_sort_desc_perm keyed) as Hkperm.
  pose proof (stable_sort_desc_sorted keyed) as Hsorted.
  set (ranked := stable_sort_desc keyed) in *.
  assert (Hvalue : forall a f, (a, f) ∈ ranked -> fitness_value st1 a f).
  { intros a f Hin. rewrite Hkperm in Hin.
    destruct (Hall a f Hin) as (s' & Hs' & Hflag & Hfit & _). by exists s'. }
  assert (Hentry : forall i a,
    js_get (map (fun x => Some (fst x)) ranked
            ++ replicate (length (pop_schedules population)
                          - length (defined_entries (pop_schedules population))) None) i
    = Some a -> exists f, ranked !! i = Some (a, f)).
  { intros i a Hi. unfold js_get in Hi.
    destruct (decide (i < length ranked)) as [Hlt|Hge].
    - rewrite lookup_app_l in Hi by (by rewrite length_map).
      rewrite list_lookup_fmap in Hi.
      destruct (ranked !! i) as [[a' f]|] eqn:Hr; [|done]. injection Hi as <-. by exists f.
    - rewrite lookup_app_r in Hi by (rewrite length_map; lia).
      destruct (replicate _ _ !! _) as [v|] eqn:Hv; [|done].
      apply lookup_replicate in Hv as [-> _]. done. }
  split; [done|]. split; [done|]. split; [|split; [|split; [|split; [done|]]]].
  - intros a Ha. apply list_elem_of_lookup in Ha as [i Hi].
    destruct (Hentry i a) as [f Hf]; [unfold js_get; by rewrite Hi|].
    exists f. apply Hvalue. by eapply list_elem_of_lookup_2.
  - intros i j a b fa fb Hij Hi Hj Hfa Hfb.
    destruct (Hentry i a Hi) as [fa' Hia]. destruct (Hentry j b Hj) as [fb' Hjb].
    pose proof (StronglySorted_lookup_lt _ _ _ _ _ _ Hsorted Hij Hia Hjb) as Hle.
    unfold desc in Hle. cbn in Hle.
    rewrite (fitness_value_unique st1 a fa fa') by
      (done || apply Hvalue; by eapply list_elem_of_lookup_2).
    rewrite (fitness_value_unique st1 b fb fb') by
      (done || apply Hvalue; by eapply list_elem_of_lookup_2).
    done.
  - intros i j Hij Hi. unfold js_get in *.
    destruct (decide (i < length ranked)) as [Hlt|Hge].
    { rewrite lookup_app_l in Hi by (by rewrite length_map).
      rewrite list_lookup_fmap in Hi.
      destruct (lookup_lt_is_Some_2 ranked i Hlt) as [x Hx]. by rewrite Hx in Hi. }
    rewrite lookup_app_r by (rewrite length_map; lia).
    destruct (replicate _ _ !! _) as [v|] eqn:Hv; [|done].
    by apply lookup_replicate in Hv as [-> _].
  - intros b sb Hb. destruct (ev_schedules _ _ _ Hev b sb Hb) as (sb' & Hsb' & _ & Hsame).
    exists sb'. split; [done|]. apply Hsame, not_nobody.
Qed.

Lemma sort_orders_population_by_fitness_witness :
  exists sorted st',
    sort_population example_population example_seeded_state = Ok sorted st'
    /\ pop_schedules sorted ≡ₚ pop_schedules example_population.
Proof.
  eassert (Hrun : sort_population example_population example_seeded_state = Ok _ _)
    by (vm_compute; reflexivity).
  eexists _, _. split; [exact Hrun|].
  refine (proj1 (sort_orders_population_by_fitness _ _ _ _ _ Hrun)).
  vm_compute. lia.
Defined.

(** ** When the search stops *)

Lemma search_loop_first budget g n names s e random pop st r st' :
  generation g n names s e (empty_state random) = Ok pop st ->
  search_loop budget g pop st = Ok r st' ->
  forall N popN stN f stN',
    g <= N -> N < fst r ->
    generation N n names s e (empty_state random) = Ok popN stN ->
    best_fitness popN stN = Ok f stN' ->
    ~ (f == 1)%Q.
Proof.
  revert g pop st. induction budget as [|budget IH]; intros g pop st Hgen H.
  - destruct (generation_Ok _ _ _ _ _ _ _ _ Hgen) as (Hco & Hbest & _).
    destruct (best_first_read _ _ Hbest) as (b & fb & Hb & Hfb & Hbf & _).
    cbn in H. rewrite Hb in H. erewrite bind_run in H by reflexivity.
    erewrite bind_run in H by exact Hfb.
    destruct (Qeq_bool fb 1); injection H as <- <-; cbn; intros; lia.
  - destruct (generation_Ok _ _ _ _ _ _ _ _ Hgen) as (Hco & Hbest & _).
    destruct (best_first_read _ _ Hbest) as (b & fb & Hb & Hfb & Hbf & _).
    cbn [search_loop] in H. rewrite Hb in H. erewrite bind_run in H by reflexivity.
    erewrite bind_run in H by exact Hfb.
    destruct (Qeq_bool fb 1) eqn:Hone.
    + injection H as <- <-. cbn. intros; lia.
    + inv_step H as p1 st1 Hnext.
      assert (Hgen1 : generation (S g) n names s e (empty_state random) = Ok p1 st1).
      { cbn. by erewrite bind_run by exact Hgen. }
      intros N popN stN f stN' Hge Hlt HgenN Hf.
      destruct (decide (N = g)) as [->|Hne].
      * rewrite Hgen in HgenN. injection HgenN as <- <-.
        rewrite Hbf in Hf. injection Hf as <- _.
        intros Heq. apply Qeq_bool_iff in Heq. congruence.
      * apply (IH _ _ _ Hgen1 H N popN stN f stN'); [lia|done..].
Qed.

(** X17. The search stops at the first generation that holds a
    chromosome of fitness 1: in every generation before the one whose
    first chromosome is returned, every chromosome has a fitness below
    1. *)
Theorem search_stops_at_first_perfect_generation n names s e random r st' :
  best_schedule n names s e (empty_state random) = Ok r st' ->
  forall N popN stN a f stN',
    N < generationNumber r ->
    generation N n names s e (empty_state random) = Ok popN stN ->
    Some a ∈ pop_schedules popN ->
    fitness a stN = Ok f stN' ->
    (f < 1)%Q.
Proof.
  intros H N popN stN a f stN' HN HgenN Ha Hf. unfold best_schedule in H.
  inv_step H as p0 st0 Hfirst. inv_step H as lr st1 Hloop.
  inv_step H as b st2 Hb. injection H as <- <-.
  cbn [generationNumber] in HN.
  assert (Hgen0 : generation 0 n names s e (empty_state random) = Ok p0 st0) by done.
  destruct (generation_Ok _ _ _ _ _ _ _ _ HgenN) as (Hco & Hbest & _).
  destruct (best_first_read _ _ Hbest) as (bN & fb & HbN & Hfb & Hbf & Hall).
  destruct (Hall a Ha) as (fa & Hfa & Hle). rewrite Hfa in Hf. injection Hf as <- _.
  pose proof (search_loop_first _ _ _ _ _ _ _ _ _ _ _ Hgen0 Hloop N popN stN fb stN
                ltac:(lia) HN HgenN Hbf) as Hnot.
  assert (Hfb1 : (fb <= 1)%Q).
  { destruct Hbest as (b0 & fb0 & Hb0 & (sb & Hsb & Hflag & Hfit) & _).
    rewrite HbN in Hb0. injection Hb0 as <-.
    destruct (Hco bN sb Hsb Hflag) as (gs & _ & _ & Hfitness).
    pose proof (fitness_value_read stN bN fb0 ltac:(by exists sb)) as Hread.
    rewrite Hfb in Hread. injection Hread as <-.
    rewrite <- Hfit, Hfitness. apply fitness_of_conflicts_range. }
  apply Qle_lt_trans with fb; [done|].
  apply Qle_lteq in Hfb1 as [Hlt|Heq]; [done|by destruct Hnot].
Qed.

Lemma search_stops_at_first_perfect_generation_witness :
  exists popN stN f stN',
    generation 0 1 ["Event 1"; "Event 2"] 540 (540 + 60 * Z.of_nat 1)
      (empty_state (fun _ => 0%Q)) = Ok popN stN
    /\ fitness 0 stN = Ok f stN'
    /\ (f < 1)%Q.
Proof.
  destruct (best_schedule_ready 1 ["Event 1"; "Event 2"] 540 1 (fun _ => 0%Q))
    as (r & st' & Hrun); [lia|lia|intros i; split; vm_compute; congruence|].
  assert (Hbudget : generationNumber r = MAX_GENERATIONS).
  { destruct (best_schedule_chromosome 1 ["Event 1"; "Event 2"] 540 1 (fun _ => 0%Q) r st')
      as (sa & gs & _ & Hgs & Hlen & Hall & _ & Hstop);
      [lia|lia|intros i; split; vm_compute; congruence|exact Hrun|].
    apply Hstop. vm_compute in Hlen.
    destruct gs as [|g0 [|g1 [|g2 gs]]]; [discriminate Hlen..| |discriminate Hlen].
    destruct (Hall 0 g0 eq_refl) as (_ & _ & j0 & _ & _ & _ & _ & H0 & _ & Hj0 & Hs0 & _).
    destruct (Hall 1 g1 eq_refl) as (_ & _ & j1 & _ & _ & _ & _ & H1 & _ & Hj1 & Hs1 & _).
    cbn. unfold double_booked.
    rewrite bool_decide_eq_true_2 by (change (Z.to_nat 1) with 1 in *; lia).
    rewrite Hs0, Hs1. replace j1 with j0 by lia. rewrite Z.eqb_refl. cbn. lia. }
  eassert (Hgen : generation 0 1 ["Event 1"; "Event 2"] 540 (540 + 60 * Z.of_nat 1)
                    (empty_state (fun _ => 0%Q)) = Ok _ _) by (vm_compute; reflexivity).
  match type of Hgen with _ = Ok ?popN ?stN =>
    eassert (Hf : fitness 0 stN = Ok _ _) by (vm_compute; reflexivity)
  end.
  eexists _, _, _, _. split; [exact Hgen|]. split; [exact Hf|].
  eapply (search_stops_at_first_perfect_generation _ _ _ _ _ _ _ Hrun 0 _ _ 0);
    [|exact Hgen| |exact Hf].
  - rewrite Hbudget. unfold MAX_GENERATIONS. lia.
  - apply (bool_decide_unpack _). vm_compute. reflexivity.
Defined.

(** ** How crossover and mutation use the random numbers *)

Lemma replace_event_draws target source i st st' :
  (let* _ := get_events target in
   let* v := events_read source i in
   events_write target i v) st = Ok tt st' ->
  st_drawn st' = st_drawn st.
Proof.
  intros H. inv_step H as events st1 Hget.
  apply get_events_Ok in Hget as (t & Ht & -> & ->).
  inv_step H as v st2 Hread.
  apply events_read_Ok in Hread as (s1 & Hs1 & -> & ->).
  by injection H as <-.
Qed.

(** One entry of the target replaced by the entry of the source at the
    same position; the source, when it is another schedule, keeps its
    array. *)
Lemma replace_event_arrays target source i st st' t s :
  (let* _ := get_events target in
   let* v := events_read source i in
   events_write target i v) st = Ok tt st' ->
  st_schedules st !! target = Some t ->
  st_schedules st !! source = Some s ->
  st_random st' = st_random st
  /\ st_drawn st' = st_drawn st
  /\ (exists t', st_schedules st' !! target = Some t'
                 /\ sch_events t' = js_set (sch_events t) i (js_get (sch_events s) i))
  /\ forall b sb, b <> target -> st_schedules st !! b = Some sb ->
       exists sb', st_schedules st' !! b = Some sb' /\ sch_events sb' = sch_events sb.
Proof.
  intros H Ht Hs. pose proof (replace_event_draws _ _ _ _ _ H) as Hdrawn.
  apply replace_event_Ok in H as (t0 & s0 & Ht0 & Hs0 & (t' & Ht' & Hev' & _) & Hev).
  rewrite Ht in Ht0. injection Ht0 as <-. rewrite Hs in Hs0. injection Hs0 as <-.
  split; [apply (ev_random _ _ _ Hev)|]. split; [done|]. split; [by exists t'|].
  intros b sb Hne Hb. destruct (ev_schedules _ _ _ Hev b sb Hb) as (sb' & Hsb' & _ & Hsame).
  exists sb'. split; [done|]. apply Hsame. congruence.
Qed.

Lemma _crossoverSchedule_step_draw c s1 s2 i st st' t p1 p2 :
  _crossoverSchedule_step c s1 (Some s2) i st = Ok tt st' ->
  st_schedules st !! c = Some t ->
  st_schedules st !! s1 = Some p1 ->
  st_schedules st !! s2 = Some p2 ->
  st_random st' = st_random st
  /\ st_drawn st' = S (st_drawn st)
  /\ (exists t', st_schedules st' !! c = Some t'
        /\ sch_events t'
           = js_set (sch_events t) i
               (js_get (sch_events (if Qlt_le_dec (1 # 2) (st_random st (st_drawn st))
                                    then p1 else p2)) i))
  /\ forall b sb, b <> c -> st_schedules st !! b = Some sb ->
       exists sb', st_schedules st' !! b = Some sb' /\ sch_events sb' = sch_events sb.
Proof.
  intros H Ht Hp1 Hp2. unfold _crossoverSchedule_step in H.
  inv_step H as r st1 Hr. apply Math_random_Ok in Hr as [-> ->].
  destruct (Qlt_le_dec (1 # 2) (st_random st (st_drawn st))).
  - by apply (replace_event_arrays c s1 i _ st' t p1) in H.
  - inv_step H as events st1 Hget. inv_step H as s2' st2 Hdef.
    apply defined_Ok in Hdef as [[= <-] ->].
    assert (Hrep : (let* _ := get_events c in
                    let* v := events_read s2 i in
                    events_write c i v) (with_drawn (S (st_drawn st)) st) = Ok tt st').
    { apply bind_Ok. by exists events, st1. }
    by apply (replace_event_arrays c s2 i _ st' t p2) in Hrep.
Qed.

Lemma _mutateSchedule_step_draw m f i st st' t sf :
  _mutateSchedule_step m f i st = Ok tt st' ->
  st_schedules st !! m = Some t ->
  st_schedules st !! f = Some sf ->
  st_random st' = st_random st
  /\ st_drawn st' = S (st_drawn st)
  /\ (exists t', st_schedules st' !! m = Some t'
        /\ sch_events t'
           = if Qlt_le_dec (st_random st (st_drawn st)) MUTATION_RATE
             then js_set (sch_events t) i (js_get (sch_events sf) i)
             else sch_events t)
  /\ forall b sb, b <> m -> st_schedules st !! b = Some sb ->
       exists sb', st_schedules st' !! b = Some sb' /\ sch_events sb' = sch_events sb.
Proof.
  intros H Ht Hf. unfold _mutateSchedule_step in H.
  inv_step H as r st1 Hr. apply Math_random_Ok in Hr as [-> ->].
  destruct (Qlt_le_dec (st_random st (st_drawn st)) MUTATION_RATE).
  - by apply (replace_event_arrays m f i _ st' t sf) in H.
  - injection H as <-. split; [done|]. split; [done|]. split; [by exists t|].
    intros b sb _ Hb. by exists sb.
Qed.

(** X18. Crossover follows its coin, position by position: after the
    two random numbers per event that initializing the child takes, the
    next numbers decide the positions in order, the child holding at
    position [i] the event of the first parent when the number is above
    one half and that of the second parent otherwise. Three random
    numbers are drawn per event in all. *)
Theorem crossover_follows_the_coin st s1 s2 p1 p2 c st' :
  random_ok st ->
  st_schedules st !! s1 = Some p1 ->
  st_schedules st !! s2 = Some p2 ->
  _crossoverSchedule (Some s1) (Some s2) st = Ok c st' ->
  exists child,
    st_schedules st' !! c = Some child
    /\ length (sch_events child) = length (data_events (sch_data p1))
    /\ st_drawn st' = st_drawn st + 3 * length (data_events (sch_data p1))
    /\ forall i, i < length (data_events (sch_data p1)) ->
         js_get (sch_events child) i
         = js_get (sch_events
                     (if Qlt_le_dec (1 # 2)
                           (st_random st
                              (st_drawn st + 2 * length (data_events (sch_data p1)) + i))
                      then p1 else p2)) i.
Proof.
  intros Hok Hp1 Hp2 H. unfold _crossoverSchedule in H.
  inv_step H as s1' st1 Hdef. apply defined_Ok in Hdef as [[= <-] ->].
  inv_step H as p1' st1 Hload. apply load_schedule_Ok in Hload as [Hload ->].
  rewrite Hp1 in Hload. injection Hload as <-.
  inv_step H as c0 st1 Hnew. inv_step H as u st2 Hinit.
  pose proof (fresh_schedule_join _ _ _ _ _ _ Hnew Hinit) as Hfresh.
  destruct (fresh_schedule_assigned _ _ _ _ Hfresh Hok)
    as (evs & -> & Hlen & _ & Hsch & _ & _ & _ & Hrand & Hdrawn & _).
  clear Hnew Hinit Hfresh st1 u.
  set (nd := length (data_events (sch_data p1))) in *. rewrite Hlen in Hsch, Hdrawn.
  set (cn := length (st_schedules st)) in *.
  inv_step H as n st3 Hn. apply events_length_Ok in Hn as (sc & Hsc & -> & ->).
  assert (Hc2 : st_schedules st2 !! cn
                = Some (mkSchedule (sch_data p1)
                          (map Some (seq (length (st_events st)) nd)) 0 (-1) nd true)).
  { rewrite Hsch. by apply list_lookup_middle. }
  rewrite Hc2 in Hsc. injection Hsc as <-. cbn [sch_events] in H.
  rewrite length_map, length_seq in H.
  inv_step H as u st4 Hloop. injection H as <- <-. destruct u.
  set (st3 := with_schedules _ st2) in *.
  assert (Hs1c : s1 <> cn) by (apply lookup_lt_Some in Hp1; subst cn; lia).
  assert (Hs2c : s2 <> cn) by (apply lookup_lt_Some in Hp2; subst cn; lia).
  pose (coin := fun i => Qlt_le_dec (1 # 2) (st_random st (st_drawn st + 2 * nd + i))).
  pose (I := fun (done : list nat) (stx : State) =>
    st_random stx = st_random st
    /\ st_drawn stx = st_drawn st + 2 * nd + length done
    /\ (exists p1x, st_schedules stx !! s1 = Some p1x /\ sch_events p1x = sch_events p1)
    /\ (exists p2x, st_schedules stx !! s2 = Some p2x /\ sch_events p2x = sch_events p2)
    /\ exists t, st_schedules stx !! cn = Some t
         /\ length (sch_events t) = nd
         /\ forall i, i < length done ->
              js_get (sch_events t) i
              = js_get (sch_events (if coin i then p1 else p2)) i).
  apply (for_each_Ok I) in Hloop.
  - destruct Hloop as (_ & Hd & _ & _ & t & Ht & Hlt & Hcover).
    rewrite length_seq in Hd, Hcover. exists t. split; [done|]. split; [done|].
    split; [lia|]. done.
  - subst I st3. cbn [st_random st_drawn st_schedules with_schedules length].
    split; [done|]. split; [lia|].
    split. { exists p1. rewrite list_lookup_alter_ne by done.
             rewrite Hsch. by rewrite lookup_app_l by (by eapply lookup_lt_Some). }
    split. { exists p2. rewrite list_lookup_alter_ne by done.
             rewrite Hsch. by rewrite lookup_app_l by (by eapply lookup_lt_Some). }
    eexists. rewrite list_lookup_alter_eq, Hc2. split; [reflexivity|]. cbn.
    rewrite length_map, length_seq. split; [done|]. intros i Hi. lia.
  - clear Hloop st4.
    intros done i rest stx sty Hsplit
      (Hrx & Hdx & (p1x & Hp1x & He1) & (p2x & Hp2x & He2) & t & Ht & Hlt & Hcover) Hstep.
    apply seq_split_index in Hsplit as [-> Hi]. cbn in Hi.
    destruct (_crossoverSchedule_step_draw _ _ _ _ _ _ _ _ _ Hstep Ht Hp1x Hp2x)
      as (Hry & Hdy & (t' & Ht' & Het') & Hothers).
    rewrite Hrx, Hdx in Het'. fold (coin (length done)) in Het'.
    split; [congruence|]. split; [rewrite Hdy, Hdx, length_app; cbn; lia|].
    split. { destruct (Hothers s1 p1x Hs1c Hp1x) as (p1y & Hp1y & He1y).
             exists p1y. split; [done|congruence]. }
    split. { destruct (Hothers s2 p2x Hs2c Hp2x) as (p2y & Hp2y & He2y).
             exists p2y. split; [done|congruence]. }
    exists t'. split; [done|]. split; [rewrite Het', js_set_length_in; lia|].
    intros j Hj. rewrite length_app in Hj. cbn in Hj. rewrite Het'.
    destruct (decide (j = length done)) as [->|Hne].
    + rewrite js_get_set_eq. cbn. by destruct (coin (length done)); rewrite ?He1, ?He2.
    + rewrite js_get_set_ne by lia. apply Hcover. lia.
Qed.

Lemma crossover_follows_the_coin_witness :
  exists c st' child,
    _crossoverSchedule (Some 0) (Some 1) example_state = Ok c st'
    /\ st_schedules st' !! c = Some child
    /\ js_get (sch_events child) 0 = Some 2
    /\ st_drawn st' = 6.
Proof.
  eassert (Hrun : _crossoverSchedule (Some 0) (Some 1) example_state = Ok _ _)
    by (vm_compute; reflexivity).
  destruct (crossover_follows_the_coin example_state 0 1
              (mkSchedule example_data [Some 0; Some 1] 0 (-1) 2 true)
              (mkSchedule example_data [Some 2; Some 3] 0 (-1) 2 true) _ _
              (fun n => conj (Qle_refl 0) (eq_refl : (0 < 1)%Q)) eq_refl eq_refl Hrun)
    as (child & Hchild & _ & Hdrawn & Hcoin).
  eexists _, _, child. split; [exact Hrun|]. split; [exact Hchild|].
  split; [|exact Hdrawn]. rewrite (Hcoin 0) by (cbn; lia). reflexivity.
Defined.

(** X19. Mutation follows its rate, position by position: after the two
    random numbers per event that initializing the replacement schedule
    takes, the next numbers decide the positions of the mutated schedule
    in order, position [i] receiving the [i]-th event of the replacement
    schedule when the number is below MUTATION_RATE and keeping its
    event otherwise. *)
Theorem mutation_follows_the_rate st m sm r st' :
  random_ok st ->
  st_schedules st !! m = Some sm ->
  _mutateSchedule (Some m) st = Ok r st' ->
  exists sm',
    st_schedules st' !! m = Some sm'
    /\ length (sch_events sm') = length (sch_events sm)
    /\ st_drawn st'
       = st_drawn st + 2 * length (data_events (sch_data sm)) + length (sch_events sm)
    /\ forall i, i < length (sch_events sm) ->
         js_get (sch_events sm') i
         = if Qlt_le_dec
                (st_random st (st_drawn st + 2 * length (data_events (sch_data sm)) + i))
                MUTATION_RATE
           then (if decide (i < length (data_events (sch_data sm)))
                 then Some (length (st_events st) + i) else None)
           else js_get (sch_events sm) i.
Proof.
  intros Hok Hm H. unfold _mutateSchedule in H.
  inv_step H as m' st1 Hdef. apply defined_Ok in Hdef as [[= <-] ->].
  inv_step H as sm0 st1 Hload. apply load_schedule_Ok in Hload as [Hload ->].
  rewrite Hm in Hload. injection Hload as <-.
  inv_step H as f0 st1 Hnew. inv_step H as u st2 Hinit.
  pose proof (fresh_schedule_join _ _ _ _ _ _ Hnew Hinit) as Hfresh.
  destruct (fresh_schedule_assigned _ _ _ _ Hfresh Hok)
    as (evs & -> & Hlen & _ & Hsch & _ & _ & _ & Hrand & Hdrawn & _).
  clear Hnew Hinit Hfresh st1 u.
  set (nd := length (data_events (sch_data sm))) in *. rewrite Hlen in Hsch, Hdrawn.
  set (f := length (st_schedules st)) in *.
  assert (Hmf : m <> f) by (apply lookup_lt_Some in Hm; subst f; lia).
  assert (Hm2 : st_schedules st2 !! m = Some sm).
  { rewrite Hsch. by rewrite lookup_app_l by (by eapply lookup_lt_Some). }
  assert (Hf2 : st_schedules st2 !! f
                = Some (mkSchedule (sch_data sm)
                          (map Some (seq (length (st_events st)) nd)) 0 (-1) nd true)).
  { rewrite Hsch. by apply list_lookup_middle. }
  inv_step H as n st3 Hn. apply events_length_Ok in Hn as (sm2 & Hsm2 & -> & ->).
  rewrite Hm2 in Hsm2. injection Hsm2 as <-.
  inv_step H as u st4 Hloop. injection H as _ <-. destruct u.
  set (st3 := with_schedules _ st2) in *.
  pose (hit := fun i => Qlt_le_dec (st_random st (st_drawn st + 2 * nd + i)) MUTATION_RATE).
  pose (I := fun (done : list nat) (stx : State) =>
    st_random stx = st_random st
    /\ st_drawn stx = st_drawn st + 2 * nd + length done
    /\ (exists sf, st_schedules stx !! f = Some sf
          /\ sch_events sf = map Some (seq (length (st_events st)) nd))
    /\ exists t, st_schedules stx !! m = Some t
         /\ length (sch_events t) = length (sch_events sm)
         /\ forall i, i < length (sch_events sm) ->
              js_get (sch_events t) i
              = if decide (i < length done)
                then (if hit i
                      then js_get (map Some (seq (length (st_events st)) nd)) i
                      else js_get (sch_events sm) i)
                else js_get (sch_events sm) i).
  apply (for_each_Ok I) in Hloop.
  - destruct Hloop as (_ & Hd & _ & t & Ht & Hlt & Hpos).
    rewrite length_seq in Hd, Hpos. exists t. split; [done|]. split; [done|].
    split; [lia|]. intros i Hi. rewrite (Hpos i Hi).
    rewrite decide_True by done. fold (hit i). destruct (hit i); [|done].
    rewrite js_get_map_Some. case_decide.
    + by rewrite lookup_seq_lt.
    + by rewrite lookup_seq_ge by lia.
  - subst I st3. cbn [st_random st_drawn st_schedules with_schedules length].
    split; [done|]. split; [lia|].
    split. { eexists. rewrite list_lookup_alter_ne by done. split; [exact Hf2|done]. }
    eexists. rewrite list_lookup_alter_eq, Hm2. split; [reflexivity|]. cbn.
    split; [done|]. intros i Hi. rewrite decide_False by lia. done.
  - clear Hloop st4.
    intros done i rest stx sty Hsplit
      (Hrx & Hdx & (sf & Hsf & Hef) & t & Ht & Hlt & Hpos) Hstep.
    apply seq_split_index in Hsplit as [-> Hi]. cbn in Hi.
    destruct (_mutateSchedule_step_draw _ _ _ _ _ _ _ Hstep Ht Hsf)
      as (Hry & Hdy & (t' & Ht' & Het') & Hothers).
    rewrite Hrx, Hdx in Het'. fold (hit (length done)) in Het'.
    split; [congruence|]. split; [rewrite Hdy, Hdx, length_app; cbn; lia|].
    split. { destruct (Hothers f sf ltac:(congruence) Hsf) as (sf' & Hsf' & Hef').
             exists sf'. split; [done|congruence]. }
    exists t'. split; [done|].
    split. { rewrite Het'. destruct (hit (length done)); [|done].
             rewrite js_set_length_in; lia. }
    intros j Hj. rewrite length_app. cbn [length]. rewrite Het'.
    destruct (decide (j = length done)) as [->|Hne].
    + rewrite decide_True by lia. destruct (hit (length done)).
      * by rewrite js_get_set_eq, Hef.
      * rewrite (Hpos _ Hj). by rewrite decide_False by lia.
    + transitivity (js_get (sch_events t) j).
      { destruct (hit (length done)); [|done]. by rewrite js_get_set_ne by lia. }
      rewrite (Hpos _ Hj). destruct (decide (j < length done)).
      * by rewrite decide_True by lia.
      * by rewrite decide_False by lia.
Qed.

Lemma mutation_follows_the_rate_witness :
  exists r st' sm',
    _mutateSchedule (Some 1) example_state = Ok r st'
    /\ st_schedules st' !! 1 = Some sm'
    /\ js_get (sch_events sm') 0 = Some 4
    /\ st_drawn st' = 6.
Proof.
  eassert (Hrun : _mutateSchedule (Some 1) example_state = Ok _ _)
    by (vm_compute; reflexivity).
  destruct (mutation_follows_the_rate example_state 1
              (mkSchedule example_data [Some 2; Some 3] 0 (-1) 2 true) _ _
              (fun n => conj (Qle_refl 0) (eq_refl : (0 < 1)%Q)) eq_refl Hrun)
    as (sm' & Hsm' & _ & Hdrawn & Hpos).
  eexists _, _, sm'. split; [exact Hrun|]. split; [exact Hsm'|].
  split; [|exact Hdrawn]. rewrite (Hpos 0) by (cbn; lia). reflexivity.
Defined.

(** ** The random numbers a search consumes *)

Lemma fitness_draws a st f st' :
  fitness a st = Ok f st' -> st_drawn st' = st_drawn st.
Proof.
  intros H. pose proof H as H'.
  apply fitness_Ok in H' as (_ & _ & _ & s & s' & Hs & _ & _ & _ & _ & Hcached & _).
  destruct (sch_isFitnessChanged s) eqn:Hflag; [|by destruct (Hcached eq_refl) as [-> _]].
  assert (exists gs, genes_of st (sch_events s) = Some gs) as [gs Hgs].
  { pose proof H as H0. unfold fitness in H0. inv_step H0 as s0 st1 Hload.
    apply load_schedule_Ok in Hload as [Hload ->]. rewrite Hs in Hload. injection Hload as <-.
    rewrite Hflag in H0. inv_step H0 as u st2 Hcalc. inv_step Hcalc as q st3 Hq.
    apply calculateFitness_Ok in Hq as (s0 & gs & Hs0 & Hgs).
    rewrite Hs in Hs0. injection Hs0 as <-. by exists gs. }
  rewrite (fitness_run_changed a st s gs Hs Hgs Hflag) in H. by injection H as _ <-.
Qed.

Lemma sort_by_fitness_draws l st l' st' :
  sort_by_fitness l st = Ok l' st' -> st_drawn st' = st_drawn st.
Proof.
  intros H. unfold sort_by_fitness in H. inv_step H as keyed st1 Hkeyed.
  injection H as _ <-. case_decide; [|by injection Hkeyed as _ <-].
  apply (map_M_Ok (fun _ _ stx => st_drawn stx = st_drawn st)) in Hkeyed; [done|done|].
  intros done rdone x rest stx r sty _ Hx Hstep. inv_step Hstep as f stz Hf.
  injection Hstep as _ <-. apply fitness_draws in Hf. congruence.
Qed.

Lemma _selectTournamentPopulation_draws pop st t st' :
  _selectTournamentPopulation pop st = Ok t st' ->
  st_drawn st' = st_drawn st + TOURNAMENT_SELECTION_SIZE_EVENTS.
Proof.
  intros H. unfold _selectTournamentPopulation in H.
  rewrite (bind_run _ _ _ _ _ (PopulationEvents_new_0 _ _)) in H.
  inv_step H as picks st1 Hpicks. inv_step H as sorted st2 Hsort. injection H as _ <-.
  apply sort_by_fitness_draws in Hsort. rewrite Hsort.
  apply (map_M_Ok (fun done _ stx => st_drawn stx = st_drawn st + length done)) in Hpicks.
  - by rewrite length_seq in Hpicks.
  - cbn. lia.
  - intros done rdone x rest stx r sty _ Hx Hstep.
    inv_step Hstep as i stz Hi. apply random_index_Ok in Hi as [_ ->].
    injection Hstep as _ <-. cbn. rewrite length_app. cbn. lia.
Qed.

Lemma _crossoverSchedule_draws data schedule1 schedule2 st c st' :
  _crossoverSchedule schedule1 schedule2 st = Ok c st' -> sound data st ->
  st_drawn st' = st_drawn st + 3 * length (data_events data).
Proof.
  intros H Hsound. unfold _crossoverSchedule in H.
  inv_step H as s1 st1 Hdef. apply defined_Ok in Hdef as [-> ->].
  inv_step H as p1 st1 Hp1. apply load_schedule_Ok in Hp1 as [Hp1 ->].
  rewrite (sound_data _ _ Hsound _ _ Hp1) in H.
  inv_step H as c0 st1 Hnew. inv_step H as u st2 Hinit.
  pose proof (fresh_schedule_join _ _ _ _ _ _ Hnew Hinit) as Hfresh.
  pose proof (fresh_schedule_sound _ _ _ _ Hfresh Hsound) as Hsound2.
  destruct (fresh_schedule_assigned _ _ _ _ Hfresh (sound_random _ _ Hsound))
    as (evs & _ & Hlen & _ & _ & _ & _ & _ & _ & Hdrawn & _).
  inv_step H as n st3 Hn. apply events_length_Ok in Hn as (sc & Hsc & -> & ->).
  rewrite (sound_length _ _ Hsound2 _ _ Hsc) in H.
  inv_step H as u' st4 Hloop. injection H as _ <-. destruct u'.
  apply (for_each_Ok (fun done stx => st_drawn stx = st_drawn st2 + length done)) in Hloop.
  - rewrite length_seq in Hloop. lia.
  - cbn. lia.
  - intros done i rest stx sty _ Hx Hstep. unfold _crossoverSchedule_step in Hstep.
    inv_step Hstep as r stz Hr. injection Hr as _ <-. rewrite length_app. cbn [length].
    destruct (Qlt_le_dec (1 # 2) r).
    + apply replace_event_draws in Hstep. cbn in Hstep. lia.
    + inv_step Hstep as events st5 Hget. inv_step Hstep as s2 st6 Hdef.
      apply defined_Ok in Hdef as [_ ->].
      assert (Hrep : (let* _ := get_events c0 in
                      let* v := events_read s2 i in
                      events_write c0 i v) (with_drawn (S (st_drawn stx)) stx) = Ok tt sty).
      { apply bind_Ok. by exists events, st5. }
      apply replace_event_draws in Hrep. cbn in Hrep. lia.
Qed.

Lemma _mutateSchedule_draws data mutateSchedule st r st' :
  _mutateSchedule mutateSchedule st = Ok r st' -> sound data st ->
  st_drawn st' = st_drawn st + 3 * length (data_events data).
Proof.
  intros H Hsound. unfold _mutateSchedule in H.
  inv_step H as m st1 Hdef. apply defined_Ok in Hdef as [-> ->].
  inv_step H as sm st1 Hsm. apply load_schedule_Ok in Hsm as [Hsm ->].
  rewrite (sound_data _ _ Hsound _ _ Hsm) in H.
  inv_step H as c0 st1 Hnew. inv_step H as u st2 Hinit.
  pose proof (fresh_schedule_join _ _ _ _ _ _ Hnew Hinit) as Hfresh.
  pose proof (fresh_schedule_sound _ _ _ _ Hfresh Hsound) as Hsound2.
  destruct (fresh_schedule_assigned _ _ _ _ Hfresh (sound_random _ _ Hsound))
    as (evs & _ & Hlen & _ & _ & _ & _ & _ & _ & Hdrawn & _).
  inv_step H as n st3 Hn. apply events_length_Ok in Hn as (sc & Hsc & -> & ->).
  rewrite (sound_length _ _ Hsound2 _ _ Hsc) in H.
  inv_step H as u' st4 Hloop. injection H as _ <-. destruct u'.
  apply (for_each_Ok (fun done stx => st_drawn stx = st_drawn st2 + length done)) in Hloop.
  - rewrite length_seq in Hloop. lia.
  - cbn. lia.
  - intros done i rest stx sty _ Hx Hstep. unfold _mutateSchedule_step in Hstep.
    inv_step Hstep as q stz Hr. injection Hr as _ <-. rewrite length_app. cbn [length].
    destruct (Qlt_le_dec q MUTATION_RATE).
    + apply replace_event_draws in Hstep. cbn in Hstep. lia.
    + injection Hstep as <-. cbn. lia.
Qed.

Lemma _crossoverPopulation_draws data pop st pop' st' :
  _crossoverPopulation pop st = Ok pop' st' -> sound data st ->
  st_drawn st'
  = st_drawn st
    + (POPULATION_SIZE - NUMB_OF_ELITE_EVENTS)
      * (2 * TOURNAMENT_SELECTION_SIZE_EVENTS + 3 * length (data_events data)).
Proof.
  intros H Hsound. unfold _crossoverPopulation in H.
  rewrite (bind_run _ _ _ _ _ (PopulationEvents_new_0 _ _)) in H.
  inv_step H as children st1 Hchildren. injection H as _ <-.
  apply (map_M_Ok (fun done _ stx =>
    sound data stx
    /\ st_drawn stx
       = st_drawn st
         + length done * (2 * TOURNAMENT_SELECTION_SIZE_EVENTS + 3 * length (data_events data))))
    in Hchildren.
  - destruct Hchildren as [_ Hd]. by rewrite length_seq in Hd.
  - split; [done|]. cbn. lia.
  - intros done rdone x rest stx r sty _ [Hx Hd] Hstep.
    unfold _crossoverPopulation_child in Hstep.
    inv_step Hstep as t1 st2 Ht1. inv_step Hstep as t2 st3 Ht2.
    inv_step Hstep as c st4 Hc. injection Hstep as _ <-.
    pose proof (_selectTournamentPopulation_sound _ _ _ _ _ Ht1 Hx) as Hx2.
    pose proof (_selectTournamentPopulation_sound _ _ _ _ _ Ht2 Hx2) as Hx3.
    split; [by eapply _crossoverSchedule_sound|].
    apply _selectTournamentPopulation_draws in Ht1, Ht2.
    apply (_crossoverSchedule_draws data) in Hc; [|done].
    rewrite length_app. cbn [length]. lia.
Qed.

Lemma _mutatePopulation_draws data population st pop' st' :
  _mutatePopulation population st = Ok pop' st' -> sound data st ->
  st_drawn st'
  = st_drawn st + (POPULATION_SIZE - NUMB_OF_ELITE_EVENTS) * (3 * length (data_events data)).
Proof.
  intros H Hsound. unfold _mutatePopulation in H. inv_step H as u st1 Hloop.
  injection H as _ <-. destruct u.
  apply (for_each_Ok (fun done stx =>
    sound data stx
    /\ st_drawn stx = st_drawn st + length done * (3 * length (data_events data))))
    in Hloop.
  - destruct Hloop as [_ Hd]. by rewrite length_seq in Hd.
  - split; [done|]. cbn. lia.
  - intros done i rest stx sty _ [Hx Hd] Hstep.
    inv_step Hstep as r stz Hm. injection Hstep as <-.
    split; [by eapply _mutateSchedule_sound|].
    apply (_mutateSchedule_draws data) in Hm; [|done].
    rewrite length_app. cbn [length]. lia.
Qed.

Lemma next_generation_draws data population st pop' st' :
  next_generation population st = Ok pop' st' -> sound data st ->
  st_drawn st' = st_drawn st + 180 + 108 * length (data_events data).
Proof.
  intros H Hsound. unfold next_generation in H. inv_step H as p st1 Hevolve.
  unfold sort_population in H. inv_step H as l st2 Hsort. injection H as _ <-.
  apply sort_by_fitness_draws in Hsort. unfold evolve in Hevolve.
  inv_step Hevolve as cp st3 Hcross.
  pose proof (_crossoverPopulation_sound _ _ _ _ _ Hcross Hsound) as Hsound3.
  apply (_crossoverPopulation_draws data) in Hcross; [|done].
  apply (_mutatePopulation_draws data) in Hevolve; [|done].
  unfold POPULATION_SIZE, NUMB_OF_ELITE_EVENTS, TOURNAMENT_SELECTION_SIZE_EVENTS in *. lia.
Qed.

Lemma PopulationEvents_new_draws size data st pop st' :
  PopulationEvents_new size data st = Ok pop st' -> random_ok st ->
  st_drawn st' = st_drawn st + size * (2 * length (data_events data)).
Proof.
  intros H Hok. unfold PopulationEvents_new in H. inv_step H as l st1 Hl.
  injection H as _ <-.
  apply (map_M_Ok (fun done _ stx =>
    st_random stx = st_random st
    /\ st_drawn stx = st_drawn st + length done * (2 * length (data_events data)))) in Hl.
  - destruct Hl as [_ Hd]. by rewrite length_seq in Hd.
  - split; [done|]. cbn. lia.
  - intros done rdone x rest stx r sty _ [Hr Hd] Hstep.
    destruct (fresh_schedule_assigned _ _ _ _ Hstep)
      as (evs & _ & Hlen & _ & _ & _ & _ & _ & Hrand & Hdrawn & _).
    { intros n. rewrite Hr. apply Hok. }
    split; [congruence|]. rewrite length_app. cbn [length]. lia.
Qed.

Lemma generation_draws N n names s e random pop st :
  (forall i, (0 <= random i)%Q /\ (random i < 1)%Q) ->
  generation N n names s e (empty_state random) = Ok pop st ->
  st_drawn st
  = 40 * length (retained_names names) + N * (180 + 108 * length (retained_names names)).
Proof.
  intros Hok. revert pop st. induction N as [|N IH]; intros pop st H.
  - cbn in H. unfold first_generation in H.
    inv_step H as data st0 Hdata. inv_step H as p st1 Hpop.
    unfold sort_population in H. inv_step H as l st2 Hsort. injection H as _ <-.
    apply sort_by_fitness_draws in Hsort.
    destruct (decide (1 <= n /\ e < s)%Z) as [Hbad|Hgood].
    { by rewrite Data_new_throw in Hdata. }
    destruct (Data_new_run n names s e (empty_state random) Hgood)
      as (data' & st0' & Hrun & _ & _ & Hevents & _ & _ & _ & _ & _ & Hrand & Hdrawn).
    rewrite Hdata in Hrun. injection Hrun as <- <-.
    apply PopulationEvents_new_draws in Hpop; [|intros i; rewrite Hrand; apply Hok].
    rewrite Hevents, length_imap in Hpop. cbn in Hdrawn.
    unfold POPULATION_SIZE in Hpop. lia.
  - pose proof H as H'. cbn in H. inv_step H as p st1 Hgen.
    destruct (generation_sound _ _ _ _ _ _ _ _ Hok Hgen) as (data & st0 & Hdata & Hsound).
    apply (next_generation_draws data) in H; [|done].
    destruct (decide (1 <= n /\ e < s)%Z) as [Hbad|Hgood].
    { by rewrite Data_new_throw in Hdata. }
    destruct (Data_new_run n names s e (empty_state random) Hgood)
      as (data' & st0' & Hrun & _ & _ & Hevents & _).
    rewrite Hdata in Hrun. injection Hrun as <- <-.
    rewrite Hevents, length_imap in H. rewrite (IH _ _ Hgen) in H. lia.
Qed.

(** X20. A search consumes a fixed number of random numbers per
    generation: for [n] events, 40 n for the first population (two per
    event and schedule) and 180 + 108 n for every generation after it
    (in each of the eighteen rounds ten for the two tournaments and
    three per event for the crossover, then three per event for each of
    the eighteen mutations); sorting and reading the fitness draw
    none. So the number drawn when the search returns is determined by
    the number of events and the number of generations alone. *)
Theorem search_draws_per_generation n names s e random r st' :
  (forall i, (0 <= random i)%Q /\ (random i < 1)%Q) ->
  best_schedule n names s e (empty_state random) = Ok r st' ->
  st_drawn st'
  = 40 * length (retained_names names)
    + generationNumber r * (180 + 108 * length (retained_names names)).
Proof.
  intros Hok Hrun.
  destruct (best_schedule_Ok _ _ _ _ _ _ _ Hrun) as (_ & Hgen & _).
  by apply (generation_draws _ _ _ _ _ _ _ _ Hok Hgen).
Qed.

Lemma search_draws_per_generation_witness :
  exists r st',
    best_schedule 1 ["Event 1"] 540 600 (empty_state (fun _ => 0%Q)) = Ok r st'
    /\ st_drawn st' = 40.
Proof.
  eassert (Hrun : best_schedule 1 ["Event 1"] 540 600 (empty_state (fun _ => 0%Q)) = Ok _ _)
    by (vm_compute; reflexivity).
  eexists _, _. split; [exact Hrun|].
  rewrite (search_draws_per_generation _ _ _ _ _ _ _
             (fun n => conj (Qle_refl 0) (eq_refl : (0 < 1)%Q)) Hrun).
  reflexivity.
Defined.
